(* ===== verification/_CoqProject ===== *)
-Q . S2P
Prelude.v
Bytes.v
Pixels.v
Text.v
Frames.v
RelayTransport.v
Relay.v
DisplayRecord.v
TileStream.v
TileDecode.v
TileMerge.v
ExactMap.v
Atlas.v
ViewportCpu.v
CpuDisplay.v
Transmit.v
DisplayDelta.v
WindowsScreen.v
WindowsViewer.v
Refresh.v
Capture.v
ApplianceConfig.v
ApplianceEnvironment.v
ApplianceCli.v
Appliance.v
ApplianceLogic.v
ApplianceSafety.v
ApplianceRecovery.v
ApplianceResume.v
ApplianceTypes.v
ApplianceData.v
ApplianceRedact.v
Json.v
Remediation.v
RemediationLife.v
RemediationHistory.v
RemediationReports.v
PatchText.v
PatchPlan.v
PatchAuthority.v
PatchDecision.v
PatchCompliance.v
Machine.v
Update.v
Services.v
Apply.v
Supervisor.v
UpdateSafety.v
UpdateInstall.v
