(* ===== verification/Prelude.v ===== *)
(** * Talos: verification of the remote desktop path, the server's launcher, its remote jobs
    and the updates of its agents

    Talos manages machines remotely.  This development verifies the path on which a
    managed desktop reaches the technician's screen, the relay and the framings
    that the path shares with the rest of the program, the launcher that installs,
    updates, backs up and restores a self-hosted Talos server, the jobs by which the
    server has agents repair their machines, the plans by which it has them patched, and
    the supervisor that updates the programs on the managed machine.

    ** The parts and how they work together

    On the managed machine a helper process captures the desktop with its dirty
    rectangles, merges and packs the rectangles into an atlas texture, and lets
    shaders on the graphics card encode the tiles of the atlas as a stream of commands
    (the ATX2 format).  It sends each frame as display records: frame begin, moved
    rectangles, the atlas commands in one record or in chunks, frame end.  The records
    travel through framed streams and, when the peers cannot reach each other, through
    a relay that pairs two connections of the same session and copies bytes between
    them; over the relay the peers encrypt end to end.  The viewer decodes records and
    commands and composes the picture.

    The server is run by Docker Compose under a launcher, talos_appliance.  A command of the
    launcher reads its request and the recorded configuration, secrets and journal,
    changes files, database and services step by step, and records its progress in the
    journal, so that the next command can go on after a failure or an interruption.

    The server's web backend keeps remediation jobs in a database.  A command is projected
    into a job with steps, an agent claims the jobs that wait for it, runs the steps and
    reports on them, and the job is over when each of its steps is.  For patches the backend
    decides what to do: it resolves the policy of a device, and from the policy, the
    overrides of technicians and the updates of the device it makes a plan of actions.

    On a managed machine a supervisor keeps the worker's service running and the programs up to
    date.  It asks an update server for a signed manifest, checks it, downloads the package it
    names and checks that, and applies the package: the worker's itself, its own through a
    copy of itself that outlives its service.  A package is extracted into a staging
    directory, the service is stopped, and the installed files are replaced one by one.

    ** Files

    - [Prelude]: outcomes, methods, machine integers and the tactics of the
      development.
    - [Bytes], [Pixels], [Text]: lemmas on byte strings, pixel buffers and the strings
      of the standard library.
    - [Frames]: the framed control, shell, chat and file-transfer messages of
      talos_protocol/src/lib.rs and the readers of talos_worker/src/shell.rs and
      chat.rs, with the interface [FrameCodec].
    - [RelayTransport]: talos_protocol/src/relay_transport.rs, over the interface
      [Aead] of an authenticated cipher.
    - [Relay]: talos_relay/src/main.rs: the map of waiting connections, the clean-up,
      the frame probe, and the copy loop as a step relation.
    - [DisplayRecord]: the display records of talos_protocol/src/lib.rs.
    - [TileStream], [TileDecode], [TileMerge]: talos_worker_helper/src/tile_commands.rs:
      the stream format, the pixels a stream stands for, and the merging of solid
      tiles.
    - [ExactMap]: the state the tile encoder of the same file keeps between frames
      (Module [Encoder]).
    - [Atlas]: talos_worker_helper/src/atlas.rs, from dirty rectangles to tiles
      (Module [Atlas]).
    - [ViewportCpu], [CpuDisplay]: talos_viewer/src-tauri/src/viewport_cpu.rs: the
      decoder and the compositor (Modules [Cpu] and [Compositor]), and what the
      compositor promises.
    - [Transmit]: talos_worker_helper/src/experimental_stream.rs, the records of a
      frame (Module [Sender]), and what the viewer shows after them.
    - [DisplayDelta]: talos_viewer/src-tauri/src/display_delta.rs, the compositor of the
      viewer on Windows (Module [Delta]): the picture in memory and the frames queued
      for the graphics card.
    - [WindowsScreen], [WindowsViewer]: that compositor against the abstract screen of
      [CpuDisplay], and on the frames that [Transmit] sends.
    - [Refresh]: the test for a full refresh of experimental_stream.rs.
    - [Capture]: the composition of [Atlas], [Transmit] and [CpuDisplay].
    - [ApplianceConfig]: config.rs and network.rs of talos_appliance/src (Modules [Config]
      and [Network]); [ApplianceEnvironment]: the environment file that compose.rs
      writes; [ApplianceCli]: cli.rs.
    - [Appliance]: the journal of state.rs (Module [Journal]), the backups of backup.rs
      (Module [Backup]) and the operations of orchestrator.rs, quickstart.rs, images.rs,
      compose.rs and diagnostics.rs (Module [Launcher]).  The state is a [Core]: the files,
      the backups, the services and the schema of the database.  Every step that reaches
      outside the process takes a [Fate] from the input: it succeeds, fails, or is the
      last one of the process, with or without its effect.
    - [ApplianceLogic]: a logic for such operations, with one postcondition for each way
      to end; [ApplianceSafety], [ApplianceRecovery], [ApplianceResume],
      [ApplianceTypes] and [ApplianceData]: what it proves of the commands.
    - [ApplianceRedact]: redaction.rs (Module [Redaction]).
    - [Json]: the JSON values of the backend and what its code does with them.
    - [Remediation]: lib/remediationStatusTransitions.ts, lib/remediationDispatch.ts and the
      routes of routes/remediationDispatch.routes.ts and routes/rmmTelemetry.routes.ts of
      api_backend that write jobs and steps (Module [Remediation]); the state is a
      [Database] of jobs with their steps, a route a function on it.
    - [RemediationLife], [RemediationHistory], [RemediationReports]: one job under one report,
      the database under any sequence of requests, and reports in particular.
    - [PatchText]: regular expressions as JavaScript runs them, and the classification of
      updates; [PatchPlan]: lib/patchDecisionEngine.ts (Module [Plan]);
      [PatchCompliance]: lib/patchManagement.ts (Module [Compliance]).
    - [PatchAuthority], [PatchDecision]: what a plan may contain.
    - [Machine]: the machine of the supervisor: a tree of files whose operations can fail,
      done in part (Module [Fs]), and what servers and commands answer (Module [Machine]).
    - [Update]: talos_update_common/src/lib.rs (Module [Update]), over the interface [Crates]
      of the libraries it calls.
    - [Services]: service_manager.rs of talos_supervisor/src: the trait as the class
      [ServiceManager], its implementation with systemd, and the laws the supervisor relies
      on with their proof for systemd (Module [ServiceFacts]).
    - [Apply], [Supervisor]: main.rs and supervisor.rs of talos_supervisor/src, as they are
      built for Linux.
    - [UpdateSafety], [UpdateInstall]: what may be installed, and how files are replaced.

    A struct of the source is a record with its field names, an enum an inductive
    type, a function a definition with its name.  A loop is a fold, a fixpoint on its
    list, or a fixpoint with fuel; a method with [&mut self] is a [method], a function
    from the state to the new state and the outcome.

    ** What the theorems show

    - End to end: [Capture.captured_frame_shown] composes capture, packing, records
      and compositor: if the encoder on the card is lossless (class [Encoder]), the
      viewer ends up with the captured frame, pixel by pixel.
    - Wire formats: parsers accept exactly what the builders produce
      ([DisplayRecord.display_record_exact], [Frames.control_frame_exact]
      and the chat and file-transfer frames); streams are read back as they were written
      ([TileStream.tile_stream_roundtrip], [Frames.shell_stream_roundtrip],
      [RelayTransport.e2e_session_roundtrip], [Relay.relay_handshake]); no bytes of a
      peer make them panic or loop ([TileDecode.reconstruct_safe] and the lemmas
      [frame_parsers_safe], [display_record_safe] and [tile_stream_parse_safe]).
    - Pictures: merging and chunking preserve what is shown
      ([TileMerge.merge_preserves_picture], [TileStream.wire_chunks_partition],
      [Transmit.chunks_show_whole_frame]); the two decoders of the program agree
      ([ViewportCpu.viewer_decodes_like_helper]).
    - The compositor: its invariant, its safety, and the refinement of an abstract
      screen ([CpuDisplay]).  The compositor on Windows: its picture refines the same
      screen ([WindowsScreen.windows_picture_refines_screen]), and what waits for the
      card is bounded ([DisplayDelta.viewer_queue_bounded]).
    - The capture side: merging of rectangles, packing, and that a frame within the
      limits is never refused ([Atlas]); the map of exact cells after any sequence of
      calls ([ExactMap.exact_map_sound]); the test for a full refresh
      ([Refresh.full_refresh_test]).
    - The relay: pairing and copying in every interleaving ([Relay]).
    - The launcher, through every sequence of commands, failures and interruptions: the
      services only meet a database of their own version
      ([ApplianceSafety.services_meet_own_schema]); every journal it wrote loads
      ([ApplianceTypes.written_journal_loads]); nothing is lost without an explicit and
      confirmed removal ([ApplianceData.data_survives]); an interrupted update goes on
      ([ApplianceResume.interrupted_update_recovers]), but three interruptions leave an
      installation that no command leads out of ([ApplianceRecovery.stranded_for_good]).
      What it writes and prints: the environment file reads back
      ([ApplianceEnvironment.environment_reads_back]), Docker's addresses avoid the proxy
      ([ApplianceConfig.dynamic_range_avoids_proxy]), and generated secrets are not
      printed ([ApplianceRedact.generated_secrets_redacted]).
    - Remediation jobs, through every sequence of requests: an outcome is final
      ([RemediationHistory.outcomes_are_final]), a command is delivered at most once
      ([RemediationHistory.delivered_once]), a report reaches only the job of its agent and
      may come again ([RemediationReports.report_scope],
      [RemediationReports.repeated_report]), and evidence of all steps settles the job
      ([RemediationReports.evidence_settles_job]).
    - Patches: a plan installs exactly what policy and overrides authorize
      ([PatchDecision.installs_what_is_authorized]), one version of macOS at a time
      ([PatchDecision.one_macos_version]), reboots on request or in its window
      ([PatchDecision.reboots_only_in_window]), and is made whenever its dates can be
      printed ([PatchDecision.plan_is_made]); the policy of a device is the best one that
      applies ([PatchCompliance.policy_resolution]).
    - Updates, whatever the server, the disk and the services do: only members of packages
      that a signed manifest authorizes get into the worker's installation
      ([UpdateSafety.only_authorized_files]) or are handed to the helper
      ([UpdateSafety.helper_gets_authorized_package]), and a file is not lost while it is
      replaced ([UpdateInstall.installed_or_kept]).
    - Where the code does not do what it should, a theorem exhibits it:
      [CpuDisplay.huge_frame_panics], [ViewportCpu.solid_payload_divergence],
      [RelayTransport.e2e_directions_share_nonces],
      [RelayTransport.e2e_oversized_frame_refused],
      [Transmit.overlapping_changes_depend_on_chunks], the second half of
      [Refresh.full_refresh_test], [DisplayDelta.wrapping_move_panics],
      [WindowsViewer.helper_moves_never_reach_card],
      [ApplianceRecovery.stranded_for_good], the second half of
      [ApplianceRedact.database_urls_redacted],
      [RemediationReports.stale_patch_job_runs_again],
      [RemediationReports.repeated_projection_reopens],
      [PatchDecision.single_update_override_reboots], the second half of
      [PatchDecision.reboots_only_in_window],
      [UpdateInstall.interrupted_self_update_is_promoted],
      [UpdateInstall.failed_apply_leaves_service_stopped] and
      [UpdateInstall.jitter_secs_panics].

    ** Numbers, bounds and fuel

    Machine integers are [Z] with wrapping, checking or saturation written out as in
    the source; the builds modelled are release builds, in which plain arithmetic
    wraps.  [usize] has 64 bits.  A loop whose bound is in the data gets as fuel the
    length of its input plus one (each turn consumes at least one byte or one element)
    or, for the splitting of rectangles, the number of pieces plus two; the loop that
    empties the viewer's queue gets the number of its frames plus one, the loop that
    replaces database addresses the length of its text plus one (each turn removes a
    colon), a repetition in a regular expression the length of the rest of the text (each turn
    takes at least one character), the wait for a service one turn for each second until its
    deadline plus one, and printing a 64-bit number its 20 digits.  Running out is
    the outcome [Fuel], and the theorems about results show that it does not occur.

    ** What is not modelled

    The shaders, Direct3D, the video decoder, the window, the cipher, TLS, zstd, the hash of
    backup files and the URL parser are parameters with the properties the code relies
    on.  Pipes and sockets are byte lists; the pipe to the worker takes everything.  JSON
    files are the values they stand for.  Logging, timing and statistics are left out,
    and with them the fields that only they read.  Of the launcher's files the
    certificates, the embedded assets and the diagnostic reports have no contents, and
    symbolic links and access rights are left out; a file is written as a whole, as
    [atomic_write] promises.  In the backend a transaction is one step, Number() and the
    text of a number are parameters, as are Unicode lower case, the parsing and printing of
    dates, time zones and collation, and the table rmm_patch_action is left out.  Of the
    supervisor the builds for Windows and macOS, symbolic links and a shutdown in the middle
    of an update are left out; versions, signatures, digests and archives are calls of
    libraries and are parameters with the documented properties that are used.  The
    operating-system side of the agents, the rest of the web backend, the frontend and the
    video codecs are outside the development. *)

(** ** Contents of this file

    The outcome monad in which fallible Rust code is written, byte strings with the
    slice operations of the Rust standard library, machine integers at their width,
    and the automation the component files use. *)

From stdpp Require Export prelude list list_numbers gmap strings.
From Stdlib Require Export Lia ZifyBool.

#[global] Open Scope Z_scope.

(** ** Outcomes

    A Rust function returns a value, returns an error value, or panics (an index
    out of range, an arithmetic overflow where overflow is an error, an
    [unwrap] of [None]).  [Fuel] is the outcome of a loop of the model whose
    bound was too small; no theorem about a result holds of it. *)

Inductive res (E A : Type) : Type :=
| Ok (a : A)
| Err (e : E)
| Panic
| Fuel.
Arguments Ok {E A} _.
Arguments Err {E A} _.
Arguments Panic {E A}.
Arguments Fuel {E A}.

#[export] Instance res_ret {E} : MRet (res E) := fun _ a => Ok a.
#[export] Instance res_bind {E} : MBind (res E) := fun _ _ k m =>
  match m with
  | Ok a => k a
  | Err e => Err e
  | Panic => Panic
  | Fuel => Fuel
  end.

(** [anyhow::ensure!(b, e)] and the early return [if !b { return Err(e) }]. *)
Definition ensure {E} (b : bool) (e : E) : res E unit :=
  if b then Ok tt else Err e.

(** [o.ok_or(e)?], [o.context(e)?]. *)
Definition ok_or {E A} (o : option A) (e : E) : res E A :=
  match o with Some a => Ok a | None => Err e end.

(** An operation that panics when it has no result (indexing, [unwrap]). *)
Definition or_panic {E A} (o : option A) : res E A :=
  match o with Some a => Ok a | None => Panic end.

(** [r.map_err(f)?] *)
Definition map_err {E F A} (f : E -> F) (r : res E A) : res F A :=
  match r with
  | Ok a => Ok a
  | Err e => Err (f e)
  | Panic => Panic
  | Fuel => Fuel
  end.

(** A [for] loop over a sequence whose body may return early. *)
Fixpoint foldM {E S A} (f : S -> A -> res E S) (s : S) (l : list A) : res E S :=
  match l with
  | [] => Ok s
  | a :: l => s' ← f s a; foldM f s' l
  end.

(** A method that changes [self] and may fail.  What it changed before it failed
    stays changed; after a panic the process is gone. *)
Definition method (S E A : Type) : Type := S -> S * res E A.

#[export] Instance method_ret {S E} : MRet (method S E) := fun _ a s => (s, Ok a).
#[export] Instance method_bind {S E} : MBind (method S E) := fun _ _ k m s =>
  match m s with
  | (s', Ok a) => k a s'
  | (s', Err e) => (s', Err e)
  | (s', Panic) => (s', Panic)
  | (s', Fuel) => (s', Fuel)
  end.

(** Read and write [self], and run code that does not touch it. *)
Definition get {S E} : method S E S := fun s => (s, Ok s).
Definition put {S E} (s' : S) : method S E unit := fun _ => (s', Ok tt).
Definition lift {S E A} (r : res E A) : method S E A := fun s => (s, r).

(** A [for] loop over a sequence whose body is a method. *)
Fixpoint for_each {S E A} (f : A -> method S E unit) (l : list A) : method S E unit :=
  match l with
  | [] => mret tt
  | a :: l => _ ← f a; for_each f l
  end.

(** The outcome is one the Rust caller can observe without a panic. *)
Definition safe {E A} (r : res E A) : Prop :=
  match r with Ok _ | Err _ => True | Panic | Fuel => False end.

(** Two computations with different error types have the same outcome. *)
Definition same_outcome {E F A} (r : res E A) (s : res F A) : Prop :=
  match r, s with
  | Ok a, Ok b => a = b
  | Err _, Err _ | Panic, Panic | Fuel, Fuel => True
  | _, _ => False
  end.

(** ** Machine integers

    Unsigned integers are elements of [Z]; the operations of the standard
    library that depend on the width take the largest value of the type. *)

Definition u8_max : Z := 255.
Definition u16_max : Z := 65535.
Definition u32_max : Z := 4294967295.
Definition u64_max : Z := 18446744073709551615.
Definition usize_max : Z := u64_max.
Definition isize_max : Z := 9223372036854775807.

Definition is_u8 (x : Z) : Prop := 0 <= x <= u8_max.
Definition is_u16 (x : Z) : Prop := 0 <= x <= u16_max.
Definition is_u32 (x : Z) : Prop := 0 <= x <= u32_max.
Definition is_u64 (x : Z) : Prop := 0 <= x <= u64_max.

Definition checked_add (max x y : Z) : option Z :=
  if x + y <=? max then Some (x + y) else None.
Definition checked_mul (max x y : Z) : option Z :=
  if x * y <=? max then Some (x * y) else None.
Definition saturating_add (max x y : Z) : Z := Z.min max (x + y).
Definition saturating_mul (max x y : Z) : Z := Z.min max (x * y).
Definition saturating_sub (x y : Z) : Z := Z.max 0 (x - y).
Definition div_ceil (x y : Z) : Z :=
  if x mod y =? 0 then x / y else x / y + 1.

(** [x as u16], [x as u32] *)
Definition as_u16 (x : Z) : Z := x mod 65536.
Definition as_u32 (x : Z) : Z := x mod 4294967296.

(** Arithmetic on [usize] without overflow checks, as release builds do it. *)
Definition wrap_usize (x : Z) : Z := x mod 18446744073709551616.
Definition wrap_u32 (x : Z) : Z := x mod 4294967296.
Definition wrap_u64 (x : Z) : Z := x mod 18446744073709551616.

(** Errors of [anyhow] are identified by their message, without its arguments. *)
Definition anyhow : Type := string.

(** ** Byte strings *)

Definition bytes_ok (l : list Z) : Prop := Forall is_u8 l.

Definition len {A} (l : list A) : Z := Z.of_nat (length l).

(** [l.get(a..b)]; [&l[a..b]] is [or_panic] of it. *)
Definition slice {A} (l : list A) (a b : Z) : option (list A) :=
  if (0 <=? a) && (a <=? b) && (b <=? len l)
  then Some (take (Z.to_nat (b - a)) (drop (Z.to_nat a) l))
  else None.

(** [l.get(i)]; [l[i]] is [or_panic] of it. *)
Definition at_index {A} (l : list A) (i : Z) : option A :=
  if 0 <=? i then l !! Z.to_nat i else None.

(** [dst[off..off + src.len()].copy_from_slice(src)] *)
Definition copy_at {A} (dst : list A) (off : Z) (src : list A) : option (list A) :=
  if (0 <=? off) && (off + len src <=? len dst)
  then Some (take (Z.to_nat off) dst ++ src ++ drop (Z.to_nat (off + len src)) dst)
  else None.

(** [s.try_into()] at an array type of [n] bytes. *)
Definition try_into_array {A} (n : Z) (s : list A) : option (list A) :=
  if len s =? n then Some s else None.

(** [vec![0u8; n]]: the allocator refuses more than [isize::MAX] bytes with a
    panic (running out of memory below that bound is not modelled). *)
Definition zeros (n : Z) : list Z := replicate (Z.to_nat n) 0.
Definition vec_zeroed {E} (n : Z) : res E (list Z) :=
  if n <=? isize_max then Ok (zeros n) else Panic.

(** [to_le_bytes], [from_le_bytes], [to_be_bytes], [from_be_bytes] at a width of
    [n] bytes. *)
Definition le_bytes (n : Z) (x : Z) : list Z := Z_to_little_endian n 8 x.
Definition le_val (l : list Z) : Z := little_endian_to_Z 8 l.
Definition be_bytes (n : Z) (x : Z) : list Z := reverse (le_bytes n x).
Definition be_val (l : list Z) : Z := le_val (reverse l).

Arguments len : simpl never.
Arguments slice : simpl never.
Arguments at_index : simpl never.
Arguments copy_at : simpl never.
Arguments zeros : simpl never.
Arguments le_bytes : simpl never.
Arguments le_val : simpl never.
Arguments be_bytes : simpl never.
Arguments be_val : simpl never.
Arguments as_u16 : simpl never.
Arguments as_u32 : simpl never.
Arguments checked_add : simpl never.
Arguments checked_mul : simpl never.
Arguments div_ceil : simpl never.
Arguments wrap_usize : simpl never.
Arguments wrap_u32 : simpl never.
Arguments wrap_u64 : simpl never.

Lemma wrap_u32_small v : 0 <= v <= u32_max -> wrap_u32 v = v.
Proof. intros. unfold wrap_u32, u32_max in *. apply Z.mod_small. lia. Qed.

Lemma wrap_usize_small v : 0 <= v <= usize_max -> wrap_usize v = v.
Proof. intros. unfold wrap_usize, usize_max, u64_max in *. apply Z.mod_small. lia. Qed.


(** ** Automation *)

Create HintDb talos.

(** Case analysis on the boolean comparisons of a model. *)
Ltac zify_bool :=
  repeat match goal with
  | H : context [?a <=? ?b] |- _ => destruct (Z.leb_spec a b)
  | H : context [?a <? ?b] |- _ => destruct (Z.ltb_spec a b)
  | H : context [?a =? ?b] |- _ => destruct (Z.eqb_spec a b)
  | |- context [?a <=? ?b] => destruct (Z.leb_spec a b)
  | |- context [?a <? ?b] => destruct (Z.ltb_spec a b)
  | |- context [?a =? ?b] => destruct (Z.eqb_spec a b)
  end; cbn [andb orb negb] in *.

(** The same, on the comparisons of one hypothesis. *)
Ltac zify_in H :=
  repeat match type of H with
  | context [?a <=? ?b] => destruct (Z.leb_spec a b)
  | context [?a <? ?b] => destruct (Z.ltb_spec a b)
  | context [?a =? ?b] => destruct (Z.eqb_spec a b)
  end; cbn [andb orb negb] in H.

(** The same, on the first comparison of the goal. *)
Ltac zify_goal :=
  match goal with
  | |- context [?a <=? ?b] => destruct (Z.leb_spec a b)
  | |- context [?a <? ?b] => destruct (Z.ltb_spec a b)
  | |- context [?a =? ?b] => destruct (Z.eqb_spec a b)
  end; cbn [andb orb negb].

(** Add up numerals. *)
Ltac z_norm :=
  repeat match goal with
  | |- context [Z.add ?x ?y] =>
      match x with Z0 => idtac | Zpos _ => idtac end;
      match y with Z0 => idtac | Zpos _ => idtac end;
      let r := eval vm_compute in (Z.add x y) in change (Z.add x y) with r
  end.

(** ** Outcome lemmas *)

Section outcome.
Context {E A B : Type}.

Lemma Ok_inj (a b : A) : Ok (E:=E) a = Ok b -> a = b.
Proof. congruence. Qed.

Lemma res_bind_assoc {C} (r : res E A) (k : A -> res E B) (g : B -> res E C) :
  (r ≫= k) ≫= g = r ≫= fun a => k a ≫= g.
Proof. by destruct r. Qed.

Lemma bind_ext (m : res E A) (k k' : A -> res E B) :
  (forall a, m = Ok a -> k a = k' a) -> m ≫= k = m ≫= k'.
Proof. intros Hk. destruct m; cbn; auto. Qed.

Lemma bind_Ok (a : A) (k : A -> res E B) : (Ok a ≫= k) = k a.
Proof. reflexivity. Qed.

Lemma bind_ok_inv (m : res E A) (k : A -> res E B) b :
  m ≫= k = Ok b -> exists a, m = Ok a /\ k a = Ok b.
Proof. destruct m; cbn; try discriminate. eauto. Qed.

Lemma bind_safe (m : res E A) (k : A -> res E B) :
  safe m -> (forall a, m = Ok a -> safe (k a)) -> safe (m ≫= k).
Proof. destruct m; cbn; auto. Qed.

Lemma ensure_ok_inv (b : bool) (e : E) u : ensure b e = Ok u -> b = true.
Proof. destruct b; cbn; congruence. Qed.

Lemma ensure_safe (b : bool) (e : E) : safe (ensure b e).
Proof. by destruct b. Qed.

Lemma ok_or_ok_inv (o : option A) (e : E) a : ok_or o e = Ok a -> o = Some a.
Proof. destruct o; cbn; congruence. Qed.

Lemma ok_or_safe (o : option A) (e : E) : safe (ok_or o e).
Proof. by destruct o. Qed.

Lemma or_panic_ok_inv (o : option A) a : or_panic (E:=E) o = Ok a -> o = Some a.
Proof. destruct o; cbn; congruence. Qed.

Lemma or_panic_safe (o : option A) : is_Some o -> safe (or_panic (E:=E) o).
Proof. by intros [? ->]. Qed.

Lemma map_err_safe {F} (f : E -> F) (r : res E A) : safe r -> safe (map_err f r).
Proof. by destruct r. Qed.

Lemma map_err_ok_inv {F} (f : E -> F) (r : res E A) a : map_err f r = Ok a -> r = Ok a.
Proof. destruct r; cbn; congruence. Qed.
End outcome.

#[export] Hint Resolve ensure_safe ok_or_safe map_err_safe : talos.

(** Invert every bind, [ensure], [ok_or] and [or_panic] that is known to have
    returned a value. *)
Ltac res_step :=
  match goal with
  | H : (_ ≫= _) = Ok _ |- _ =>
      let x := fresh "x" in let H1 := fresh "Hb" in let H2 := fresh "Hk" in
      apply bind_ok_inv in H as (x & H1 & H2); cbn beta in H2
  | H : ensure _ _ = Ok _ |- _ => apply ensure_ok_inv in H
  | H : ok_or _ _ = Ok _ |- _ => apply ok_or_ok_inv in H
  | H : or_panic _ = Ok _ |- _ => apply or_panic_ok_inv in H
  | H : map_err _ _ = Ok _ |- _ => apply map_err_ok_inv in H
  | H : Ok _ = Ok _ |- _ => apply Ok_inj in H
  | H : mret _ = Ok _ |- _ => apply Ok_inj in H
  | H : Err _ = Ok _ |- _ => discriminate H
  | H : Panic = Ok _ |- _ => discriminate H
  | H : Fuel = Ok _ |- _ => discriminate H
  end.
Ltac res_inv := repeat (res_step; subst).

(** The same, together with the guards that did not leave the function; the
    conditions stay boolean equations, which [lia] reads. *)
Ltac guard_step :=
  match goal with
  | H : (if ?b then Err _ else _) = Ok _ |- _ =>
      let Hg := fresh "Hg" in destruct b eqn:Hg; [discriminate H|]
  | H : (if ?b then Panic else _) = Ok _ |- _ =>
      let Hg := fresh "Hg" in destruct b eqn:Hg; [discriminate H|]
  | H : (if ?b then _ else Err _) = Ok _ |- _ =>
      let Hg := fresh "Hg" in destruct b eqn:Hg; [|discriminate H]
  | H : (if ?b then _ else Panic) = Ok _ |- _ =>
      let Hg := fresh "Hg" in destruct b eqn:Hg; [|discriminate H]
  end.
Ltac run_inv := repeat ((res_step || guard_step); subst; cbv zeta in * ).

(** Reduce the safety of a sequence of binds to the safety of its parts. *)
Ltac safe_step :=
  match goal with
  | |- safe (_ ≫= _) => apply bind_safe; [ | intros ? ?]
  | |- safe (Ok _) => exact I
  | |- safe (mret _) => exact I
  | |- safe (Err _) => exact I
  | |- safe (ensure _ _) => apply ensure_safe
  | |- safe (ok_or _ _) => apply ok_or_safe
  | |- safe (map_err _ _) => apply map_err_safe
  | |- safe (if ?b then _ else _) => let H := fresh "Hif" in destruct b eqn:H
  end.

Section folds.
Context {E S A : Type}.
Implicit Types (f : S -> A -> res E S) (l : list A).

Lemma foldM_app f s l1 l2 :
  foldM f s (l1 ++ l2) = foldM f s l1 ≫= fun s' => foldM f s' l2.
Proof.
  revert s; induction l1 as [|a l1 IH]; intros s; cbn; [done|].
  by destruct (f s a); cbn.
Qed.

(** A loop invariant carried through a [for] loop that returns. *)
Lemma foldM_inv (I : S -> Prop) f s l s' :
  (forall s a s', a ∈ l -> I s -> f s a = Ok s' -> I s') ->
  I s -> foldM f s l = Ok s' -> I s'.
Proof.
  revert s; induction l as [|a l IH]; intros s Hstep Hs; cbn.
  { by intros [= <-]. }
  intros H; res_inv. eapply IH; [| |eassumption].
  - intros; eapply Hstep; eauto. by apply list_elem_of_further.
  - eapply Hstep; eauto. apply list_elem_of_here.
Qed.

(** A loop whose body is safe under an invariant it keeps is safe. *)
Lemma foldM_safe (I : S -> Prop) f s l :
  (forall s a, a ∈ l -> I s -> safe (f s a)) ->
  (forall s a s', a ∈ l -> I s -> f s a = Ok s' -> I s') ->
  I s -> safe (foldM f s l).
Proof.
  revert s; induction l as [|a l IH]; intros s Hsafe Hstep Hs; cbn; [done|].
  apply bind_safe.
  - apply Hsafe; [apply list_elem_of_here|done].
  - intros s' Hs'. apply IH.
    + intros; apply Hsafe; [by apply list_elem_of_further|done].
    + intros; eapply Hstep; eauto. by apply list_elem_of_further.
    + eapply Hstep; eauto. apply list_elem_of_here.
Qed.

(** A loop that returns under an invariant it keeps. *)
Lemma foldM_total (I : S -> Prop) f s l :
  (forall s a, a ∈ l -> I s -> exists s', f s a = Ok s' /\ I s') ->
  I s -> exists s', foldM f s l = Ok s' /\ I s'.
Proof.
  revert s; induction l as [|a l IH]; intros s Hstep Hs; cbn; [eauto|].
  destruct (Hstep s a) as (s1 & -> & Hs1); [apply list_elem_of_here|done|].
  cbn. apply IH; [|done]. intros; apply Hstep; [by apply list_elem_of_further|done].
Qed.

Lemma foldM_ext f g s l :
  (forall s a, a ∈ l -> f s a = g s a) -> foldM f s l = foldM g s l.
Proof.
  revert s; induction l as [|a l IH]; intros s H; cbn; [done|].
  rewrite H by apply list_elem_of_here.
  destruct (g s a); cbn; try done. apply IH.
  intros; apply H. by apply list_elem_of_further.
Qed.
End folds.

(** A counting loop with an invariant that mentions the counter. *)
Lemma foldM_seqZ {E S} (I : Z -> S -> Prop) (f : S -> Z -> res E S) s n :
  0 <= n -> I 0 s ->
  (forall i s, 0 <= i < n -> I i s -> exists s', f s i = Ok s' /\ I (i + 1) s') ->
  exists s', foldM f s (seqZ 0 n) = Ok s' /\ I n s'.
Proof.
  intros Hn H0 Hstep.
  assert (forall k : nat, Z.of_nat k <= n ->
    exists s', foldM f s (seqZ 0 (Z.of_nat k)) = Ok s' /\ I (Z.of_nat k) s') as Hk.
  { induction k as [|k IH]; intros Hk; [eauto|]. destruct IH as (s1 & Hs1 & HI); [lia|].
    destruct (Hstep (Z.of_nat k) s1) as (s2 & Hs2 & HI2); [lia|done|]. exists s2.
    rewrite seqZ_S. replace (Z.of_nat (Datatypes.S k)) with (Z.of_nat k + 1) by lia. split; [|done].
    rewrite foldM_app, Hs1. cbn. change (0 + Z.of_nat k) with (Z.of_nat k). by rewrite Hs2. }
  specialize (Hk (Z.to_nat n)). rewrite Z2Nat.id in Hk by done. by apply Hk.
Qed.

(** ** Same outcome across error types *)

Section same_outcome.
Context {E F : Type}.

Lemma same_outcome_ok {A} (r : res E A) (s : res F A) a :
  same_outcome r s -> r = Ok a -> s = Ok a.
Proof. intros H ->. destruct s; cbn in *; by subst. Qed.

Lemma same_outcome_ok_r {A} (r : res E A) (a : A) : same_outcome r (Ok (E:=F) a) -> r = Ok a.
Proof. destruct r; cbn; intros H; [by subst|done..]. Qed.

Lemma same_outcome_bind {A B} (r : res E A) (s : res F A) (k : A -> res E B) (h : A -> res F B) :
  same_outcome r s -> (forall a, r = Ok a -> same_outcome (k a) (h a)) ->
  same_outcome (r ≫= k) (s ≫= h).
Proof.
  destruct r, s; cbn; try done. intros <- H. by apply H.
Qed.

Lemma same_outcome_ensure (b : bool) (e : E) (e' : F) :
  same_outcome (ensure b e) (ensure b e').
Proof. by destruct b. Qed.

Lemma same_outcome_ok_or {A} (o : option A) (e : E) (e' : F) :
  same_outcome (ok_or o e) (ok_or o e').
Proof. by destruct o. Qed.

Lemma same_outcome_or_panic {A} (o : option A) :
  same_outcome (or_panic (E:=E) o) (or_panic (E:=F) o).
Proof. by destruct o. Qed.

(** An early return against an [ensure!]. *)
Lemma same_outcome_guard {A} (c b : bool) (e : E) (e' : F) (r : res E A) (k : unit -> res F A) :
  c = negb b -> (b = true -> same_outcome r (k tt)) ->
  same_outcome (if c then Err e else r) (ensure b e' ≫= k).
Proof. intros -> H. destruct b; cbn; auto. Qed.

Lemma same_outcome_foldM {S A} (f : S -> A -> res E S) (g : S -> A -> res F S) s l :
  (forall s a, a ∈ l -> same_outcome (f s a) (g s a)) ->
  same_outcome (foldM f s l) (foldM g s l).
Proof.
  revert s; induction l as [|a l IH]; intros s H; cbn; [done|].
  apply same_outcome_bind; [apply H, list_elem_of_here|].
  intros; apply IH; intros; apply H. by apply list_elem_of_further.
Qed.
End same_outcome.

Lemma same_outcome_refl {E A} (r : res E A) : same_outcome r r.
Proof. by destruct r. Qed.

Lemma same_outcome_trans {E F G A} (r : res E A) (s : res F A) (t : res G A) :
  same_outcome r s -> same_outcome s t -> same_outcome r t.
Proof. destruct r, s, t; cbn; congruence || done. Qed.

#[export] Hint Resolve same_outcome_ensure same_outcome_ok_or same_outcome_or_panic : talos.

(** Compare two sequences of binds step by step. *)
Ltac outcome_step :=
  match goal with
  | |- same_outcome (_ ≫= _) (_ ≫= _) => apply same_outcome_bind; [ | intros ? ?]
  | |- same_outcome (ensure _ _) (ensure _ _) => apply same_outcome_ensure
  | |- same_outcome (ok_or _ _) (ok_or _ _) => apply same_outcome_ok_or
  | |- same_outcome (or_panic _) (or_panic _) => apply same_outcome_or_panic
  | |- same_outcome (foldM _ _ _) (foldM _ _ _) => apply same_outcome_foldM; intros ? ? ?
  | |- same_outcome (Ok _) (Ok _) => reflexivity
  | |- same_outcome (Err _) (Err _) => exact I
  | |- same_outcome (if ?b then _ else _) (if ?b then _ else _) => destruct b
  | |- same_outcome (if _ then Err _ else _) (ensure _ _ ≫= _) =>
      apply same_outcome_guard; [lia|intros ?]
  end.

(** ** What a computation ensures when it succeeds *)

Definition ensures {E A} (P : A -> Prop) (r : res E A) : Prop := forall a, r = Ok a -> P a.

Section ensures.
Context {E : Type}.

Lemma ensures_bind {A B} (P : B -> Prop) (r : res E A) (k : A -> res E B) :
  (forall a, r = Ok a -> ensures P (k a)) -> ensures P (r ≫= k).
Proof. destruct r; intros H b Hb; try done. by eapply H. Qed.

Lemma ensures_seq {A B} (P : A -> Prop) (Q : B -> Prop) (r : res E A) (k : A -> res E B) :
  ensures P r -> (forall a, P a -> ensures Q (k a)) -> ensures Q (r ≫= k).
Proof. intros Hr Hk. apply ensures_bind. intros a Ha. by apply Hk, Hr. Qed.

Lemma ensures_ok {A} (P : A -> Prop) a : P a -> ensures (E:=E) P (Ok a).
Proof. intros Ha b Hb. by apply Ok_inj in Hb as <-. Qed.

Lemma ensures_foldM {S A} (P : S -> Prop) (f : S -> A -> res E S) s l :
  P s -> (forall s a, P s -> ensures P (f s a)) -> ensures P (foldM f s l).
Proof. intros Hs Hf s'. apply foldM_inv; [|done]. intros t a t' _ Ht. by apply Hf. Qed.
End ensures.

Ltac ensures_step :=
  match goal with
  | |- ensures _ (_ ≫= _) => apply ensures_bind; intros ? ?
  | |- ensures _ (foldM _ _ _) => apply ensures_foldM; [|intros ? ? ?]
  | |- ensures _ (if ?b then _ else _) => destruct b
  | |- ensures _ (Err _) => intros ? ?; discriminate
  | |- ensures _ Panic => intros ? ?; discriminate
  | |- ensures _ (Ok _) => apply ensures_ok
  | |- ensures _ (let '(_, _) := ?x in _) => destruct x
  end.

(** [post Q X r]: a value that satisfies [Q], an error, or a panic only if [X]. *)
Definition post {E A} (Q : A -> Prop) (X : Prop) (r : res E A) : Prop :=
  match r with Ok a => Q a | Err _ => True | Panic => X | Fuel => False end.

Section post.
Context {E : Type}.

Lemma post_bind {A B} (Q : A -> Prop) (Q' : B -> Prop) X (r : res E A) (k : A -> res E B) :
  post Q X r -> (forall a, Q a -> post Q' X (k a)) -> post Q' X (r ≫= k).
Proof. destruct r; cbn; auto. Qed.

Lemma post_safe {A} (Q : A -> Prop) X (r : res E A) : safe r -> ensures Q r -> post Q X r.
Proof. destruct r; cbn; try done. intros _ H. by apply H. Qed.

Lemma post_bind_safe {A B} (Q : B -> Prop) X (r : res E A) (k : A -> res E B) :
  safe r -> (forall a, r = Ok a -> post Q X (k a)) -> post Q X (r ≫= k).
Proof. destruct r; cbn; try done. intros _ H. by apply H. Qed.

Lemma post_eq {A} (Q : A -> Prop) X (r : res E A) : post Q X r -> post (fun a => Q a /\ r = Ok a) X r.
Proof. by destruct r. Qed.

Lemma post_mono {A} (Q Q' : A -> Prop) X X' (r : res E A) :
  post Q X r -> (forall a, Q a -> Q' a) -> (X -> X') -> post Q' X' r.
Proof. destruct r; cbn; auto. Qed.
End post.

(** ** Weakest preconditions of methods

    [wp m Q R X s]: run from [s], the method returns a value that satisfies [Q],
    fails in a state that satisfies [R], or panics only if [X]; it never runs out
    of fuel. *)

Definition wp {S E A} (m : method S E A) (Q : A -> S -> Prop) (R : S -> Prop) (X : Prop) (s : S)
    : Prop :=
  match m s with
  | (s', Ok a) => Q a s'
  | (s', Err _) => R s'
  | (_, Panic) => X
  | (_, Fuel) => False
  end.

Lemma method_run_bind {S E A B} (m : method S E A) (k : A -> method S E B) s s' a :
  m s = (s', Ok a) -> (m ≫= k) s = k a s'.
Proof. unfold mbind, method_bind. by intros ->. Qed.

Section wp.
Context {S E : Type}.
Implicit Types (R : S -> Prop) (X : Prop) (s : S).

Lemma wp_bind {A B} (m : method S E A) (k : A -> method S E B) Q R X s :
  wp m (fun a => wp (k a) Q R X) R X s -> wp (m ≫= k) Q R X s.
Proof. unfold wp, mbind, method_bind. by destruct (m s) as [s' []]. Qed.

Lemma wp_ret {A} (a : A) (Q : A -> S -> Prop) R X s : Q a s -> wp (E:=E) (mret a) Q R X s.
Proof. done. Qed.

Lemma wp_get (Q : S -> S -> Prop) R X s : Q s s -> wp (E:=E) get Q R X s.
Proof. done. Qed.

Lemma wp_put s' (Q : unit -> S -> Prop) R X s : Q tt s' -> wp (E:=E) (put s') Q R X s.
Proof. done. Qed.

Lemma wp_lift {A} (r : res E A) (Q : A -> S -> Prop) R X s :
  (forall a, r = Ok a -> Q a s) -> (forall e, r = Err e -> R s) -> (r = Panic -> X) -> r <> Fuel ->
  wp (lift r) Q R X s.
Proof. unfold wp, lift. destruct r; intros; eauto. Qed.

Lemma wp_lift_safe {A} (r : res E A) (Q : A -> S -> Prop) R X s :
  safe r -> (forall a, r = Ok a -> Q a s) -> R s -> wp (lift r) Q R X s.
Proof. unfold wp, lift. destruct r; intros; eauto; done. Qed.

Lemma wp_lift_post {A} (r : res E A) (Q : A -> S -> Prop) R X s :
  post (fun a => Q a s) X r -> R s -> wp (lift r) Q R X s.
Proof. unfold wp, lift. by destruct r. Qed.

Lemma wp_mono {A} (m : method S E A) (Q Q' : A -> S -> Prop) R R' X X' s :
  wp m Q R X s -> (forall a s', Q a s' -> Q' a s') -> (forall s', R s' -> R' s') -> (X -> X') ->
  wp m Q' R' X' s.
Proof. unfold wp. destruct (m s) as [s' []]; eauto. Qed.

Lemma wp_for_each {A} (I : S -> Prop) (f : A -> method S E unit) R X l s :
  I s -> (forall a s, a ∈ l -> I s -> wp (f a) (fun _ => I) R X s) ->
  wp (for_each f l) (fun _ => I) R X s.
Proof.
  revert s; induction l as [|a l IH]; intros s Hs Hf; cbn; [done|].
  apply wp_bind. eapply wp_mono; [apply Hf; [apply list_elem_of_here|done]| |done|done].
  intros [] s' Hs'. apply IH; [done|]. intros; apply Hf; [by apply list_elem_of_further|done].
Qed.
End wp.

Ltac wp_step :=
  match goal with
  | |- wp (_ ≫= _) _ _ _ _ => apply wp_bind
  | |- wp get _ _ _ _ => apply wp_get
  | |- wp (put _) _ _ _ _ => apply wp_put
  | |- wp (mret _) _ _ _ _ => apply wp_ret
  end; cbv beta.

Lemma div_ceil_spec v n : 0 < n -> 0 <= v -> v <= div_ceil v n * n < v + n.
Proof.
  intros Hn Hv. unfold div_ceil. pose proof (Z.div_mod v n). pose proof (Z.mod_pos_bound v n).
  destruct (Z.eqb_spec (v mod n) 0); nia.
Qed.

(** The same when the operation may also fail to return. *)
Definition wlp {S E A} (m : method S E A) (Q : A -> S -> Prop) (R : S -> Prop) (s : S) : Prop :=
  match m s with (s', Ok a) => Q a s' | (s', Err _) => R s' | _ => True end.

Section wlp.
Context {S E : Type}.

Lemma wlp_bind {A B} (m : method S E A) (k : A -> method S E B) Q R s :
  wlp m (fun a => wlp (k a) Q R) R s -> wlp (m ≫= k) Q R s.
Proof. unfold wlp, mbind, method_bind. by destruct (m s) as [s' []]. Qed.

Lemma wlp_ret {A} (a : A) (Q : A -> S -> Prop) R s : Q a s -> wlp (E:=E) (mret a) Q R s.
Proof. done. Qed.

Lemma wlp_get (Q : S -> S -> Prop) R s : Q s s -> wlp (E:=E) get Q R s.
Proof. done. Qed.

Lemma wlp_put s' (Q : unit -> S -> Prop) R s : Q tt s' -> wlp (E:=E) (put s') Q R s.
Proof. done. Qed.

Lemma wlp_lift {A} (r : res E A) (Q : A -> S -> Prop) (R : S -> Prop) s :
  R s -> (forall a, r = Ok a -> Q a s) -> wlp (lift r) Q R s.
Proof. unfold wlp, lift. destruct r; eauto. Qed.

Lemma wlp_mono {A} (m : method S E A) (Q Q' : A -> S -> Prop) (R R' : S -> Prop) s :
  wlp m Q R s -> (forall a s', Q a s' -> Q' a s') -> (forall s', R s' -> R' s') -> wlp m Q' R' s.
Proof. unfold wlp. destruct (m s) as [s' []]; eauto. Qed.

Lemma wlp_for_each {A} (I R : S -> Prop) (f : A -> method S E unit) l s :
  I s -> (forall a s, I s -> wlp (f a) (fun _ => I) R s) -> wlp (for_each f l) (fun _ => I) R s.
Proof.
  intros Hs Hf. revert s Hs; induction l as [|a l IH]; intros s Hs; cbn [for_each]; [done|].
  apply wlp_bind. eapply wlp_mono; [by apply Hf|intros ?; apply IH|done].
Qed.
End wlp.

Ltac wlp_step :=
  match goal with
  | |- wlp (_ ≫= _) _ _ _ => apply wlp_bind
  | |- wlp (lift _) _ _ _ => apply wlp_lift; [|intros ? ?]
  | |- wlp get _ _ _ => apply wlp_get
  | |- wlp (put _) _ _ _ => apply wlp_put
  | |- wlp (mret _) _ _ _ => apply wlp_ret
  end; cbv beta.
