(* ===== verification/Bytes.v ===== *)
(** * Bytes

    Lemmas on the byte strings of [Prelude]: slices, [copy_from_slice], and the
    two directions of the little- and big-endian encodings. *)

From S2P Require Import Prelude.

Section lists.
Context {A : Type}.
Implicit Types l k m : list A.

Lemma len_nonneg l : 0 <= len l.
Proof. unfold len; lia. Qed.

Lemma len_app l k : len (l ++ k) = len l + len k.
Proof. unfold len; rewrite length_app; lia. Qed.

Lemma len_nil : len (@nil A) = 0.
Proof. done. Qed.

Lemma len_cons x l : len (x :: l) = 1 + len l.
Proof. unfold len; cbn [length]; lia. Qed.

Lemma len_replicate n (x : A) : len (replicate n x) = Z.of_nat n.
Proof. unfold len; by rewrite length_replicate. Qed.

Lemma len_take (n : nat) l : len (take n l) = Z.min (Z.of_nat n) (len l).
Proof. unfold len; rewrite length_take; lia. Qed.

Lemma len_drop (n : nat) l : len (drop n l) = Z.max 0 (len l - Z.of_nat n).
Proof. unfold len; rewrite length_drop; lia. Qed.

Lemma len_0_nil l : len l = 0 -> l = [].
Proof. unfold len; destruct l; [done|cbn; lia]. Qed.

(** ** Slices *)

Lemma slice_some l a b :
  0 <= a -> a <= b -> b <= len l ->
  slice l a b = Some (take (Z.to_nat (b - a)) (drop (Z.to_nat a) l)).
Proof. intros; unfold slice; zify_bool; try lia; done. Qed.

Lemma slice_is_Some l a b : is_Some (slice l a b) <-> 0 <= a <= b /\ b <= len l.
Proof.
  split.
  - intros [s Hs]; unfold slice in Hs; zify_bool; try done; lia.
  - intros; rewrite slice_some by lia; eauto.
Qed.

Lemma slice_inv l a b s :
  slice l a b = Some s -> 0 <= a <= b /\ b <= len l /\ len s = b - a.
Proof.
  intros H. assert (0 <= a <= b /\ b <= len l) as (Ha & Hb) by (apply slice_is_Some; eauto).
  rewrite slice_some in H by lia. injection H as <-.
  rewrite len_take, len_drop; lia.
Qed.

Lemma slice_app_l l k a b : b <= len l -> slice (l ++ k) a b = slice l a b.
Proof.
  intros Hb. unfold slice. rewrite len_app. pose proof (len_nonneg k).
  zify_bool; try lia; try done. f_equal.
  rewrite drop_app_le by (unfold len in *; lia).
  rewrite take_app_le; [done|]. rewrite length_drop; unfold len in *; lia.
Qed.

Lemma slice_app_r l k a b : len l <= a -> slice (l ++ k) a b = slice k (a - len l) (b - len l).
Proof.
  intros Ha. unfold slice. rewrite len_app. pose proof (len_nonneg l).
  zify_bool; try lia; try done. f_equal.
  rewrite drop_app_ge by (unfold len in *; lia).
  f_equal; [lia|f_equal; unfold len in *; lia].
Qed.

Lemma slice_all l b : b = len l -> slice l 0 b = Some l.
Proof.
  intros ->. pose proof (len_nonneg l). rewrite slice_some by lia.
  f_equal. rewrite drop_0. apply take_ge. unfold len; lia.
Qed.

Lemma slice_whole l a b : a = 0 -> b = len l -> slice l a b = Some l.
Proof. intros ->. apply slice_all. Qed.

(** The slice that starts where a prefix ends and stops where the next part does. *)
Lemma slice_mid l k m a b :
  a = len l -> b = len l + len k -> slice (l ++ k ++ m) a b = Some k.
Proof.
  intros -> ->. rewrite slice_app_r, slice_app_l by lia.
  replace (len l - len l) with 0 by lia. apply slice_all; lia.
Qed.

(** Adjacent slices join. *)
Lemma slice_join l a b c s t :
  slice l a b = Some s -> slice l b c = Some t -> slice l a c = Some (s ++ t).
Proof.
  intros Hs Ht. pose proof (slice_inv _ _ _ _ Hs). pose proof (slice_inv _ _ _ _ Ht).
  rewrite slice_some in Hs, Ht by lia. injection Hs as <-. injection Ht as <-.
  rewrite slice_some by lia. f_equal.
  replace (Z.to_nat (c - a)) with (Z.to_nat (b - a) + Z.to_nat (c - b))%nat by lia.
  replace (Z.to_nat b) with (Z.to_nat a + Z.to_nat (b - a))%nat by lia.
  rewrite <- drop_drop. set (l' := drop (Z.to_nat a) l).
  rewrite <- (take_drop (Z.to_nat (b - a)) l') at 1.
  assert (length (take (Z.to_nat (b - a)) l') = Z.to_nat (b - a)) as Hl.
  { unfold l'. rewrite length_take, length_drop. unfold len in *. lia. }
  rewrite take_app_add' by done. done.
Qed.

Lemma slice_full_inv l b s : b = len l -> slice l 0 b = Some s -> s = l.
Proof. intros -> H. rewrite slice_all in H by done. congruence. Qed.

Lemma slice_drop l a : 0 <= a <= len l -> slice l a (len l) = Some (drop (Z.to_nat a) l).
Proof.
  intros. rewrite slice_some by lia. f_equal. apply take_ge.
  rewrite length_drop. unfold len in *; lia.
Qed.

Lemma slice_Forall (P : A -> Prop) l a b s :
  Forall P l -> slice l a b = Some s -> Forall P s.
Proof.
  intros Hl Hs. pose proof (slice_inv _ _ _ _ Hs). rewrite slice_some in Hs by lia.
  injection Hs as <-. by apply Forall_take, Forall_drop.
Qed.

(** A slice of a slice. *)
Lemma slice_slice l a b s c d :
  slice l a b = Some s -> 0 <= c -> d <= b - a -> slice s c d = slice l (a + c) (a + d).
Proof.
  intros Hs Hc Hd. pose proof (slice_inv _ _ _ _ Hs) as (? & ? & Hlen).
  destruct (decide (c <= d)) as [Hcd|Hcd].
  - rewrite !slice_some by lia. rewrite slice_some in Hs by lia. injection Hs as <-.
    f_equal. rewrite skipn_firstn_comm, drop_drop, take_take. f_equal; [lia|f_equal; lia].
  - unfold slice. zify_bool; try lia; done.
Qed.

(** ** Copies into a buffer *)

Lemma copy_at_is_Some l a k : is_Some (copy_at l a k) <-> 0 <= a /\ a + len k <= len l.
Proof.
  unfold copy_at; split; [intros [? ?]|intros]; zify_bool; try lia; eauto; done.
Qed.

Lemma copy_at_some l a k :
  0 <= a -> a + len k <= len l ->
  copy_at l a k = Some (take (Z.to_nat a) l ++ k ++ drop (Z.to_nat (a + len k)) l).
Proof. intros; unfold copy_at; zify_bool; try lia; done. Qed.

Lemma copy_at_len l a k l' : copy_at l a k = Some l' -> len l' = len l.
Proof.
  intros H. assert (0 <= a /\ a + len k <= len l) as [? ?] by (apply copy_at_is_Some; eauto).
  rewrite copy_at_some in H by lia. injection H as <-. pose proof (len_nonneg k).
  rewrite !len_app, len_take, len_drop. lia.
Qed.

(** What a copy overwrites and what it keeps. *)
Lemma copy_at_slice_same l a k l' : copy_at l a k = Some l' -> slice l' a (a + len k) = Some k.
Proof.
  intros H. assert (0 <= a /\ a + len k <= len l) as [? ?] by (apply copy_at_is_Some; eauto).
  rewrite copy_at_some in H by lia. injection H as <-.
  pose proof (len_nonneg k).
  apply slice_mid; rewrite len_take; lia.
Qed.

Lemma copy_at_slice_before l a k l' c d :
  copy_at l a k = Some l' -> d <= a -> slice l' c d = slice l c d.
Proof.
  intros H Hd. assert (0 <= a /\ a + len k <= len l) as [? ?] by (apply copy_at_is_Some; eauto).
  rewrite copy_at_some in H by lia. injection H as <-. pose proof (len_nonneg k).
  rewrite slice_app_l by (rewrite len_take; lia).
  rewrite <- (take_drop (Z.to_nat a) l) at 2.
  rewrite slice_app_l by (rewrite len_take; lia). done.
Qed.

Lemma copy_at_slice_after l a k l' c d :
  copy_at l a k = Some l' -> a + len k <= c -> slice l' c d = slice l c d.
Proof.
  intros H Hd. assert (0 <= a /\ a + len k <= len l) as [? ?] by (apply copy_at_is_Some; eauto).
  rewrite copy_at_some in H by lia. injection H as <-. pose proof (len_nonneg k).
  rewrite app_assoc, slice_app_r by (rewrite len_app, len_take; lia).
  transitivity (slice (take (Z.to_nat (a + len k)) l ++ drop (Z.to_nat (a + len k)) l) c d);
    [|by rewrite take_drop].
  rewrite slice_app_r by (rewrite len_take; lia).
  f_equal; rewrite ?len_app, !len_take; lia.
Qed.

(** A copy onto the middle part of a concatenation. *)
Lemma copy_at_mid l k m k' a :
  a = len l -> len k' = len k -> copy_at (l ++ k ++ m) a k' = Some (l ++ k' ++ m).
Proof.
  intros -> Hk. pose proof (len_nonneg l). pose proof (len_nonneg m).
  rewrite copy_at_some by (rewrite ?len_app; lia).
  f_equal. f_equal.
  - rewrite take_app_le by (unfold len; lia). apply take_ge. unfold len; lia.
  - f_equal. rewrite app_assoc, drop_app_ge by (rewrite length_app; unfold len in *; lia).
    rewrite length_app. replace (_ - _)%nat with 0%nat by (unfold len in *; lia). done.
Qed.

Lemma copy_at_Forall (P : A -> Prop) l a k l' :
  Forall P l -> Forall P k -> copy_at l a k = Some l' -> Forall P l'.
Proof.
  intros Hl Hk H. unfold copy_at in H. zify_bool; try done. injection H as <-.
  repeat apply Forall_app_2; auto using Forall_take, Forall_drop.
Qed.

Lemma at_index_is_Some l i : is_Some (at_index l i) <-> 0 <= i < len l.
Proof.
  unfold at_index, len. zify_bool; [rewrite lookup_lt_is_Some; lia|].
  split; [intros [? ?]; done|lia].
Qed.

Lemma at_index_app_l l k i : i < len l -> at_index (l ++ k) i = at_index l i.
Proof.
  intros. unfold at_index. zify_bool; [|done]. apply lookup_app_l. unfold len in *; lia.
Qed.

Lemma at_index_app_r l k i : len l <= i -> at_index (l ++ k) i = at_index k (i - len l).
Proof.
  intros. pose proof (len_nonneg l). unfold at_index. zify_bool; try lia.
  rewrite lookup_app_r by (unfold len in *; lia). f_equal. unfold len in *; lia.
Qed.
End lists.

(** ** Endianness *)

Lemma le_bytes_len n x : 0 <= n -> len (le_bytes n x) = n.
Proof. intros. unfold len, le_bytes. by apply length_Z_to_little_endian. Qed.

Lemma be_bytes_len n x : 0 <= n -> len (be_bytes n x) = n.
Proof.
  intros. unfold be_bytes, len. rewrite length_reverse. by apply le_bytes_len.
Qed.

Lemma is_u8_alt x : is_u8 x <-> 0 <= x < 2 ^ 8.
Proof. unfold is_u8, u8_max. change (2 ^ 8) with 256. lia. Qed.

Lemma le_bytes_ok n x : 0 <= n -> bytes_ok (le_bytes n x).
Proof.
  intros. unfold bytes_ok, le_bytes.
  eapply Forall_impl; [apply Z_to_little_endian_bound; lia|].
  intros y Hy. by apply is_u8_alt.
Qed.

Lemma be_bytes_ok n x : 0 <= n -> bytes_ok (be_bytes n x).
Proof. intros. by apply Forall_reverse, le_bytes_ok. Qed.

Lemma le_val_le_bytes n x : 0 <= n -> 0 <= x < 2 ^ (n * 8) -> le_val (le_bytes n x) = x.
Proof.
  intros. unfold le_val, le_bytes. rewrite little_endian_to_Z_to_little_endian by lia.
  by apply Z.mod_small.
Qed.

Lemma bytes_ok_alt l : bytes_ok l -> Forall (fun b => 0 <= b < 2 ^ 8) l.
Proof. intros H. eapply Forall_impl; [exact H|]. intros; by apply is_u8_alt. Qed.

Lemma le_bytes_le_val n l : bytes_ok l -> len l = n -> le_bytes n (le_val l) = l.
Proof.
  intros Hl <-. unfold le_bytes, le_val.
  apply Z_to_little_endian_to_Z; [done|lia|by apply bytes_ok_alt].
Qed.

Lemma le_val_bound n l : bytes_ok l -> len l = n -> 0 <= le_val l < 2 ^ (n * 8).
Proof.
  intros Hl <-. apply little_endian_to_Z_bound; [lia|by apply bytes_ok_alt].
Qed.

Lemma be_val_be_bytes n x : 0 <= n -> 0 <= x < 2 ^ (n * 8) -> be_val (be_bytes n x) = x.
Proof. intros. unfold be_val, be_bytes. rewrite reverse_involutive. by apply le_val_le_bytes. Qed.

Lemma be_bytes_be_val n l : bytes_ok l -> len l = n -> be_bytes n (be_val l) = l.
Proof.
  intros Hl Hn. unfold be_val, be_bytes.
  rewrite le_bytes_le_val, reverse_involutive; auto.
  - by apply Forall_reverse.
  - unfold len in *. by rewrite length_reverse.
Qed.

Lemma be_val_bound n l : bytes_ok l -> len l = n -> 0 <= be_val l < 2 ^ (n * 8).
Proof.
  intros Hl Hn. apply le_val_bound; [by apply Forall_reverse|].
  unfold len in *. by rewrite length_reverse.
Qed.

Lemma le_val_u16 l : bytes_ok l -> len l = 2 -> is_u16 (le_val l).
Proof. intros Hl Hn. pose proof (le_val_bound _ _ Hl Hn) as H. unfold is_u16, u16_max. change (2 ^ (2 * 8)) with 65536 in H. lia. Qed.

Lemma le_val_u32 l : bytes_ok l -> len l = 4 -> is_u32 (le_val l).
Proof. intros Hl Hn. pose proof (le_val_bound _ _ Hl Hn) as H. unfold is_u32, u32_max. change (2 ^ (4 * 8)) with 4294967296 in H. lia. Qed.

Lemma le_val_u64 l : bytes_ok l -> len l = 8 -> is_u64 (le_val l).
Proof. intros Hl Hn. pose proof (le_val_bound _ _ Hl Hn) as H. unfold is_u64, u64_max. change (2 ^ (8 * 8)) with 18446744073709551616 in H. lia. Qed.

Lemma le_val_u32_bytes x : is_u32 x -> le_val (le_bytes 4 x) = x.
Proof. intros H. apply le_val_le_bytes; [lia|]. change (2 ^ (4 * 8)) with 4294967296. unfold is_u32, u32_max in H. lia. Qed.

Lemma le_val_u64_bytes x : is_u64 x -> le_val (le_bytes 8 x) = x.
Proof. intros H. apply le_val_le_bytes; [lia|]. change (2 ^ (8 * 8)) with 18446744073709551616. unfold is_u64, u64_max in H. lia. Qed.

Lemma be_val_u16_bytes x : is_u16 x -> be_val (be_bytes 2 x) = x.
Proof. intros H. apply be_val_be_bytes; [lia|]. change (2 ^ (2 * 8)) with 65536. unfold is_u16, u16_max in H. lia. Qed.

Lemma be_val_u32_bytes x : is_u32 x -> be_val (be_bytes 4 x) = x.
Proof. intros H. apply be_val_be_bytes; [lia|]. change (2 ^ (4 * 8)) with 4294967296. unfold is_u32, u32_max in H. lia. Qed.

Lemma as_u16_small x : is_u16 x -> as_u16 x = x.
Proof. intros H. unfold as_u16. apply Z.mod_small. unfold is_u16, u16_max in H. lia. Qed.

Lemma as_u32_small x : is_u32 x -> as_u32 x = x.
Proof. intros H. unfold as_u32. apply Z.mod_small. unfold is_u32, u32_max in H. lia. Qed.

Lemma zeros_len n : 0 <= n -> len (zeros n) = n.
Proof. intros. unfold zeros. rewrite len_replicate. lia. Qed.

Lemma zeros_ok n : bytes_ok (zeros n).
Proof. apply Forall_replicate. unfold is_u8, u8_max. lia. Qed.

Lemma zeros_app a b : 0 <= a -> 0 <= b -> zeros (a + b) = zeros a ++ zeros b.
Proof. intros. unfold zeros. rewrite Z2Nat.inj_add by lia. apply replicate_add. Qed.

Lemma slice_ok l a b s : bytes_ok l -> slice l a b = Some s -> bytes_ok s.
Proof. apply slice_Forall. Qed.

Lemma len_split {A} (l : list A) n : 0 <= n <= len l -> exists a b, l = a ++ b /\ len a = n.
Proof.
  intros. exists (take (Z.to_nat n) l), (drop (Z.to_nat n) l).
  rewrite take_drop, len_take. split; [done|lia].
Qed.

(** The tail of a list after its first [n] explicit elements. *)
Lemma slice_tail {A} (pre l : list A) n m :
  n = len pre -> m = len (pre ++ l) -> slice (pre ++ l) n m = Some l.
Proof.
  intros -> ->. rewrite slice_app_r by lia. rewrite len_app.
  replace (len pre - len pre) with 0 by lia. apply slice_all; lia.
Qed.

Lemma slice_split {A} (p x y : list A) a c :
  slice p a c = Some (x ++ y) ->
  slice p a (a + len x) = Some x /\ slice p (a + len x) c = Some y.
Proof.
  intros H. pose proof (slice_inv _ _ _ _ H) as (? & ? & Hl). rewrite len_app in Hl.
  pose proof (len_nonneg x). pose proof (len_nonneg y). split.
  - replace a with (a + 0) at 1 by lia.
    erewrite <- slice_slice by (try exact H; lia). rewrite slice_app_l by lia. by apply slice_all.
  - replace c with (a + (c - a)) by lia.
    erewrite <- slice_slice by (try exact H; lia). by apply slice_tail; [|rewrite len_app; lia].
Qed.

Lemma checked_mul_some m x y : x * y <= m -> checked_mul m x y = Some (x * y).
Proof. intros. unfold checked_mul. by destruct (Z.leb_spec (x * y) m); [|lia]. Qed.

Lemma checked_add_some m x y : x + y <= m -> checked_add m x y = Some (x + y).
Proof. intros. unfold checked_add. by destruct (Z.leb_spec (x + y) m); [|lia]. Qed.

Create Rewrite HintDb talos_len.
#[export] Hint Rewrite @len_app @len_nil @len_cons @len_take @len_drop : talos_len.
#[export] Hint Rewrite le_bytes_len be_bytes_len zeros_len using lia : talos_len.
#[export] Hint Resolve le_bytes_ok be_bytes_ok zeros_ok Forall_app_2 Forall_nil_2 Forall_cons_2 : talos.

Lemma len_2_inv {A} (l : list A) : len l = 2 -> exists a b, l = [a; b].
Proof. unfold len; destruct l as [|a [|b [|c l]]]; cbn; try lia; eauto. Qed.

Lemma len_4_inv {A} (l : list A) : len l = 4 -> exists a b c d, l = [a; b; c; d].
Proof. unfold len; destruct l as [|a [|b [|c [|d [|e l]]]]]; cbn; try lia; eauto. Qed.

(** Lengths are not negative. *)
Ltac len_pos :=
  repeat match goal with
  | |- context [len ?l] =>
      lazymatch goal with H : 0 <= len l |- _ => fail | _ => pose proof (len_nonneg l) end
  | H : context [len ?l] |- _ =>
      lazymatch goal with H : 0 <= len l |- _ => fail | _ => pose proof (len_nonneg l) end
  end.

(** Length goals over concatenations. *)
Ltac len_solve := autorewrite with talos_len in *; try (len_pos; lia).

Lemma u32_len {A} (l : list A) : len l <= u32_max -> is_u32 (len l).
Proof. unfold is_u32. len_solve. Qed.

(** Find a slice of a concatenation whose parts have known lengths. *)
Ltac slice_find :=
  repeat first [rewrite slice_app_r by (autorewrite with talos_len; lia)
               |rewrite slice_app_l by (autorewrite with talos_len; lia)];
  apply slice_whole; autorewrite with talos_len; lia.

(** Closed byte strings, by evaluation. *)
Ltac bytes_check :=
  match goal with |- bytes_ok ?l =>
    apply (bool_decide_unpack (Forall (fun b => 0 <= b <= 255) l)); vm_compute; exact I
  end.
