(* ===== verification/Pixels.v ===== *)
(** * Pixel buffers

    BGRA buffers seen as pixels.  The decoders and compositors write rectangles of
    pixels into such a buffer row by row or pixel by pixel; the lemmas here reduce
    what a loop of writes does to what it leaves at each pixel, so that two loops
    can be compared whatever the order of their writes. *)

From S2P Require Import Prelude Bytes.

(** The pixel at column [x] of row [y] of a buffer [W] pixels wide. *)
Definition pix (W : Z) (a : list Z) (x y : Z) : option (list Z) :=
  slice a ((y * W + x) * 4) ((y * W + x) * 4 + 4).

Section buffer.
Context (W H : Z).
Context (HW : 0 < W).

(** A whole buffer. *)
Definition frame (a : list Z) : Prop := len a = W * H * 4.

Lemma pix_index_lt x y x' y' : 0 <= x < W -> 0 <= x' -> y < y' -> y * W + x < y' * W + x'.
Proof. intros. assert (y * W + W <= y' * W) by nia. lia. Qed.

(** A buffer is determined by its pixels. *)
Lemma pix_ext a b :
  frame a -> frame b ->
  (forall x y, 0 <= x < W -> 0 <= y < H -> pix W a x y = pix W b x y) -> a = b.
Proof.
  unfold frame. intros Ha Hb Hpix.
  destruct (decide (0 <= H)) as [HH|HH]; last first.
  { assert (len a = 0) by (pose proof (len_nonneg a); nia).
    assert (len b = 0) by lia. by rewrite (len_0_nil a), (len_0_nil b). }
  assert (forall n : nat, Z.of_nat n <= W * H ->
    slice a 0 (Z.of_nat n * 4) = slice b 0 (Z.of_nat n * 4)) as Hn.
  { induction n as [|n IH]; intros Hn; [by rewrite !slice_some by (len_pos; lia)|]. specialize (IH ltac:(lia)).
    pose proof (Z.div_mod (Z.of_nat n) W ltac:(lia)). pose proof (Z.mod_pos_bound (Z.of_nat n) W HW).
    assert (0 <= Z.of_nat n / W < H).
    { split; [apply Z.div_pos; lia|]. apply Z.div_lt_upper_bound; lia. }
    specialize (Hpix (Z.of_nat n mod W) (Z.of_nat n / W) ltac:(lia) ltac:(lia)). unfold pix in Hpix.
    replace (Z.of_nat n / W * W + Z.of_nat n mod W) with (Z.of_nat n) in Hpix by lia.
    replace (Z.of_nat (S n) * 4) with (Z.of_nat n * 4 + 4) by lia.
    destruct (proj2 (slice_is_Some a 0 (Z.of_nat n * 4))) as [s Hs]; [lia|].
    destruct (proj2 (slice_is_Some a (Z.of_nat n * 4) (Z.of_nat n * 4 + 4))) as [t Ht]; [lia|].
    rewrite (slice_join _ _ _ _ _ _ Hs Ht). rewrite Hs in IH. rewrite Ht in Hpix. symmetry.
    by apply (slice_join _ _ (Z.of_nat n * 4)). }
  specialize (Hn (Z.to_nat (W * H)) ltac:(nia)).
  rewrite !slice_all in Hn by nia. congruence.
Qed.

Lemma pix_is_Some a x y : frame a -> 0 <= x < W -> 0 <= y < H -> is_Some (pix W a x y).
Proof.
  unfold frame, pix. intros Ha Hx Hy. apply slice_is_Some. assert ((y + 1) * W <= H * W) by nia. nia.
Qed.

(** What a copy of [n] pixels into row [y] from column [x] leaves. *)
Lemma pix_copy_row a a' s x y n x' y' :
  0 <= x -> 0 <= n -> x + n <= W -> 0 <= x' < W ->
  len s = n * 4 -> copy_at a ((y * W + x) * 4) s = Some a' ->
  pix W a' x' y' =
  if (y' =? y) && (x <=? x') && (x' <? x + n) then slice s ((x' - x) * 4) ((x' - x) * 4 + 4)
  else pix W a x' y'.
Proof.
  intros Hx Hn Hxn Hx' Hs Hc. unfold pix.
  destruct (Z.eqb_spec y' y) as [->|Hy]; cbn [andb]; last first.
  { destruct (decide (y' < y)).
    - eapply copy_at_slice_before; [exact Hc|]. pose proof (pix_index_lt x' y' x y). lia.
    - eapply copy_at_slice_after; [exact Hc|].
      assert ((y + 1) * W <= y' * W) by nia. nia. }
  destruct (Z.leb_spec x x'); cbn [andb];
    [|eapply copy_at_slice_before; [exact Hc|nia]].
  destruct (Z.ltb_spec x' (x + n)); [|eapply copy_at_slice_after; [exact Hc|nia]].
  pose proof (copy_at_slice_same _ _ _ _ Hc) as Hin.
  rewrite (slice_slice _ _ _ _ _ _ Hin) by lia. f_equal; lia.
Qed.

Lemma copy_row_some a x y n s :
  frame a -> 0 <= x -> x + n <= W -> 0 <= n -> 0 <= y < H -> len s = n * 4 ->
  exists a', copy_at a ((y * W + x) * 4) s = Some a'.
Proof.
  unfold frame. intros Ha Hx Hn Hn0 Hy Hs. apply copy_at_is_Some. rewrite Hs, Ha.
  assert ((y + 1) * W <= H * W) by nia. nia.
Qed.

(** ** Rectangles of pixels *)

Section rect.
Context (ax ay w h : Z).

Definition in_rect (x y : Z) : bool :=
  (ax <=? x) && (x <? ax + w) && (ay <=? y) && (y <? ay + h).

(** The index of a pixel of the rectangle, row by row. *)
Definition rect_index (x y : Z) : Z := (y - ay) * w + (x - ax).

(** [a'] is [a] with the pixels of the rectangle that [col] colors. *)
Definition painted (col : Z -> option (list Z)) (a a' : list Z) : Prop :=
  frame a' /\
  forall x y, 0 <= x < W -> 0 <= y < H ->
    pix W a' x y =
    if in_rect x y
    then match col (rect_index x y) with Some c => Some c | None => pix W a x y end
    else pix W a x y.

(** An operation on buffers that either fails with the same error whatever the
    buffer, or writes the same colors into the rectangle whatever the buffer. *)
Definition paint_action {E} (D : list Z -> res E (list Z)) : Prop :=
  (exists col, forall a, frame a -> exists a', D a = Ok a' /\ painted col a a') \/
  (exists e, forall a, frame a -> D a = Err e).

(** The same, for an operation that threads a state besides the buffer. *)
Definition paint_action_st {E S} (D : list Z -> res E (list Z * S)) : Prop :=
  (exists col s', forall a, frame a -> exists a', D a = Ok (a', s') /\ painted col a a') \/
  (exists e, forall a, frame a -> D a = Err e).

Lemma painted_none a : frame a -> painted (fun _ => None) a a.
Proof. intros. split; [done|]. intros. by destruct (in_rect x y). Qed.

Lemma painted_frame col a a' : painted col a a' -> frame a'.
Proof. by intros []. Qed.

Lemma painted_trans col col' a b c :
  painted col a b -> painted col' b c ->
  painted (fun i => match col' i with Some v => Some v | None => col i end) a c.
Proof.
  intros [_ Hab] [Hc Hbc]. split; [done|]. intros x y Hx Hy.
  rewrite Hbc, Hab by done. destruct (in_rect x y); [|done].
  by destruct (col' _).
Qed.

Lemma painted_det col a b b' : painted col a b -> painted col a b' -> b = b'.
Proof.
  intros [Hb Hpb] [Hb' Hpb']. apply pix_ext; [done..|]. intros. by rewrite Hpb, Hpb'.
Qed.

Lemma paint_action_ext {E} (D D' : list Z -> res E (list Z)) :
  (forall a, frame a -> D a = D' a) -> paint_action D -> paint_action D'.
Proof.
  intros HD [[col H0]|[e H0]]; [left; exists col|right; exists e]; intros a Ha;
    rewrite <- HD by done; auto.
Qed.

Lemma paint_action_ret {E} : paint_action (E:=E) (fun a => Ok a).
Proof. left. exists (fun _ => None). intros a Ha. exists a. eauto using painted_none. Qed.

Lemma paint_action_err {E} (e : E) : paint_action (fun _ => Err e).
Proof. right. eauto. Qed.

(** A check that does not look at the buffer comes first. *)
Lemma paint_action_bind {E X} (m : res E X) (K : X -> list Z -> res E (list Z)) :
  safe m -> (forall x, m = Ok x -> paint_action (K x)) ->
  paint_action (fun a => m ≫= fun x => K x a).
Proof. destruct m; cbn; intros Hs HK; [by apply HK|apply paint_action_err|done..]. Qed.

Lemma paint_action_seq {E} (D D' : list Z -> res E (list Z)) :
  paint_action D -> paint_action D' -> paint_action (fun a => D a ≫= D').
Proof.
  intros [[col H0]|[e H0]] HD'; [|right; exists e; intros a Ha; by rewrite H0].
  destruct HD' as [[col' H1]|[e' H1]].
  - left. eexists. intros a Ha. destruct (H0 a Ha) as (b & -> & Hb). cbn.
    destruct (H1 b) as (c & -> & Hc); [by eapply painted_frame|].
    eexists; split; [done|]. by eapply painted_trans.
  - right. exists e'. intros a Ha. destruct (H0 a Ha) as (b & -> & Hb). cbn.
    apply H1. by eapply painted_frame.
Qed.

(** A loop whose turns are such operations is one. *)
Lemma paint_action_foldM {E X} (g : list Z -> X -> res E (list Z)) l :
  (forall x, x ∈ l -> paint_action (fun a => g a x)) -> paint_action (fun a => foldM g a l).
Proof.
  induction l as [|x l IH]; intros Hg; cbn [foldM]; [apply paint_action_ret|].
  apply (paint_action_seq (fun a => g a x)); [apply Hg, list_elem_of_here|].
  apply IH. intros; apply Hg. by apply list_elem_of_further.
Qed.

Lemma paint_action_st_foldM {E X S} (g : list Z * S -> X -> res E (list Z * S)) l :
  (forall x s, x ∈ l -> paint_action_st (fun a => g (a, s) x)) ->
  forall s, paint_action_st (fun a => foldM g (a, s) l).
Proof.
  induction l as [|x l IH]; intros Hg s; cbn [foldM].
  { left. exists (fun _ => None), s. intros a Ha. exists a. eauto using painted_none. }
  destruct (Hg x s) as [(col & s1 & H0)|[e H0]]; [apply list_elem_of_here| |].
  2: { right. exists e. intros a Ha. by rewrite H0. }
  destruct (IH ltac:(intros; apply Hg; by apply list_elem_of_further) s1)
    as [(col' & s2 & H1)|[e' H1]].
  - left. eexists _, s2. intros a Ha. destruct (H0 a Ha) as (b & -> & Hb). cbn.
    destruct (H1 b) as (c & -> & Hc); [by eapply painted_frame|].
    eexists; split; [done|]. by eapply painted_trans.
  - right. exists e'. intros a Ha. destruct (H0 a Ha) as (b & -> & Hb). cbn.
    apply H1. by eapply painted_frame.
Qed.

Lemma paint_action_st_bind {E X S} (m : res E X) (K : X -> list Z -> res E (list Z * S)) :
  safe m -> (forall x, m = Ok x -> paint_action_st (K x)) ->
  paint_action_st (fun a => m ≫= fun x => K x a).
Proof.
  destruct m as [x|e| |]; cbn; intros Hs HK; [by apply HK| |done..]. right. by exists e.
Qed.

(** A write followed by the update of the state, and the end of a stateful loop. *)
Lemma paint_action_st_ret {E S} (D : list Z -> res E (list Z)) (s : S) :
  paint_action D -> paint_action_st (fun a => D a ≫= fun a' => Ok (a', s)).
Proof.
  intros [[col H0]|[e H0]]; [left; exists col, s|right; exists e]; intros a Ha.
  - destruct (H0 a Ha) as (b & -> & Hb). cbn. eauto.
  - by rewrite H0.
Qed.

Lemma paint_action_st_end {E S} (D : list Z -> res E (list Z * S)) (chk : S -> res E unit) :
  paint_action_st D -> (forall s, safe (chk s)) ->
  paint_action (fun a => D a ≫= fun '(a', s) => chk s ≫= fun _ => Ok a').
Proof.
  intros [(col & s & H0)|[e H0]] Hchk; [|right; exists e; intros a Ha; by rewrite H0].
  specialize (Hchk s). destruct (chk s) as [[]|e| |] eqn:Hs; [| |done..].
  - left. exists col. intros a Ha. destruct (H0 a Ha) as (b & -> & Hb). cbn. rewrite Hs. cbn. eauto.
  - right. exists e. intros a Ha. destruct (H0 a Ha) as (b & -> & Hb). cbn. by rewrite Hs.
Qed.

(** One row of the rectangle. *)
Lemma painted_row a row s :
  0 <= ax -> ax + w <= W -> 0 <= ay -> ay + h <= H -> 0 <= row < h -> 0 <= w ->
  len s = w * 4 -> frame a ->
  exists a', copy_at a (((ay + row) * W + ax) * 4) s = Some a' /\
    painted (fun i => if (row * w <=? i) && (i <? row * w + w)
                      then slice s ((i - row * w) * 4) ((i - row * w) * 4 + 4) else None) a a'.
Proof.
  intros Hax HaxW Hay HayH Hrow Hw Hs Ha.
  destruct (copy_row_some a ax (ay + row) w s) as [a' Ha']; [done|lia..|]. rewrite Ha'.
  eexists; split; [done|]. split; [unfold frame; by rewrite (copy_at_len _ _ _ _ Ha')|].
  intros x y Hx Hy. rewrite (pix_copy_row a a' s ax (ay + row) w x y) by (done || lia).
  unfold in_rect, rect_index.
  destruct (Z.eqb_spec y (ay + row)) as [->|Hne].
  - destruct (Z.leb_spec ax x); cbn [andb]; [|done].
    destruct (Z.ltb_spec x (ax + w)); cbn [andb]; [|done].
    replace (ay <=? ay + row) with true by lia. replace (ay + row <? ay + h) with true by lia.
    replace (ay + row - ay) with row by lia. cbn [andb].
    replace (row * w <=? row * w + (x - ax)) with true by lia.
    replace (row * w + (x - ax) <? row * w + w) with true by lia. cbn [andb].
    replace (row * w + (x - ax) - row * w) with (x - ax) by lia.
    destruct (proj2 (slice_is_Some s ((x - ax) * 4) ((x - ax) * 4 + 4))) as [t ->]; [lia|done].
  - destruct ((ax <=? x) && (x <? ax + w) && (ay <=? y) && (y <? ay + h)) eqn:Hin; cbn [andb]; [|done].
    replace (_ && _) with false; [done|]. symmetry. apply andb_false_iff.
    destruct (decide (y < ay + row)); [left|right]; nia.
Qed.

Lemma paint_action_row {E} row s :
  0 <= ax -> ax + w <= W -> 0 <= ay -> ay + h <= H -> 0 <= row < h -> 0 <= w ->
  len s = w * 4 ->
  paint_action (E:=E) (fun a => or_panic (copy_at a (((ay + row) * W + ax) * 4) s)).
Proof.
  intros. left. eexists. intros a Ha. destruct (painted_row a row s) as (a' & -> & Hp); [done..|].
  eexists; split; [done|exact Hp].
Qed.

(** One pixel of the rectangle. *)
Lemma painted_pixel a p c :
  0 <= ax -> ax + w <= W -> 0 <= ay -> ay + h <= H -> 0 < w -> 0 <= p < w * h -> len c = 4 ->
  frame a ->
  exists a', copy_at a (((ay + p / w) * W + (ax + p mod w)) * 4) c = Some a' /\
    painted (fun i => if i =? p then Some c else None) a a'.
Proof.
  intros Hax HaxW Hay HayH Hw Hp Hc Ha.
  pose proof (Z.div_mod p w ltac:(lia)). pose proof (Z.mod_pos_bound p w Hw).
  assert (0 <= p / w < h) by (split; [apply Z.div_pos; lia|apply Z.div_lt_upper_bound; lia]).
  destruct (copy_row_some a (ax + p mod w) (ay + p / w) 1 c) as [a' Ha']; [done|lia..|].
  rewrite Ha'. eexists; split; [done|]. split; [unfold frame; by rewrite (copy_at_len _ _ _ _ Ha')|].
  intros x y Hx Hy. rewrite (pix_copy_row a a' c (ax + p mod w) (ay + p / w) 1 x y) by (done || lia).
  unfold rect_index. destruct (in_rect x y) eqn:Hin; unfold in_rect in Hin.
  - destruct (Z.eqb_spec ((y - ay) * w + (x - ax)) p) as [Heq|Hne].
    + assert (y - ay = p / w) by (apply (Z.div_unique p w _ (x - ax)); lia).
      assert (x = ax + p mod w) as -> by nia. replace y with (ay + p / w) by lia.
      rewrite Z.eqb_refl, Z.leb_refl. replace (_ <? _) with true by lia. cbn [andb].
      apply slice_whole; lia.
    + replace (_ && _) with false; [done|]. symmetry. apply not_true_iff_false. intros Ht.
      apply Hne. assert (y = ay + p / w) as -> by lia. assert (x = ax + p mod w) as -> by lia. nia.
  - replace (_ && _) with false; [done|]. symmetry. apply not_true_iff_false. intros Ht. lia.
Qed.

Lemma paint_action_pixel {E} p c :
  0 <= ax -> ax + w <= W -> 0 <= ay -> ay + h <= H -> 0 < w -> 0 <= p < w * h -> len c = 4 ->
  paint_action (E:=E) (fun a => or_panic (copy_at a (((ay + p / w) * W + (ax + p mod w)) * 4) c)).
Proof.
  intros. left. eexists. intros a Ha. destruct (painted_pixel a p c) as (a' & -> & Hp); [done..|].
  eexists; split; [done|exact Hp].
Qed.

Lemma rect_index_bound x y : in_rect x y = true -> 0 <= rect_index x y < w * h.
Proof. unfold in_rect, rect_index. intros. nia. Qed.

Lemma painted_ext col col' a a' :
  (forall i, 0 <= i < w * h -> col i = col' i) -> painted col a a' -> painted col' a a'.
Proof.
  intros Hc [Hf Hp]. split; [done|]. intros x y Hx Hy. rewrite Hp by done.
  destruct (in_rect x y) eqn:Hin; [|done]. by rewrite Hc by by apply rect_index_bound.
Qed.

(** The rectangle row by row, from the rows [src]. *)
Lemma painted_rows {E} (src : Z -> list Z) a :
  0 <= ax -> ax + w <= W -> 0 <= ay -> ay + h <= H -> 0 < w -> 0 <= h ->
  (forall r, 0 <= r < h -> len (src r) = w * 4) -> frame a ->
  exists a', foldM (E:=E) (fun a r => or_panic (copy_at a (((ay + r) * W + ax) * 4) (src r)))
               a (seqZ 0 h) = Ok a' /\
    painted (fun i => slice (src (i / w)) (i mod w * 4) (i mod w * 4 + 4)) a a'.
Proof.
  intros Hax HaxW Hay HayH Hw Hh Hsrc Ha.
  set (col i := slice (src (i / w)) (i mod w * 4) (i mod w * 4 + 4)).
  assert (exists a', foldM (E:=E) (fun a r => or_panic (copy_at a (((ay + r) * W + ax) * 4) (src r)))
               a (seqZ 0 h) = Ok a' /\
    painted (fun i => if i <? h * w then col i else None) a a') as (a' & Ha' & Hp).
  { apply (foldM_seqZ (fun r b => painted (fun i => if i <? r * w then col i else None) a b)); [done| |].
    - eapply painted_ext; [|by apply painted_none]. intros i Hi. by replace (i <? 0 * w) with false by lia.
    - intros r b Hr Hb.
      destruct (painted_row b r (src r)) as (b' & -> & Hp); [done..|lia|by auto|by eapply painted_frame|].
      eexists; split; [done|]. eapply painted_ext; [|exact (painted_trans _ _ _ _ _ Hb Hp)].
      intros i Hi. cbv beta. destruct ((r * w <=? i) && (i <? r * w + w)) eqn:Hin.
      + replace (i <? (r + 1) * w) with true by lia.
        assert (r = i / w) as -> by (apply (Z.div_unique i w r (i - r * w)); lia).
        assert (i - i / w * w = i mod w) as -> by (rewrite Z.mod_eq by lia; lia).
        unfold col. pose proof (Z.mod_pos_bound i w Hw).
        destruct (proj2 (slice_is_Some (src (i / w)) (i mod w * 4) (i mod w * 4 + 4))) as [t ->]; [|done].
        rewrite Hsrc by lia. lia.
      + by replace (i <? (r + 1) * w) with (i <? r * w) by lia. }
  exists a'. split; [done|]. eapply painted_ext; [|exact Hp]. intros i Hi.
  cbv beta. by replace (i <? h * w) with true by lia.
Qed.

(** A rectangle whose pixels are all colored forgets what was there. *)
Lemma painted_over col col' a b c c' :
  (forall i, 0 <= i < w * h -> is_Some (col' i)) ->
  painted col a b -> painted col' b c -> painted col' a c' -> c = c'.
Proof.
  intros Hfull Hab Hbc Hac. eapply painted_det; [|exact Hac].
  eapply painted_ext; [|exact (painted_trans _ _ _ _ _ Hab Hbc)].
  intros i Hi. cbv beta. by destruct (Hfull i Hi) as [v ->].
Qed.

(** The first [n] pixels, in order. *)
Definition upto (n : Z) (f : Z -> list Z) (i : Z) : option (list Z) :=
  if (0 <=? i) && (i <? n) then Some (f i) else None.

Lemma painted_snoc f n a b :
  0 <= ax -> ax + w <= W -> 0 <= ay -> ay + h <= H -> 0 < w -> 0 <= n < w * h -> len (f n) = 4 ->
  painted (upto n f) a b ->
  exists b', copy_at b (((ay + n / w) * W + (ax + n mod w)) * 4) (f n) = Some b' /\
    painted (upto (n + 1) f) a b'.
Proof.
  intros ? ? ? ? ? ? ? Hab.
  destruct (painted_pixel b n (f n)) as (b' & Hb' & Hp); [done..|by eapply painted_frame|].
  exists b'. split; [done|]. eapply painted_ext; [|exact (painted_trans _ _ _ _ _ Hab Hp)].
  intros i Hi. cbv beta. unfold upto. destruct (Z.eqb_spec i n) as [->|].
  - by replace (_ && _) with true by lia.
  - by replace (i <? n + 1) with (i <? n) by lia.
Qed.
End rect.

(** Operations on disjoint rectangles commute. *)
Section commute.
Context (x1 y1 w1 h1 x2 y2 w2 h2 : Z).
Context (Hdisj : forall x y, in_rect x1 y1 w1 h1 x y = true -> in_rect x2 y2 w2 h2 x y = false).

Lemma painted_commute col1 col2 a b c b' c' :
  painted x1 y1 w1 h1 col1 a b -> painted x2 y2 w2 h2 col2 b c ->
  painted x2 y2 w2 h2 col2 a b' -> painted x1 y1 w1 h1 col1 b' c' -> c = c'.
Proof.
  intros [_ Hb] [Hc Hpc] [_ Hb'] [Hc' Hpc']. apply pix_ext; [done..|]. intros x y Hx Hy.
  rewrite Hpc, Hpc', Hb, Hb' by done. specialize (Hdisj x y).
  destruct (in_rect x1 y1 w1 h1 x y); [by rewrite Hdisj|done].
Qed.

Lemma paint_action_commute {E} (D1 D2 : list Z -> res E (list Z)) a c :
  paint_action x1 y1 w1 h1 D1 -> paint_action x2 y2 w2 h2 D2 -> frame a ->
  D1 a ≫= D2 = Ok c -> D2 a ≫= D1 = Ok c.
Proof.
  intros HD1 HD2 Ha Hc.
  destruct HD1 as [[col1 H1]|[e H1]]; [|by rewrite H1 in Hc].
  destruct (H1 a Ha) as (b & Hb & Hpb). rewrite Hb in Hc. cbn in Hc.
  pose proof (painted_frame _ _ _ _ _ _ _ Hpb) as Hfb.
  destruct HD2 as [[col2 H2]|[e H2]]; [|by rewrite H2 in Hc].
  destruct (H2 b Hfb) as (c1 & Hc1 & Hpc). rewrite Hc1 in Hc. apply Ok_inj in Hc as <-.
  destruct (H2 a Ha) as (b' & -> & Hpb'). cbn.
  destruct (H1 b') as (c' & -> & Hpc'); [by eapply painted_frame|].
  f_equal. symmetry. exact (painted_commute _ _ _ _ _ _ _ Hpb Hpc Hpb' Hpc').
Qed.
End commute.

Lemma paint_action_frame {E} x y w h (D : list Z -> res E (list Z)) a a' :
  paint_action x y w h D -> frame a -> D a = Ok a' -> frame a'.
Proof.
  intros [[col H0]|[e H0]] Ha Hd; [|by rewrite H0 in Hd].
  destruct (H0 a Ha) as (b & Hb & Hp). rewrite Hb in Hd. apply Ok_inj in Hd as <-.
  by eapply painted_frame.
Qed.

Lemma paint_action_safe {E} x y w h (D : list Z -> res E (list Z)) a :
  paint_action x y w h D -> frame a -> safe (D a).
Proof.
  intros [[col H0]|[e H0]] Ha; [|by rewrite H0].
  by destruct (H0 a Ha) as (b & -> & _).
Qed.

(** A sequence of operations on pairwise disjoint rectangles may be run in any
    order. *)
Lemma paint_foldM_perm {E X} (D : list Z -> X -> res E (list Z)) (rect : X -> Z * Z * Z * Z)
    (R : X -> X -> Prop) l l' :
  (forall c d, R c d -> R d c) ->
  (forall c d x y, R c d ->
     let '(x1, y1, w1, h1) := rect c in let '(x2, y2, w2, h2) := rect d in
     in_rect x1 y1 w1 h1 x y = true -> in_rect x2 y2 w2 h2 x y = false) ->
  Forall (fun c => let '(x, y, w, h) := rect c in paint_action x y w h (fun a => D a c)) l ->
  l ≡ₚ l' -> ForallOrdPairs R l ->
  ForallOrdPairs R l' /\ (forall a a', frame a -> foldM D a l = Ok a' -> foldM D a l' = Ok a').
Proof.
  intros Hsym Hdisj Hpaint Hperm. revert Hpaint.
  induction Hperm as [|c l l' Hl IH|c d l|l1 l2 l3 H12 IH1 H23 IH2]; intros Hpaint HR.
  - done.
  - inversion HR as [|? ? Hc HR']; subst. apply Forall_cons in Hpaint as [Hpc Hpaint].
    destruct (IH Hpaint HR') as [HRl IHl]. split; [constructor; [by rewrite <- Hl|done]|].
    intros a a' Ha Hf. cbn [foldM] in *. run_inv. rewrite Hb. cbn. apply IHl; [|done].
    destruct (rect c) as [[[? ?] ?] ?]. by eapply (paint_action_frame _ _ _ _ (fun a => D a c)).
  - inversion HR as [|? ? Hc HR']; subst. inversion HR' as [|? ? Hd HR'']; subst.
    apply Forall_cons in Hc as [Hcd Hc]. apply Forall_cons in Hpaint as [Hpd Hpaint].
    apply Forall_cons in Hpaint as [Hpc Hpaint].
    split; [constructor; [constructor; auto|by constructor]|].
    intros a a' Ha Hf. cbn [foldM] in *.
    assert (exists b, D a d ≫= (fun a => D a c) = Ok b /\ foldM D b l = Ok a') as (b & Hb & Hl).
    { destruct (D a d) as [b| | |]; cbn in *; try done. by apply bind_ok_inv in Hf. }
    specialize (Hdisj d c). destruct (rect d) as [[[x1 y1] w1] h1], (rect c) as [[[x2 y2] w2] h2].
    apply (paint_action_commute x1 y1 w1 h1 x2 y2 w2 h2 (fun x y => Hdisj x y Hcd)
             (fun a => D a d) (fun a => D a c)) in Hb; [|done..].
    destruct (D a c) as [b'| | |]; cbn in *; try done. by rewrite Hb.
  - destruct (IH1 Hpaint HR) as [HR2 IH1']. destruct IH2 as [HR3 IH2']; [by rewrite <- H12|done|].
    split; [done|]. intros. apply IH2'; [done|]. by apply IH1'.
Qed.
End buffer.

(** ** Pictures

    A picture gives every pixel its color; what a compositor or a graphics card
    does with whole rectangles is stated on pictures. *)

Definition picture : Type := Z -> Z -> option (list Z).

(** Transparent black, what a cleared or a new buffer shows. *)
Definition black : picture := fun _ _ => Some [0; 0; 0; 0].

(** The picture after a rectangle of [src] was copied onto [dst]. *)
Definition blit (src : picture) (sx sy dx dy w h : Z) (dst : picture) : picture := fun x y =>
  if in_rect dx dy w h x y then src (sx + (x - dx)) (sy + (y - dy)) else dst x y.
