(* ===== verification/Text.v ===== *)
(** * Text

    The strings of the program are sequences of Unicode scalar values; this file
    holds what the components use of the standard library on them: UTF-8, white
    space, splitting, ASCII case and decimal numbers. *)

From S2P Require Import Prelude Bytes.
From Stdlib Require Import Ascii.

Definition text : Type := list Z.

(** A literal of the source. *)
Fixpoint str (s : string) : text :=
  match s with
  | EmptyString => []
  | String a s => Z.of_N (N_of_ascii a) :: str s
  end.

Definition is_scalar (c : Z) : Prop := 0 <= c <= 0xd7ff \/ 0xe000 <= c <= 0x10ffff.

(** ** UTF-8 *)

Definition utf8_char (c : Z) : list Z :=
  if c <? 0x80 then [c]
  else if c <? 0x800 then [0xc0 + c / 64; 0x80 + c mod 64]
  else if c <? 0x10000 then [0xe0 + c / 4096; 0x80 + c / 64 mod 64; 0x80 + c mod 64]
  else [0xf0 + c / 262144; 0x80 + c / 4096 mod 64; 0x80 + c / 64 mod 64; 0x80 + c mod 64].

(** [s.as_bytes()] *)
Definition utf8 (t : text) : list Z := concat (map utf8_char t).

Definition within (lo hi b : Z) : bool := (lo <=? b) && (b <=? hi).
Definition is_cont (b : Z) : bool := within 0x80 0xbf b.

(** The second byte that may follow the first one of three or four. *)
Definition second_of_3 (b0 b1 : Z) : bool :=
  if b0 =? 0xe0 then within 0xa0 0xbf b1
  else if b0 =? 0xed then within 0x80 0x9f b1
  else is_cont b1.

Definition second_of_4 (b0 b1 : Z) : bool :=
  if b0 =? 0xf0 then within 0x90 0xbf b1
  else if b0 =? 0xf4 then within 0x80 0x8f b1
  else is_cont b1.

(** The next scalar value, or [None] for a maximal invalid sequence, and the rest. *)
Definition utf8_next (bs : list Z) : option (option Z * list Z) :=
  match bs with
  | [] => None
  | b0 :: r0 => Some (
      if b0 <? 0x80 then (Some b0, r0)
      else if within 0xc2 0xdf b0 then
        match r0 with
        | b1 :: r1 => if is_cont b1 then (Some ((b0 - 0xc0) * 64 + (b1 - 0x80)), r1) else (None, r0)
        | [] => (None, r0)
        end
      else if within 0xe0 0xef b0 then
        match r0 with
        | b1 :: r1 =>
            if second_of_3 b0 b1 then
              match r1 with
              | b2 :: r2 =>
                  if is_cont b2
                  then (Some ((b0 - 0xe0) * 4096 + (b1 - 0x80) * 64 + (b2 - 0x80)), r2)
                  else (None, r1)
              | [] => (None, r1)
              end
            else (None, r0)
        | [] => (None, r0)
        end
      else if within 0xf0 0xf4 b0 then
        match r0 with
        | b1 :: r1 =>
            if second_of_4 b0 b1 then
              match r1 with
              | b2 :: r2 =>
                  if is_cont b2 then
                    match r2 with
                    | b3 :: r3 =>
                        if is_cont b3
                        then (Some ((b0 - 0xf0) * 262144 + (b1 - 0x80) * 4096 + (b2 - 0x80) * 64
                                    + (b3 - 0x80)), r3)
                        else (None, r2)
                    | [] => (None, r2)
                    end
                  else (None, r1)
              | [] => (None, r1)
              end
            else (None, r0)
        | [] => (None, r0)
        end
      else (None, r0))
  end.

Definition REPLACEMENT : Z := 0xfffd.

Fixpoint utf8_decode (fuel : nat) (bs : list Z) : list (option Z) :=
  match fuel, utf8_next bs with
  | S fuel, Some (c, rest) => c :: utf8_decode fuel rest
  | _, _ => []
  end.

(** [String::from_utf8_lossy(bs)] *)
Definition from_utf8_lossy (bs : list Z) : text :=
  map (fun c => match c with Some c => c | None => REPLACEMENT end) (utf8_decode (length bs) bs).

(** [String::from_utf8(bs).ok()] *)
Definition from_utf8 (bs : list Z) : option text := mapM id (utf8_decode (length bs) bs).

(** ** White space *)

(** The White_Space property. *)
Definition is_whitespace (c : Z) : bool :=
  within 9 13 c || (c =? 32) || (c =? 0x85) || (c =? 0xa0) || (c =? 0x1680) ||
  within 0x2000 0x200a c || (c =? 0x2028) || (c =? 0x2029) || (c =? 0x202f) ||
  (c =? 0x205f) || (c =? 0x3000).

Fixpoint drop_while (p : Z -> bool) (t : text) : text :=
  match t with
  | c :: t' => if p c then drop_while p t' else t
  | [] => []
  end.

Definition trim_end_by (p : Z -> bool) (t : text) : text := reverse (drop_while p (reverse t)).
Definition trim_by (p : Z -> bool) (t : text) : text := trim_end_by p (drop_while p t).

(** [s.trim()], [s.trim_matches(c)] *)
Definition trim (t : text) : text := trim_by is_whitespace t.
Definition trim_matches (c : Z) (t : text) : text := trim_by (Z.eqb c) t.

(** [s.split_whitespace()]: the maximal runs of other characters. *)
Fixpoint split_whitespace_from (word : text) (t : text) : list text :=
  match t with
  | [] => match word with [] => [] | _ => [word] end
  | c :: t' =>
      if is_whitespace c
      then match word with [] => split_whitespace_from [] t'
                         | _ => word :: split_whitespace_from [] t' end
      else split_whitespace_from (word ++ [c]) t'
  end.
Definition split_whitespace (t : text) : list text := split_whitespace_from [] t.

(** ** Splitting *)

(** [s.starts_with(p)], [s.strip_prefix(p)] *)
Fixpoint strip_prefix (p t : text) : option text :=
  match p, t with
  | [], _ => Some t
  | a :: p, c :: t => if a =? c then strip_prefix p t else None
  | _ :: _, [] => None
  end.
Definition starts_with (p t : text) : bool :=
  match strip_prefix p t with Some _ => true | None => false end.

(** [s.split_once(c)] *)
Fixpoint split_once (c : Z) (t : text) : option (text * text) :=
  match t with
  | [] => None
  | d :: t' =>
      if d =? c then Some ([], t')
      else match split_once c t' with Some (a, b) => Some (d :: a, b) | None => None end
  end.

(** [s.split(c)] *)
Fixpoint split_on (c : Z) (t : text) : list text :=
  match t with
  | [] => [[]]
  | d :: t' =>
      match split_on c t' with
      | w :: ws => if d =? c then [] :: w :: ws else (d :: w) :: ws
      | [] => []
      end
  end.

(** ** ASCII case *)

Definition to_ascii_lowercase_char (c : Z) : Z := if within 65 90 c then c + 32 else c.
Definition to_ascii_lowercase (t : text) : text := map to_ascii_lowercase_char t.

(** ** Decimal numbers *)

Definition digit (c : Z) : option Z := if within 48 57 c then Some (c - 48) else None.

(** [s.parse::<uN>().ok()]: an optional plus sign and digits, within the range. *)
Fixpoint parse_digits (max acc : Z) (t : text) : option Z :=
  match t with
  | [] => Some acc
  | c :: t' =>
      d ← digit c;
      m ← checked_mul max acc 10;
      n ← checked_add max m d;
      parse_digits max n t'
  end.

Definition parse_uint (max : Z) (t : text) : option Z :=
  match t with
  | [] => None
  | [43] => None
  | 43 :: t' => parse_digits max 0 t'
  | _ => parse_digits max 0 t
  end.

(** ** UTF-8 lemmas *)

(** Decide the conditions of [utf8_next] one after the other. *)
Ltac utf8_eval :=
  repeat (match goal with
          | |- context [if ?b then _ else _] =>
              first [ replace b with true by (unfold second_of_3, second_of_4, is_cont, within; repeat case_match; lia)
                    | replace b with false by (unfold second_of_3, second_of_4, is_cont, within; repeat case_match; lia) ]
          end; cbn beta iota).

Lemma utf8_next_char c rest : is_scalar c -> utf8_next (utf8_char c ++ rest) = Some (Some c, rest).
Proof.
  intros Hc. unfold is_scalar in Hc. unfold utf8_char.
  pose proof (Z.div_mod c 64 ltac:(lia)). pose proof (Z.mod_pos_bound c 64 ltac:(lia)).
  assert (c / 4096 = c / 64 / 64) as E1 by (by rewrite Z.div_div by lia).
  assert (c / 262144 = c / 64 / 64 / 64) as E2 by (by rewrite !Z.div_div by lia).
  pose proof (Z.div_mod (c / 64) 64 ltac:(lia)). pose proof (Z.mod_pos_bound (c / 64) 64 ltac:(lia)).
  pose proof (Z.div_mod (c / 64 / 64) 64 ltac:(lia)). pose proof (Z.mod_pos_bound (c / 64 / 64) 64 ltac:(lia)).
  rewrite E1, E2.
  generalize dependent (c / 64 / 64 / 64); intros q3. generalize dependent (c / 64 / 64 mod 64); intros r2.
  generalize dependent (c / 64 / 64); intros q2. generalize dependent (c / 64 mod 64); intros r1.
  generalize dependent (c / 64); intros q1. generalize dependent (c mod 64); intros r0. intros.
  destruct (Z.ltb_spec c 0x80); [|destruct (Z.ltb_spec c 0x800); [|destruct (Z.ltb_spec c 0x10000)]];
    cbn [app utf8_next]; utf8_eval; f_equal; f_equal; f_equal; lia.
Qed.

Lemma utf8_char_eq_2 b0 b1 :
  within 0xc2 0xdf b0 = true -> is_cont b1 = true ->
  let c := (b0 - 0xc0) * 64 + (b1 - 0x80) in is_scalar c /\ utf8_char c = [b0; b1].
Proof.
  intros H0 H1 c. unfold is_cont, within in *. split; [unfold is_scalar, c; lia|]. unfold utf8_char.
  replace (c <? 0x80) with false by (unfold c; lia). replace (c <? 0x800) with true by (unfold c; lia).
  replace (c / 64) with (b0 - 0xc0) by (apply (Z.div_unique c 64 _ (b1 - 0x80)); unfold c; lia).
  replace (c mod 64) with (b1 - 0x80) by (apply (Z.mod_unique c 64 (b0 - 0xc0)); unfold c; lia).
  repeat (f_equal; try lia).
Qed.

Lemma utf8_char_eq_3 b0 b1 b2 :
  within 0xe0 0xef b0 = true -> second_of_3 b0 b1 = true -> is_cont b2 = true ->
  let c := (b0 - 0xe0) * 4096 + (b1 - 0x80) * 64 + (b2 - 0x80) in
  is_scalar c /\ utf8_char c = [b0; b1; b2].
Proof.
  intros H0 H1 H2 c. unfold second_of_3, is_cont, within in *.
  assert (0x80 <= b1 <= 0xbf /\ (b0 = 0xe0 -> 0xa0 <= b1) /\ (b0 = 0xed -> b1 <= 0x9f)) by (repeat case_match; lia).
  split; [unfold is_scalar, c; lia|]. unfold utf8_char.
  replace (c <? 0x80) with false by (unfold c; lia). replace (c <? 0x800) with false by (unfold c; lia).
  replace (c <? 0x10000) with true by (unfold c; lia).
  assert (c / 64 = (b0 - 0xe0) * 64 + (b1 - 0x80)) as E1
    by (symmetry; apply (Z.div_unique c 64 _ (b2 - 0x80)); unfold c; lia).
  assert (c mod 64 = b2 - 0x80) as E0
    by (symmetry; apply (Z.mod_unique c 64 ((b0 - 0xe0) * 64 + (b1 - 0x80))); unfold c; lia).
  assert (c / 4096 = b0 - 0xe0) as E2
    by (symmetry; apply (Z.div_unique c 4096 _ ((b1 - 0x80) * 64 + (b2 - 0x80))); unfold c; lia).
  rewrite E0, E1, E2.
  replace (((b0 - 0xe0) * 64 + (b1 - 0x80)) mod 64) with (b1 - 0x80)
    by (apply (Z.mod_unique _ 64 (b0 - 0xe0)); lia).
  repeat (f_equal; try lia).
Qed.

Lemma utf8_char_eq_4 b0 b1 b2 b3 :
  within 0xf0 0xf4 b0 = true -> second_of_4 b0 b1 = true -> is_cont b2 = true -> is_cont b3 = true ->
  let c := (b0 - 0xf0) * 262144 + (b1 - 0x80) * 4096 + (b2 - 0x80) * 64 + (b3 - 0x80) in
  is_scalar c /\ utf8_char c = [b0; b1; b2; b3].
Proof.
  intros H0 H1 H2 H3 c. unfold second_of_4, is_cont, within in *.
  assert (0x80 <= b1 <= 0xbf /\ (b0 = 0xf0 -> 0x90 <= b1) /\ (b0 = 0xf4 -> b1 <= 0x8f)) by (repeat case_match; lia).
  split; [unfold is_scalar, c; lia|]. unfold utf8_char.
  replace (c <? 0x80) with false by (unfold c; lia). replace (c <? 0x800) with false by (unfold c; lia).
  replace (c <? 0x10000) with false by (unfold c; lia).
  assert (c mod 64 = b3 - 0x80) as E0
    by (symmetry; apply (Z.mod_unique c 64 ((b0 - 0xf0) * 4096 + (b1 - 0x80) * 64 + (b2 - 0x80))); unfold c; lia).
  assert (c / 64 = (b0 - 0xf0) * 4096 + (b1 - 0x80) * 64 + (b2 - 0x80)) as E1
    by (symmetry; apply (Z.div_unique c 64 _ (b3 - 0x80)); unfold c; lia).
  assert (c / 4096 = (b0 - 0xf0) * 64 + (b1 - 0x80)) as E2
    by (symmetry; apply (Z.div_unique c 4096 _ ((b2 - 0x80) * 64 + (b3 - 0x80))); unfold c; lia).
  assert (c / 262144 = b0 - 0xf0) as E3
    by (symmetry; apply (Z.div_unique c 262144 _ ((b1 - 0x80) * 4096 + (b2 - 0x80) * 64 + (b3 - 0x80))); unfold c; lia).
  rewrite E0, E1, E2, E3.
  replace (((b0 - 0xf0) * 4096 + (b1 - 0x80) * 64 + (b2 - 0x80)) mod 64) with (b2 - 0x80)
    by (apply (Z.mod_unique _ 64 ((b0 - 0xf0) * 64 + (b1 - 0x80))); lia).
  replace (((b0 - 0xf0) * 64 + (b1 - 0x80)) mod 64) with (b1 - 0x80)
    by (apply (Z.mod_unique _ 64 (b0 - 0xf0)); lia).
  repeat (f_equal; try lia).
Qed.

Lemma utf8_next_inv bs c rest :
  bytes_ok bs -> utf8_next bs = Some (Some c, rest) -> is_scalar c /\ bs = utf8_char c ++ rest.
Proof.
  intros Hbs H. destruct bs as [|b0 r0]; [done|]. cbn [utf8_next] in H. apply (inj Some) in H.
  apply Forall_cons in Hbs as [Hb0 _]. unfold is_u8 in Hb0.
  destruct (Z.ltb_spec b0 0x80).
  { simplify_eq. split; [unfold is_scalar; lia|]. unfold utf8_char. by replace (c <? 0x80) with true by lia. }
  repeat case_match; simplify_eq.
  - by destruct (utf8_char_eq_2 b0 z) as [? ->].
  - by destruct (utf8_char_eq_3 b0 z z0) as [? ->].
  - by destruct (utf8_char_eq_4 b0 z z0 z1) as [? ->].
Qed.

Lemma utf8_next_rest bs c rest : utf8_next bs = Some (c, rest) -> (length rest < length bs)%nat.
Proof.
  destruct bs as [|b0 r0]; [done|]. cbn [utf8_next]. intros H. apply (inj Some) in H.
  repeat case_match; simplify_eq; cbn; lia.
Qed.

Lemma utf8_char_nonempty c : (0 < length (utf8_char c))%nat.
Proof. unfold utf8_char. repeat case_match; cbn; lia. Qed.

Lemma utf8_cons c t : utf8 (c :: t) = utf8_char c ++ utf8 t.
Proof. done. Qed.

Lemma utf8_app s t : utf8 (s ++ t) = utf8 s ++ utf8 t.
Proof. unfold utf8. by rewrite map_app, concat_app. Qed.

Lemma utf8_decode_utf8 fuel t :
  Forall is_scalar t -> (length (utf8 t) <= fuel)%nat -> utf8_decode fuel (utf8 t) = map Some t.
Proof.
  intros Ht. revert fuel; induction Ht as [|c t Hc Ht IH]; intros fuel Hf; [by destruct fuel|].
  rewrite utf8_cons in *. rewrite length_app in Hf. pose proof (utf8_char_nonempty c).
  destruct fuel; [lia|]. cbn [utf8_decode]. rewrite utf8_next_char by done. cbn [map]. by rewrite IH by lia.
Qed.

Lemma from_utf8_lossy_utf8 t : Forall is_scalar t -> from_utf8_lossy (utf8 t) = t.
Proof.
  intros Ht. unfold from_utf8_lossy. rewrite utf8_decode_utf8 by done. rewrite map_map. apply map_id.
Qed.

Lemma from_utf8_utf8 t : Forall is_scalar t -> from_utf8 (utf8 t) = Some t.
Proof.
  intros Ht. unfold from_utf8. rewrite utf8_decode_utf8 by done. clear Ht.
  induction t as [|c t IH]; [done|]. cbn in *. by rewrite IH.
Qed.

Lemma utf8_decode_inv fuel bs t :
  bytes_ok bs -> (length bs <= fuel)%nat -> mapM id (utf8_decode fuel bs) = Some t ->
  Forall is_scalar t /\ bs = utf8 t.
Proof.
  revert bs t; induction fuel as [|fuel IH]; intros bs t Hbs Hf H.
  { destruct bs; [|cbn in Hf; lia]. injection H as <-. split; [constructor|done]. }
  cbn [utf8_decode] in H. destruct (utf8_next bs) as [[c rest]|] eqn:Hn; last first.
  { destruct bs; [|done]. injection H as <-. split; [constructor|done]. }
  pose proof (utf8_next_rest _ _ _ Hn). cbn in H. destruct c as [c|]; [|done]. cbn in H.
  apply bind_Some in H as (t' & Ht' & H). injection H as <-.
  apply utf8_next_inv in Hn as [Hc ->]; [|done]. apply Forall_app in Hbs as [_ Hbs].
  apply IH in Ht' as [Hs ->]; [|done|lia]. split; [by constructor|done].
Qed.

(** The bytes of a string are exactly its UTF-8 encoding. *)
Lemma from_utf8_inv bs t : bytes_ok bs -> from_utf8 bs = Some t -> Forall is_scalar t /\ bs = utf8 t.
Proof. intros Hbs. by apply utf8_decode_inv. Qed.

Lemma utf8_char_ok c : is_scalar c -> bytes_ok (utf8_char c).
Proof.
  intros Hc. unfold is_scalar in Hc. unfold utf8_char.
  pose proof (Z.mod_pos_bound c 64 ltac:(lia)). pose proof (Z.mod_pos_bound (c / 64) 64 ltac:(lia)).
  pose proof (Z.mod_pos_bound (c / 4096) 64 ltac:(lia)).
  assert (0 <= c / 64 /\ c / 64 * 64 <= c) by (pose proof (Z.div_mod c 64); split; [apply Z.div_pos|]; lia).
  assert (0 <= c / 4096 /\ c / 4096 * 4096 <= c) by
    (pose proof (Z.div_mod c 4096); pose proof (Z.mod_pos_bound c 4096); split; [apply Z.div_pos|]; lia).
  assert (0 <= c / 262144 /\ c / 262144 * 262144 <= c) by
    (pose proof (Z.div_mod c 262144); pose proof (Z.mod_pos_bound c 262144); split; [apply Z.div_pos|]; lia).
  repeat case_match; repeat (apply Forall_cons_2; [unfold is_u8, u8_max; lia|]); apply Forall_nil_2.
Qed.

Lemma utf8_ok t : Forall is_scalar t -> bytes_ok (utf8 t).
Proof.
  induction 1 as [|c t Hc Ht IH]; [constructor|]. rewrite utf8_cons. apply Forall_app_2; [|done].
  by apply utf8_char_ok.
Qed.

(** ASCII text is its own encoding. *)
Definition is_ascii (t : text) : Prop := Forall (fun c => 0 <= c < 128) t.

(** A closed decidable statement, by evaluation. *)
Ltac by_evaluation := apply (bool_decide_unpack _); vm_compute; exact I.

#[export] Instance is_ascii_dec t : Decision (is_ascii t).
Proof. unfold is_ascii. apply _. Defined.

Lemma utf8_ascii t : is_ascii t -> utf8 t = t.
Proof.
  induction 1 as [|c t Hc Ht IH]; [done|]. rewrite utf8_cons, IH. unfold utf8_char.
  by replace (c <? 0x80) with true by lia.
Qed.

Lemma ascii_scalar t : is_ascii t -> Forall is_scalar t.
Proof. intros H. eapply Forall_impl; [exact H|]. intros c Hc. cbn in Hc. unfold is_scalar. lia. Qed.

(** ** White space lemmas *)

Definition no_space (t : text) : Prop := Forall (fun c => is_whitespace c = false) t.

#[export] Instance no_space_dec t : Decision (no_space t).
Proof. unfold no_space. apply _. Defined.

Lemma drop_while_none p c t : p c = false -> drop_while p (c :: t) = c :: t.
Proof. cbn. by intros ->. Qed.

(** Trimming does nothing to text that starts and ends with other characters. *)
Lemma trim_by_id p a t b :
  p a = false -> p b = false -> trim_by p (a :: t ++ [b]) = a :: t ++ [b].
Proof.
  intros Ha Hb. unfold trim_by, trim_end_by. rewrite drop_while_none by done.
  rewrite app_comm_cons, reverse_snoc, drop_while_none by done.
  by rewrite reverse_cons, reverse_involutive.
Qed.

Lemma drop_while_app p s t : Forall (fun c => p c = true) s -> drop_while p (s ++ t) = drop_while p t.
Proof. induction 1 as [|c s Hc Hs IH]; [done|]. cbn. by rewrite Hc. Qed.

(** Trailing characters of the class disappear. *)
Lemma trim_end_app p t s :
  Forall (fun c => p c = true) s -> trim_end_by p (t ++ s) = trim_end_by p t.
Proof.
  intros Hs. unfold trim_end_by. rewrite reverse_app, drop_while_app; [done|]. by rewrite Forall_reverse.
Qed.

Lemma split_whitespace_word w t acc :
  no_space w -> split_whitespace_from acc (w ++ t) = split_whitespace_from (acc ++ w) t.
Proof.
  intros Hw. revert acc; induction Hw as [|c w Hc Hw IH]; intros acc; cbn; [by rewrite app_nil_r|].
  rewrite Hc, IH. by rewrite <- app_assoc.
Qed.

(** A word followed by white space is the first part. *)
Lemma split_whitespace_cons w c t :
  no_space w -> w <> [] -> is_whitespace c = true ->
  split_whitespace (w ++ c :: t) = w :: split_whitespace t.
Proof.
  intros Hw Hne Hc. unfold split_whitespace. rewrite split_whitespace_word by done. cbn. rewrite Hc.
  by destruct w.
Qed.

Lemma strip_prefix_app p t : strip_prefix p (p ++ t) = Some t.
Proof. induction p as [|a p IH]; cbn; [done|]. by rewrite Z.eqb_refl. Qed.

Lemma strip_prefix_inv p t r : strip_prefix p t = Some r -> t = p ++ r.
Proof.
  revert t; induction p as [|a p IH]; intros t; cbn; [by intros [= ->]|].
  destruct t as [|c t]; [done|]. destruct (Z.eqb_spec a c) as [->|]; [|done]. intros H. by rewrite (IH t).
Qed.
