(* ===== verification/Frames.v ===== *)
(** * Frames

    The length-prefixed frames of [apps/talos_protocol/src/lib.rs] (control, shell,
    chat and file transfer) and the readers that take them off a byte stream in
    [apps/talos_worker/src/shell.rs] and [apps/talos_worker/src/chat.rs].

    [FrameCodec] is what a framing promises to the code that sends messages
    through it; the three formats that have both a builder and a parser are its
    instances. *)

From S2P Require Import Prelude Bytes.

(** ** Control frames: [len u16 BE][type u8][payload] *)

Module Control.

Definition CONTROL_MAX_PAYLOAD_LEN : Z := u16_max.

Record ControlFrame := { message_type : Z; payload : list Z }.

Inductive ControlParseError := TooShort | LengthMismatch | LengthOverflow.

Inductive ControlEncodeError := PayloadTooLarge.

Definition parse_control_frame (frame : list Z) : res ControlParseError ControlFrame :=
  if len frame <? 3 then Err TooShort else
  b0 ← or_panic (at_index frame 0);
  b1 ← or_panic (at_index frame 1);
  let length := be_val [b0; b1] in
  if CONTROL_MAX_PAYLOAD_LEN <? length then Err LengthOverflow else
  if negb (len frame =? 3 + length) then Err LengthMismatch else
  message_type ← or_panic (at_index frame 2);
  payload ← or_panic (slice frame 3 (len frame));
  Ok {| message_type := message_type; payload := payload |}.

Definition build_control_frame (message_type : Z) (payload : list Z)
    : res ControlEncodeError (list Z) :=
  if CONTROL_MAX_PAYLOAD_LEN <? len payload then Err PayloadTooLarge else
  Ok (be_bytes 2 (as_u16 (len payload)) ++ [message_type] ++ payload).

End Control.

(** ** Shell frames: [type u8][len u16 BE][payload] *)

Module Shell.

Definition SHELL_MAX_PAYLOAD_LEN : Z := u16_max.
Definition SHELL_RESIZE_PAYLOAD_LEN : Z := 4.
Definition SHELL_EXIT_PAYLOAD_LEN : Z := 4.

Record ShellFrame := { message_type : Z; payload : list Z }.

Inductive ShellFrameError := TooShort | LengthOverflow | Io (e : string).

Definition build_shell_frame (message_type : Z) (payload : list Z)
    : res ShellFrameError (list Z) :=
  if SHELL_MAX_PAYLOAD_LEN <? len payload then Err LengthOverflow else
  Ok ([message_type] ++ be_bytes 2 (as_u16 (len payload)) ++ payload).

Definition build_shell_resize_payload (cols rows : Z) : res Empty_set (list Z) :=
  buf ← or_panic (copy_at (zeros SHELL_RESIZE_PAYLOAD_LEN) 0 (be_bytes 2 cols));
  or_panic (copy_at buf 2 (be_bytes 2 rows)).

Definition parse_shell_resize_payload (payload : list Z) : res Empty_set (option (Z * Z)) :=
  if len payload <? SHELL_RESIZE_PAYLOAD_LEN then Ok None else
  b0 ← or_panic (at_index payload 0);
  b1 ← or_panic (at_index payload 1);
  b2 ← or_panic (at_index payload 2);
  b3 ← or_panic (at_index payload 3);
  Ok (Some (be_val [b0; b1], be_val [b2; b3])).

Definition build_shell_exit_payload (exit_code : Z) : list Z := be_bytes 4 exit_code.

Definition parse_shell_exit_payload (payload : list Z) : res Empty_set (option Z) :=
  if len payload <? SHELL_EXIT_PAYLOAD_LEN then Ok None else
  b0 ← or_panic (at_index payload 0);
  b1 ← or_panic (at_index payload 1);
  b2 ← or_panic (at_index payload 2);
  b3 ← or_panic (at_index payload 3);
  Ok (Some (be_val [b0; b1; b2; b3])).

End Shell.

(** ** Chat frames: [type u8][len u16 BE][payload] *)

Module Chat.

Definition CHAT_MAX_PAYLOAD_LEN : Z := u16_max.

Inductive ChatFrameError := TooShort | LengthMismatch | LengthOverflow | Io (e : string).

Definition build_chat_frame (message_type : Z) (payload : list Z)
    : res ChatFrameError (list Z) :=
  if CHAT_MAX_PAYLOAD_LEN <? len payload then Err LengthOverflow else
  Ok ([message_type] ++ be_bytes 2 (as_u16 (len payload)) ++ payload).

Definition parse_chat_frame (frame : list Z) : res ChatFrameError (Z * list Z) :=
  if len frame <? 3 then Err TooShort else
  message_type ← or_panic (at_index frame 0);
  b1 ← or_panic (at_index frame 1);
  b2 ← or_panic (at_index frame 2);
  let length := be_val [b1; b2] in
  if CHAT_MAX_PAYLOAD_LEN <? length then Err LengthOverflow else
  if negb (len frame =? 3 + length) then Err LengthMismatch else
  payload ← or_panic (slice frame 3 (len frame));
  Ok (message_type, payload).

End Chat.

(** ** File transfer frames: [type u8][len u32 BE][payload] *)

Module FileTransfer.

Definition FILE_TRANSFER_MAX_PAYLOAD_LEN : Z := 4 * 1024 * 1024.

Record FileTransferFrame := { message_type : Z; payload : list Z }.

Inductive FileTransferFrameError := TooShort | LengthOverflow | LengthMismatch | PayloadTooLarge.

Definition parse_file_transfer_frame (frame : list Z)
    : res FileTransferFrameError FileTransferFrame :=
  if len frame <? 5 then Err TooShort else
  b1 ← or_panic (at_index frame 1);
  b2 ← or_panic (at_index frame 2);
  b3 ← or_panic (at_index frame 3);
  b4 ← or_panic (at_index frame 4);
  let payload_len := be_val [b1; b2; b3; b4] in
  if FILE_TRANSFER_MAX_PAYLOAD_LEN <? payload_len then Err LengthOverflow else
  if negb (len frame =? 5 + payload_len) then Err LengthMismatch else
  message_type ← or_panic (at_index frame 0);
  payload ← or_panic (slice frame 5 (len frame));
  Ok {| message_type := message_type; payload := payload |}.

Definition build_file_transfer_frame (message_type : Z) (payload : list Z)
    : res FileTransferFrameError (list Z) :=
  if FILE_TRANSFER_MAX_PAYLOAD_LEN <? len payload then Err PayloadTooLarge else
  Ok ([message_type] ++ be_bytes 4 (as_u32 (len payload)) ++ payload).

End FileTransfer.

(** ** Reading frames off a byte stream

    The bytes a peer will still deliver before it closes the stream.
    [read_exact] takes a full buffer or fails; an interrupted connection is the
    end of the list. *)

Module Stream.

Inductive stream_err := ReadHeader | ReadPayload | PayloadTooLarge.

Definition read_exact (n : Z) (input : list Z) : option (list Z * list Z) :=
  if n <=? len input
  then Some (take (Z.to_nat n) input, drop (Z.to_nat n) input)
  else None.

Definition read_shell_frame (input : list Z) : res stream_err (Shell.ShellFrame * list Z) :=
  '(header, input) ← ok_or (read_exact 3 input) ReadHeader;
  message_type ← or_panic (at_index header 0);
  b1 ← or_panic (at_index header 1);
  b2 ← or_panic (at_index header 2);
  let length := be_val [b1; b2] in
  '(payload, input) ←
    (if 0 <? length then ok_or (read_exact length input) ReadPayload
     else Ok (zeros length, input));
  Ok ({| Shell.message_type := message_type; Shell.payload := payload |}, input).

Definition write_shell_frame (output : list Z) (message_type : Z) (payload : list Z)
    : res Shell.ShellFrameError (list Z) :=
  frame ← Shell.build_shell_frame message_type payload;
  Ok (output ++ frame).

(** A stream that ends inside the header is reported as the end of the chat. *)
Definition read_chat_tcp_frame (input : list Z)
    : res stream_err (option (Z * list Z) * list Z) :=
  match read_exact 3 input with
  | None => Ok (None, [])
  | Some (hdr, input) =>
      b1 ← or_panic (at_index hdr 1);
      b2 ← or_panic (at_index hdr 2);
      let length := be_val [b1; b2] in
      if Chat.CHAT_MAX_PAYLOAD_LEN <? length then Err PayloadTooLarge else
      '(payload, input) ←
        (if 0 <? length then ok_or (read_exact length input) ReadPayload
         else Ok (zeros length, input));
      b0 ← or_panic (at_index hdr 0);
      Ok (Some (b0, payload), input)
  end.

Definition write_chat_tcp_frame (output : list Z) (message_type : Z) (payload : list Z)
    : res Chat.ChatFrameError (list Z) :=
  frame ← Chat.build_chat_frame message_type payload;
  Ok (output ++ frame).

(** [n] reads in a row, as the session loops make them. *)
Fixpoint read_shell_frames (n : nat) (input : list Z)
    : res stream_err (list Shell.ShellFrame * list Z) :=
  match n with
  | O => Ok ([], input)
  | S n =>
      '(f, input) ← read_shell_frame input;
      '(fs, input) ← read_shell_frames n input;
      Ok (f :: fs, input)
  end.

End Stream.

(** ** The interface *)

Class FrameCodec (E F : Type) := {
  build_frame : Z -> list Z -> res E (list Z);
  parse_frame : list Z -> res F (Z * list Z);
  max_payload : Z;
}.

Class FrameCodecLaws {E F} (C : FrameCodec E F) := {
  build_frame_total : forall t p,
    len p <= max_payload -> exists f, build_frame t p = Ok f;
  build_frame_limit : forall t p f,
    build_frame t p = Ok f -> len p <= max_payload;
  parse_build_frame : forall t p f,
    build_frame t p = Ok f -> parse_frame f = Ok (t, p);
  build_parse_frame : forall t p f,
    bytes_ok f -> parse_frame f = Ok (t, p) -> build_frame t p = Ok f;
  parse_frame_safe : forall f, safe (parse_frame f);
}.

#[export] Instance control_codec : FrameCodec Control.ControlEncodeError Control.ControlParseError := {
  build_frame := Control.build_control_frame;
  parse_frame f :=
    r ← Control.parse_control_frame f; Ok (Control.message_type r, Control.payload r);
  max_payload := Control.CONTROL_MAX_PAYLOAD_LEN;
}.

#[export] Instance chat_codec : FrameCodec Chat.ChatFrameError Chat.ChatFrameError := {
  build_frame := Chat.build_chat_frame;
  parse_frame := Chat.parse_chat_frame;
  max_payload := Chat.CHAT_MAX_PAYLOAD_LEN;
}.

#[export] Instance file_transfer_codec :
    FrameCodec FileTransfer.FileTransferFrameError FileTransfer.FileTransferFrameError := {
  build_frame := FileTransfer.build_file_transfer_frame;
  parse_frame f :=
    r ← FileTransfer.parse_file_transfer_frame f;
    Ok (FileTransfer.message_type r, FileTransfer.payload r);
  max_payload := FileTransfer.FILE_TRANSFER_MAX_PAYLOAD_LEN;
}.

(** ** Proofs *)

Lemma be_bytes_2 n :
  is_u16 n -> exists a b, be_bytes 2 n = [a; b] /\ be_val [a; b] = n.
Proof.
  intros Hn. destruct (len_2_inv (be_bytes 2 n)) as (a & b & Hab); [len_solve|].
  exists a, b. split; [done|]. rewrite <- Hab. by apply be_val_u16_bytes.
Qed.

Lemma be_bytes_4 n :
  is_u32 n -> exists a b c d, be_bytes 4 n = [a; b; c; d] /\ be_val [a; b; c; d] = n.
Proof.
  intros Hn. destruct (len_4_inv (be_bytes 4 n)) as (a & b & c & d & Hab); [len_solve|].
  exists a, b, c, d. split; [done|]. rewrite <- Hab. by apply be_val_u32_bytes.
Qed.

Lemma be_val_2_bytes a b :
  bytes_ok [a; b] -> be_bytes 2 (be_val [a; b]) = [a; b] /\ is_u16 (be_val [a; b]).
Proof.
  intros H. split; [by apply be_bytes_be_val|].
  pose proof (be_val_bound 2 [a; b] H eq_refl) as Hb.
  change (2 ^ (2 * 8)) with 65536 in Hb. unfold is_u16, u16_max; lia.
Qed.

Lemma be_val_4_bytes a b c d :
  bytes_ok [a; b; c; d] ->
  be_bytes 4 (be_val [a; b; c; d]) = [a; b; c; d] /\ is_u32 (be_val [a; b; c; d]).
Proof.
  intros H. split; [by apply be_bytes_be_val|].
  pose proof (be_val_bound 4 [a; b; c; d] H eq_refl) as Hb.
  change (2 ^ (4 * 8)) with 4294967296 in Hb. unfold is_u32, u32_max; lia.
Qed.

(** The first elements of an explicit list. *)
Ltac index_eval :=
  repeat match goal with
  | |- context [at_index ?l ?i] =>
      let r := eval hnf in (at_index l i) in change (at_index l i) with r
  end; cbn [or_panic ok_or mbind res_bind].

(** Every parser ends the same way: the announced length is checked against the
    limit and against the bytes that follow the header. *)
Lemma frame_tail {E A} (e1 e2 : E) (max k v : Z) (hdr p : list Z) (mk : list Z -> A) :
  k = len hdr ->
  (if max <? v then Err e1 else
   if negb (len (hdr ++ p) =? k + v) then Err e2 else
   q ← or_panic (slice (hdr ++ p) k (len (hdr ++ p))); Ok (mk q))
  = (if max <? v then Err e1 else if negb (len p =? v) then Err e2 else Ok (mk p)).
Proof.
  intros ->. rewrite slice_tail, len_app by done. repeat zify_goal; try lia; done.
Qed.

Ltac frame_tail hdr :=
  rewrite (frame_tail _ _ _ _ _ hdr) by done; cbn [mbind res_bind].

Lemma parse_control_frame_cons a b t p :
  Control.parse_control_frame ([a; b; t] ++ p) =
  (if Control.CONTROL_MAX_PAYLOAD_LEN <? be_val [a; b] then Err Control.LengthOverflow else
   if negb (len p =? be_val [a; b]) then Err Control.LengthMismatch else
   Ok {| Control.message_type := t; Control.payload := p |}).
Proof.
  unfold Control.parse_control_frame. pose proof (len_nonneg p).
  rewrite len_app at 1. change (len [a; b; t]) with 3. zify_goal; [lia|].
  index_eval. by frame_tail [a; b; t].
Qed.

Lemma parse_chat_frame_cons t a b p :
  Chat.parse_chat_frame ([t; a; b] ++ p) =
  (if Chat.CHAT_MAX_PAYLOAD_LEN <? be_val [a; b] then Err Chat.LengthOverflow else
   if negb (len p =? be_val [a; b]) then Err Chat.LengthMismatch else Ok (t, p)).
Proof.
  unfold Chat.parse_chat_frame. pose proof (len_nonneg p).
  rewrite len_app at 1. change (len [t; a; b]) with 3. zify_goal; [lia|].
  index_eval. by frame_tail [t; a; b].
Qed.

Lemma parse_file_transfer_frame_cons t a b c d p :
  FileTransfer.parse_file_transfer_frame ([t; a; b; c; d] ++ p) =
  (if FileTransfer.FILE_TRANSFER_MAX_PAYLOAD_LEN <? be_val [a; b; c; d]
   then Err FileTransfer.LengthOverflow else
   if negb (len p =? be_val [a; b; c; d]) then Err FileTransfer.LengthMismatch else
   Ok {| FileTransfer.message_type := t; FileTransfer.payload := p |}).
Proof.
  unfold FileTransfer.parse_file_transfer_frame. pose proof (len_nonneg p).
  rewrite len_app at 1. change (len [t; a; b; c; d]) with 5. zify_goal; [lia|].
  index_eval. by frame_tail [t; a; b; c; d].
Qed.

(** Split the hypothesis that the bytes of an explicit list are bytes. *)
Ltac bytes_inv :=
  repeat match goal with
  | H : bytes_ok (_ :: _) |- _ => apply Forall_cons in H as [? H]
  | H : Forall is_u8 (_ :: _) |- _ => apply Forall_cons in H as [? H]
  end.

Ltac bytes_tac := repeat first [apply Forall_nil_2 | apply Forall_cons_2; [assumption|]].

#[export] Instance control_codec_laws : FrameCodecLaws control_codec.
Proof.
  unfold control_codec, Control.build_control_frame.
  split; cbn [build_frame parse_frame max_payload].
  - intros t p Hp. zify_goal; [lia|eauto].
  - intros t p f Hf. zify_in Hf; [done|lia].
  - intros t p f Hf. zify_in Hf; [done|]. apply Ok_inj in Hf as <-.
    assert (is_u16 (len p)) by (unfold is_u16; pose proof (len_nonneg p); done).
    destruct (be_bytes_2 (len p)) as (a & b & Hab & Hv); [done|].
    rewrite as_u16_small, Hab by done. change ([a; b] ++ [t] ++ p) with ([a; b; t] ++ p).
    rewrite parse_control_frame_cons, Hv. by repeat (zify_goal; try lia).
  - intros t p f Hok Hf. destruct f as [|a [|b [|c f]]]; try done.
    change (a :: b :: c :: f) with ([a; b; c] ++ f) in Hf.
    rewrite parse_control_frame_cons in Hf. bytes_inv. zify_in Hf; try done.
    injection Hf as <- <-. zify_goal; [lia|].
    destruct (be_val_2_bytes a b) as [Hbs Hr]; [by bytes_tac|].
    rewrite as_u16_small by (by replace (len f) with (be_val [a; b]) by lia).
    replace (len f) with (be_val [a; b]) by lia. by rewrite Hbs.
  - intros [|a [|b [|c f]]]; try done. change (a :: b :: c :: f) with ([a; b; c] ++ f).
    rewrite parse_control_frame_cons. by repeat zify_goal.
Qed.

#[export] Instance chat_codec_laws : FrameCodecLaws chat_codec.
Proof.
  unfold chat_codec, Chat.build_chat_frame.
  split; cbn [build_frame parse_frame max_payload].
  - intros t p Hp. zify_goal; [lia|eauto].
  - intros t p f Hf. zify_in Hf; [done|lia].
  - intros t p f Hf. zify_in Hf; [done|]. apply Ok_inj in Hf as <-.
    assert (is_u16 (len p)) by (unfold is_u16; pose proof (len_nonneg p); done).
    destruct (be_bytes_2 (len p)) as (a & b & Hab & Hv); [done|].
    rewrite as_u16_small, Hab by done. change ([t] ++ [a; b] ++ p) with ([t; a; b] ++ p).
    rewrite parse_chat_frame_cons, Hv. by repeat (zify_goal; try lia).
  - intros t p f Hok Hf. destruct f as [|a [|b [|c f]]]; try done.
    change (a :: b :: c :: f) with ([a; b; c] ++ f) in Hf.
    rewrite parse_chat_frame_cons in Hf. bytes_inv. zify_in Hf; try done.
    injection Hf as <- <-. zify_goal; [lia|].
    destruct (be_val_2_bytes b c) as [Hbs Hr]; [by bytes_tac|].
    rewrite as_u16_small by (by replace (len f) with (be_val [b; c]) by lia).
    replace (len f) with (be_val [b; c]) by lia. by rewrite Hbs.
  - intros [|a [|b [|c f]]]; try done. change (a :: b :: c :: f) with ([a; b; c] ++ f).
    rewrite parse_chat_frame_cons. by repeat zify_goal.
Qed.

#[export] Instance file_transfer_codec_laws : FrameCodecLaws file_transfer_codec.
Proof.
  unfold file_transfer_codec, FileTransfer.build_file_transfer_frame.
  split; cbn [build_frame parse_frame max_payload].
  - intros t p Hp. zify_goal; [lia|eauto].
  - intros t p f Hf. zify_in Hf; [done|lia].
  - intros t p f Hf. zify_in Hf; [done|]. apply Ok_inj in Hf as <-.
    assert (is_u32 (len p)).
    { unfold is_u32, u32_max, FileTransfer.FILE_TRANSFER_MAX_PAYLOAD_LEN in *.
      pose proof (len_nonneg p); lia. }
    destruct (be_bytes_4 (len p)) as (a & b & c & d & Hab & Hv); [done|].
    rewrite as_u32_small, Hab by done.
    change ([t] ++ [a; b; c; d] ++ p) with ([t; a; b; c; d] ++ p).
    rewrite parse_file_transfer_frame_cons, Hv. by repeat (zify_goal; try lia).
  - intros t p f Hok Hf. destruct f as [|x [|a [|b [|c [|d f]]]]]; try done.
    change (x :: a :: b :: c :: d :: f) with ([x; a; b; c; d] ++ f) in Hf.
    rewrite parse_file_transfer_frame_cons in Hf. bytes_inv. zify_in Hf; try done.
    injection Hf as <- <-. zify_goal; [lia|].
    destruct (be_val_4_bytes a b c d) as [Hbs Hr]; [by bytes_tac|].
    rewrite as_u32_small by (by replace (len f) with (be_val [a; b; c; d]) by lia).
    replace (len f) with (be_val [a; b; c; d]) by lia. by rewrite Hbs.
  - intros [|x [|a [|b [|c [|d f]]]]]; try done.
    change (x :: a :: b :: c :: d :: f) with ([x; a; b; c; d] ++ f).
    rewrite parse_file_transfer_frame_cons. by repeat zify_goal.
Qed.

Section codec.
Context {E F : Type} (C : FrameCodec E F) {L : FrameCodecLaws C}.

Lemma codec_iff t p f :
  bytes_ok f -> parse_frame f = Ok (t, p) <-> build_frame t p = Ok f.
Proof. intros; split; [by apply build_parse_frame|by apply parse_build_frame]. Qed.

(** Two messages never share a frame. *)
Lemma codec_injective t p t' p' f :
  build_frame t p = Ok f -> build_frame t' p' = Ok f -> t = t' /\ p = p'.
Proof.
  intros H H'. apply parse_build_frame in H, H'. rewrite H in H'. by injection H' as -> ->.
Qed.
End codec.

Section stream.
Import Stream.

Lemma read_exact_app k l : read_exact (len k) (k ++ l) = Some (k, l).
Proof.
  unfold read_exact. rewrite len_app. pose proof (len_nonneg l).
  zify_goal; [|lia]. unfold len. rewrite Nat2Z.id, take_app_length, drop_app_length. done.
Qed.

(** The payload branch of the readers: a zero length reads nothing. *)
Lemma read_payload (n : Z) p rest :
  n = len p ->
  (if 0 <? n then ok_or (read_exact n (p ++ rest)) ReadPayload else Ok (zeros n, p ++ rest))
  = Ok (p, rest).
Proof.
  intros ->. zify_goal; [by rewrite read_exact_app|].
  pose proof (len_nonneg p). rewrite (len_0_nil p) by lia. done.
Qed.

Lemma read_exact_3 a b c l : read_exact 3 ([a; b; c] ++ l) = Some ([a; b; c], l).
Proof. apply (read_exact_app [a; b; c]). Qed.

Lemma read_shell_frame_built t p f rest :
  Shell.build_shell_frame t p = Ok f ->
  read_shell_frame (f ++ rest) = Ok ({| Shell.message_type := t; Shell.payload := p |}, rest).
Proof.
  unfold Shell.build_shell_frame. intros Hf. zify_in Hf; [done|]. apply Ok_inj in Hf as <-.
  assert (is_u16 (len p)) by (unfold is_u16; pose proof (len_nonneg p); done).
  destruct (be_bytes_2 (len p)) as (a & b & Hab & Hv); [done|].
  rewrite as_u16_small, Hab by done.
  change (([t] ++ [a; b] ++ p) ++ rest) with ([t; a; b] ++ (p ++ rest)).
  unfold read_shell_frame. rewrite read_exact_3. cbn [ok_or mbind res_bind]. index_eval.
  by rewrite Hv, read_payload.
Qed.

Lemma read_chat_frame_built t p f rest :
  Chat.build_chat_frame t p = Ok f ->
  read_chat_tcp_frame (f ++ rest) = Ok (Some (t, p), rest).
Proof.
  unfold Chat.build_chat_frame. intros Hf. zify_in Hf; [done|]. apply Ok_inj in Hf as <-.
  assert (is_u16 (len p)) by (unfold is_u16; pose proof (len_nonneg p); done).
  destruct (be_bytes_2 (len p)) as (a & b & Hab & Hv); [done|].
  rewrite as_u16_small, Hab by done.
  change (([t] ++ [a; b] ++ p) ++ rest) with ([t; a; b] ++ (p ++ rest)).
  unfold read_chat_tcp_frame. rewrite read_exact_3. index_eval. rewrite Hv.
  zify_goal; [lia|]. by rewrite read_payload.
Qed.

Lemma write_shell_frames_read msgs out0 out rest :
  foldM (fun o m => write_shell_frame o m.1 m.2) out0 msgs = Ok out ->
  exists body, out = out0 ++ body /\
    read_shell_frames (length msgs) (body ++ rest) =
      Ok (map (fun m => {| Shell.message_type := m.1; Shell.payload := m.2 |}) msgs, rest).
Proof.
  revert out0; induction msgs as [|[t p] msgs IH]; intros out0; cbn.
  { intros H; res_inv. exists []. by rewrite app_nil_r. }
  intros H. res_inv. destruct (IH _ Hk) as (body & -> & Hr).
  unfold write_shell_frame in Hb. res_inv.
  exists (x0 ++ body). split; [by rewrite app_assoc|].
  rewrite <- app_assoc, (read_shell_frame_built t p) by done. cbn. by rewrite Hr.
Qed.
End stream.

(** ** Properties *)

(** The control framing is exact in both directions: a byte string parses as a
    frame with a given type and payload if and only if it is the frame that
    [build_control_frame] makes of them. *)
Theorem control_frame_exact t p f :
  bytes_ok f ->
  Control.parse_control_frame f = Ok {| Control.message_type := t; Control.payload := p |}
  <-> Control.build_control_frame t p = Ok f.
Proof.
  intros Hf. rewrite <- (codec_iff control_codec) by done.
  cbn. destruct (Control.parse_control_frame f) as [[]| | |]; cbn; split; congruence.
Qed.

Definition sample_control_frame : list Z := [0; 4; 8; 0; 0; 0; 7].

Lemma control_frame_exact_witness :
  bytes_ok sample_control_frame /\
  Control.build_control_frame 8 [0; 0; 0; 7] = Ok sample_control_frame.
Proof.
  assert (bytes_ok sample_control_frame) as H.
  { repeat (apply Forall_cons_2; [unfold is_u8, u8_max; lia|]). apply Forall_nil_2. }
  split; [exact H|].
  apply (control_frame_exact 8 [0; 0; 0; 7] sample_control_frame H). vm_compute. reflexivity.
Defined.

(** The chat and file-transfer framings are exact in both directions too, up to
    their own payload limits. *)
Theorem chat_and_file_frames_exact t p f :
  bytes_ok f ->
  (Chat.parse_chat_frame f = Ok (t, p) <-> Chat.build_chat_frame t p = Ok f) /\
  (FileTransfer.parse_file_transfer_frame f =
     Ok {| FileTransfer.message_type := t; FileTransfer.payload := p |}
   <-> FileTransfer.build_file_transfer_frame t p = Ok f).
Proof.
  intros Hf. split; [by apply (codec_iff chat_codec)|].
  rewrite <- (codec_iff file_transfer_codec) by done.
  cbn. destruct (FileTransfer.parse_file_transfer_frame f) as [[]| | |]; cbn; split; congruence.
Qed.

Lemma chat_and_file_frames_exact_witness :
  Chat.build_chat_frame 2 [104; 105] = Ok [2; 0; 2; 104; 105].
Proof.
  apply (chat_and_file_frames_exact 2 [104; 105] [2; 0; 2; 104; 105]).
  - repeat (apply Forall_cons_2; [unfold is_u8, u8_max; lia|]). apply Forall_nil_2.
  - vm_compute. reflexivity.
Defined.

(** No byte string makes a frame parser index out of range: each returns a frame
    or one of its error values. *)
Theorem frame_parsers_safe f :
  safe (Control.parse_control_frame f) /\
  safe (Chat.parse_chat_frame f) /\
  safe (FileTransfer.parse_file_transfer_frame f).
Proof.
  pose proof (parse_frame_safe (C:=control_codec) f) as H1.
  pose proof (parse_frame_safe (C:=chat_codec) f) as H2.
  pose proof (parse_frame_safe (C:=file_transfer_codec) f) as H3.
  cbn in *. destruct (Control.parse_control_frame f), (FileTransfer.parse_file_transfer_frame f);
    cbn in *; done.
Qed.

(** Shell frames are self-delimiting: whatever sequence of messages is written to a
    stream, reading as many frames gives the messages back in order and leaves the
    bytes that follow them. *)
Theorem shell_stream_roundtrip msgs out rest :
  foldM (fun o m => Stream.write_shell_frame o m.1 m.2) [] msgs = Ok out ->
  Stream.read_shell_frames (length msgs) (out ++ rest) =
    Ok (map (fun m => {| Shell.message_type := m.1; Shell.payload := m.2 |}) msgs, rest).
Proof.
  intros H. by destruct (write_shell_frames_read _ _ _ rest H) as (body & -> & Hr).
Qed.

Lemma shell_stream_roundtrip_witness :
  Stream.read_shell_frames 2 ([2; 0; 1; 97; 5; 0; 0] ++ [9]) =
    Ok ([{| Shell.message_type := 2; Shell.payload := [97] |};
         {| Shell.message_type := 5; Shell.payload := [] |}], [9]).
Proof.
  apply (shell_stream_roundtrip [(2, [97]); (5, [])] [2; 0; 1; 97; 5; 0; 0] [9]).
  vm_compute. reflexivity.
Defined.
