(* ===== verification/RelayTransport.v ===== *)
(** * Relay transport, client side

    [apps/talos_protocol/src/relay_transport.rs]: the request that opens a relay
    session, the end of the relay's HTTP response, and the encrypted frames the two
    peers exchange through the relay.  The URL parser and the cipher are parameters:
    the cipher is a class with the laws of an authenticated cipher.  A stream is the
    bytes written to it, or the bytes it will still deliver before it is closed. *)

From S2P Require Import Prelude Bytes Text Frames.

(** ** The relay's address *)

Record RelayTarget := { host : text; port : Z }.

(** What the program reads off a parsed [url::Url]. *)
Record Url := { host_str : option text; port_or_known_default : option Z }.

(** [s.contains(p)] *)
Fixpoint contains (p t : text) : bool :=
  starts_with p t || match t with [] => false | _ :: t' => contains p t' end.

Definition parse_relay_target (url_parse : text -> option Url) (relay_url : text)
    : res anyhow RelayTarget :=
  url ← (if contains (str "://") relay_url
         then ok_or (url_parse relay_url) "parse relay url"%string
         else ok_or (url_parse (str "https://" ++ relay_url)) "parse relay url"%string);
  host ← ok_or (host_str url) "relay url missing host"%string;
  let port := default 443 (port_or_known_default url) in
  Ok {| host := host; port := port |}.

(** [format!("GET /relay/{session_id} HTTP/1.1\r\nHost: {host}\r\n\r\n")], as every
    peer of a session sends it. *)
Definition CRLF : text := [13; 10].

Definition relay_request (session_id host : text) : text :=
  str "GET /relay/" ++ session_id ++ str " HTTP/1.1" ++ CRLF ++
  str "Host: " ++ host ++ CRLF ++ CRLF.

(** ** The end of an HTTP head

    A four-byte window that slides over the bytes. *)

Record window := { bytes : list Z; filled : Z }.

Definition new_window : window := {| bytes := zeros 4; filled := 0 |}.

Definition rotate_left_1 (l : list Z) : list Z :=
  match l with [] => [] | a :: l => l ++ [a] end.

Definition slide (w : window) (b : Z) : window :=
  if filled w <? 4
  then {| bytes := <[Z.to_nat (filled w) := b]> (bytes w); filled := filled w + 1 |}
  else {| bytes := <[3%nat := b]> (rotate_left_1 (bytes w)); filled := filled w |}.

Definition at_end (w : window) : bool := (filled w =? 4) && bool_decide (bytes w = CRLF ++ CRLF).

Definition MAX_HEADER_BYTES : Z := 64 * 1024.

Fixpoint read_http_response_loop (w : window) (read_total : Z) (stream : list Z)
    : res anyhow (list Z) :=
  match stream with
  | [] => Err "relay connection closed while reading response"%string
  | byte :: stream =>
      let read_total := saturating_add usize_max read_total 1 in
      if MAX_HEADER_BYTES <? read_total then Err "relay http response headers too large"%string else
      let w := slide w byte in
      if at_end w then Ok stream else read_http_response_loop w read_total stream
  end.

(** What is left of the stream after the response's head. *)
Definition read_http_response (stream : list Z) : res anyhow (list Z) :=
  read_http_response_loop new_window 0 stream.

(** ** Encrypted frames *)

(** An authenticated cipher: encryption of a message under a nonce, and decryption,
    which fails on anything else. *)
Class Aead (cipher : Type) := {
  new_cipher : list Z -> cipher;
  encrypt : cipher -> list Z -> list Z -> option (list Z);
  decrypt : cipher -> list Z -> list Z -> option (list Z);
}.

(** What RFC 8439 promises: messages up to [P_MAX] are encrypted to the message's
    length plus a tag of sixteen bytes, and decrypted under the same nonce to the
    message. *)
Definition TAG_BYTES : Z := 16.
Definition P_MAX : Z := 274877906880.

Class AeadLaws (cipher : Type) `{Aead cipher} := {
  encrypt_total c n p : len p <= P_MAX -> is_Some (encrypt c n p);
  encrypt_len c n p ct : encrypt c n p = Some ct -> len ct = len p + TAG_BYTES;
  decrypt_encrypt c n p ct : encrypt c n p = Some ct -> decrypt c n ct = Some p;
}.

Section e2e.
Context `{Aead cipher}.

Definition build_e2e_cipher (key_bytes : list Z) : res anyhow cipher :=
  if negb (len key_bytes =? 32) then Err "invalid e2e key length"%string else
  Ok (new_cipher key_bytes).

Definition nonce_from_counter (counter : Z) : list Z := zeros 4 ++ be_bytes 8 counter.

(** The sending side of a session: the bytes written and the frame counter. *)
Record sender := { stream : list Z; counter : Z }.

Definition write_all (b : list Z) : method sender anyhow unit :=
  self ← get;
  put {| stream := stream self ++ b; counter := counter self |}.

Definition write_e2e_frame (c : cipher) (plaintext : list Z) : method sender anyhow unit :=
  self ← get;
  let nonce_bytes := nonce_from_counter (counter self) in
  _ ← put {| stream := stream self; counter := saturating_add u64_max (counter self) 1 |};
  ciphertext ← lift (ok_or (encrypt c nonce_bytes plaintext) "encrypt relay frame"%string);
  let frame_len := wrap_u32 (len nonce_bytes + len ciphertext) in
  _ ← write_all (be_bytes 4 frame_len);
  _ ← write_all nonce_bytes;
  write_all ciphertext.

Definition MAX_FRAME_BYTES : Z := 128 * 1024 * 1024.

(** The next message and what is left of the stream. *)
Definition read_e2e_frame_from (c : cipher) (reader : list Z) : res anyhow (list Z * list Z) :=
  '(len_bytes, reader) ← ok_or (Stream.read_exact 4 reader) "read relay frame length"%string;
  let frame_len := be_val len_bytes in
  if frame_len <? 12 then Err "invalid relay frame length"%string else
  if MAX_FRAME_BYTES <? frame_len then Err "relay frame too large"%string else
  '(frame, reader) ← ok_or (Stream.read_exact frame_len reader) "read relay frame"%string;
  let nonce_bytes := take 12 frame in
  let ciphertext := drop 12 frame in
  plaintext ← ok_or (decrypt c nonce_bytes ciphertext) "decrypt relay frame"%string;
  Ok (plaintext, reader).

(** [n] messages in a row, as the session loops read them. *)
Fixpoint read_frames (n : nat) (c : cipher) (reader : list Z) : res anyhow (list (list Z) * list Z) :=
  match n with
  | O => Ok ([], reader)
  | S n =>
      '(p, reader) ← read_e2e_frame_from c reader;
      '(ps, reader) ← read_frames n c reader;
      Ok (p :: ps, reader)
  end.
End e2e.

(** ** The window finds the first empty line *)

Definition blank_line : list Z := CRLF ++ CRLF.

(** The window after some bytes: them and zeros, or the last four. *)
Definition window_of (seen : list Z) : window :=
  if len seen <? 4
  then {| bytes := seen ++ zeros (4 - len seen); filled := len seen |}
  else {| bytes := drop (length seen - 4) seen; filled := 4 |}.

Lemma window_of_nil : window_of [] = new_window.
Proof. done. Qed.

Lemma rotate_append l b : length l = 4%nat -> <[3%nat := b]> (rotate_left_1 l) = drop 1 l ++ [b].
Proof. destruct l as [|a [|a1 [|a2 [|a3 []]]]]; done. Qed.

Lemma slide_window_of seen b : slide (window_of seen) b = window_of (seen ++ [b]).
Proof.
  unfold slide, window_of. rewrite len_app, len_cons, len_nil. change (1 + 0) with 1. len_pos.
  destruct (Z.ltb_spec (len seen) 4); cbn [filled bytes].
  - replace (len seen <? 4) with true by lia. unfold len in *.
    replace (Z.to_nat (Z.of_nat (length seen))) with (length seen + 0)%nat by lia.
    rewrite insert_app_r.
    destruct (Z.ltb_spec (Z.of_nat (length seen) + 1) 4).
    + f_equal. rewrite <- app_assoc. f_equal.
      replace (4 - Z.of_nat (length seen)) with (1 + (4 - (Z.of_nat (length seen) + 1))) by lia.
      by rewrite zeros_app by lia.
    + assert (length seen = 3)%nat as Hl by lia. rewrite length_app, Hl. cbn [length Nat.add Nat.sub].
      rewrite drop_0. f_equal; lia.
  - replace (4 <? 4) with false by lia. cbn [filled bytes].
    replace (len seen + 1 <? 4) with false by lia. f_equal. unfold len in *.
    rewrite rotate_append by (rewrite length_drop; lia).
    rewrite drop_drop, length_app. cbn [length]. rewrite drop_app_le by lia. f_equal. f_equal. lia.
Qed.

Lemma at_end_window_of seen : at_end (window_of seen) = true <-> exists pre, seen = pre ++ blank_line.
Proof.
  unfold at_end, window_of, blank_line. destruct (Z.ltb_spec (len seen) 4); cbn [filled bytes].
  - split; [|intros [pre ->]; rewrite len_app in *; pose proof (len_nonneg pre);
      change (len (CRLF ++ CRLF)) with 4 in *; lia].
    intros Hb. lia.
  - rewrite Z.eqb_refl. cbn [andb]. rewrite bool_decide_eq_true. split.
    + intros Hd. exists (take (length seen - 4) seen). by rewrite <- Hd, take_drop.
    + intros [pre ->]. rewrite length_app. change (length (CRLF ++ CRLF)) with 4%nat.
      by rewrite Nat.add_sub, drop_app_length.
Qed.

(** A head: it ends with an empty line, and nothing shorter does. *)
Definition is_head (h : list Z) : Prop :=
  (exists pre, h = pre ++ blank_line) /\
  forall h1 h2, h = h1 ++ h2 -> h2 <> [] -> ~ exists pre, h1 = pre ++ blank_line.

(** No head is a proper prefix of another. *)
Lemma is_head_unique h1 r1 h2 r2 : is_head h1 -> is_head h2 -> h1 ++ r1 = h2 ++ r2 -> h1 = h2 /\ r1 = r2.
Proof.
  intros [He1 Hn1] [He2 Hn2] Heq. apply app_eq_inv in Heq as [(k & -> & ->)|(k & -> & ->)].
  - destruct k as [|c k]; [by rewrite app_nil_r|]. by destruct (Hn1 h2 (c :: k)).
  - destruct k as [|c k]; [by rewrite app_nil_r|]. by destruct (Hn2 h1 (c :: k)).
Qed.

(** Bytes that do not hold an empty line yet. *)
Definition no_blank (seen : list Z) : Prop :=
  forall h1 h2, seen = h1 ++ h2 -> ~ exists pre, h1 = pre ++ blank_line.

Lemma no_blank_nil : no_blank [].
Proof.
  intros h1 h2 Heq [pre ->]. apply (f_equal length) in Heq. rewrite !length_app in Heq. cbn in Heq. lia.
Qed.

Lemma no_blank_snoc seen b :
  no_blank seen -> (no_blank (seen ++ [b]) <-> at_end (window_of (seen ++ [b])) = false).
Proof.
  intros Hn. rewrite <- not_true_iff_false, at_end_window_of. split.
  - intros Hn'. apply (Hn' _ []). by rewrite app_nil_r.
  - intros He h1 h2 Heq. destruct h2 as [|c h2 _] using rev_ind; [rewrite app_nil_r in Heq; by subst|].
    rewrite app_assoc in Heq. apply app_inj_tail in Heq as [-> _]. by eapply Hn.
Qed.

Lemma is_head_snoc seen b : no_blank seen -> at_end (window_of (seen ++ [b])) = true -> is_head (seen ++ [b]).
Proof.
  intros Hn He. split; [by apply at_end_window_of|]. intros h1 h2 Heq Hne.
  destruct h2 as [|c h2 _] using rev_ind; [done|].
  rewrite app_assoc in Heq. apply app_inj_tail in Heq as [-> _]. by eapply Hn.
Qed.

Lemma is_head_no_blank h1 h2 : is_head (h1 ++ h2) -> h2 <> [] -> no_blank h1.
Proof.
  intros [_ Hn] Hne k1 k2 ->. apply (Hn k1 (k2 ++ h2)); [by rewrite app_assoc|]. by destruct k2.
Qed.

Lemma is_head_at_end h : is_head h -> at_end (window_of h) = true.
Proof. intros [He _]. by apply at_end_window_of. Qed.

Lemma response_loop_ok seen body rest :
  is_head (seen ++ body) -> body <> [] -> len (seen ++ body) <= MAX_HEADER_BYTES ->
  read_http_response_loop (window_of seen) (len seen) (body ++ rest) = Ok rest.
Proof.
  revert seen; induction body as [|b body IH]; intros seen Hh Hne Hl; [done|]. cbn [app read_http_response_loop].
  rewrite len_app, len_cons in Hl. len_pos. unfold saturating_add.
  rewrite Z.min_r by (unfold MAX_HEADER_BYTES, usize_max, u64_max in *; lia).
  replace (MAX_HEADER_BYTES <? len seen + 1) with false by lia. rewrite slide_window_of.
  replace (len seen + 1) with (len (seen ++ [b])) by (rewrite len_app; done).
  assert (seen ++ b :: body = (seen ++ [b]) ++ body) as E by (by rewrite <- app_assoc). rewrite E in Hh.
  destruct body as [|c body].
  - rewrite app_nil_r in Hh. by rewrite is_head_at_end.
  - pose proof (is_head_no_blank _ _ Hh ltac:(done)) as Hn.
    replace (at_end (window_of (seen ++ [b]))) with false; last first.
    { symmetry. apply not_true_iff_false. rewrite at_end_window_of. apply (Hn _ []). by rewrite app_nil_r. }
    apply IH; [done|done|]. rewrite <- E, len_app, len_cons. lia.
Qed.

Lemma response_loop_inv seen stream rest :
  no_blank seen -> read_http_response_loop (window_of seen) (len seen) stream = Ok rest ->
  exists body, stream = body ++ rest /\ is_head (seen ++ body) /\ len (seen ++ body) <= MAX_HEADER_BYTES.
Proof.
  revert seen; induction stream as [|b stream IH]; intros seen Hn Hr; [done|].
  cbn [read_http_response_loop] in Hr. destruct (Z.ltb_spec MAX_HEADER_BYTES
    (saturating_add usize_max (len seen) 1)); [done|]. unfold saturating_add in *.
  rewrite Z.min_r in * by (unfold MAX_HEADER_BYTES, usize_max, u64_max in *; lia).
  rewrite slide_window_of in Hr. replace (len seen + 1) with (len (seen ++ [b])) in * by (rewrite len_app; done).
  destruct (at_end (window_of (seen ++ [b]))) eqn:He.
  - apply Ok_inj in Hr as <-. exists [b]. split_and!; [done|by apply is_head_snoc|lia].
  - apply IH in Hr as (body & -> & Hh & Hl); [|by apply no_blank_snoc].
    exists (b :: body). rewrite <- app_assoc in *. done.
Qed.

(** The reader stops after the first empty line, within its limit. *)
Lemma read_http_response_iff stream rest :
  read_http_response stream = Ok rest <->
  exists h, stream = h ++ rest /\ is_head h /\ len h <= MAX_HEADER_BYTES.
Proof.
  unfold read_http_response. rewrite <- window_of_nil. change 0 with (len (@nil Z)). split.
  - intros Hr. apply response_loop_inv in Hr; [|apply no_blank_nil]. done.
  - intros (h & -> & Hh & Hl). apply (response_loop_ok [] h rest); [done| |done].
    intros ->. destruct Hh as [[pre Hp] _]. by destruct pre.
Qed.

(** ** Frames on the wire *)

Section frames.
Context `{AeadLaws cipher}.
Implicit Types (c : cipher) (p ct n rest : list Z).

Definition frame_bytes n ct : list Z := be_bytes 4 (12 + len ct) ++ n ++ ct.

(** A message the reader accepts. *)
Definition fits_frame p : Prop := 12 + (len p + TAG_BYTES) <= MAX_FRAME_BYTES.

Lemma nonce_len k : len (nonce_from_counter k) = 12.
Proof. unfold nonce_from_counter. rewrite len_app, zeros_len, be_bytes_len by lia. lia. Qed.

Lemma nonce_inj k k' : is_u64 k -> is_u64 k' -> nonce_from_counter k = nonce_from_counter k' -> k = k'.
Proof.
  intros Hk Hk' Heq. unfold nonce_from_counter in Heq. apply app_inv_head in Heq.
  apply (f_equal be_val) in Heq. unfold is_u64, u64_max in *.
  rewrite !be_val_be_bytes in Heq by (change (2 ^ (8 * 8)) with 18446744073709551616; lia). done.
Qed.

Lemma write_frame_run c p ct o k :
  encrypt c (nonce_from_counter k) p = Some ct -> 12 + len ct <= u32_max ->
  write_e2e_frame c p {| stream := o; counter := k |} =
  ({| stream := o ++ frame_bytes (nonce_from_counter k) ct;
      counter := saturating_add u64_max k 1 |}, Ok tt).
Proof.
  intros He Hl. unfold write_e2e_frame, write_all, mbind, method_bind, get, put, lift, frame_bytes.
  cbn [stream counter]. rewrite He. cbn [ok_or stream counter]. rewrite nonce_len.
  unfold wrap_u32. rewrite Z.mod_small by (pose proof (len_nonneg ct); unfold u32_max in *; lia).
  by rewrite <- !app_assoc.
Qed.

Lemma read_frame_built c n p ct rest :
  decrypt c n ct = Some p -> len n = 12 -> 12 + len ct <= MAX_FRAME_BYTES ->
  read_e2e_frame_from c (frame_bytes n ct ++ rest) = Ok (p, rest).
Proof.
  intros Hd Hn Hl. unfold read_e2e_frame_from, frame_bytes. rewrite <- !app_assoc. len_pos.
  assert (len (be_bytes 4 (12 + len ct)) = 4) as H4 by (by rewrite be_bytes_len).
  pose proof (read_exact_app (be_bytes 4 (12 + len ct)) (n ++ ct ++ rest)) as Hr.
  rewrite H4 in Hr. rewrite Hr. cbn [ok_or]. rewrite bind_Ok. cbv beta iota zeta.
  rewrite be_val_u32_bytes by (unfold is_u32, u32_max, MAX_FRAME_BYTES in *; lia).
  replace (12 + len ct <? 12) with false by lia.
  replace (MAX_FRAME_BYTES <? 12 + len ct) with false by lia.
  replace (12 + len ct) with (len (n ++ ct)) by (rewrite len_app; lia).
  rewrite app_assoc, read_exact_app. cbn [ok_or]. rewrite bind_Ok. cbv beta iota zeta.
  assert (12%nat = length n) as -> by (unfold len in Hn; lia).
  rewrite take_app_length, drop_app_length, Hd. done.
Qed.

(** The counters of [n] frames that start at [k]: it stops at its largest value. *)
Fixpoint counters (n : nat) (k : Z) : list Z :=
  match n with
  | O => []
  | S n => k :: counters n (saturating_add u64_max k 1)
  end.

(** The wire of a session: one frame per message under the counters' nonces. *)
Inductive wire c : list Z -> list (list Z) -> list Z -> Prop :=
  | wire_nil : wire c [] [] []
  | wire_cons k ks p ps ct w :
      encrypt c (nonce_from_counter k) p = Some ct -> wire c ks ps w ->
      wire c (k :: ks) (p :: ps) (frame_bytes (nonce_from_counter k) ct ++ w).

Lemma fits_u32 p ct c n : fits_frame p -> encrypt c n p = Some ct -> 12 + len ct <= MAX_FRAME_BYTES.
Proof. intros Hp He. apply encrypt_len in He. unfold fits_frame in Hp. lia. Qed.

Lemma write_frames_run c ps o k :
  Forall fits_frame ps ->
  exists w k', wire c (counters (length ps) k) ps w /\
    for_each (write_e2e_frame c) ps {| stream := o; counter := k |} =
    ({| stream := o ++ w; counter := k' |}, Ok tt).
Proof.
  intros Hps. revert o k; induction Hps as [|p ps Hp Hps IH]; intros o k.
  { exists [], k. split; [constructor|]. cbn. by rewrite app_nil_r. }
  destruct (encrypt_total c (nonce_from_counter k) p) as [ct Hct].
  { unfold fits_frame, MAX_FRAME_BYTES, P_MAX, TAG_BYTES in *. lia. }
  pose proof (fits_u32 _ _ _ _ Hp Hct).
  destruct (IH (o ++ frame_bytes (nonce_from_counter k) ct) (saturating_add u64_max k 1)) as (w & k' & Hw & Hr).
  exists (frame_bytes (nonce_from_counter k) ct ++ w), k'. split; [by constructor|]. cbn [for_each].
  rewrite (method_run_bind _ _ _ _ _ (write_frame_run c p ct o k Hct
    ltac:(unfold MAX_FRAME_BYTES, u32_max in *; lia))), Hr.
  by rewrite app_assoc.
Qed.

Lemma read_frames_wire c ks ps w rest :
  wire c ks ps w -> Forall fits_frame ps -> read_frames (length ps) c (w ++ rest) = Ok (ps, rest).
Proof.
  induction 1 as [|k ks p ps ct w He Hw IH]; intros Hps; [done|].
  apply Forall_cons in Hps as [Hp Hps]. cbn [length read_frames]. rewrite <- app_assoc.
  rewrite (read_frame_built c _ p ct); [|by apply decrypt_encrypt|apply nonce_len|by eapply fits_u32].
  rewrite bind_Ok. by rewrite IH.
Qed.

Lemma counters_ge m k : is_u64 k -> Forall (fun j => k <= j <= u64_max) (counters m k).
Proof.
  revert k; induction m as [|m IH]; intros k Hk; constructor; [unfold is_u64 in *; lia|].
  eapply Forall_impl; [apply IH; unfold is_u64, saturating_add in *; lia|].
  cbn. unfold saturating_add, is_u64 in *. lia.
Qed.

Lemma counters_NoDup m k : is_u64 k -> k + Z.of_nat m <= u64_max + 1 -> NoDup (counters m k).
Proof.
  revert k; induction m as [|m IH]; intros k Hk Hm; constructor.
  - intros Hin. destruct m as [|m]; [by apply not_elem_of_nil in Hin|].
    assert (is_u64 (saturating_add u64_max k 1)) as Hk1 by (unfold is_u64, saturating_add in *; lia).
    pose proof (counters_ge (S m) _ Hk1) as Hf. rewrite Forall_forall in Hf. apply Hf in Hin. cbv beta in Hin.
    unfold saturating_add, is_u64 in *. lia.
  - apply IH; unfold is_u64, saturating_add in *; lia.
Qed.
End frames.

(** A cipher that satisfies the laws. *)
#[local] Instance plain : Aead unit := {|
  new_cipher _ := tt;
  encrypt _ _ p := if len p <=? P_MAX then Some (p ++ zeros 16) else None;
  decrypt _ _ ct := Some (take (length ct - 16) ct);
|}.

#[local] Instance plain_laws : AeadLaws unit.
Proof.
  split; cbn; intros c n p.
  - intros Hp. replace (_ <=? _) with true by lia. eauto.
  - intros ct. case_match; [|done]. intros [= <-]. by rewrite len_app, zeros_len by lia.
  - intros ct. case_match; [|done]. intros [= <-]. f_equal. rewrite length_app.
    change (length (zeros 16)) with 16%nat. by rewrite Nat.add_sub, take_app_length.
Qed.

(** ** Properties *)

(** C21.  A session's messages arrive as they were sent: whatever the peer writes as
    long as each message fits a frame, the other side reads back message by message,
    leaving what follows untouched, and no two frames of that direction use the same
    nonce before the counter runs out. *)
Theorem e2e_session_roundtrip `{AeadLaws cipher} (c : cipher) ps o k rest :
  Forall fits_frame ps -> is_u64 k -> k + Z.of_nat (length ps) <= u64_max + 1 ->
  exists w k' ks,
    for_each (write_e2e_frame c) ps {| stream := o; counter := k |} =
      ({| stream := o ++ w; counter := k' |}, Ok tt) /\
    read_frames (length ps) c (w ++ rest) = Ok (ps, rest) /\
    wire c ks ps w /\ NoDup (map nonce_from_counter ks).
Proof.
  intros Hps Hk Hn. destruct (write_frames_run c ps o k Hps) as (w & k' & Hw & Hr).
  exists w, k', (counters (length ps) k). split_and!; [done|by eapply read_frames_wire|done|].
  apply (NoDup_fmap_2_strong nonce_from_counter); [|by apply counters_NoDup].
  pose proof (counters_ge (length ps) k Hk) as Hge. rewrite Forall_forall in Hge.
  intros i j Hi Hj. unfold is_u64 in Hk. apply nonce_inj; [apply Hge in Hi|apply Hge in Hj]; unfold is_u64; lia.
Qed.

Lemma e2e_session_roundtrip_witness :
  exists w k' ks,
    for_each (write_e2e_frame tt) [[1; 2; 3]; []; [7]] {| stream := []; counter := 0 |} =
      ({| stream := [] ++ w; counter := k' |}, Ok tt) /\
    read_frames 3 tt (w ++ [9]) = Ok ([[1; 2; 3]; []; [7]], [9]) /\
    wire tt ks [[1; 2; 3]; []; [7]] w /\ NoDup (map nonce_from_counter ks).
Proof.
  apply (e2e_session_roundtrip tt [[1; 2; 3]; []; [7]] [] 0 [9]).
  - repeat (apply Forall_cons_2; [unfold fits_frame, TAG_BYTES, MAX_FRAME_BYTES, len; cbn; lia|]).
    apply Forall_nil_2.
  - unfold is_u64, u64_max; lia.
  - unfold u64_max; cbn; lia.
Defined.



(** The writer has no limit of its own: a message too large for the reader is
    written as a frame that the reader refuses. *)
Theorem e2e_oversized_frame_refused `{AeadLaws cipher} (c : cipher) p k :
  MAX_FRAME_BYTES < 12 + (len p + TAG_BYTES) <= u32_max ->
  exists w k',
    write_e2e_frame c p {| stream := []; counter := k |} = ({| stream := w; counter := k' |}, Ok tt) /\
    read_e2e_frame_from c w = Err "relay frame too large"%string.
Proof.
  intros Hp. destruct (encrypt_total c (nonce_from_counter k) p) as [ct Hct].
  { unfold TAG_BYTES, P_MAX, u32_max in *. lia. }
  pose proof (encrypt_len _ _ _ _ Hct) as Hl. eexists _, _. split; [apply (write_frame_run c p ct); [done|lia]|].
  cbn [app]. unfold read_e2e_frame_from, frame_bytes.
  assert (len (be_bytes 4 (12 + len ct)) = 4) as H4 by (by rewrite be_bytes_len).
  pose proof (read_exact_app (be_bytes 4 (12 + len ct)) (nonce_from_counter k ++ ct)) as Hr.
  rewrite H4 in Hr. rewrite Hr. cbn [ok_or]. rewrite bind_Ok. cbv beta iota zeta.
  rewrite be_val_u32_bytes by (unfold is_u32, u32_max, MAX_FRAME_BYTES in *; lia).
  replace (12 + len ct <? 12) with false by (unfold MAX_FRAME_BYTES in *; lia).
  by replace (MAX_FRAME_BYTES <? 12 + len ct) with true by lia.
Qed.

Lemma e2e_oversized_frame_refused_witness :
  exists w k',
    write_e2e_frame tt (zeros 134217728) {| stream := []; counter := 0 |} =
      ({| stream := w; counter := k' |}, Ok tt) /\
    read_e2e_frame_from tt w = Err "relay frame too large"%string.
Proof.
  apply (e2e_oversized_frame_refused tt (zeros 134217728) 0). rewrite zeros_len by lia.
  unfold MAX_FRAME_BYTES, TAG_BYTES, u32_max. lia.
Defined.
