(* ===== verification/Relay.v ===== *)
(** * Relay

    [apps/talos_relay/src/main.rs]: the HTTP request that names a session, the map
    of connections that wait for their peer, the clean-up of that map, the frame
    probe, and the copy loop between two paired connections.  Sockets are byte
    lists: what a peer will still send before it closes.  A connection is known by
    its number; times are milliseconds.  Log lines are left out, and with them the
    fields that only they read (roles, addresses, the start time of a frame). *)

From S2P Require Import Prelude Bytes Text Frames RelayTransport.

(** ** The request *)

Definition REQUEST_LINE_LIMIT : Z := 4096.

Fixpoint read_request_line_loop (line : list Z) (stream : list Z) : res anyhow (list Z * list Z) :=
  match stream with
  | [] => Err "connection closed while reading request line"%string
  | byte :: stream =>
      let line := line ++ [byte] in
      if byte =? 10 then Ok (line, stream)
      else if REQUEST_LINE_LIMIT <? len line then Err "request line too long"%string
      else read_request_line_loop line stream
  end.

Definition read_request_line (stream : list Z) : res anyhow (text * list Z) :=
  '(line, stream) ← read_request_line_loop [] stream;
  Ok (trim (from_utf8_lossy line), stream).

Fixpoint read_headers_loop (w : window) (stream : list Z) : res anyhow (list Z) :=
  match stream with
  | [] => Err "connection closed while reading headers"%string
  | byte :: stream =>
      let w := slide w byte in
      if at_end w then Ok stream else read_headers_loop w stream
  end.

Definition read_headers (stream : list Z) : res anyhow (list Z) := read_headers_loop new_window stream.

Definition parse_session_id (request_line : text) : res anyhow text :=
  let parts := split_whitespace request_line in
  let method := default [] (parts !! 0%nat) in
  let path := default [] (parts !! 1%nat) in
  if negb (bool_decide (method = str "GET")) then Err "unsupported method"%string else
  let prefix := str "/relay/" in
  if negb (starts_with prefix path) then Err "invalid relay path"%string else
  let session_id := drop (length prefix) path in
  if len session_id =? 0 then Err "missing session id"%string else
  Ok session_id.

Definition RESPONSE : list Z := str "HTTP/1.1 200 OK" ++ CRLF ++ CRLF.

(** The part of [handle_connection] before the map: the session, what is left of
    the stream, and the response. *)
Definition handshake (stream : list Z) : res anyhow (text * list Z * list Z) :=
  '(request_line, stream) ← read_request_line stream;
  session_id ← parse_session_id request_line;
  stream ← read_headers stream;
  Ok (session_id, stream, RESPONSE).

(** ** Waiting connections *)

Record PendingConnection := { received_at : Z; connection_id : Z }.

Record RelayState := { pending : gmap text PendingConnection; pending_ttl : Z }.

(** The part of [handle_connection] under the lock: the peer to copy with, if it
    was waiting. *)
Definition pair_or_wait (now : Z) (id : Z) (session_id : text) (st : RelayState)
    : RelayState * option PendingConnection :=
  match pending st !! session_id with
  | Some existing =>
      ({| pending := delete session_id (pending st); pending_ttl := pending_ttl st |}, Some existing)
  | None =>
      ({| pending := <[session_id := {| received_at := now; connection_id := id |}]> (pending st);
          pending_ttl := pending_ttl st |}, None)
  end.

(** [now.duration_since(earlier)] is zero if the clock went back. *)
Definition duration_since (now earlier : Z) : Z := saturating_sub now earlier.

(** One pass of the clean-up task. *)
Definition cleanup (now : Z) (st : RelayState) : RelayState :=
  {| pending := filter (fun kv => duration_since now (received_at kv.2) <= pending_ttl st) (pending st);
     pending_ttl := pending_ttl st |}.

(** ** The frame probe *)

Definition RELAY_COPY_BUFFER_BYTES : Z := 64 * 1024.

Record RelayFrameProbe := {
  next_frame_index : Z;
  current_frame_index : Z;
  completed_frames : Z;
  header : list Z;
  header_len : Z;
  expected_frame_len : option Z;
  current_frame_seen : Z;
}.

Definition new_probe : RelayFrameProbe :=
  {| next_frame_index := 0; current_frame_index := 0; completed_frames := 0; header := zeros 4;
     header_len := 0; expected_frame_len := None; current_frame_seen := 0 |}.

Definition frames_started (p : RelayFrameProbe) : Z := next_frame_index p.
Definition frames_completed (p : RelayFrameProbe) : Z := completed_frames p.

Definition complete_current_frame (p : RelayFrameProbe) : RelayFrameProbe :=
  {| next_frame_index := next_frame_index p; current_frame_index := 0;
     completed_frames := saturating_add u64_max (completed_frames p) 1;
     header := header p; header_len := header_len p; expected_frame_len := None;
     current_frame_seen := 0 |}.

(** One turn of the loop on a non-empty chunk: the probe and what is left of the
    chunk.  The copy into the header panics if the slices do not fit. *)
Definition observe_step (p : RelayFrameProbe) (bytes : list Z)
    : res Empty_set (RelayFrameProbe * list Z) :=
  match expected_frame_len p with
  | None =>
      let needed := saturating_sub 4 (header_len p) in
      let take := Z.min needed (len bytes) in
      chunk ← or_panic (slice bytes 0 take);
      header' ← or_panic (copy_at (header p) (header_len p) chunk);
      let header_len' := header_len p + take in
      rest ← or_panic (slice bytes take (len bytes));
      if header_len' <? 4 then
        Ok ({| next_frame_index := next_frame_index p; current_frame_index := current_frame_index p;
               completed_frames := completed_frames p; header := header'; header_len := header_len';
               expected_frame_len := None; current_frame_seen := current_frame_seen p |}, rest)
      else
        let frame_len := be_val header' in
        let next := saturating_add u64_max (next_frame_index p) 1 in
        let p := {| next_frame_index := next; current_frame_index := next;
                    completed_frames := completed_frames p; header := header'; header_len := 0;
                    expected_frame_len := Some frame_len; current_frame_seen := 0 |} in
        Ok (if frame_len =? 0 then complete_current_frame p else p, rest)
  | Some expected =>
      let remaining := saturating_sub expected (current_frame_seen p) in
      let take := Z.min remaining (len bytes) in
      let seen := saturating_add usize_max (current_frame_seen p) take in
      rest ← or_panic (slice bytes take (len bytes));
      let p := {| next_frame_index := next_frame_index p; current_frame_index := current_frame_index p;
                  completed_frames := completed_frames p; header := header p;
                  header_len := header_len p; expected_frame_len := Some expected;
                  current_frame_seen := seen |} in
      Ok (if expected <=? seen then complete_current_frame p else p, rest)
  end.

Fixpoint observe_loop (fuel : nat) (p : RelayFrameProbe) (bytes : list Z)
    : res Empty_set RelayFrameProbe :=
  match bytes with
  | [] => Ok p
  | _ :: _ =>
      match fuel with
      | O => Fuel
      | S fuel => '(p, bytes) ← observe_step p bytes; observe_loop fuel p bytes
      end
  end.

(** Every turn takes at least one byte, see [observe_step_ok]. *)
Definition observe (p : RelayFrameProbe) (bytes : list Z) : res Empty_set RelayFrameProbe :=
  observe_loop (length bytes) p bytes.

(** ** Copying *)

Record DirectionCopyStats := {
  copied : Z;
  chunks : Z;
  stat_frames_started : Z;
  stat_frames_completed : Z;
}.

Record DirectionState := { stats : DirectionCopyStats; eof : bool; probe : RelayFrameProbe }.

Definition new_direction : DirectionState :=
  {| stats := {| copied := 0; chunks := 0; stat_frames_started := 0; stat_frames_completed := 0 |};
     eof := false; probe := new_probe |}.

Definition observe_read (d : DirectionState) (bytes : list Z) : res Empty_set DirectionState :=
  p ← observe (probe d) bytes;
  Ok {| stats := {| copied := saturating_add u64_max (copied (stats d)) (len bytes);
                    chunks := saturating_add u64_max (chunks (stats d)) 1;
                    stat_frames_started := frames_started p;
                    stat_frames_completed := frames_completed p |};
        eof := eof d; probe := p |}.

Definition observe_eof (d : DirectionState) : DirectionState :=
  {| stats := {| copied := copied (stats d); chunks := chunks (stats d);
                 stat_frames_started := frames_started (probe d);
                 stat_frames_completed := frames_completed (probe d) |};
     eof := true; probe := probe d |}.

(** The two connections of a session and the loop's state.  For each peer: what it
    will still send, what was written to it, and whether its write side was shut. *)
Record CopyState := {
  a_to_b : DirectionState;
  b_to_a : DirectionState;
  a_in : list Z;
  b_in : list Z;
  a_out : list Z;
  b_out : list Z;
  a_shut : bool;
  b_shut : bool;
}.

Definition new_copy (a b : list Z) : CopyState :=
  {| a_to_b := new_direction; b_to_a := new_direction; a_in := a; b_in := b;
     a_out := []; b_out := []; a_shut := false; b_shut := false |}.

(** What one turn of [select!] sees: a read of some bytes, the end of the stream
    being a read of none, or a failure to read; and whether the write that follows
    succeeds. *)
Inductive side := A | B.
Inductive event := Read (s : side) (n : Z) (write_ok : bool) | ReadFailed (s : side).

(** A read returns no bytes only at the end, and at most a buffer. *)
Definition read_ok (n : Z) (input : list Z) : bool :=
  if len input =? 0 then n =? 0 else (1 <=? n) && (n <=? Z.min (len input) RELAY_COPY_BUFFER_BYTES).

Definition copy_a (st : CopyState) (n : Z) (write_ok : bool) : res anyhow CopyState :=
  if n =? 0 then
    Ok {| a_to_b := observe_eof (a_to_b st); b_to_a := b_to_a st; a_in := a_in st; b_in := b_in st;
          a_out := a_out st; b_out := b_out st; a_shut := a_shut st; b_shut := true |}
  else
    chunk ← or_panic (slice (a_in st) 0 n);
    d ← map_err (fun e : Empty_set => match e with end) (observe_read (a_to_b st) chunk);
    if negb write_ok then Err "relay write pending_to_current"%string else
    Ok {| a_to_b := d; b_to_a := b_to_a st; a_in := drop (Z.to_nat n) (a_in st); b_in := b_in st;
          a_out := a_out st; b_out := b_out st ++ chunk; a_shut := a_shut st; b_shut := b_shut st |}.

Definition copy_b (st : CopyState) (n : Z) (write_ok : bool) : res anyhow CopyState :=
  if n =? 0 then
    Ok {| a_to_b := a_to_b st; b_to_a := observe_eof (b_to_a st); a_in := a_in st; b_in := b_in st;
          a_out := a_out st; b_out := b_out st; a_shut := true; b_shut := b_shut st |}
  else
    chunk ← or_panic (slice (b_in st) 0 n);
    d ← map_err (fun e : Empty_set => match e with end) (observe_read (b_to_a st) chunk);
    if negb write_ok then Err "relay write current_to_pending"%string else
    Ok {| a_to_b := a_to_b st; b_to_a := d; a_in := a_in st; b_in := drop (Z.to_nat n) (b_in st);
          a_out := a_out st ++ chunk; b_out := b_out st; a_shut := a_shut st; b_shut := b_shut st |}.

Definition done_copying (st : CopyState) : bool := eof (a_to_b st) && eof (b_to_a st).

(** The event can happen: the loop runs, the direction is open and the read is one
    the stream can return. *)
Definition enabled (st : CopyState) (e : event) : bool :=
  negb (done_copying st) &&
  match e with
  | Read A n _ => negb (eof (a_to_b st)) && read_ok n (a_in st)
  | Read B n _ => negb (eof (b_to_a st)) && read_ok n (b_in st)
  | ReadFailed A => negb (eof (a_to_b st))
  | ReadFailed B => negb (eof (b_to_a st))
  end.

Definition copy_step (st : CopyState) (e : event) : res anyhow CopyState :=
  match e with
  | Read A n write_ok => copy_a st n write_ok
  | Read B n write_ok => copy_b st n write_ok
  | ReadFailed A => Err "relay read pending_to_current"%string
  | ReadFailed B => Err "relay read current_to_pending"%string
  end.

(** A run of the loop: the state after a sequence of events, each possible when it
    happened. *)
Inductive copy_run : CopyState -> list event -> res anyhow CopyState -> Prop :=
  | run_nil st : copy_run st [] (Ok st)
  | run_ok st e es st' r :
      enabled st e = true -> copy_step st e = Ok st' -> copy_run st' es r -> copy_run st (e :: es) r
  | run_stop st e r :
      enabled st e = true -> copy_step st e = r -> (forall st', r <> Ok st') -> copy_run st [e] r.

(** ** The probe, byte by byte *)

(** The effect of one byte. *)
Definition observe_byte (p : RelayFrameProbe) (b : Z) : RelayFrameProbe :=
  match expected_frame_len p with
  | None =>
      let header' := <[Z.to_nat (header_len p) := b]> (header p) in
      if header_len p + 1 <? 4 then
        {| next_frame_index := next_frame_index p; current_frame_index := current_frame_index p;
           completed_frames := completed_frames p; header := header'; header_len := header_len p + 1;
           expected_frame_len := None; current_frame_seen := current_frame_seen p |}
      else
        let next := saturating_add u64_max (next_frame_index p) 1 in
        let p := {| next_frame_index := next; current_frame_index := next;
                    completed_frames := completed_frames p; header := header'; header_len := 0;
                    expected_frame_len := Some (be_val header'); current_frame_seen := 0 |} in
        if be_val header' =? 0 then complete_current_frame p else p
  | Some expected =>
      let seen := current_frame_seen p + 1 in
      let p := {| next_frame_index := next_frame_index p; current_frame_index := current_frame_index p;
                  completed_frames := completed_frames p; header := header p;
                  header_len := header_len p; expected_frame_len := Some expected;
                  current_frame_seen := seen |} in
      if expected <=? seen then complete_current_frame p else p
  end.

(** Between two chunks the probe is inside a header or inside a frame. *)
Definition wf_probe (p : RelayFrameProbe) : Prop :=
  length (header p) = 4%nat /\ bytes_ok (header p) /\ 0 <= header_len p < 4 /\
  match expected_frame_len p with
  | None => True
  | Some e => header_len p = 0 /\ 0 <= current_frame_seen p < e /\ e <= u32_max
  end.

Lemma wf_new_probe : wf_probe new_probe.
Proof. unfold wf_probe, new_probe; cbn. split_and!; try lia; try done. apply zeros_ok. Qed.

Lemma wf_complete p : length (header p) = 4%nat -> bytes_ok (header p) -> 0 <= header_len p < 4 ->
  wf_probe (complete_current_frame p).
Proof. intros. unfold wf_probe; cbn. split_and!; done || lia. Qed.

Lemma wf_observe_byte p b : wf_probe p -> is_u8 b -> wf_probe (observe_byte p b).
Proof.
  intros (Hl & Hok & Hh & He) Hb. unfold observe_byte.
  assert (length (<[Z.to_nat (header_len p) := b]> (header p)) = 4%nat) as Hl' by by rewrite length_insert.
  assert (bytes_ok (<[Z.to_nat (header_len p) := b]> (header p))) as Hok' by by apply Forall_insert.
  destruct (expected_frame_len p) as [e|] eqn:Hx.
  - destruct He as (Hh0 & Hs & Hu). case_match; [by apply wf_complete|]. split_and!; cbn; try done; lia.
  - case_match; [split_and!; cbn; try done; lia|].
    pose proof (be_val_bound 4 _ Hok' ltac:(unfold len; lia)) as Hv. change (2 ^ (4 * 8)) with 4294967296 in Hv.
    case_match; [apply wf_complete; cbn; done|]. split_and!; cbn; try done; unfold u32_max; lia.
Qed.

Lemma wf_observe_bytes p bs : wf_probe p -> bytes_ok bs -> wf_probe (foldl observe_byte p bs).
Proof.
  intros Hp Hbs. revert p Hp; induction Hbs as [|b bs Hb Hbs IH]; intros p Hp; cbn; [done|].
  apply IH. by apply wf_observe_byte.
Qed.

(** A part of a frame's payload that does not complete it. *)
Lemma observe_payload p e bs :
  expected_frame_len p = Some e -> current_frame_seen p + len bs < e ->
  foldl observe_byte p bs =
  {| next_frame_index := next_frame_index p; current_frame_index := current_frame_index p;
     completed_frames := completed_frames p; header := header p; header_len := header_len p;
     expected_frame_len := Some e; current_frame_seen := current_frame_seen p + len bs |}.
Proof.
  revert p; induction bs as [|b bs IH]; intros p He Hl; cbn [foldl].
  - rewrite len_nil, Z.add_0_r. destruct p; cbn in *. by rewrite He.
  - rewrite len_cons in Hl. len_pos. unfold observe_byte at 2. rewrite He.
    replace (e <=? current_frame_seen p + 1) with false by lia.
    rewrite IH by (cbn; lia || done). cbn. rewrite len_cons. f_equal. lia.
Qed.

Lemma observe_payload_full p e bs :
  expected_frame_len p = Some e -> bs <> [] -> current_frame_seen p + len bs = e ->
  foldl observe_byte p bs = complete_current_frame p.
Proof.
  intros He Hne Hl. destruct bs as [|b bs _] using rev_ind; [done|].
  rewrite len_app, len_cons, len_nil in Hl. rewrite foldl_app, (observe_payload p e) by (done || lia).
  cbn [foldl]. unfold observe_byte; cbn. replace (e <=? _) with true by lia. done.
Qed.

(** The probe with some more bytes of the header. *)
Definition with_header (p : RelayFrameProbe) (h : list Z) (n : Z) : RelayFrameProbe :=
  if n <? 4 then
    {| next_frame_index := next_frame_index p; current_frame_index := current_frame_index p;
       completed_frames := completed_frames p; header := h; header_len := n;
       expected_frame_len := None; current_frame_seen := current_frame_seen p |}
  else
    let next := saturating_add u64_max (next_frame_index p) 1 in
    let p := {| next_frame_index := next; current_frame_index := next;
                completed_frames := completed_frames p; header := h; header_len := 0;
                expected_frame_len := Some (be_val h); current_frame_seen := 0 |} in
    if be_val h =? 0 then complete_current_frame p else p.

Lemma observe_header p chunk :
  length (header p) = 4%nat -> 0 <= header_len p < 4 -> expected_frame_len p = None ->
  0 < len chunk -> header_len p + len chunk <= 4 ->
  exists h, copy_at (header p) (header_len p) chunk = Some h /\
    foldl observe_byte p chunk = with_header p h (header_len p + len chunk).
Proof.
  intros Hl Hh He Hc Hn. destruct p as [ni ci cf hd hl ex sn]; cbn in *. subst ex.
  destruct hd as [|h0 [|h1 [|h2 [|h3 [|]]]]]; try (cbn in Hl; lia).
  assert (hl = 0 \/ hl = 1 \/ hl = 2 \/ hl = 3) as Hcase by lia.
  destruct chunk as [|c0 [|c1 [|c2 [|c3 [|c4 chunk]]]]]; rewrite ?len_cons, ?len_nil in *; try lia;
    try (pose proof (len_nonneg chunk); lia);
    destruct Hcase as [-> | [-> | [-> | ->]]]; try lia; eexists; (split; [vm_compute; reflexivity|]);
    reflexivity.
Qed.

Lemma observe_step_ok p bs :
  wf_probe p -> bytes_ok bs -> bs <> [] ->
  exists taken rest, taken <> [] /\ bs = taken ++ rest /\
    observe_step p bs = Ok (foldl observe_byte p taken, rest).
Proof.
  intros (Hl & Hok & Hh & He) Hbs Hne.
  assert (0 < len bs) by (destruct bs; [done|rewrite len_cons; len_pos; lia]).
  unfold observe_step. destruct (expected_frame_len p) as [e|] eqn:Hx.
  - destruct He as (Hh0 & Hs & Hu). unfold saturating_sub. rewrite Z.max_r by lia.
    set (k := Z.min (e - current_frame_seen p) (len bs)).
    exists (take (Z.to_nat k) bs), (drop (Z.to_nat k) bs).
    assert (len (take (Z.to_nat k) bs) = k) as Hk by (rewrite len_take; subst k; lia).
    split_and!; [intros Hz; rewrite Hz, len_nil in Hk; lia|by rewrite take_drop|].
    unfold saturating_add. rewrite Z.min_r by (unfold usize_max, u64_max, u32_max in *; lia).
    assert (slice bs k (len bs) = Some (drop (Z.to_nat k) bs)) as ->.
    { rewrite slice_some by (unfold k; lia). f_equal. apply take_ge. rewrite length_drop. unfold len. lia. }
    cbn [or_panic]. rewrite bind_Ok. f_equal. f_equal.
    destruct (Z.leb_spec e (current_frame_seen p + k)).
    + rewrite (observe_payload_full p e); [done|done| |lia]. intros Hz. rewrite Hz, len_nil in Hk. lia.
    + rewrite (observe_payload p e), Hk by (done || lia). done.
  - unfold saturating_sub. rewrite Z.max_r by lia. set (k := Z.min (4 - header_len p) (len bs)).
    exists (take (Z.to_nat k) bs), (drop (Z.to_nat k) bs).
    assert (len (take (Z.to_nat k) bs) = k) as Hk by (rewrite len_take; subst k; lia).
    split_and!; [intros Hz; rewrite Hz, len_nil in Hk; lia|by rewrite take_drop|].
    assert (slice bs k (len bs) = Some (drop (Z.to_nat k) bs)) as ->.
    { rewrite slice_some by (unfold k; lia). f_equal. apply take_ge. rewrite length_drop. unfold len. lia. }
    assert (slice bs 0 k = Some (take (Z.to_nat k) bs)) as ->.
    { rewrite slice_some by (unfold k; lia). by rewrite Z.sub_0_r, drop_0. }
    destruct (observe_header p (take (Z.to_nat k) bs)) as (h & Hc & Hf); [done..|lia|lia|].
    cbn [or_panic]. rewrite bind_Ok, Hc. cbn [or_panic]. rewrite !bind_Ok, Hf, Hk. unfold with_header.
    case_match; done.
Qed.

(** Observing a chunk is observing its bytes, one after the other. *)
Lemma observe_bytes p bs :
  wf_probe p -> bytes_ok bs -> observe p bs = Ok (foldl observe_byte p bs).
Proof.
  intros Hp Hbs. unfold observe.
  assert (forall fuel, (length bs <= fuel)%nat -> observe_loop fuel p bs = Ok (foldl observe_byte p bs)) as Hf;
    [|by apply Hf].
  remember (length bs) as n eqn:Hn. assert (length bs <= n)%nat as Hle by lia. clear Hn.
  revert p bs Hp Hbs Hle; induction n as [|n IH]; intros p bs Hp Hbs Hle fuel Hfuel.
  { destruct bs; [by destruct fuel|cbn in Hle; lia]. }
  destruct bs as [|b bs0]; [by destruct fuel|]. remember (b :: bs0) as bs eqn:Hb.
  destruct (observe_step_ok p bs) as (taken & rest & Ht & Heq & Hs); [done|done|by subst|].
  assert (length rest < length bs)%nat as Hr by (rewrite Heq, length_app; destruct taken; [done|cbn; lia]).
  destruct fuel as [|fuel]; [lia|]. rewrite Hb. cbn [observe_loop]. rewrite <- Hb, Hs. rewrite bind_Ok.
  assert (bytes_ok taken /\ bytes_ok rest) as [Hbt Hbr] by (rewrite Heq in Hbs; by apply Forall_app in Hbs).
  rewrite IH; [|by apply wf_observe_bytes|done|lia|lia]. by rewrite Heq, foldl_app.
Qed.

(** ** Counting frames *)

(** A frame on the wire: its length and its payload. *)
Definition wire_frame (body : list Z) : list Z := be_bytes 4 (len body) ++ body.

Definition idle (p : RelayFrameProbe) : Prop :=
  wf_probe p /\ expected_frame_len p = None /\ header_len p = 0.

Lemma observe_wire_header p n :
  idle p -> is_u32 n ->
  foldl observe_byte p (be_bytes 4 n) = with_header p (be_bytes 4 n) 4.
Proof.
  intros ((Hl & _ & _) & He & Hh) Hn.
  destruct (observe_header p (be_bytes 4 n)) as (h & Hc & Hf); rewrite ?be_bytes_len by lia; [done|lia|done|lia|lia|].
  rewrite Hf, Hh, be_bytes_len by lia. rewrite Hh in Hc.
  assert (h = be_bytes 4 n) as ->; [|done].
  assert (length (be_bytes 4 n) = 4%nat) as Hb by (pose proof (be_bytes_len 4 n); unfold len in *; lia).
  rewrite copy_at_some in Hc by (unfold len; lia). apply (inj Some) in Hc as <-.
  replace (Z.to_nat (0 + len (be_bytes 4 n))) with 4%nat by (unfold len; lia).
  rewrite drop_ge by lia. change (Z.to_nat 0) with 0%nat. by rewrite take_0, app_nil_r.
Qed.

Lemma observe_wire_frame p body :
  idle p -> bytes_ok body -> len body <= u32_max ->
  let p' := foldl observe_byte p (wire_frame body) in
  idle p' /\ frames_started p' = saturating_add u64_max (frames_started p) 1 /\
  frames_completed p' = saturating_add u64_max (frames_completed p) 1.
Proof.
  intros Hp Hok Hl p'. len_pos. assert (is_u32 (len body)) as Hu by (unfold is_u32; lia).
  assert (wf_probe p') as Hwf.
  { apply wf_observe_bytes; [apply Hp|]. apply Forall_app_2; [by apply be_bytes_ok|done]. }
  unfold p', wire_frame in *. rewrite foldl_app, observe_wire_header in * by done. unfold with_header in *.
  replace (4 <? 4) with false in * by lia. rewrite be_val_u32_bytes in * by done.
  destruct (Z.eqb_spec (len body) 0) as [H0|H0].
  - rewrite (len_0_nil body H0) in *. by split_and!.
  - rewrite (observe_payload_full _ (len body)) in *; try done; try (cbn; lia).
    all: intros ->; by rewrite len_nil in H0.
Qed.

(** A frame that is cut short. *)
Lemma observe_wire_partial p body (j : nat) :
  idle p -> bytes_ok body -> len body <= u32_max -> (j < length (wire_frame body))%nat ->
  let p' := foldl observe_byte p (take j (wire_frame body)) in
  frames_started p' = (if (j <? 4)%nat then frames_started p else saturating_add u64_max (frames_started p) 1) /\
  frames_completed p' = frames_completed p.
Proof.
  intros Hp Hok Hl Hj p'. len_pos. assert (is_u32 (len body)) as Hu by (unfold is_u32; lia).
  assert (length (be_bytes 4 (len body)) = 4%nat) as Hb by (pose proof (be_bytes_len 4 (len body)); unfold len in *; lia).
  unfold p', wire_frame in *. rewrite length_app, Hb in Hj. destruct (Nat.ltb_spec j 4) as [Hj4|Hj4].
  - rewrite take_app_le by lia. destruct Hp as ((Hpl & _ & _) & He & Hh). destruct j as [|j]; [done|].
    destruct (observe_header p (take (S j) (be_bytes 4 (len body)))) as (h & _ & ->);
      rewrite ?len_take, ?Hh; unfold len in *; try lia; try done.
    unfold with_header. by replace (_ <? 4) with true by lia.
  - rewrite take_app_ge, foldl_app, observe_wire_header, Hb by (done || lia). unfold with_header.
    replace (4 <? 4) with false by lia. rewrite be_val_u32_bytes by done.
    replace (len body =? 0) with false by (unfold len; lia).
    rewrite (observe_payload _ (len body)); [done|done|]. cbn. rewrite len_take. unfold len. lia.
Qed.

Lemma observe_wire_frames p bodies :
  idle p -> Forall bytes_ok bodies -> Forall (fun b => len b <= u32_max) bodies ->
  frames_started p + len bodies <= u64_max -> frames_completed p + len bodies <= u64_max ->
  let p' := foldl observe_byte p (concat (map wire_frame bodies)) in
  idle p' /\ frames_started p' = frames_started p + len bodies /\
  frames_completed p' = frames_completed p + len bodies.
Proof.
  intros Hp Hok. revert p Hp; induction Hok as [|b bodies Hb Hok IH]; intros p Hp Hl Hs Hc.
  { rewrite len_nil, !Z.add_0_r. done. }
  apply Forall_cons in Hl as [Hlb Hl]. rewrite len_cons in *. len_pos. cbn [map concat]. rewrite foldl_app.
  destruct (observe_wire_frame p b) as (Hp' & Hs' & Hc'); [done..|].
  unfold saturating_add in Hs', Hc'. rewrite Z.min_r in Hs', Hc' by lia.
  destruct (IH (foldl observe_byte p (wire_frame b))) as (? & -> & ->); [done|done|lia|lia|].
  split; [done|]. lia.
Qed.

Lemma foldM_observe p chunks :
  wf_probe p -> Forall bytes_ok chunks ->
  foldM observe p chunks = Ok (foldl observe_byte p (concat chunks)).
Proof.
  intros Hp Hc. revert p Hp; induction Hc as [|c chunks Hc Hcs IH]; intros p Hp; cbn [foldM concat]; [done|].
  rewrite observe_bytes by done. rewrite bind_Ok, foldl_app. apply IH. by apply wf_observe_bytes.
Qed.

(** ** The copy loop *)

(** One direction: what was written is what was read, the target is shut exactly
    when the source ended, and the counters describe what was written. *)
Definition dir_inv (total out input : list Z) (d : DirectionState) (shut : bool) : Prop :=
  total = out ++ input /\ (eof d = true -> input = []) /\ shut = eof d /\
  probe d = foldl observe_byte new_probe out /\ copied (stats d) = Z.min u64_max (len out).

Definition copy_inv (a b : list Z) (st : CopyState) : Prop :=
  dir_inv a (b_out st) (a_in st) (a_to_b st) (b_shut st) /\
  dir_inv b (a_out st) (b_in st) (b_to_a st) (a_shut st).

Lemma copy_inv_new a b : copy_inv a b (new_copy a b).
Proof. by repeat split. Qed.

Lemma observe_read_ok total out input d shut (n : nat) :
  bytes_ok total -> dir_inv total out input d shut -> (n <= length input)%nat ->
  exists d', observe_read d (take n input) = Ok d' /\ eof d' = eof d /\
    dir_inv total (out ++ take n input) (drop n input) d' (eof d).
Proof.
  intros Hok (Ht & He & Hs & Hp & Hc) Hn. rewrite Ht in Hok. apply Forall_app in Hok as [Hout Hin].
  assert (bytes_ok (take n input)) as Hch by by apply Forall_take.
  unfold observe_read. rewrite Hp, observe_bytes by (apply wf_observe_bytes || done; apply wf_new_probe || done).
  rewrite bind_Ok. eexists; split; [done|]. cbn [eof]. split; [done|]. unfold dir_inv; cbn.
  split_and!; [by rewrite <- app_assoc, take_drop| |done|by rewrite foldl_app|].
  - intros Hx. by rewrite (He Hx), drop_nil.
  - rewrite Hc, len_app. len_pos. unfold saturating_add. lia.
Qed.

Lemma copy_a_inv a b st n ok :
  bytes_ok a -> copy_inv a b st -> enabled st (Read A n ok) = true ->
  match copy_a st n ok with
  | Ok st' => copy_inv a b st' /\
      (length (a_in st') + (if eof (a_to_b st') then 0 else 1) <
       length (a_in st) + (if eof (a_to_b st) then 0 else 1))%nat /\
      b_in st' = b_in st /\ b_to_a st' = b_to_a st
  | Err _ => ok = false
  | _ => False
  end.
Proof.
  intros Hok [Ha Hb] He. unfold enabled, read_ok in He. unfold copy_a.
  assert (eof (a_to_b st) = false) as Hopen by (destruct (eof (a_to_b st)); [lia|done]).
  destruct (Z.eqb_spec n 0) as [->|Hn].
  - assert (a_in st = []) as Hnil by (apply len_0_nil; len_pos; destruct (Z.eqb_spec (len (a_in st)) 0); lia).
    destruct Ha as (Ht & Hx & Hs & Hp & Hc). rewrite Hopen. split_and!; cbn; try done. lia.
  - destruct (Z.eqb_spec (len (a_in st)) 0) as [H0|H0]; [lia|].
    destruct (observe_read_ok _ _ _ _ _ (Z.to_nat n) Hok Ha) as (d & Hd & Hde & Hi); [unfold len in *; lia|].
    rewrite slice_some by lia. rewrite drop_0, Z.sub_0_r. cbn [or_panic]. rewrite bind_Ok, Hd.
    cbn [map_err]. rewrite bind_Ok. destruct ok; cbn [negb]; [|done].
    destruct Ha as (_ & _ & Hs & _). rewrite Hopen. split_and!; cbn; try done.
    + split; [|done]. cbn. by rewrite Hs.
    + rewrite Hde, Hopen, length_drop. unfold len in *. lia.
Qed.

Lemma copy_b_inv a b st n ok :
  bytes_ok b -> copy_inv a b st -> enabled st (Read B n ok) = true ->
  match copy_b st n ok with
  | Ok st' => copy_inv a b st' /\
      (length (b_in st') + (if eof (b_to_a st') then 0 else 1) <
       length (b_in st) + (if eof (b_to_a st) then 0 else 1))%nat /\
      a_in st' = a_in st /\ a_to_b st' = a_to_b st
  | Err _ => ok = false
  | _ => False
  end.
Proof.
  intros Hok [Hb Ha] He. unfold enabled, read_ok in He. unfold copy_b.
  assert (eof (b_to_a st) = false) as Hopen by (destruct (eof (b_to_a st)); [lia|done]).
  destruct (Z.eqb_spec n 0) as [->|Hn].
  - assert (b_in st = []) as Hnil by (apply len_0_nil; len_pos; destruct (Z.eqb_spec (len (b_in st)) 0); lia).
    destruct Ha as (Ht & Hx & Hs & Hp & Hc). rewrite Hopen. split_and!; cbn; try done. lia.
  - destruct (Z.eqb_spec (len (b_in st)) 0) as [H0|H0]; [lia|].
    destruct (observe_read_ok _ _ _ _ _ (Z.to_nat n) Hok Ha) as (d & Hd & Hde & Hi); [unfold len in *; lia|].
    rewrite slice_some by lia. rewrite drop_0, Z.sub_0_r. cbn [or_panic]. rewrite bind_Ok, Hd.
    cbn [map_err]. rewrite bind_Ok. destruct ok; cbn [negb]; [|done].
    destruct Ha as (_ & _ & Hs & _). rewrite Hopen. split_and!; cbn; try done.
    + split; [done|]. cbn. by rewrite Hs.
    + rewrite Hde, Hopen, length_drop. unfold len in *. lia.
Qed.

(** What is left to do. *)
Definition to_do (st : CopyState) : nat :=
  length (a_in st) + length (b_in st) +
  (if eof (a_to_b st) then 0 else 1) + (if eof (b_to_a st) then 0 else 1).

Lemma copy_step_inv a b st e :
  bytes_ok a -> bytes_ok b -> copy_inv a b st -> enabled st e = true ->
  match copy_step st e with
  | Ok st' => copy_inv a b st' /\ (to_do st' < to_do st)%nat
  | Err _ => True
  | _ => False
  end.
Proof.
  intros Ha Hb Hi He. unfold to_do. destruct e as [[] n ok|[]]; cbn [copy_step]; [| |done|done].
  - pose proof (copy_a_inv a b st n ok Ha Hi He) as Hs. destruct (copy_a st n ok); try done.
    destruct Hs as (? & ? & -> & ->). split; [done|lia].
  - pose proof (copy_b_inv a b st n ok Hb Hi He) as Hs. destruct (copy_b st n ok); try done.
    destruct Hs as (? & ? & -> & ->). split; [done|lia].
Qed.

Lemma copy_run_inv a b st es r :
  bytes_ok a -> bytes_ok b -> copy_inv a b st -> copy_run st es r ->
  (length es <= to_do st)%nat /\
  match r with Ok st' => copy_inv a b st' | Err _ => True | _ => False end.
Proof.
  intros Ha Hb Hi Hr. induction Hr as [st|st e es st' r He Hs Hr IH|st e r He Hs Hn]; [by split; [cbn; lia|]|..];
    pose proof (copy_step_inv a b st e Ha Hb Hi He) as Hstep; rewrite Hs in Hstep.
  - destruct Hstep as [Hi' Hlt]. destruct (IH Hi') as [Hle Hm]. split; [cbn; lia|done].
  - split; [|destruct r; try done; by edestruct Hn]. cbn. unfold to_do. unfold enabled, done_copying in He.
    destruct (eof (a_to_b st)), (eof (b_to_a st)); cbn in He; lia.
Qed.

(** A loop that is not done can go on: some read is possible. *)
Lemma copy_progress st :
  done_copying st = false -> exists e, enabled st e = true /\ forall x, e <> ReadFailed x.
Proof.
  intros Hd. pose proof Hd as Hd'. unfold done_copying in Hd'.
  assert (forall l, read_ok (Z.min (len l) 1) l = true) as Hrd.
  { intros l. unfold read_ok, RELAY_COPY_BUFFER_BYTES. pose proof (len_nonneg l). destruct (Z.eqb_spec (len l) 0); lia. }
  destruct (eof (a_to_b st)) eqn:Ha.
  - exists (Read B (Z.min (len (b_in st)) 1) true). split; [|done]. unfold enabled. rewrite Hd, Hrd.
    by destruct (eof (b_to_a st)).
  - exists (Read A (Z.min (len (a_in st)) 1) true). split; [|done]. unfold enabled. by rewrite Hd, Hrd, Ha.
Qed.

(** ** Pairing *)

(** The relay's connections: the next number, the waiting ones, the sessions that
    were paired, and for every connection the session it asked for. *)
Record world := {
  next_id : Z;
  relay : RelayState;
  pairs : list (text * Z * Z);
  asked : gmap Z text;
}.

Definition new_world (ttl : Z) : world :=
  {| next_id := 1; relay := {| pending := ∅; pending_ttl := ttl |}; pairs := []; asked := ∅ |}.

(** What can happen: a connection whose request is refused, one that is accepted,
    and a pass of the clean-up. *)
Inductive relay_step : world -> world -> Prop :=
  | step_refused w input e :
      handshake input = Err e ->
      relay_step w {| next_id := wrap_u64 (next_id w + 1); relay := relay w; pairs := pairs w;
                      asked := asked w |}
  | step_wait w input now sid rest resp st :
      handshake input = Ok (sid, rest, resp) ->
      pair_or_wait now (next_id w) sid (relay w) = (st, None) ->
      relay_step w {| next_id := wrap_u64 (next_id w + 1); relay := st; pairs := pairs w;
                      asked := <[next_id w := sid]> (asked w) |}
  | step_pair w input now sid rest resp st peer :
      handshake input = Ok (sid, rest, resp) ->
      pair_or_wait now (next_id w) sid (relay w) = (st, Some peer) ->
      relay_step w {| next_id := wrap_u64 (next_id w + 1); relay := st;
                      pairs := (sid, connection_id peer, next_id w) :: pairs w;
                      asked := <[next_id w := sid]> (asked w) |}
  | step_cleanup w now :
      relay_step w {| next_id := next_id w; relay := cleanup now (relay w); pairs := pairs w;
                      asked := asked w |}.

(** [n] connections at most were made. *)
Inductive relay_reachable (ttl : Z) : nat -> world -> Prop :=
  | relay_start : relay_reachable ttl 0 (new_world ttl)
  | relay_next n w w' : relay_reachable ttl n w -> relay_step w w' -> relay_reachable ttl (S n) w'.

(** Everyone waits under the session they asked for, pairs join two connections that
    asked for the same session, and nobody is in two places. *)
Definition waiting_ids (w : world) : list Z := map (fun kv => connection_id kv.2) (map_to_list (pending (relay w))).
Definition paired_ids (w : world) : list Z := concat (map (fun t => [t.1.2; t.2]) (pairs w)).

Definition world_inv (w : world) : Prop :=
  (forall sid c, pending (relay w) !! sid = Some c -> asked w !! connection_id c = Some sid) /\
  Forall (fun t => asked w !! t.1.2 = Some t.1.1 /\ asked w !! t.2 = Some t.1.1) (pairs w) /\
  NoDup (waiting_ids w ++ paired_ids w) /\
  (forall i s, asked w !! i = Some s -> i < next_id w).

Lemma cleanup_lookup now st sid :
  pending (cleanup now st) !! sid =
  match pending st !! sid with
  | Some c => if decide (duration_since now (received_at c) <= pending_ttl st) then Some c else None
  | None => None
  end.
Proof.
  cbn. rewrite map_lookup_filter. destruct (pending st !! sid) as [c|]; [|done]. cbn.
  by case_decide; [rewrite option_guard_True|rewrite option_guard_False].
Qed.

Lemma submseteq_NoDup {A} (l k : list A) : l ⊆+ k -> NoDup k -> NoDup l.
Proof. intros [j ->]%submseteq_Permutation Hk. by apply NoDup_app in Hk as [? _]. Qed.

Section step.
Context (w : world) (Hinv : world_inv w) (Hid : 1 <= next_id w < u64_max).

Lemma next_wrap : wrap_u64 (next_id w + 1) = next_id w + 1.
Proof using Hid. unfold wrap_u64. apply Z.mod_small. unfold u64_max in *. lia. Qed.

Lemma next_fresh : asked w !! next_id w = None.
Proof using Hinv. destruct Hinv as (_ & _ & _ & Ha). destruct (asked w !! next_id w) eqn:Hx; [|done]. apply Ha in Hx. lia. Qed.

(** What the others asked for does not change. *)
Lemma asked_keep i s sid : asked w !! i = Some s -> <[next_id w := sid]> (asked w) !! i = Some s.
Proof using Hinv. intros Hi. rewrite lookup_insert_ne; [done|]. intros <-. pose proof next_fresh. congruence. Qed.

Lemma asked_bound sid i s : <[next_id w := sid]> (asked w) !! i = Some s -> i < wrap_u64 (next_id w + 1).
Proof using Hinv Hid.
  rewrite next_wrap. destruct Hinv as (_ & _ & _ & Ha). intros Hi. apply lookup_insert_Some in Hi as [[<- _]|[_ Hi]]; [lia|].
  apply Ha in Hi. lia.
Qed.

Lemma next_not_in : next_id w ∉ waiting_ids w ++ paired_ids w.
Proof using Hinv.
  pose proof next_fresh as Hfresh. destruct Hinv as (Hw & Hp & _ & _). intros [Hin|Hin]%elem_of_app.
  - unfold waiting_ids in Hin. apply list_elem_of_fmap in Hin as ([sid c] & Heq & Hin).
    apply elem_of_map_to_list, Hw in Hin. cbn in Heq. rewrite <- Heq in Hin. congruence.
  - unfold paired_ids in Hin. apply list_elem_of_In, in_concat in Hin as (l & Hl & Hin).
    apply in_map_iff in Hl as (t & <- & Ht). apply list_elem_of_In in Ht.
    rewrite Forall_forall in Hp. apply Hp in Ht. destruct Hin as [Heq|[Heq|[]]];
      rewrite <- Heq in Hfresh; destruct Ht; congruence.
Qed.

Lemma pairs_keep sid : Forall (fun t => <[next_id w := sid]> (asked w) !! t.1.2 = Some t.1.1 /\
  <[next_id w := sid]> (asked w) !! t.2 = Some t.1.1) (pairs w).
Proof using Hinv.
  destruct Hinv as (_ & Hp & _ & _). eapply Forall_impl; [exact Hp|]. intros t [H1 H2].
  split; by apply asked_keep.
Qed.

Lemma world_inv_wait now sid st :
  pair_or_wait now (next_id w) sid (relay w) = (st, None) ->
  world_inv {| next_id := wrap_u64 (next_id w + 1); relay := st; pairs := pairs w;
               asked := <[next_id w := sid]> (asked w) |}.
Proof using Hinv Hid.
  intros Hpw. unfold pair_or_wait in Hpw. destruct (pending (relay w) !! sid) eqn:Hs; simplify_eq.
  pose proof next_not_in as Hnew. pose proof Hinv as (Hw & _ & Hnd & _). split_and!; cbn [asked pairs relay next_id pending].
  - intros sid' c Hc. apply lookup_insert_Some in Hc as [[<- <-]|[_ Hc]]; cbn; [apply lookup_insert_eq|].
    by apply asked_keep, Hw.
  - apply pairs_keep.
  - unfold waiting_ids, paired_ids in *. cbn [relay pending pairs] in *. rewrite map_to_list_insert by done.
    cbn [map app]. by apply NoDup_cons.
  - apply asked_bound.
Qed.

Lemma world_inv_pair now sid st peer :
  pair_or_wait now (next_id w) sid (relay w) = (st, Some peer) ->
  world_inv {| next_id := wrap_u64 (next_id w + 1); relay := st;
               pairs := (sid, connection_id peer, next_id w) :: pairs w;
               asked := <[next_id w := sid]> (asked w) |}.
Proof using Hinv Hid.
  intros Hpw. unfold pair_or_wait in Hpw. destruct (pending (relay w) !! sid) eqn:Hs; simplify_eq.
  pose proof next_not_in as Hnew. pose proof Hinv as (Hw & _ & Hnd & _). split_and!; cbn [asked pairs relay next_id pending].
  - intros sid' c Hc. apply lookup_delete_Some in Hc as [_ Hc]. by apply asked_keep, Hw.
  - constructor; [|apply pairs_keep]. cbn. split; [by apply asked_keep, Hw|apply lookup_insert_eq].
  - unfold waiting_ids, paired_ids in *. cbn [relay pending pairs map concat app] in *.
    rewrite <- (map_to_list_delete _ _ _ Hs) in Hnd, Hnew. cbn [map app] in *.
    rewrite <- !Permutation_middle. cbn [fst snd]. rewrite (Permutation_swap (next_id w)). by apply NoDup_cons.
  - apply asked_bound.
Qed.

Lemma world_inv_cleanup now :
  world_inv {| next_id := next_id w; relay := cleanup now (relay w); pairs := pairs w; asked := asked w |}.
Proof using Hinv.
  destruct Hinv as (Hw & Hp & Hnd & Ha). split_and!; cbn [asked pairs relay next_id]; try done.
  - intros sid c Hc. cbn in Hc. apply map_lookup_filter_Some in Hc as [Hc _]. by apply Hw.
  - eapply submseteq_NoDup; [|exact Hnd]. unfold waiting_ids, paired_ids. cbn [relay pairs pending cleanup].
    apply submseteq_skips_r, fmap_submseteq, map_to_list_submseteq, map_filter_subseteq.
Qed.
End step.

Lemma world_inv_step w w' :
  world_inv w -> 1 <= next_id w < u64_max -> relay_step w w' ->
  world_inv w' /\ next_id w <= next_id w' <= next_id w + 1.
Proof.
  intros Hinv Hid Hstep. pose proof (next_wrap w Hid) as Hn.
  destruct Hstep; cbn [next_id]; rewrite ?Hn; (split; [|lia]).
  - rewrite <- Hn. destruct Hinv as (Hw & Hp & Hnd & Ha). split_and!; try done. cbn. rewrite Hn.
    intros i s Hi. apply Ha in Hi. lia.
  - rewrite <- Hn. by eapply world_inv_wait.
  - rewrite <- Hn. by eapply world_inv_pair.
  - by apply world_inv_cleanup.
Qed.

Lemma relay_reachable_inv ttl n w :
  relay_reachable ttl n w -> Z.of_nat n < u64_max -> world_inv w /\ 1 <= next_id w <= Z.of_nat n + 1.
Proof.
  induction 1 as [|n w w' Hr IH Hstep]; intros Hn.
  - split; [|cbn; lia]. split_and!; cbn; try done; constructor.
  - destruct IH as [Hinv Hid]; [lia|]. apply world_inv_step in Hstep as [? ?]; [|done|lia]. split; [done|lia].
Qed.

(** ** The handshake *)

Lemma request_line_loop line l rest :
  10 ∉ l -> len (line ++ l) <= REQUEST_LINE_LIMIT ->
  read_request_line_loop line (l ++ 10 :: rest) = Ok (line ++ l ++ [10], rest).
Proof.
  revert line; induction l as [|b l IH]; intros line Hn Hl; cbn [app read_request_line_loop].
  - done.
  - apply not_elem_of_cons in Hn as [Hb Hn]. replace (b =? 10) with false by lia.
    assert (line ++ b :: l = (line ++ [b]) ++ l) as E by (by rewrite <- app_assoc). rewrite E in Hl.
    replace (REQUEST_LINE_LIMIT <? len (line ++ [b])) with false by (rewrite len_app in Hl; len_pos; lia).
    rewrite IH by done. by rewrite <- app_assoc.
Qed.

Lemma headers_loop_ok seen body rest :
  is_head (seen ++ body) -> body <> [] -> read_headers_loop (window_of seen) (body ++ rest) = Ok rest.
Proof.
  revert seen; induction body as [|b body IH]; intros seen Hh Hne; [done|]. cbn [app read_headers_loop].
  rewrite slide_window_of.
  assert (seen ++ b :: body = (seen ++ [b]) ++ body) as E by (by rewrite <- app_assoc). rewrite E in Hh.
  destruct body as [|c body].
  - rewrite app_nil_r in Hh. by rewrite is_head_at_end.
  - pose proof (is_head_no_blank _ _ Hh ltac:(done)) as Hn.
    replace (at_end (window_of (seen ++ [b]))) with false; [by apply IH|].
    symmetry. apply not_true_iff_false. rewrite at_end_window_of. apply (Hn _ []). by rewrite app_nil_r.
Qed.

(** A line without a carriage return, and an empty line. *)
Lemma is_head_line l : 13 ∉ l -> is_head (l ++ blank_line).
Proof.
  intros Hn. split; [by exists l|]. intros h1 h2 Heq Hne [pre ->].
  assert (length pre < length l)%nat as Hl.
  { apply (f_equal length) in Heq. rewrite !length_app in Heq. destruct h2; [done|cbn in Heq; lia]. }
  apply (f_equal (fun k => k !! length pre)) in Heq.
  rewrite <- app_assoc, (lookup_app_l l), (lookup_app_r pre), Nat.sub_diag in Heq by lia. cbn in Heq.
  apply Hn. by eapply list_elem_of_lookup_2.
Qed.

(** An ASCII character in the encoding is one of the text. *)
Lemma utf8_char_ascii c b : is_scalar c -> b < 128 -> b ∈ utf8_char c -> b = c.
Proof.
  intros Hc Hb. unfold is_scalar in Hc. unfold utf8_char.
  pose proof (Z.mod_pos_bound c 64 ltac:(lia)). pose proof (Z.mod_pos_bound (c / 64) 64 ltac:(lia)).
  pose proof (Z.mod_pos_bound (c / 4096) 64 ltac:(lia)).
  pose proof (Z.div_pos c 64). pose proof (Z.div_pos c 4096). pose proof (Z.div_pos c 262144).
  repeat case_match; rewrite ?elem_of_cons, elem_of_nil; intros Hin; lia.
Qed.

Lemma utf8_ascii_in t b : Forall is_scalar t -> b < 128 -> b ∈ utf8 t -> b ∈ t.
Proof.
  intros Ht Hb. induction Ht as [|c t Hc Ht IH]; [done|]. rewrite utf8_cons. intros [Hin|Hin]%elem_of_app.
  - apply utf8_char_ascii in Hin as ->; [apply list_elem_of_here|done|done].
  - by apply list_elem_of_further, IH.
Qed.

(** A session name a peer can ask for: not empty and without white space. *)
Definition session_name (sid : text) : Prop := Forall is_scalar sid /\ no_space sid /\ sid <> [].

Definition request_line (sid : text) : text := str "GET /relay/" ++ sid ++ str " HTTP/1.1".

Lemma relay_request_bytes sid host :
  utf8 (relay_request sid host) =
  utf8 (request_line sid ++ [13]) ++ 10 :: (utf8 (str "Host: " ++ host) ++ blank_line).
Proof.
  unfold relay_request, request_line, blank_line. rewrite !utf8_app, <- !app_assoc. repeat f_equal.
Qed.

Lemma request_line_scalar sid s :
  Forall is_scalar sid -> is_ascii s -> Forall is_scalar (request_line sid ++ s).
Proof.
  intros Hs Ha. unfold request_line. repeat apply Forall_app_2; try done; apply ascii_scalar; done || by_evaluation.
Qed.

Lemma request_line_trim sid : trim (request_line sid ++ [13; 10]) = request_line sid.
Proof.
  unfold trim, trim_by. change (request_line sid ++ [13; 10]) with
    (71 :: (drop 1 (str "GET /relay/") ++ sid ++ str " HTTP/1.1") ++ [13; 10]).
  rewrite drop_while_none by done. rewrite app_comm_cons, trim_end_app by by_evaluation.
  unfold trim_end_by. change (str " HTTP/1.1") with (str " HTTP/1." ++ [49]).
  rewrite !app_assoc, app_comm_cons, reverse_snoc, drop_while_none by done.
  rewrite reverse_cons, reverse_involutive. cbn [app]. rewrite <- !app_assoc. reflexivity.
Qed.

Lemma parse_request_line sid : session_name sid -> parse_session_id (request_line sid) = Ok sid.
Proof.
  intros (_ & Hsp & Hne). unfold parse_session_id, request_line.
  assert (split_whitespace (str "GET /relay/" ++ sid ++ str " HTTP/1.1") =
          [str "GET"; str "/relay/" ++ sid; str "HTTP/1.1"]) as ->.
  { change (str "GET /relay/" ++ sid ++ str " HTTP/1.1") with
      (str "GET" ++ 32 :: ((str "/relay/" ++ sid) ++ str " HTTP/1.1")) || idtac.
    change (str "GET /relay/") with (str "GET" ++ 32 :: str "/relay/").
    change (str " HTTP/1.1") with (32 :: str "HTTP/1.1"). rewrite <- app_assoc. cbn [app].
    rewrite split_whitespace_cons by (done || by_evaluation).
    rewrite app_assoc, split_whitespace_cons; [done| |by destruct sid|done].
    apply Forall_app_2; [by_evaluation|done]. }
  change (default [] ([str "GET"; str "/relay/" ++ sid; str "HTTP/1.1"] !! 0%nat)) with (str "GET").
  change (default [] ([str "GET"; str "/relay/" ++ sid; str "HTTP/1.1"] !! 1%nat)) with (str "/relay/" ++ sid).
  rewrite bool_decide_true by done. cbn [negb].
  unfold starts_with. rewrite strip_prefix_app. cbn [negb]. rewrite drop_app_length.
  replace (len sid =? 0) with false; [done|]. destruct sid; [done|]. rewrite len_cons. len_pos. lia.
Qed.

Lemma handshake_ok sid host rest :
  session_name sid -> Forall is_scalar host -> 13 ∉ host ->
  len (utf8 (request_line sid)) < REQUEST_LINE_LIMIT ->
  handshake (utf8 (relay_request sid host) ++ rest) = Ok (sid, rest, RESPONSE).
Proof.
  intros Hsid Hhost Hcr Hlen. pose proof Hsid as (Hsc & Hsp & _). rewrite relay_request_bytes, <- app_assoc. cbn [app].
  assert (Forall is_scalar (request_line sid ++ [13])) as Hs1 by (apply request_line_scalar; [done|by_evaluation]).
  assert (10 ∉ request_line sid ++ [13]) as Hn10.
  { unfold request_line. rewrite !elem_of_app. intros Hin.
    assert (10 ∈ sid) as Hin' by (destruct Hin as [[Hin|[Hin|Hin]]|Hin]; [|done|..];
      repeat (apply elem_of_cons in Hin as [Hin|Hin]; [discriminate|]); by apply elem_of_nil in Hin).
    unfold no_space in Hsp. rewrite Forall_forall in Hsp. by apply Hsp in Hin'. }
  unfold handshake, read_request_line. rewrite (request_line_loop []); cycle 1.
  { intros Hin. apply Hn10. by apply utf8_ascii_in in Hin. }
  { cbn [app]. rewrite utf8_app, len_app. change (len (utf8 [13])) with 1. lia. }
  rewrite !bind_Ok. cbv beta iota. cbn [app].
  replace (utf8 (request_line sid ++ [13]) ++ [10]) with (utf8 ((request_line sid ++ [13]) ++ [10]))
    by (by rewrite (utf8_app (_ ++ _))).
  rewrite from_utf8_lossy_utf8 by (apply Forall_app_2; [done|by_evaluation]).
  rewrite <- (app_assoc (request_line sid)). rewrite request_line_trim, parse_request_line by done. rewrite bind_Ok.
  unfold read_headers. rewrite <- window_of_nil, <- app_assoc, app_assoc.
  rewrite (headers_loop_ok [] (utf8 (str "Host: " ++ host) ++ blank_line)); [done| |].
  - apply is_head_line. intros Hin. apply utf8_ascii_in in Hin; [|
      apply Forall_app_2; [apply ascii_scalar; by_evaluation|done]|lia].
    apply elem_of_app in Hin as [Hin|Hin]; [|done].
    repeat (apply elem_of_cons in Hin as [Hin|Hin]; [discriminate|]). by apply elem_of_nil in Hin.
  - intros Hx. apply app_eq_nil in Hx as [_ Hx]. done.
Qed.

(** ** Properties *)

(** A peer's request is understood: from the bytes a client sends to open a
    session, the relay reads exactly that session's name, takes no byte of the
    encrypted stream that follows, and its response is read by the client without
    taking a byte of what comes after it. *)
Theorem relay_handshake sid host rest rest' :
  session_name sid -> Forall is_scalar host -> 13 ∉ host ->
  len (utf8 (request_line sid)) < REQUEST_LINE_LIMIT ->
  exists response,
    handshake (utf8 (relay_request sid host) ++ rest) = Ok (sid, rest, response) /\
    read_http_response (response ++ rest') = Ok rest'.
Proof.
  intros Hsid Hhost Hcr Hlen. exists RESPONSE. split; [by apply handshake_ok|].
  apply read_http_response_iff. exists RESPONSE. split_and!; [done| |vm_compute; discriminate].
  apply (is_head_line (str "HTTP/1.1 200 OK")). by_evaluation.
Qed.

Lemma relay_handshake_witness :
  exists response,
    handshake (utf8 (relay_request (str "a1-b2") (str "relay.example.com")) ++ [0; 0; 0; 12]) =
      Ok (str "a1-b2", [0; 0; 0; 12], response) /\
    read_http_response (response ++ [7]) = Ok [7].
Proof.
  apply (relay_handshake (str "a1-b2") (str "relay.example.com") [0; 0; 0; 12] [7]).
  - split_and!; [apply ascii_scalar; by_evaluation|by_evaluation|discriminate].
  - apply ascii_scalar; by_evaluation.
  - by_evaluation.
  - vm_compute. reflexivity.
Defined.

(** The probe counts the frames of a stream however it is cut into chunks: after
    [n] whole frames and a part of another, it has seen [n] frames end, and started
    one more exactly if the part holds the whole length field; it never panics and
    never waits for bytes it already has. *)
Theorem probe_counts_frames chunks bodies body j :
  concat chunks = concat (map wire_frame bodies) ++ take j (wire_frame body) ->
  (j < length (wire_frame body))%nat ->
  Forall bytes_ok chunks -> Forall bytes_ok (body :: bodies) ->
  Forall (fun b => len b <= u32_max) (body :: bodies) -> len bodies < u64_max ->
  exists p, foldM observe new_probe chunks = Ok p /\
    frames_completed p = len bodies /\
    frames_started p = len bodies + (if (j <? 4)%nat then 0 else 1).
Proof.
  intros Hc Hj Hok Hbs Hl Hn. rewrite foldM_observe by (done || apply wf_new_probe).
  apply Forall_cons in Hbs as [Hb Hbs]. apply Forall_cons in Hl as [Hlb Hl].
  eexists; split; [done|]. rewrite Hc, foldl_app.
  destruct (observe_wire_frames new_probe bodies) as (Hi & Hs & Hd); [|done|done|cbn; lia|cbn; lia|].
  { split; [apply wf_new_probe|done]. }
  destruct (observe_wire_partial (foldl observe_byte new_probe (concat (map wire_frame bodies))) body j)
    as [Hs' Hd']; [done..|].
  rewrite Hs', Hd', Hs, Hd. change (frames_started new_probe) with 0.
  change (frames_completed new_probe) with 0. split; [lia|]. unfold saturating_add. case_match; lia.
Qed.

Lemma probe_counts_frames_witness :
  exists p, foldM observe new_probe [[0; 0]; [0; 3; 9]; [8; 7; 0]] = Ok p /\
    frames_completed p = len [[9; 8; 7]] /\ frames_started p = len [[9; 8; 7]] + 0.
Proof.
  apply (probe_counts_frames [[0; 0]; [0; 3; 9]; [8; 7; 0]] [[9; 8; 7]] [1] 1).
  - vm_compute. reflexivity.
  - vm_compute. lia.
  - repeat (apply Forall_cons_2; [bytes_check|]); apply Forall_nil_2.
  - repeat (apply Forall_cons_2; [bytes_check|]); apply Forall_nil_2.
  - repeat (apply Forall_cons_2; [unfold u32_max, len; cbn; lia|]); apply Forall_nil_2.
  - unfold u64_max, len; cbn; lia.
Defined.


Definition sample_events : list event := [Read A 2 true; Read B 0 true; Read A 1 true; Read A 0 true].
Definition sample_sent : list Z := [1; 2; 3].


(** C20.  The relay joins only connections that asked for the same session, and every
    connection at most once: in every reachable state, connections wait under the
    name they asked for, the two of a pair asked for the pair's session, and no
    connection is in two places, be it waiting or paired. *)
Theorem relay_pairs_sessions ttl n w :
  relay_reachable ttl n w -> Z.of_nat n < u64_max ->
  (forall sid c, pending (relay w) !! sid = Some c -> asked w !! connection_id c = Some sid) /\
  Forall (fun '(sid, a, b) => asked w !! a = Some sid /\ asked w !! b = Some sid) (pairs w) /\
  NoDup (waiting_ids w ++ paired_ids w).
Proof.
  intros Hr Hn. destruct (relay_reachable_inv ttl n w Hr Hn) as [(Hw & Hp & Hnd & _) _].
  split_and!; [done| |done]. eapply Forall_impl; [exact Hp|]. by intros [[sid a] b].
Qed.

Definition sample_request : list Z := utf8 (relay_request (str "s") (str "h")).

Lemma sample_handshake : handshake sample_request = Ok (str "s", [], RESPONSE).
Proof. vm_compute. reflexivity. Qed.

Definition sample_world : world :=
  {| next_id := 3; relay := {| pending := ∅; pending_ttl := 600000 |};
     pairs := [(str "s", 1, 2)]; asked := <[2 := str "s"]> (<[1 := str "s"]> ∅) |}.

Lemma relay_pairs_sessions_witness :
  Forall (fun '(sid, a, b) => asked sample_world !! a = Some sid /\ asked sample_world !! b = Some sid)
    (pairs sample_world).
Proof.
  apply (relay_pairs_sessions 600000 2 sample_world); [|unfold u64_max; lia].
  eapply relay_next; [eapply relay_next; [apply relay_start|]|].
  - eapply (step_wait _ sample_request 0); [exact sample_handshake|reflexivity].
  - pose proof (step_pair
      {| next_id := 2; relay := {| pending := {[str "s" := {| received_at := 0; connection_id := 1 |}]};
           pending_ttl := 600000 |}; pairs := []; asked := {[1 := str "s"]} |}
      sample_request 5 (str "s") [] RESPONSE
      {| pending := ∅; pending_ttl := 600000 |} {| received_at := 0; connection_id := 1 |}
      sample_handshake eq_refl) as Hs.
    exact Hs.
Defined.
