(* ===== verification/DisplayRecord.v ===== *)
(** * Display records

    The binary records of the display stream, from the second half of
    [apps/talos_protocol/src/lib.rs]: the builders the helper sends frames with and
    [decode_display_record], which the viewers run on every record a peer sends.
    The decoder is characterised exactly: it accepts precisely the encodings of
    well-formed records. *)

From S2P Require Import Prelude Bytes.

Definition DISPLAY_RECORD_FRAME_BEGIN : Z := 1.
Definition DISPLAY_RECORD_FRAME_END : Z := 3.
Definition DISPLAY_RECORD_KEYFRAME : Z := 4.
Definition DISPLAY_RECORD_MOVE_RECT : Z := 5.
Definition DISPLAY_RECORD_ATLAS_H264 : Z := 6.
Definition DISPLAY_RECORD_EXPERIMENTAL_ATLAS_COMMANDS : Z := 7.
Definition DISPLAY_RECORD_EXPERIMENTAL_ATLAS_COMMANDS_CHUNK : Z := 8.
Definition DISPLAY_ATLAS_H264_FLAG_KEYFRAME : Z := 1.
Definition DISPLAY_EXPERIMENTAL_ATLAS_CHUNK_FLAG_PROGRESSIVE : Z := 1.
Definition DISPLAY_EXPERIMENTAL_ATLAS_CHUNK_FLAG_FINAL : Z := 2.

Record DisplayAtlasRect := {
  dst_x : Z;
  dst_y : Z;
  width : Z;
  height : Z;
  atlas_x : Z;
  atlas_y : Z;
}.

Inductive DisplayRecord :=
| FrameBegin (frame_id width height : Z)
| FrameEnd (frame_id : Z)
| Keyframe (frame_id width height raw_len : Z) (payload : list Z)
| MoveRect (frame_id src_x src_y dst_x dst_y width height : Z)
| AtlasH264 (frame_id flags atlas_width atlas_height : Z)
    (rects : list DisplayAtlasRect) (payload : list Z)
| ExperimentalAtlasCommands (frame_id atlas_width atlas_height : Z)
    (rects : list DisplayAtlasRect) (tile_commands : list Z)
| ExperimentalAtlasCommandsChunk
    (frame_id flags chunk_index chunk_count atlas_width atlas_height : Z)
    (rects : list DisplayAtlasRect) (tile_commands : list Z).

Inductive DisplayRecordParseError := TooShort | LengthMismatch | InvalidPayload.

(** ** Builders *)

Definition build_display_record (message_type : Z) (payload : list Z) : list Z :=
  [message_type] ++ le_bytes 4 (as_u32 (len payload)) ++ payload.

Definition build_display_frame_begin (frame_id width height : Z) : list Z :=
  build_display_record DISPLAY_RECORD_FRAME_BEGIN
    (le_bytes 8 frame_id ++ le_bytes 4 width ++ le_bytes 4 height).

Definition build_display_frame_end (frame_id : Z) : list Z :=
  build_display_record DISPLAY_RECORD_FRAME_END (le_bytes 8 frame_id).

Definition build_display_move_rect (frame_id src_x src_y dst_x dst_y width height : Z) : list Z :=
  build_display_record DISPLAY_RECORD_MOVE_RECT
    (le_bytes 8 frame_id ++ le_bytes 4 src_x ++ le_bytes 4 src_y ++
     le_bytes 4 dst_x ++ le_bytes 4 dst_y ++ le_bytes 4 width ++ le_bytes 4 height).

Definition build_display_keyframe (frame_id width height raw_len : Z) (payload : list Z) : list Z :=
  build_display_record DISPLAY_RECORD_KEYFRAME
    (le_bytes 8 frame_id ++ le_bytes 4 width ++ le_bytes 4 height ++
     le_bytes 4 raw_len ++ payload).

(** The body of the [for rect in rects] loop of the three atlas builders. *)
Definition rect_bytes (rect : DisplayAtlasRect) : list Z :=
  le_bytes 4 (dst_x rect) ++ le_bytes 4 (dst_y rect) ++
  le_bytes 4 (width rect) ++ le_bytes 4 (height rect) ++
  le_bytes 4 (atlas_x rect) ++ le_bytes 4 (atlas_y rect).

Definition rects_bytes (rects : list DisplayAtlasRect) : list Z := concat (map rect_bytes rects).

Definition build_display_atlas_h264 (frame_id flags atlas_width atlas_height : Z)
    (rects : list DisplayAtlasRect) (payload : list Z) : list Z :=
  build_display_record DISPLAY_RECORD_ATLAS_H264
    (le_bytes 8 frame_id ++ le_bytes 4 flags ++ le_bytes 4 atlas_width ++
     le_bytes 4 atlas_height ++ le_bytes 4 (as_u32 (len rects)) ++
     rects_bytes rects ++ payload).

Definition build_display_experimental_atlas_commands (frame_id atlas_width atlas_height : Z)
    (rects : list DisplayAtlasRect) (tile_commands : list Z) : list Z :=
  build_display_record DISPLAY_RECORD_EXPERIMENTAL_ATLAS_COMMANDS
    (le_bytes 8 frame_id ++ le_bytes 4 atlas_width ++ le_bytes 4 atlas_height ++
     le_bytes 4 (as_u32 (len rects)) ++ le_bytes 4 (as_u32 (len tile_commands)) ++
     rects_bytes rects ++ tile_commands).

Definition build_display_experimental_atlas_commands_chunk
    (frame_id flags chunk_index chunk_count atlas_width atlas_height : Z)
    (rects : list DisplayAtlasRect) (tile_commands : list Z) : list Z :=
  build_display_record DISPLAY_RECORD_EXPERIMENTAL_ATLAS_COMMANDS_CHUNK
    (le_bytes 8 frame_id ++ le_bytes 4 flags ++ le_bytes 4 chunk_index ++
     le_bytes 4 chunk_count ++ le_bytes 4 atlas_width ++ le_bytes 4 atlas_height ++
     le_bytes 4 (as_u32 (len rects)) ++ le_bytes 4 (as_u32 (len tile_commands)) ++
     rects_bytes rects ++ tile_commands).

(** ** The decoder *)

Record ParsedDisplayRecord := { message_type : Z; payload : list Z }.

Definition parse_display_record (frame : list Z)
    : res DisplayRecordParseError ParsedDisplayRecord :=
  if len frame <? 5 then Err TooShort else
  b1 ← or_panic (at_index frame 1);
  b2 ← or_panic (at_index frame 2);
  b3 ← or_panic (at_index frame 3);
  b4 ← or_panic (at_index frame 4);
  let payload_len := le_val [b1; b2; b3; b4] in
  if negb (len frame =? 5 + payload_len) then Err LengthMismatch else
  message_type ← or_panic (at_index frame 0);
  payload ← or_panic (slice frame 5 (len frame));
  Ok {| message_type := message_type; payload := payload |}.

(** [uN::from_le_bytes(p[a..b].try_into().unwrap())]: the slice panics when it is
    out of range, the conversion when its length is not [N / 8]. *)
Definition uint_le_at {E} (n : Z) (p : list Z) (a b : Z) : res E Z :=
  s ← or_panic (slice p a b);
  if len s =? n then Ok (le_val s) else Panic.

Definition u32_le_at {E} (p : list Z) (a b : Z) : res E Z := uint_le_at 4 p a b.
Definition u64_le_at {E} (p : list Z) (a b : Z) : res E Z := uint_le_at 8 p a b.

Definition decode_frame_begin (p : list Z) : res DisplayRecordParseError DisplayRecord :=
  if negb (len p =? 16) then Err InvalidPayload else
  frame_id ← u64_le_at p 0 8;
  width ← u32_le_at p 8 12;
  height ← u32_le_at p 12 16;
  Ok (FrameBegin frame_id width height).

Definition decode_frame_end (p : list Z) : res DisplayRecordParseError DisplayRecord :=
  if negb (len p =? 8) then Err InvalidPayload else
  frame_id ← u64_le_at p 0 8;
  Ok (FrameEnd frame_id).

Definition decode_keyframe (p : list Z) : res DisplayRecordParseError DisplayRecord :=
  if len p <? 20 then Err InvalidPayload else
  frame_id ← u64_le_at p 0 8;
  width ← u32_le_at p 8 12;
  height ← u32_le_at p 12 16;
  raw_len ← u32_le_at p 16 20;
  payload ← or_panic (slice p 20 (len p));
  Ok (Keyframe frame_id width height raw_len payload).

Definition decode_move_rect (p : list Z) : res DisplayRecordParseError DisplayRecord :=
  if negb (len p =? 32) then Err InvalidPayload else
  frame_id ← u64_le_at p 0 8;
  src_x ← u32_le_at p 8 12;
  src_y ← u32_le_at p 12 16;
  dst_x ← u32_le_at p 16 20;
  dst_y ← u32_le_at p 20 24;
  width ← u32_le_at p 24 28;
  height ← u32_le_at p 28 32;
  Ok (MoveRect frame_id src_x src_y dst_x dst_y width height).

Definition is_none {A} (o : option A) : bool := match o with None => true | Some _ => false end.

(** The test after which the decoder rejects a rectangle. *)
Definition rect_invalid (rect : DisplayAtlasRect) (atlas_width atlas_height : Z) : bool :=
  (width rect =? 0) || (height rect =? 0)
  || is_none (checked_add u32_max (atlas_x rect) (width rect))
  || is_none (checked_add u32_max (atlas_y rect) (height rect))
  || (atlas_width <? atlas_x rect + width rect)
  || (atlas_height <? atlas_y rect + height rect).

(** The [for _ in 0..rect_count] loop, the same in the three atlas branches. *)
Fixpoint read_atlas_rects (rect_count : nat) (p : list Z) (cursor atlas_width atlas_height : Z)
    : res DisplayRecordParseError (list DisplayAtlasRect) :=
  match rect_count with
  | O => Ok []
  | S rect_count =>
      dst_x ← u32_le_at p cursor (cursor + 4);
      dst_y ← u32_le_at p (cursor + 4) (cursor + 8);
      width ← u32_le_at p (cursor + 8) (cursor + 12);
      height ← u32_le_at p (cursor + 12) (cursor + 16);
      atlas_x ← u32_le_at p (cursor + 16) (cursor + 20);
      atlas_y ← u32_le_at p (cursor + 20) (cursor + 24);
      let rect := {| dst_x := dst_x; dst_y := dst_y; width := width; height := height;
                     atlas_x := atlas_x; atlas_y := atlas_y |} in
      if rect_invalid rect atlas_width atlas_height then Err InvalidPayload else
      rects ← read_atlas_rects rect_count p (cursor + 24) atlas_width atlas_height;
      Ok (rect :: rects)
  end.

Definition decode_atlas_h264 (p : list Z) : res DisplayRecordParseError DisplayRecord :=
  if len p <? 24 then Err InvalidPayload else
  frame_id ← u64_le_at p 0 8;
  flags ← u32_le_at p 8 12;
  atlas_width ← u32_le_at p 12 16;
  atlas_height ← u32_le_at p 16 20;
  rect_count ← u32_le_at p 20 24;
  if (atlas_width =? 0) || (atlas_height =? 0) || (rect_count =? 0)
  then Err InvalidPayload else
  rect_table_len ← ok_or (checked_mul usize_max rect_count 24) InvalidPayload;
  payload_offset ← ok_or (checked_add usize_max 24 rect_table_len) InvalidPayload;
  if len p <=? payload_offset then Err InvalidPayload else
  rects ← read_atlas_rects (Z.to_nat rect_count) p 24 atlas_width atlas_height;
  payload ← or_panic (slice p payload_offset (len p));
  Ok (AtlasH264 frame_id flags atlas_width atlas_height rects payload).

Definition decode_experimental_atlas_commands (p : list Z)
    : res DisplayRecordParseError DisplayRecord :=
  if len p <? 24 then Err InvalidPayload else
  frame_id ← u64_le_at p 0 8;
  atlas_width ← u32_le_at p 8 12;
  atlas_height ← u32_le_at p 12 16;
  rect_count ← u32_le_at p 16 20;
  tile_commands_len ← u32_le_at p 20 24;
  if (atlas_width =? 0) || (atlas_height =? 0) then Err InvalidPayload else
  rect_table_len ← ok_or (checked_mul usize_max rect_count 24) InvalidPayload;
  commands_offset ← ok_or (checked_add usize_max 24 rect_table_len) InvalidPayload;
  expected_len ← ok_or (checked_add usize_max commands_offset tile_commands_len) InvalidPayload;
  if negb (len p =? expected_len) then Err InvalidPayload else
  rects ← read_atlas_rects (Z.to_nat rect_count) p 24 atlas_width atlas_height;
  tile_commands ← or_panic (slice p commands_offset expected_len);
  Ok (ExperimentalAtlasCommands frame_id atlas_width atlas_height rects tile_commands).

Definition decode_experimental_atlas_commands_chunk (p : list Z)
    : res DisplayRecordParseError DisplayRecord :=
  if len p <? 36 then Err InvalidPayload else
  frame_id ← u64_le_at p 0 8;
  flags ← u32_le_at p 8 12;
  chunk_index ← u32_le_at p 12 16;
  chunk_count ← u32_le_at p 16 20;
  atlas_width ← u32_le_at p 20 24;
  atlas_height ← u32_le_at p 24 28;
  rect_count ← u32_le_at p 28 32;
  tile_commands_len ← u32_le_at p 32 36;
  if (atlas_width =? 0) || (atlas_height =? 0) || (chunk_count =? 0)
     || (chunk_count <=? chunk_index)
  then Err InvalidPayload else
  rect_table_len ← ok_or (checked_mul usize_max rect_count 24) InvalidPayload;
  commands_offset ← ok_or (checked_add usize_max 36 rect_table_len) InvalidPayload;
  expected_len ← ok_or (checked_add usize_max commands_offset tile_commands_len) InvalidPayload;
  if negb (len p =? expected_len) then Err InvalidPayload else
  rects ← read_atlas_rects (Z.to_nat rect_count) p 36 atlas_width atlas_height;
  tile_commands ← or_panic (slice p commands_offset expected_len);
  Ok (ExperimentalAtlasCommandsChunk frame_id flags chunk_index chunk_count
        atlas_width atlas_height rects tile_commands).

Definition decode_display_record (frame : list Z) : res DisplayRecordParseError DisplayRecord :=
  parsed ← parse_display_record frame;
  let t := message_type parsed in
  let p := payload parsed in
  if t =? DISPLAY_RECORD_FRAME_BEGIN then decode_frame_begin p
  else if t =? DISPLAY_RECORD_FRAME_END then decode_frame_end p
  else if t =? DISPLAY_RECORD_KEYFRAME then decode_keyframe p
  else if t =? DISPLAY_RECORD_MOVE_RECT then decode_move_rect p
  else if t =? DISPLAY_RECORD_ATLAS_H264 then decode_atlas_h264 p
  else if t =? DISPLAY_RECORD_EXPERIMENTAL_ATLAS_COMMANDS
  then decode_experimental_atlas_commands p
  else if t =? DISPLAY_RECORD_EXPERIMENTAL_ATLAS_COMMANDS_CHUNK
  then decode_experimental_atlas_commands_chunk p
  else Err InvalidPayload.

(** ** What the decoder promises

    [encode_record] sends each record through its builder; [wf_record] is what the
    code that builds records has to respect and the code that receives them may
    rely on. *)

Definition encode_record (r : DisplayRecord) : list Z :=
  match r with
  | FrameBegin f w h => build_display_frame_begin f w h
  | FrameEnd f => build_display_frame_end f
  | Keyframe f w h n p => build_display_keyframe f w h n p
  | MoveRect f sx sy dx dy w h => build_display_move_rect f sx sy dx dy w h
  | AtlasH264 f fl aw ah rs p => build_display_atlas_h264 f fl aw ah rs p
  | ExperimentalAtlasCommands f aw ah rs tc =>
      build_display_experimental_atlas_commands f aw ah rs tc
  | ExperimentalAtlasCommandsChunk f fl i n aw ah rs tc =>
      build_display_experimental_atlas_commands_chunk f fl i n aw ah rs tc
  end.

(** A rectangle with its fields in range that lies inside the atlas. *)
Definition wf_rect (aw ah : Z) (r : DisplayAtlasRect) : Prop :=
  is_u32 (dst_x r) /\ is_u32 (dst_y r) /\ is_u32 (width r) /\ is_u32 (height r) /\
  is_u32 (atlas_x r) /\ is_u32 (atlas_y r) /\
  0 < width r /\ 0 < height r /\
  atlas_x r + width r <= Z.min aw u32_max /\ atlas_y r + height r <= Z.min ah u32_max.

Definition is_dim (x : Z) : Prop := 0 < x <= u32_max.

Definition wf_record (r : DisplayRecord) : Prop :=
  match r with
  | FrameBegin f w h => is_u64 f /\ is_u32 w /\ is_u32 h
  | FrameEnd f => is_u64 f
  | Keyframe f w h n p =>
      is_u64 f /\ is_u32 w /\ is_u32 h /\ is_u32 n /\ bytes_ok p /\ 20 + len p <= u32_max
  | MoveRect f sx sy dx dy w h =>
      is_u64 f /\ is_u32 sx /\ is_u32 sy /\ is_u32 dx /\ is_u32 dy /\ is_u32 w /\ is_u32 h
  | AtlasH264 f fl aw ah rs p =>
      is_u64 f /\ is_u32 fl /\ is_dim aw /\ is_dim ah /\ rs <> [] /\
      Forall (wf_rect aw ah) rs /\ bytes_ok p /\ p <> [] /\
      24 + 24 * len rs + len p <= u32_max
  | ExperimentalAtlasCommands f aw ah rs tc =>
      is_u64 f /\ is_dim aw /\ is_dim ah /\
      Forall (wf_rect aw ah) rs /\ bytes_ok tc /\ 24 + 24 * len rs + len tc <= u32_max
  | ExperimentalAtlasCommandsChunk f fl i n aw ah rs tc =>
      is_u64 f /\ is_u32 fl /\ is_u32 i /\ is_u32 n /\ i < n /\ is_dim aw /\ is_dim ah /\
      Forall (wf_rect aw ah) rs /\ bytes_ok tc /\ 36 + 24 * len rs + len tc <= u32_max
  end.

(** ** Fields *)

Section fields.
Context {E : Type}.
Implicit Types p : list Z.

Lemma uint_le_at_inv n p a b v :
  bytes_ok p -> uint_le_at (E:=E) n p a b = Ok v ->
  slice p a b = Some (le_bytes n v) /\ 0 <= v < 2 ^ (n * 8).
Proof.
  intros Hp H. unfold uint_le_at in H. res_inv.
  assert (bytes_ok x) by eauto using slice_ok. zify_in Hk; res_inv.
  rewrite le_bytes_le_val by done. split; [done|by apply le_val_bound].
Qed.

Lemma u32_le_at_inv p a b v :
  bytes_ok p -> u32_le_at (E:=E) p a b = Ok v -> slice p a b = Some (le_bytes 4 v) /\ is_u32 v.
Proof.
  intros Hp H. apply uint_le_at_inv in H as [? H]; [|done]. split; [done|].
  change (2 ^ (4 * 8)) with 4294967296 in H. unfold is_u32, u32_max. lia.
Qed.

Lemma u64_le_at_inv p a b v :
  bytes_ok p -> u64_le_at (E:=E) p a b = Ok v -> slice p a b = Some (le_bytes 8 v) /\ is_u64 v.
Proof.
  intros Hp H. apply uint_le_at_inv in H as [? H]; [|done]. split; [done|].
  change (2 ^ (8 * 8)) with 18446744073709551616 in H. unfold is_u64, u64_max. lia.
Qed.

Lemma uint_le_at_slice n p a b v :
  0 <= n -> 0 <= v < 2 ^ (n * 8) -> slice p a b = Some (le_bytes n v) ->
  uint_le_at (E:=E) n p a b = Ok v.
Proof.
  intros Hn Hv H. unfold uint_le_at. rewrite H. cbn. rewrite le_bytes_len, Z.eqb_refl by done.
  by rewrite le_val_le_bytes.
Qed.

Lemma u32_le_at_slice p a b v :
  slice p a b = Some (le_bytes 4 v) -> is_u32 v -> u32_le_at (E:=E) p a b = Ok v.
Proof.
  intros Hs Hv. apply uint_le_at_slice; [done| |done]. change (2 ^ (4 * 8)) with 4294967296.
  unfold is_u32, u32_max in Hv. lia.
Qed.

Lemma u64_le_at_slice p a b v :
  slice p a b = Some (le_bytes 8 v) -> is_u64 v -> u64_le_at (E:=E) p a b = Ok v.
Proof.
  intros Hs Hv. apply uint_le_at_slice; [done| |done]. change (2 ^ (8 * 8)) with 18446744073709551616.
  unfold is_u64, u64_max in Hv. lia.
Qed.

Lemma uint_le_at_safe n p a b :
  0 <= a -> a <= b -> b <= len p -> b - a = n -> safe (uint_le_at (E:=E) n p a b).
Proof.
  intros Ha Hab Hb <-. unfold uint_le_at. apply bind_safe.
  - apply or_panic_safe, slice_is_Some. lia.
  - intros s Hs. apply or_panic_ok_inv, slice_inv in Hs as (? & ? & ->). by rewrite Z.eqb_refl.
Qed.
End fields.

(** Turn the reads of a decoder that returned into the slices they saw. *)
Ltac fields_inv :=
  repeat match goal with
  | H : u32_le_at _ _ _ = Ok _ |- _ => apply u32_le_at_inv in H as [? ?]; [|by auto]
  | H : u64_le_at _ _ _ = Ok _ |- _ => apply u64_le_at_inv in H as [? ?]; [|by auto]
  end.

(** Join the slices that start at the beginning of a payload. *)
Ltac slices_join :=
  repeat match goal with
  | H : slice ?p 0 ?b = Some _, K : slice ?p ?b ?c = Some _ |- _ =>
      pose proof (slice_join _ _ _ _ _ _ H K); clear H K
  end.

(** Evaluate the next read of a decoder on a built payload. *)
Ltac field_eval :=
  match goal with
  | |- context [u32_le_at ?p ?a ?b ≫= _] =>
      erewrite (u32_le_at_slice p a b) by (first [slice_find | eassumption]); cbn [mbind res_bind]
  | |- context [u64_le_at ?p ?a ?b ≫= _] =>
      erewrite (u64_le_at_slice p a b) by (first [slice_find | eassumption]); cbn [mbind res_bind]
  end.

(** ** The record header *)

Lemma parse_display_record_ok bs r :
  bytes_ok bs -> parse_display_record bs = Ok r ->
  bs = build_display_record (message_type r) (payload r) /\
  bytes_ok (payload r) /\ len (payload r) <= u32_max.
Proof.
  intros Hbs H. unfold build_display_record, parse_display_record in *. run_inv.
  rename x3 into t, x4 into p.
  destruct bs as [|c0 [|c1 [|c2 [|c3 [|c4 q]]]]]; [len_solve..|].
  change (Some c0 = Some t) in Hb3. change (Some c1 = Some x) in Hb.
  change (Some c2 = Some x0) in Hb0. change (Some c3 = Some x1) in Hb1.
  change (Some c4 = Some x2) in Hb2. simplify_eq.
  change (t :: x :: x0 :: x1 :: x2 :: q) with ([t; x; x0; x1; x2] ++ q) in *.
  rewrite slice_tail in Hb4 by done. simplify_eq. cbn [message_type payload].
  apply Forall_app in Hbs as [Hh Hp].
  assert (bytes_ok [x; x0; x1; x2]) as Hl by (by apply Forall_cons in Hh as [_ ?]).
  assert (len p = le_val [x; x0; x1; x2]) as Hlen by len_solve.
  pose proof (le_val_u32 _ Hl eq_refl) as Hu.
  rewrite Hlen, as_u32_small, (le_bytes_le_val 4) by done.
  split_and!; [done..|]. unfold is_u32 in Hu. lia.
Qed.

Lemma parse_display_record_built t p :
  len p <= u32_max ->
  parse_display_record (build_display_record t p) = Ok {| message_type := t; payload := p |}.
Proof.
  intros Hlen. unfold build_display_record. pose proof (len_nonneg p).
  destruct (len_4_inv (le_bytes 4 (as_u32 (len p)))) as (a & b & c & d & Hl);
    [by rewrite le_bytes_len|].
  assert (le_val [a; b; c; d] = len p) as Hv.
  { rewrite <- Hl, as_u32_small, le_val_u32_bytes; unfold is_u32; lia. }
  rewrite Hl. unfold parse_display_record.
  rewrite (proj2 (Z.ltb_ge _ _)) by len_solve. cbn [app].
  cbv [at_index Z.leb Z.compare Z.to_nat Pos.to_nat Pos.iter_op Init.Nat.add lookup list_lookup].
  cbn [or_panic mbind res_bind]. rewrite Hv.
  rewrite (proj2 (Z.eqb_eq _ _)) by len_solve. cbn [negb].
  change (?t :: ?a :: ?b :: ?c :: ?d :: ?q) with ([t; a; b; c; d] ++ q).
  by rewrite slice_tail.
Qed.

Lemma parse_display_record_safe bs : bytes_ok bs -> safe (parse_display_record bs).
Proof.
  intros Hbs. unfold parse_display_record. pose proof (len_nonneg bs).
  repeat safe_step; try (apply or_panic_safe);
    rewrite ?at_index_is_Some, ?slice_is_Some; zify_bool; lia.
Qed.

(** ** The rectangle table *)

Lemma rect_bytes_len r : len (rect_bytes r) = 24.
Proof. unfold rect_bytes. by len_solve. Qed.

Lemma rects_bytes_len rs : len (rects_bytes rs) = 24 * len rs.
Proof.
  unfold rects_bytes. induction rs as [|r rs IH]; [done|].
  cbn [map concat]. rewrite len_app, IH, rect_bytes_len, len_cons. lia.
Qed.

#[export] Hint Rewrite rect_bytes_len rects_bytes_len : talos_len.

Lemma rect_invalid_false r aw ah :
  rect_invalid r aw ah = false <->
  width r <> 0 /\ height r <> 0 /\
  atlas_x r + width r <= Z.min aw u32_max /\ atlas_y r + height r <= Z.min ah u32_max.
Proof. unfold rect_invalid, checked_add. repeat zify_goal; cbn [is_none orb]; lia. Qed.

Lemma read_atlas_rects_ok n p c aw ah rs :
  bytes_ok p -> 0 <= aw -> 0 <= ah -> 0 <= c <= len p ->
  read_atlas_rects n p c aw ah = Ok rs ->
  Forall (wf_rect aw ah) rs /\ len rs = Z.of_nat n /\
  slice p c (c + 24 * Z.of_nat n) = Some (rects_bytes rs).
Proof.
  intros Hp Haw Hah. revert c rs; induction n as [|n IH]; intros c rs Hc H.
  { cbn in H. run_inv. repeat split; [constructor|].
    replace (c + _) with c by lia. rewrite slice_some by lia. by rewrite Z.sub_diag. }
  cbn [read_atlas_rects] in H. run_inv. fields_inv.
  repeat match goal with
  | H : slice p c ?b = Some _, K : slice p ?b ?d = Some _ |- _ =>
      pose proof (slice_join _ _ _ _ _ _ H K); clear H K
  end.
  match goal with H : slice p c (c + 24) = Some _ |- _ => rename H into Hr end.
  pose proof (slice_inv _ _ _ _ Hr) as (? & ? & _).
  apply rect_invalid_false in Hg; cbn in Hg.
  match goal with H : read_atlas_rects _ _ _ _ _ = Ok _ |- _ => rename H into Hrest end.
  apply IH in Hrest as (Hwf & Hn & Hs); [|lia].
  split; [|split].
  - constructor; [|done]. unfold wf_rect, is_u32 in *; cbn. lia.
  - rewrite len_cons. lia.
  - replace (c + 24 * _) with (c + 24 + 24 * Z.of_nat n) by lia.
    change (rects_bytes (?r :: ?rs)) with (rect_bytes r ++ rects_bytes rs).
    eapply slice_join; [|exact Hs]. rewrite Hr. unfold rect_bytes. by rewrite <- !app_assoc.
Qed.

Lemma read_rect_field {E} p c r a b v :
  slice p c (c + 24) = Some (rect_bytes r) -> 0 <= a -> b <= 24 -> is_u32 v ->
  slice (rect_bytes r) a b = Some (le_bytes 4 v) ->
  u32_le_at (E:=E) p (c + a) (c + b) = Ok v.
Proof.
  intros Hs Ha Hb Hv H. apply u32_le_at_slice; [|done].
  erewrite <- slice_slice by (try exact Hs; lia). done.
Qed.

Lemma read_atlas_rects_built p c aw ah rs :
  Forall (wf_rect aw ah) rs ->
  slice p c (c + 24 * len rs) = Some (rects_bytes rs) ->
  read_atlas_rects (length rs) p c aw ah = Ok rs.
Proof.
  intros Hwf. revert c; induction Hwf as [|r rs Hr Hwf IH]; intros c Hs; [done|].
  change (rects_bytes (r :: rs)) with (rect_bytes r ++ rects_bytes rs) in Hs.
  apply slice_split in Hs as [Hs1 Hs2]. rewrite rect_bytes_len in Hs1, Hs2.
  rewrite len_cons in Hs2. replace (c + 24 * _) with (c + 24 + 24 * len rs) in Hs2 by lia.
  destruct Hr as (? & ? & ? & ? & ? & ? & ? & ? & ? & ?). cbn [length read_atlas_rects].
  replace c with (c + 0) at 1 by lia.
  rewrite (read_rect_field p c r 0 4 (dst_x r)) by (first [done | unfold rect_bytes; slice_find]).
  rewrite (read_rect_field p c r 4 8 (dst_y r)) by (first [done | unfold rect_bytes; slice_find]).
  rewrite (read_rect_field p c r 8 12 (width r)) by (first [done | unfold rect_bytes; slice_find]).
  rewrite (read_rect_field p c r 12 16 (height r)) by (first [done | unfold rect_bytes; slice_find]).
  rewrite (read_rect_field p c r 16 20 (atlas_x r)) by (first [done | unfold rect_bytes; slice_find]).
  rewrite (read_rect_field p c r 20 24 (atlas_y r)) by (first [done | unfold rect_bytes; slice_find]).
  cbn [mbind res_bind]. rewrite (proj2 (rect_invalid_false _ aw ah)) by (cbn; lia).
  rewrite IH by done. by destruct r.
Qed.

Lemma read_atlas_rects_safe n p c aw ah :
  0 <= c -> c + 24 * Z.of_nat n <= len p -> safe (read_atlas_rects n p c aw ah).
Proof.
  revert c; induction n as [|n IH]; intros c Hc Hn; [done|].
  cbn [read_atlas_rects]. repeat safe_step; try (apply uint_le_at_safe; lia). apply IH; lia.
Qed.

(** ** The branches *)

Ltac decode_ok :=
  intros; run_inv; fields_inv; slices_join;
  try match goal with H : slice ?p 0 _ = Some _ |- _ => apply slice_full_inv in H; [|lia] end;
  subst; cbn [wf_record encode_record].

Lemma decode_frame_begin_ok p r :
  bytes_ok p -> decode_frame_begin p = Ok r ->
  wf_record r /\ encode_record r = build_display_record DISPLAY_RECORD_FRAME_BEGIN p.
Proof.
  unfold decode_frame_begin. decode_ok. split; [done|].
  unfold build_display_frame_begin. by rewrite <- !app_assoc.
Qed.

Lemma decode_frame_end_ok p r :
  bytes_ok p -> decode_frame_end p = Ok r ->
  wf_record r /\ encode_record r = build_display_record DISPLAY_RECORD_FRAME_END p.
Proof. unfold decode_frame_end. by decode_ok. Qed.

Lemma decode_move_rect_ok p r :
  bytes_ok p -> decode_move_rect p = Ok r ->
  wf_record r /\ encode_record r = build_display_record DISPLAY_RECORD_MOVE_RECT p.
Proof.
  unfold decode_move_rect. decode_ok. split; [done|].
  unfold build_display_move_rect. by rewrite <- !app_assoc.
Qed.

Lemma decode_keyframe_ok p r :
  bytes_ok p -> len p <= u32_max -> decode_keyframe p = Ok r ->
  wf_record r /\ encode_record r = build_display_record DISPLAY_RECORD_KEYFRAME p.
Proof.
  intros Hp Hl. unfold decode_keyframe. intros. run_inv.
  assert (bytes_ok x3) by eauto using slice_ok. revert Hp Hl. decode_ok.
  split_and!; try done. len_solve.
Qed.

(** The rectangle table of a payload whose header was read, and what follows it. *)
Lemma atlas_table_ok p hdr k n aw ah rs tail e :
  bytes_ok p -> 0 <= n -> is_dim aw -> is_dim ah -> k = len hdr ->
  slice p 0 k = Some hdr ->
  read_atlas_rects (Z.to_nat n) p k aw ah = Ok rs ->
  slice p (k + n * 24) e = Some tail -> e = len p ->
  Forall (wf_rect aw ah) rs /\ len rs = n /\ bytes_ok tail /\
  p = hdr ++ rects_bytes rs ++ tail.
Proof.
  unfold is_dim. intros Hp Hn Haw Hah -> Hh Hr Ht ->.
  pose proof (slice_inv _ _ _ _ Hh) as (? & ? & _).
  apply read_atlas_rects_ok in Hr as (Hwf & Hlen & Hs); [|done|lia..].
  split_and!; [done|lia|by eapply slice_ok|].
  replace (len hdr + n * 24) with (len hdr + 24 * Z.of_nat (Z.to_nat n)) in Ht by lia.
  pose proof (slice_join _ _ _ _ _ _ (slice_join _ _ _ _ _ _ Hh Hs) Ht) as Hall.
  apply slice_full_inv in Hall; [|done]. by rewrite <- Hall, <- app_assoc.
Qed.

(** Resolve the overflow checks on the table's length, which never fire on a
    32-bit count. *)
Ltac checked_inv :=
  unfold checked_mul, checked_add in *;
  repeat match goal with
  | H : (if ?b then Some _ else None) = Some _ |- _ =>
      let Hc := fresh "Hc" in destruct b eqn:Hc; [|discriminate H];
      apply (inj Some) in H; subst
  end.

Ltac table_inv k Hwf Hn Htl :=
  match goal with
  | Hp : bytes_ok ?p, Hh : slice ?p 0 k = Some ?h,
    Hr : read_atlas_rects (Z.to_nat ?n) ?p k ?aw ?ah = Ok ?rs,
    Ht : slice ?p (k + ?n * 24) ?e = Some ?tl |- _ =>
      destruct (atlas_table_ok p h k n aw ah rs tl e) as (Hwf & Hn & Htl & ->);
      [first [done | unfold is_dim; lia]..|]
  end.

Lemma decode_atlas_h264_ok p r :
  bytes_ok p -> len p <= u32_max -> decode_atlas_h264 p = Ok r ->
  wf_record r /\ encode_record r = build_display_record DISPLAY_RECORD_ATLAS_H264 p.
Proof.
  intros Hp Hl. unfold decode_atlas_h264. intros. run_inv. checked_inv. fields_inv. slices_join.
  unfold is_u32 in *.
  table_inv 24 Hwf Hn Htl.
  cbn [wf_record encode_record]. unfold build_display_atlas_h264.
  rewrite Hn, as_u32_small by done. rewrite <- !app_assoc. unfold is_u32, is_dim. len_solve.
  split_and!; try done; try lia; intros ->; len_solve.
Qed.

Lemma decode_experimental_ok p r :
  bytes_ok p -> len p <= u32_max -> decode_experimental_atlas_commands p = Ok r ->
  wf_record r /\
  encode_record r = build_display_record DISPLAY_RECORD_EXPERIMENTAL_ATLAS_COMMANDS p.
Proof.
  intros Hp Hl. unfold decode_experimental_atlas_commands. intros.
  run_inv. checked_inv. fields_inv. slices_join. unfold is_u32 in *.
  table_inv 24 Hwf Hn Htl.
  cbn [wf_record encode_record]. unfold build_display_experimental_atlas_commands.
  rewrite Hn, as_u32_small by done.
  match goal with |- context [as_u32 (len ?t)] => replace (len t) with x3 by len_solve end.
  rewrite as_u32_small by done. rewrite <- !app_assoc. unfold is_u32, is_dim. len_solve.
  split_and!; try done; lia.
Qed.

Lemma decode_experimental_chunk_ok p r :
  bytes_ok p -> len p <= u32_max -> decode_experimental_atlas_commands_chunk p = Ok r ->
  wf_record r /\
  encode_record r = build_display_record DISPLAY_RECORD_EXPERIMENTAL_ATLAS_COMMANDS_CHUNK p.
Proof.
  intros Hp Hl. unfold decode_experimental_atlas_commands_chunk. intros.
  run_inv. checked_inv. fields_inv. slices_join. unfold is_u32 in *.
  table_inv 36 Hwf Hn Htl.
  cbn [wf_record encode_record]. unfold build_display_experimental_atlas_commands_chunk.
  rewrite Hn, as_u32_small by done.
  match goal with |- context [as_u32 (len ?t)] => replace (len t) with x6 by len_solve end.
  rewrite as_u32_small by done. rewrite <- !app_assoc. unfold is_u32, is_dim. len_solve.
  split_and!; try done; lia.
Qed.

(** Take the guard of a decoder that a built payload passes. *)
Ltac guard_pass :=
  match goal with
  | |- (if ?b then _ else _) = _ => replace b with false by (symmetry; len_solve); cbv iota
  end.

(** The table and the tail of a built payload, read back. *)
Lemma atlas_table_built hdr aw ah rs tail k e :
  Forall (wf_rect aw ah) rs -> k = len hdr -> e = k + len rs * 24 + len tail ->
  read_atlas_rects (Z.to_nat (len rs)) (hdr ++ rects_bytes rs ++ tail) k aw ah = Ok rs /\
  slice (hdr ++ rects_bytes rs ++ tail) (k + len rs * 24) e = Some tail.
Proof.
  intros Hwf -> ->. split.
  - unfold len at 1. rewrite Nat2Z.id. apply read_atlas_rects_built; [done|].
    apply slice_mid; len_solve.
  - rewrite app_assoc. apply slice_tail; len_solve.
Qed.

(** The payload a record is sent with. *)
Definition record_body (r : DisplayRecord) : Z * list Z :=
  match r with
  | FrameBegin f w h =>
      (DISPLAY_RECORD_FRAME_BEGIN, le_bytes 8 f ++ le_bytes 4 w ++ le_bytes 4 h)
  | FrameEnd f => (DISPLAY_RECORD_FRAME_END, le_bytes 8 f)
  | Keyframe f w h n p =>
      (DISPLAY_RECORD_KEYFRAME,
       le_bytes 8 f ++ le_bytes 4 w ++ le_bytes 4 h ++ le_bytes 4 n ++ p)
  | MoveRect f sx sy dx dy w h =>
      (DISPLAY_RECORD_MOVE_RECT,
       le_bytes 8 f ++ le_bytes 4 sx ++ le_bytes 4 sy ++
       le_bytes 4 dx ++ le_bytes 4 dy ++ le_bytes 4 w ++ le_bytes 4 h)
  | AtlasH264 f fl aw ah rs p =>
      (DISPLAY_RECORD_ATLAS_H264,
       (le_bytes 8 f ++ le_bytes 4 fl ++ le_bytes 4 aw ++ le_bytes 4 ah ++
        le_bytes 4 (len rs)) ++ rects_bytes rs ++ p)
  | ExperimentalAtlasCommands f aw ah rs tc =>
      (DISPLAY_RECORD_EXPERIMENTAL_ATLAS_COMMANDS,
       (le_bytes 8 f ++ le_bytes 4 aw ++ le_bytes 4 ah ++ le_bytes 4 (len rs) ++
        le_bytes 4 (len tc)) ++ rects_bytes rs ++ tc)
  | ExperimentalAtlasCommandsChunk f fl i n aw ah rs tc =>
      (DISPLAY_RECORD_EXPERIMENTAL_ATLAS_COMMANDS_CHUNK,
       (le_bytes 8 f ++ le_bytes 4 fl ++ le_bytes 4 i ++ le_bytes 4 n ++ le_bytes 4 aw ++
        le_bytes 4 ah ++ le_bytes 4 (len rs) ++ le_bytes 4 (len tc)) ++ rects_bytes rs ++ tc)
  end.

Lemma encode_record_body r :
  wf_record r ->
  encode_record r = build_display_record (fst (record_body r)) (snd (record_body r)) /\
  len (snd (record_body r)) <= u32_max.
Proof.
  destruct r; cbn [wf_record encode_record record_body fst snd]; intros H; destruct_and? H;
    (split; [|unfold u32_max in *; len_solve]).
  1-4: reflexivity.
  all: unfold build_display_atlas_h264, build_display_experimental_atlas_commands,
      build_display_experimental_atlas_commands_chunk;
    repeat match goal with |- context [as_u32 (len ?l)] =>
      rewrite (as_u32_small (len l)) by (unfold is_u32; len_solve) end;
    by rewrite <- ?app_assoc.
Qed.

Ltac built_start :=
  cbn [wf_record record_body fst snd]; intros Hwf; destruct_and? Hwf;
  try match goal with H : Forall _ ?rs |- _ => pose proof (len_nonneg rs) end.

Lemma decode_frame_begin_built f w h (r := FrameBegin f w h) :
  wf_record r -> decode_frame_begin (snd (record_body r)) = Ok r.
Proof. unfold decode_frame_begin, r. built_start. guard_pass. by repeat field_eval. Qed.

Lemma decode_frame_end_built f (r := FrameEnd f) :
  wf_record r -> decode_frame_end (snd (record_body r)) = Ok r.
Proof. unfold decode_frame_end, r. built_start. guard_pass. by repeat field_eval. Qed.

Lemma decode_move_rect_built f sx sy dx dy w h (r := MoveRect f sx sy dx dy w h) :
  wf_record r -> decode_move_rect (snd (record_body r)) = Ok r.
Proof. unfold decode_move_rect, r. built_start. guard_pass. by repeat field_eval. Qed.

Lemma decode_keyframe_built f w h n p (r := Keyframe f w h n p) :
  wf_record r -> decode_keyframe (snd (record_body r)) = Ok r.
Proof.
  unfold decode_keyframe, r. built_start. guard_pass. repeat field_eval.
  rewrite !app_assoc, slice_tail by len_solve. done.
Qed.

(** Read the header fields, pass the guards and the overflow checks of an atlas
    branch on the payload it was built with. *)
Ltac atlas_eval :=
  guard_pass;
  repeat first
    [ field_eval
    | rewrite checked_mul_some by (unfold usize_max, u64_max, u32_max in *; len_solve);
      cbn [ok_or mbind res_bind]
    | rewrite checked_add_some by (unfold usize_max, u64_max, u32_max in *; len_solve);
      cbn [ok_or mbind res_bind] ].

Ltac atlas_table k :=
  match goal with
  | Hwf : Forall (wf_rect ?aw ?ah) ?rs |- context [slice (?hdr ++ rects_bytes ?rs ++ ?tail) _ ?e] =>
      destruct (atlas_table_built hdr aw ah rs tail k e) as [-> Hs]; [done|len_solve..|];
      cbn [mbind res_bind]; by rewrite Hs
  end.

Lemma decode_atlas_h264_built f fl aw ah rs p (r := AtlasH264 f fl aw ah rs p) :
  wf_record r -> decode_atlas_h264 (snd (record_body r)) = Ok r.
Proof.
  unfold decode_atlas_h264, r. built_start.
  assert (len rs <> 0) by (intros Hz; by apply len_0_nil in Hz).
  assert (len p <> 0) by (intros Hz; by apply len_0_nil in Hz).
  assert (is_u32 (len rs)) by (apply u32_len; len_solve).
  unfold is_dim in *. assert (is_u32 aw /\ is_u32 ah) as [? ?] by (unfold is_u32; lia).
  atlas_eval. guard_pass. atlas_eval. atlas_table 24.
Qed.

Lemma decode_experimental_built f aw ah rs tc (r := ExperimentalAtlasCommands f aw ah rs tc) :
  wf_record r -> decode_experimental_atlas_commands (snd (record_body r)) = Ok r.
Proof.
  unfold decode_experimental_atlas_commands, r. built_start.
  assert (is_u32 (len rs)) by (apply u32_len; len_solve).
  assert (is_u32 (len tc)) by (apply u32_len; len_solve).
  unfold is_dim in *. assert (is_u32 aw /\ is_u32 ah) as [? ?] by (unfold is_u32; lia).
  atlas_eval. atlas_eval. guard_pass. atlas_table 24.
Qed.

Lemma decode_experimental_chunk_built f fl i n aw ah rs tc
    (r := ExperimentalAtlasCommandsChunk f fl i n aw ah rs tc) :
  wf_record r -> decode_experimental_atlas_commands_chunk (snd (record_body r)) = Ok r.
Proof.
  unfold decode_experimental_atlas_commands_chunk, r. built_start.
  assert (is_u32 (len rs)) by (apply u32_len; len_solve).
  assert (is_u32 (len tc)) by (apply u32_len; len_solve).
  unfold is_dim in *. assert (is_u32 aw /\ is_u32 ah) as [? ?] by (unfold is_u32; lia).
  assert (0 <= i) by (unfold is_u32 in *; lia).
  atlas_eval. atlas_eval. guard_pass. atlas_table 36.
Qed.

Lemma decode_built r : wf_record r -> decode_display_record (encode_record r) = Ok r.
Proof.
  intros Hwf. destruct (encode_record_body r Hwf) as [-> Hlen].
  unfold decode_display_record. rewrite parse_display_record_built by done.
  cbn [mbind res_bind message_type payload].
  destruct r.
  - exact (decode_frame_begin_built _ _ _ Hwf).
  - exact (decode_frame_end_built _ Hwf).
  - exact (decode_keyframe_built _ _ _ _ _ Hwf).
  - exact (decode_move_rect_built _ _ _ _ _ _ _ Hwf).
  - exact (decode_atlas_h264_built _ _ _ _ _ _ Hwf).
  - exact (decode_experimental_built _ _ _ _ _ Hwf).
  - exact (decode_experimental_chunk_built _ _ _ _ _ _ _ _ Hwf).
Qed.

Lemma decode_ok_inv bs r :
  bytes_ok bs -> decode_display_record bs = Ok r -> wf_record r /\ bs = encode_record r.
Proof.
  intros Hbs H. unfold decode_display_record in H. run_inv.
  apply parse_display_record_ok in Hb as (-> & Hp & Hl); [|done].
  destruct x as [t p]; cbn [message_type payload] in *.
  repeat match type of Hk with (if ?b then _ else _) = _ =>
    destruct b eqn:?; try match goal with H : (t =? _) = true |- _ =>
      apply Z.eqb_eq in H; subst end end.
  all: try discriminate Hk.
  - by apply decode_frame_begin_ok in Hk as [? <-].
  - by apply decode_frame_end_ok in Hk as [? <-].
  - by apply decode_keyframe_ok in Hk as [? <-].
  - by apply decode_move_rect_ok in Hk as [? <-].
  - by apply decode_atlas_h264_ok in Hk as [? <-].
  - by apply decode_experimental_ok in Hk as [? <-].
  - by apply decode_experimental_chunk_ok in Hk as [? <-].
Qed.

Lemma u32_le_at_nonneg {E} p a b v :
  bytes_ok p -> u32_le_at (E:=E) p a b = Ok v -> 0 <= v.
Proof. intros Hp H. apply u32_le_at_inv in H as [_ H]; [|done]. unfold is_u32 in H. lia. Qed.

(** The reads of a decoder are in range, and so is what it slices last. *)
Ltac decode_safe :=
  repeat safe_step;
  run_inv; checked_inv;
  repeat match goal with
  | Hp : bytes_ok ?p, H : u32_le_at ?p _ _ = Ok ?v |- _ =>
      lazymatch goal with
      | _ : 0 <= v |- _ => fail
      | _ => pose proof (u32_le_at_nonneg _ _ _ _ Hp H)
      end
  end;
  first [ apply uint_le_at_safe; len_solve
        | apply read_atlas_rects_safe; len_solve
        | apply or_panic_safe, slice_is_Some; len_solve ].

Lemma decode_display_record_no_panic bs : bytes_ok bs -> safe (decode_display_record bs).
Proof.
  intros Hbs. unfold decode_display_record. apply bind_safe; [by apply parse_display_record_safe|].
  intros [t p] Hr. apply parse_display_record_ok in Hr as (_ & Hp & Hl); [|done].
  cbn [message_type payload] in *. clear Hbs.
  repeat match goal with |- safe (if ?b then _ else _) => destruct b end; [..|done].
  - unfold decode_frame_begin. decode_safe.
  - unfold decode_frame_end. decode_safe.
  - unfold decode_keyframe. decode_safe.
  - unfold decode_move_rect. decode_safe.
  - unfold decode_atlas_h264. decode_safe.
  - unfold decode_experimental_atlas_commands. decode_safe.
  - unfold decode_experimental_atlas_commands_chunk. decode_safe.
Qed.

(** ** Properties *)

(** [decode_display_record] accepts exactly the encodings of well-formed
    records: what it returns has its atlas rectangles inside the atlas, a chunk
    index below the chunk count, non-empty dimensions, and re-encoding it with the
    builder of its kind gives back the received bytes; every such encoding is
    accepted. *)
Theorem display_record_exact bs r :
  bytes_ok bs ->
  decode_display_record bs = Ok r <-> wf_record r /\ bs = encode_record r.
Proof.
  intros Hbs. split; [by apply decode_ok_inv|]. intros [Hwf ->]. by apply decode_built.
Qed.

Lemma display_record_exact_witness :
  let r := AtlasH264 7 DISPLAY_ATLAS_H264_FLAG_KEYFRAME 16 8
             [{| dst_x := 640; dst_y := 32; width := 16; height := 8;
                 atlas_x := 0; atlas_y := 0 |}] [0; 1; 255] in
  bytes_ok (encode_record r) /\ decode_display_record (encode_record r) = Ok r.
Proof.
  intros r.
  assert (bytes_ok (encode_record r)) as Hok by bytes_check.
  split; [exact Hok|].
  apply (display_record_exact (encode_record r) r Hok). split; [|reflexivity].
  unfold r; cbn [wf_record].
  split_and!; try bytes_check;
    try (unfold is_u64, is_u32, is_dim, DISPLAY_ATLAS_H264_FLAG_KEYFRAME, u64_max, u32_max, len; cbn; lia);
    try discriminate.
  constructor; [|constructor]. unfold wf_rect, is_u32, u32_max; cbn. lia.
Defined.

(** No record a peer can send makes the decoder panic: every slice and index
    of [decode_display_record], the rectangle table included, is in range whatever
    lengths and counts the bytes claim. *)
Theorem display_record_safe bs :
  bytes_ok bs -> safe (decode_display_record bs).
Proof. apply decode_display_record_no_panic. Qed.

Lemma display_record_safe_witness : safe (decode_display_record [6; 1; 0; 0; 0; 255]).
Proof.
  apply (display_record_safe [6; 1; 0; 0; 0; 255]).
  bytes_check.
Defined.
