(* ===== verification/TileStream.v ===== *)
(** * Tile command streams

    The ATX2 wire format of [apps/talos_worker_helper/src/tile_commands.rs]: the
    header and command layout, the parsers, the builder, the splitting of a stream
    into wire chunks and the merging of solid tiles into row bands.  What the
    commands mean as pixels is in [TileDecode]. *)

From S2P Require Import Prelude Bytes.

Definition TILE_COMMAND_STREAM_MAGIC : Z := 0x32585441.
Definition TILE_COMMAND_STREAM_VERSION : Z := 4.
Definition TILE_COMMAND_STREAM_HEADER_BYTES : Z := 32.
Definition TILE_COMMAND_HEADER_BYTES : Z := 24.
Definition TILE_SIZE : Z := 32.

Definition TILE_COMMAND_RAW_BGRA : Z := 1.
Definition TILE_COMMAND_SOLID_COLOR : Z := 2.
Definition TILE_COMMAND_XOR_RAW : Z := 3.
Definition TILE_COMMAND_XOR_SPARSE : Z := 4.
Definition TILE_COMMAND_MASKED_QUANT_DELTA : Z := 5.
Definition TILE_COMMAND_LOSSY_UI_BLOCK : Z := 6.
Definition TILE_COMMAND_SHARP_UI_BLOCK : Z := 7.

(** The two halves of a packed pair, [v & 0xffff] and [v >> 16]. *)
Definition lo16 (v : Z) : Z := Z.land v 0xffff.
Definition hi16 (v : Z) : Z := Z.shiftr v 16.

Definition pack_xy (x y : Z) : Z :=
  Z.lor (Z.land x 0xffff) (Z.shiftl (Z.land y 0xffff) 16).

(** ** Words of a stream *)

Definition read_u32 (bytes : list Z) (offset : Z) : res anyhow Z :=
  end_ ← ok_or (checked_add usize_max offset 4) "u32 read offset overflow"%string;
  value ← ok_or (slice bytes offset end_) "u32 read exceeds byte stream"%string;
  value ← or_panic (try_into_array 4 value);
  Ok (le_val value).

Definition write_u32 {E} (bytes : list Z) (offset value : Z) : res E (list Z) :=
  or_panic (copy_at bytes offset (le_bytes 4 value)).

Definition write_stream_header {E} (bytes : list Z)
    (atlas_width atlas_height tiles_x command_count byte_len descriptor_count overflow : Z)
    : res E (list Z) :=
  bytes ← write_u32 bytes 0 TILE_COMMAND_STREAM_MAGIC;
  bytes ← write_u32 bytes 4 TILE_COMMAND_STREAM_VERSION;
  bytes ← write_u32 bytes 8 (pack_xy atlas_width atlas_height);
  bytes ← write_u32 bytes 12 (pack_xy TILE_SIZE tiles_x);
  bytes ← write_u32 bytes 16 command_count;
  bytes ← write_u32 bytes 20 byte_len;
  bytes ← write_u32 bytes 24 descriptor_count;
  write_u32 bytes 28 overflow.

Definition write_command_header {E} (bytes : list Z)
    (offset kind atlas_xy desktop_xy wh payload_len changed_count : Z) : res E (list Z) :=
  bytes ← write_u32 bytes offset kind;
  bytes ← write_u32 bytes (offset + 4) atlas_xy;
  bytes ← write_u32 bytes (offset + 8) desktop_xy;
  bytes ← write_u32 bytes (offset + 12) wh;
  bytes ← write_u32 bytes (offset + 16) payload_len;
  write_u32 bytes (offset + 20) changed_count.

(** [atlas_width.div_ceil(TILE_SIZE).max(1)] *)
Definition tiles_across (width : Z) : Z := Z.max (div_ceil width TILE_SIZE) 1.

Definition build_empty_stream {E} (atlas_width atlas_height : Z) : res E (list Z) :=
  let tiles_x := tiles_across atlas_width in
  bytes ← vec_zeroed TILE_COMMAND_STREAM_HEADER_BYTES;
  write_stream_header bytes atlas_width atlas_height tiles_x 0
    TILE_COMMAND_STREAM_HEADER_BYTES 0 0.

(** ** Tiles, rectangles and streams *)

Module Tile.
Record TileCommandTile := { atlas_xy : Z; desktop_xy : Z; wh : Z; flags : Z }.

Definition new (atlas_x atlas_y desktop_x desktop_y width height : Z)
    : res anyhow TileCommandTile :=
  _ ← ensure ((atlas_x <=? u16_max) && (atlas_y <=? u16_max) && (desktop_x <=? u16_max)
              && (desktop_y <=? u16_max) && (width <=? u16_max) && (height <=? u16_max))
        "tile command descriptor exceeds 16-bit field range"%string;
  _ ← ensure ((0 <? width) && (0 <? height)) "tile command descriptor is empty"%string;
  Ok {| atlas_xy := pack_xy atlas_x atlas_y;
        desktop_xy := pack_xy desktop_x desktop_y;
        wh := pack_xy width height;
        flags := 1 |}.

Definition width (t : TileCommandTile) : Z := lo16 (wh t).
Definition height (t : TileCommandTile) : Z := hi16 (wh t).
End Tile.

Module Rect.
Record TileCommandCopyRect := {
  atlas_x : Z; atlas_y : Z; desktop_x : Z; desktop_y : Z; width : Z; height : Z }.
End Rect.

Module Counts.
Record TileCommandCounts := {
  solid : Z; raw_key : Z; xor_raw : Z; xor_sparse : Z; masked_quant_delta : Z;
  lossy_ui_block : Z; sharp_ui_block : Z; skipped : Z }.

Definition default : TileCommandCounts :=
  {| solid := 0; raw_key := 0; xor_raw := 0; xor_sparse := 0; masked_quant_delta := 0;
     lossy_ui_block := 0; sharp_ui_block := 0; skipped := 0 |}.
End Counts.

(** The encoded stream; its [timings], which only the logs read, are left out. *)
Module Stream.
Record TileCommandStream := {
  atlas_width : Z;
  atlas_height : Z;
  descriptor_count : Z;
  command_count : Z;
  byte_len : Z;
  raw_equivalent_bytes : Z;
  delta_bytes_saved_estimate : Z;
  copy_rects : list Rect.TileCommandCopyRect;
  bytes : list Z;
  command_counts : Counts.TileCommandCounts;
}.
End Stream.

Module Owned.
Record OwnedCommand := {
  kind : Z; atlas_xy : Z; desktop_xy : Z; wh : Z; changed_count : Z; payload : list Z }.

Definition atlas_x c := lo16 (atlas_xy c).
Definition atlas_y c := hi16 (atlas_xy c).
Definition desktop_x c := lo16 (desktop_xy c).
Definition desktop_y c := hi16 (desktop_xy c).
Definition width c := lo16 (wh c).
Definition height c := hi16 (wh c).
Definition encoded_len c := TILE_COMMAND_HEADER_BYTES + len (payload c).
Definition copy_rect c : Rect.TileCommandCopyRect :=
  {| Rect.atlas_x := atlas_x c; Rect.atlas_y := atlas_y c;
     Rect.desktop_x := desktop_x c; Rect.desktop_y := desktop_y c;
     Rect.width := width c; Rect.height := height c |}.
End Owned.

Module Ref.
Record CommandRef := {
  kind : Z; atlas_xy : Z; desktop_xy : Z; wh : Z; payload_len : Z; changed_count : Z;
  command_offset : Z; payload_offset : Z }.

Definition atlas_x c := lo16 (atlas_xy c).
Definition atlas_y c := hi16 (atlas_xy c).
Definition desktop_x c := lo16 (desktop_xy c).
Definition desktop_y c := hi16 (desktop_xy c).
Definition width c := lo16 (wh c).
Definition height c := hi16 (wh c).
Definition payload_end c := payload_offset c + payload_len c.
End Ref.

Record TileCommandWireChunk := {
  chunk_bytes : list Z;
  chunk_copy_rects : list Rect.TileCommandCopyRect;
}.

(** ** Parsing *)

Definition validate_basic_stream_bytes (bytes : list Z) : res anyhow unit :=
  _ ← ensure (TILE_COMMAND_STREAM_HEADER_BYTES <=? len bytes)
        "tile command stream is shorter than header"%string;
  _ ← ensure (len bytes mod 4 =? 0) "tile command stream is not 4-byte aligned"%string;
  magic ← read_u32 bytes 0;
  _ ← ensure (magic =? TILE_COMMAND_STREAM_MAGIC) "bad ATX2 tile command stream magic"%string;
  version ← read_u32 bytes 4;
  _ ← ensure (version =? TILE_COMMAND_STREAM_VERSION)
        "unsupported ATX2 tile command stream version"%string;
  byte_len ← read_u32 bytes 20;
  ensure (byte_len =? len bytes) "tile command stream byte length header mismatch"%string.

(** The header of the command at [offset] of a stream that ends at [end_], as each
    loop over a stream reads it. *)
Definition parse_command_at (bytes : list Z) (end_ offset : Z) : res anyhow Ref.CommandRef :=
  _ ← ensure (offset + TILE_COMMAND_HEADER_BYTES <=? end_)
        "tile command stream has truncated command header"%string;
  kind ← read_u32 bytes offset;
  atlas_xy ← read_u32 bytes (offset + 4);
  desktop_xy ← read_u32 bytes (offset + 8);
  wh ← read_u32 bytes (offset + 12);
  payload_len ← read_u32 bytes (offset + 16);
  changed_count ← read_u32 bytes (offset + 20);
  let payload_offset := offset + TILE_COMMAND_HEADER_BYTES in
  payload_end ← ok_or (checked_add usize_max payload_offset payload_len)
                  "tile command payload offset overflow"%string;
  _ ← ensure (payload_end <=? end_) "tile command stream has truncated payload"%string;
  Ok {| Ref.kind := kind; Ref.atlas_xy := atlas_xy; Ref.desktop_xy := desktop_xy;
        Ref.wh := wh; Ref.payload_len := payload_len; Ref.changed_count := changed_count;
        Ref.command_offset := offset; Ref.payload_offset := payload_offset |}.

(** The [while offset < bytes.len()] loops; a command takes at least one byte, so
    the length of the stream bounds the number of iterations. *)
Fixpoint command_refs_loop (fuel : nat) (bytes : list Z) (offset : Z)
    : res anyhow (list Ref.CommandRef) :=
  match fuel with
  | O => Fuel
  | S fuel =>
      if offset <? len bytes then
        command ← parse_command_at bytes (len bytes) offset;
        commands ← command_refs_loop fuel bytes (Ref.payload_end command);
        Ok (command :: commands)
      else Ok []
  end.

Definition parse_command_refs (bytes : list Z) : res anyhow (list Ref.CommandRef) :=
  _ ← validate_basic_stream_bytes bytes;
  command_refs_loop (S (length bytes)) bytes TILE_COMMAND_STREAM_HEADER_BYTES.

Fixpoint owned_commands_loop (fuel : nat) (bytes : list Z) (offset : Z)
    : res anyhow (list Owned.OwnedCommand) :=
  match fuel with
  | O => Fuel
  | S fuel =>
      if offset <? len bytes then
        c ← parse_command_at bytes (len bytes) offset;
        payload ← or_panic (slice bytes (Ref.payload_offset c) (Ref.payload_end c));
        commands ← owned_commands_loop fuel bytes (Ref.payload_end c);
        Ok ({| Owned.kind := Ref.kind c; Owned.atlas_xy := Ref.atlas_xy c;
               Owned.desktop_xy := Ref.desktop_xy c; Owned.wh := Ref.wh c;
               Owned.changed_count := Ref.changed_count c; Owned.payload := payload |}
            :: commands)
      else Ok []
  end.

Definition parse_owned_commands (bytes : list Z) : res anyhow (list Owned.OwnedCommand) :=
  _ ← validate_basic_stream_bytes bytes;
  owned_commands_loop (S (length bytes)) bytes TILE_COMMAND_STREAM_HEADER_BYTES.

(** The counter a command kind increments. *)
Definition count_kind (counts : Counts.TileCommandCounts) (kind : Z)
    : res anyhow Counts.TileCommandCounts :=
  let '(Counts.Build_TileCommandCounts solid raw_key xor_raw xor_sparse masked lossy sharp skipped)
    := counts in
  if kind =? TILE_COMMAND_SOLID_COLOR then
    Ok (Counts.Build_TileCommandCounts (solid + 1) raw_key xor_raw xor_sparse masked lossy sharp skipped)
  else if kind =? TILE_COMMAND_RAW_BGRA then
    Ok (Counts.Build_TileCommandCounts solid (raw_key + 1) xor_raw xor_sparse masked lossy sharp skipped)
  else if kind =? TILE_COMMAND_XOR_RAW then
    Ok (Counts.Build_TileCommandCounts solid raw_key (xor_raw + 1) xor_sparse masked lossy sharp skipped)
  else if kind =? TILE_COMMAND_XOR_SPARSE then
    Ok (Counts.Build_TileCommandCounts solid raw_key xor_raw (xor_sparse + 1) masked lossy sharp skipped)
  else if kind =? TILE_COMMAND_MASKED_QUANT_DELTA then
    Ok (Counts.Build_TileCommandCounts solid raw_key xor_raw xor_sparse (masked + 1) lossy sharp skipped)
  else if kind =? TILE_COMMAND_LOSSY_UI_BLOCK then
    Ok (Counts.Build_TileCommandCounts solid raw_key xor_raw xor_sparse masked (lossy + 1) sharp skipped)
  else if kind =? TILE_COMMAND_SHARP_UI_BLOCK then
    Ok (Counts.Build_TileCommandCounts solid raw_key xor_raw xor_sparse masked lossy (sharp + 1) skipped)
  else Err "unknown tile command kind while counting"%string.

Fixpoint stream_commands_loop (fuel : nat) (bytes : list Z) (counts : Counts.TileCommandCounts)
    (copy_rects : list Rect.TileCommandCopyRect) (offset : Z)
    : res anyhow (Counts.TileCommandCounts * list Rect.TileCommandCopyRect * Z) :=
  match fuel with
  | O => Fuel
  | S fuel =>
      if offset <? len bytes then
        _ ← ensure (offset + TILE_COMMAND_HEADER_BYTES <=? len bytes)
              "tile command stream has truncated command header while counting"%string;
        kind ← read_u32 bytes offset;
        atlas_xy ← read_u32 bytes (offset + 4);
        desktop_xy ← read_u32 bytes (offset + 8);
        wh ← read_u32 bytes (offset + 12);
        payload_len ← read_u32 bytes (offset + 16);
        counts ← count_kind counts kind;
        let rect := {| Rect.atlas_x := lo16 atlas_xy; Rect.atlas_y := hi16 atlas_xy;
                       Rect.desktop_x := lo16 desktop_xy; Rect.desktop_y := hi16 desktop_xy;
                       Rect.width := lo16 wh; Rect.height := hi16 wh |} in
        offset ← ok_or (o ← checked_add usize_max offset TILE_COMMAND_HEADER_BYTES;
                        checked_add usize_max o payload_len)
                   "tile command stream count offset overflow"%string;
        stream_commands_loop fuel bytes counts (copy_rects ++ [rect]) offset
      else Ok (counts, copy_rects, offset)
  end.

Definition parse_stream_commands (bytes : list Z)
    : res anyhow (Counts.TileCommandCounts * list Rect.TileCommandCopyRect) :=
  '(counts, copy_rects, offset) ←
    stream_commands_loop (S (length bytes)) bytes Counts.default [] TILE_COMMAND_STREAM_HEADER_BYTES;
  _ ← ensure (offset =? len bytes) "tile command stream count ended past byte length"%string;
  Ok (counts, copy_rects).

(** ** Building *)

(** The body of the loop that writes the commands. *)
Definition write_command_step (st : list Z * Z) (command : Owned.OwnedCommand)
    : res anyhow (list Z * Z) :=
  let '(bytes, offset) := st in
  bytes ← write_command_header bytes offset (Owned.kind command) (Owned.atlas_xy command)
            (Owned.desktop_xy command) (Owned.wh command)
            (as_u32 (len (Owned.payload command))) (Owned.changed_count command);
  let payload_offset := offset + TILE_COMMAND_HEADER_BYTES in
  bytes ← or_panic (copy_at bytes payload_offset (Owned.payload command));
  Ok (bytes, payload_offset + len (Owned.payload command)).

Definition build_command_stream_from_commands (atlas_width atlas_height descriptor_count : Z)
    (commands : list Owned.OwnedCommand) : res anyhow (list Z) :=
  byte_len ← foldM (fun sum command =>
                ok_or (checked_add usize_max sum (Owned.encoded_len command))
                  "tile command stream byte length overflow"%string)
              TILE_COMMAND_STREAM_HEADER_BYTES commands;
  _ ← ensure (byte_len <=? u32_max) "tile command stream too large"%string;
  bytes ← vec_zeroed byte_len;
  bytes ← write_stream_header bytes atlas_width atlas_height (tiles_across atlas_width)
            (as_u32 (len commands)) (as_u32 byte_len) descriptor_count 0;
  '(bytes, _) ← foldM write_command_step (bytes, TILE_COMMAND_STREAM_HEADER_BYTES) commands;
  Ok bytes.

Definition build_wire_chunk (atlas_width atlas_height : Z) (commands : list Owned.OwnedCommand)
    : res anyhow TileCommandWireChunk :=
  let command_count := as_u32 (len commands) in
  let copy_rects := map Owned.copy_rect commands in
  bytes ← build_command_stream_from_commands atlas_width atlas_height command_count commands;
  Ok {| chunk_bytes := bytes; chunk_copy_rects := copy_rects |}.

(** One turn of the loop of [wire_chunks]: close the chunk that the command would
    overfill, then add the command to the open one. *)
Definition wire_chunks_step (self : Stream.TileCommandStream) (target_bytes : Z)
    (st : list TileCommandWireChunk * list Owned.OwnedCommand * Z) (command : Owned.OwnedCommand)
    : res anyhow (list TileCommandWireChunk * list Owned.OwnedCommand * Z) :=
  let '(chunks, current, current_bytes) := st in
  let command_len := Owned.encoded_len command in
  '(chunks, current, current_bytes) ←
    (if negb (len current =? 0)
        && (target_bytes <? saturating_add usize_max current_bytes command_len) then
       chunk ← build_wire_chunk (Stream.atlas_width self) (Stream.atlas_height self) current;
       Ok (chunks ++ [chunk], [], TILE_COMMAND_STREAM_HEADER_BYTES)
     else Ok (chunks, current, current_bytes));
  Ok (chunks, current ++ [command], saturating_add usize_max current_bytes command_len).

Definition wire_chunks (self : Stream.TileCommandStream) (target_bytes : Z)
    : res anyhow (list TileCommandWireChunk) :=
  commands ← parse_owned_commands (Stream.bytes self);
  if len commands =? 0 then
    Ok [{| chunk_bytes := Stream.bytes self; chunk_copy_rects := [] |}]
  else
  let target_bytes := Z.max target_bytes (TILE_COMMAND_STREAM_HEADER_BYTES + 1) in
  '(chunks, current, _) ←
    foldM (wire_chunks_step self target_bytes) ([], [], TILE_COMMAND_STREAM_HEADER_BYTES) commands;
  if negb (len current =? 0) then
    chunk ← build_wire_chunk (Stream.atlas_width self) (Stream.atlas_height self) current;
    Ok (chunks ++ [chunk])
  else Ok chunks.

(** [TileCommandStream::empty], [TileCommandStream::solid_color] *)
Definition empty_stream {E} (atlas_width atlas_height : Z) : res E Stream.TileCommandStream :=
  bytes ← build_empty_stream atlas_width atlas_height;
  let byte_len := as_u32 (len bytes) in
  Ok {| Stream.atlas_width := atlas_width; Stream.atlas_height := atlas_height;
        Stream.descriptor_count := 0; Stream.command_count := 0; Stream.byte_len := byte_len;
        Stream.raw_equivalent_bytes := byte_len; Stream.delta_bytes_saved_estimate := 0;
        Stream.copy_rects := []; Stream.bytes := bytes;
        Stream.command_counts := Counts.default |}.

Definition solid_color (atlas_width atlas_height : Z) (bgra : list Z)
    : res anyhow Stream.TileCommandStream :=
  _ ← ensure ((0 <? atlas_width) && (0 <? atlas_height))
        "solid tile command stream requires non-zero atlas dimensions"%string;
  _ ← ensure ((atlas_width <=? u16_max) && (atlas_height <=? u16_max))
        "solid tile command stream dimensions exceed ATX2 16-bit fields"%string;
  let tiles_x := tiles_across atlas_width in
  let byte_len := TILE_COMMAND_STREAM_HEADER_BYTES + TILE_COMMAND_HEADER_BYTES + 4 in
  bytes ← vec_zeroed byte_len;
  bytes ← write_stream_header bytes atlas_width atlas_height tiles_x 1 byte_len 1 0;
  let command_offset := TILE_COMMAND_STREAM_HEADER_BYTES in
  bytes ← write_command_header bytes command_offset TILE_COMMAND_SOLID_COLOR (pack_xy 0 0)
            (pack_xy 0 0) (pack_xy atlas_width atlas_height) 4
            (saturating_mul u32_max atlas_width atlas_height);
  bytes ← or_panic (copy_at bytes (command_offset + TILE_COMMAND_HEADER_BYTES) bgra);
  Ok {| Stream.atlas_width := atlas_width; Stream.atlas_height := atlas_height;
        Stream.descriptor_count := 1; Stream.command_count := 1; Stream.byte_len := byte_len;
        Stream.raw_equivalent_bytes := byte_len; Stream.delta_bytes_saved_estimate := 0;
        Stream.copy_rects := [{| Rect.atlas_x := 0; Rect.atlas_y := 0; Rect.desktop_x := 0;
                                 Rect.desktop_y := 0; Rect.width := atlas_width;
                                 Rect.height := atlas_height |}];
        Stream.bytes := bytes;
        Stream.command_counts := Counts.Build_TileCommandCounts 1 0 0 0 0 0 0 0 |}.

Definition raw_equivalent_stream_bytes (tiles : list Tile.TileCommandTile) : res anyhow Z :=
  capacity ← foldM (fun capacity tile =>
      let raw_payload := Tile.width tile * Tile.height tile * 4 in
      ok_or (value ← checked_add u64_max capacity TILE_COMMAND_HEADER_BYTES;
             checked_add u64_max value raw_payload)
        "tile command stream capacity overflow"%string)
    TILE_COMMAND_STREAM_HEADER_BYTES tiles;
  let aligned := Z.land (wrap_usize (capacity + 3)) (u64_max - 3) in
  _ ← ensure (aligned <=? u32_max) "tile command stream capacity exceeds u32"%string;
  Ok (as_u32 aligned).

(** ** Merging solid tiles into row bands *)

Definition is_solid (command : Ref.CommandRef) : bool :=
  (Ref.kind command =? TILE_COMMAND_SOLID_COLOR) && (Ref.payload_len command =? 4).

Definition solid_color_key {E} (bytes : list Z) (command : Ref.CommandRef) : res E Z :=
  if is_solid command then
    s ← or_panic (slice bytes (Ref.payload_offset command) (Ref.payload_offset command + 4));
    s ← or_panic (try_into_array 4 s);
    Ok (le_val s)
  else Ok 0.

(** The tuple the commands are sorted by, compared lexicographically. *)
Definition sort_key {E} (bytes : list Z) (command : Ref.CommandRef) : res E (list Z) :=
  color ← solid_color_key bytes command;
  Ok [Ref.atlas_y command; Ref.desktop_y command; Ref.height command; Ref.kind command; color;
      Ref.atlas_x command; Ref.desktop_x command].

Fixpoint lex_leb (k l : list Z) : bool :=
  match k, l with
  | [], _ => true
  | _ :: _, [] => false
  | x :: k, y :: l => (x <? y) || ((x =? y) && lex_leb k l)
  end.

(** [sort_by_key] is stable, so insertion sort, which is stable too, has the same
    result. *)
Fixpoint insert_by_key {A} (x : list Z * A) (l : list (list Z * A)) : list (list Z * A) :=
  match l with
  | [] => [x]
  | y :: l => if lex_leb (fst x) (fst y) then x :: y :: l else y :: insert_by_key x l
  end.

Fixpoint sort_by_key {A} (l : list (list Z * A)) : list (list Z * A) :=
  match l with
  | [] => []
  | x :: l => insert_by_key x (sort_by_key l)
  end.

(** [for x in l { out.push(f(x)?) }] *)
Fixpoint mapR {E A B} (f : A -> res E B) (l : list A) : res E (list B) :=
  match l with
  | [] => Ok []
  | x :: l => y ← f x; ys ← mapR f l; Ok (y :: ys)
  end.

(** [next] continues the band that starts at [command] and is [width] wide. *)
Definition continues_band (command next : Ref.CommandRef) (color next_color width : Z) : bool :=
  is_solid next
  && (next_color =? color)
  && (Ref.atlas_y next =? Ref.atlas_y command)
  && (Ref.desktop_y next =? Ref.desktop_y command)
  && (Ref.height next =? Ref.height command)
  && (Ref.atlas_x next =? saturating_add u32_max (Ref.atlas_x command) width)
  && (Ref.desktop_x next =? saturating_add u32_max (Ref.desktop_x command) width)
  && match checked_add u32_max width (Ref.width next) with
     | Some merged_width => merged_width <=? u16_max
     | None => false
     end.

(** The inner loop: absorb the commands that continue the band. *)
Fixpoint absorb_band {E} (bytes : list Z) (command : Ref.CommandRef) (color width changed_count : Z)
    (rest : list Ref.CommandRef) : res E (Z * Z * list Ref.CommandRef) :=
  match rest with
  | [] => Ok (width, changed_count, [])
  | next :: rest' =>
      next_color ← solid_color_key bytes next;
      if continues_band command next color next_color width then
        absorb_band bytes command color (width + Ref.width next)
          (saturating_add u32_max changed_count (Ref.changed_count next)) rest'
      else Ok (width, changed_count, rest)
  end.

(** The outer loop over the sorted commands; every turn consumes one of them. *)
Fixpoint merge_loop {E} (fuel : nat) (bytes output : list Z) (command_count : Z)
    (commands : list Ref.CommandRef) : res E (list Z * Z) :=
  match commands with
  | [] => Ok (output, command_count)
  | command :: rest =>
      match fuel with
      | O => Fuel
      | S fuel =>
          if negb (is_solid command) then
            s ← or_panic (slice bytes (Ref.command_offset command) (Ref.payload_end command));
            merge_loop fuel bytes (output ++ s) (saturating_add u32_max command_count 1) rest
          else
            color ← solid_color_key bytes command;
            '(width, changed_count, rest) ←
              absorb_band bytes command color (Ref.width command) (Ref.changed_count command) rest;
            let command_offset := len output in
            let output := output ++ zeros (TILE_COMMAND_HEADER_BYTES + 4) in
            output ← write_command_header output command_offset TILE_COMMAND_SOLID_COLOR
                       (Ref.atlas_xy command) (Ref.desktop_xy command)
                       (pack_xy width (Ref.height command)) 4 changed_count;
            output ← write_u32 output (command_offset + TILE_COMMAND_HEADER_BYTES) color;
            merge_loop fuel bytes output (saturating_add u32_max command_count 1) rest
      end
  end.

Definition merge_solid_color_row_bands (bytes : list Z)
    (atlas_width atlas_height descriptor_count : Z) : res anyhow (list Z) :=
  commands ← parse_command_refs bytes;
  if len commands <? 2 then Ok bytes else
  let solid_count := len (filter (fun c => is_solid c = true) commands) in
  if solid_count <? 2 then Ok bytes else
  keyed ← mapR (fun c => k ← sort_key bytes c; Ok (k, c)) commands;
  let commands := map snd (sort_by_key keyed) in
  '(output, command_count) ←
    merge_loop (length commands) bytes (zeros TILE_COMMAND_STREAM_HEADER_BYTES) 0 commands;
  _ ← ensure (len output <=? u32_max) "merged tile command stream too large"%string;
  write_stream_header output atlas_width atlas_height (tiles_across atlas_width) command_count
    (as_u32 (len output)) descriptor_count 0.

(** [read_mapped_stream] on the bytes of the mapped staging buffer. *)
Definition read_mapped_stream (all_bytes : list Z) (output_capacity atlas_width atlas_height
    descriptor_count raw_equivalent_bytes : Z) : res anyhow Stream.TileCommandStream :=
  _ ← ensure (TILE_COMMAND_STREAM_HEADER_BYTES <=? len all_bytes)
        "tile command stream staging buffer is too small"%string;
  byte_len ← read_u32 all_bytes 20;
  _ ← ensure ((TILE_COMMAND_STREAM_HEADER_BYTES <=? byte_len) && (byte_len <=? output_capacity))
        "invalid tile command stream byte length"%string;
  original_command_count ← read_u32 all_bytes 16;
  prefix ← or_panic (slice all_bytes 0 byte_len);
  bytes ← merge_solid_color_row_bands prefix atlas_width atlas_height descriptor_count;
  byte_len ← (if len bytes <=? u32_max then Ok (len bytes)
              else Err "merged tile command stream too large"%string);
  command_count ← read_u32 bytes 16;
  '(command_counts, copy_rects) ← parse_stream_commands bytes;
  let skipped := saturating_sub descriptor_count original_command_count in
  let command_counts :=
    {| Counts.solid := Counts.solid command_counts;
       Counts.raw_key := Counts.raw_key command_counts;
       Counts.xor_raw := Counts.xor_raw command_counts;
       Counts.xor_sparse := Counts.xor_sparse command_counts;
       Counts.masked_quant_delta := Counts.masked_quant_delta command_counts;
       Counts.lossy_ui_block := Counts.lossy_ui_block command_counts;
       Counts.sharp_ui_block := Counts.sharp_ui_block command_counts;
       Counts.skipped := skipped |} in
  Ok {| Stream.atlas_width := atlas_width; Stream.atlas_height := atlas_height;
        Stream.descriptor_count := descriptor_count; Stream.command_count := command_count;
        Stream.byte_len := byte_len; Stream.raw_equivalent_bytes := raw_equivalent_bytes;
        Stream.delta_bytes_saved_estimate := saturating_sub raw_equivalent_bytes byte_len;
        Stream.copy_rects := copy_rects; Stream.bytes := bytes;
        Stream.command_counts := command_counts |}.

(** ** Packed pairs *)

Lemma lo16_mod v : lo16 v = v mod 65536.
Proof. unfold lo16. change 0xffff with (Z.ones 16). by rewrite Z.land_ones. Qed.

Lemma lo16_bound v : 0 <= lo16 v <= 65535.
Proof. rewrite lo16_mod. pose proof (Z.mod_pos_bound v 65536). lia. Qed.

Lemma hi16_bound v : is_u32 v -> 0 <= hi16 v <= 65535.
Proof.
  unfold hi16, is_u32, u32_max. intros. rewrite Z.shiftr_div_pow2 by lia. change (2 ^ 16) with 65536.
  split; [apply Z.div_pos; lia|]. apply Z.lt_succ_r, Z.div_lt_upper_bound; lia.
Qed.

Lemma pack_xy_sum x y : 0 <= x <= 65535 -> 0 <= y <= 65535 -> pack_xy x y = x + y * 65536.
Proof.
  intros. unfold pack_xy. fold (lo16 x) (lo16 y). rewrite !lo16_mod, !Z.mod_small by lia.
  rewrite Z.shiftl_mul_pow2 by lia.
  assert (Z.land x (y * 2 ^ 16) = 0) as Hl.
  { apply Z.bits_inj'. intros n Hn. rewrite Z.land_spec, Z.bits_0.
    destruct (decide (n < 16)).
    - by rewrite (Z.mul_pow2_bits_low y 16 n), andb_false_r by lia.
    - replace (Z.testbit x n) with false; [done|]. symmetry.
      rewrite <- (Z.mod_small x (2 ^ 16)) by lia. apply Z.mod_pow2_bits_high. lia. }
  by rewrite <- Z.lxor_lor, <- Z.add_nocarry_lxor by done.
Qed.

Lemma lo16_pack x y : 0 <= x <= 65535 -> 0 <= y <= 65535 -> lo16 (pack_xy x y) = x.
Proof.
  intros. rewrite pack_xy_sum by done. rewrite lo16_mod, Z.mod_add by lia.
  apply Z.mod_small; lia.
Qed.

Lemma hi16_pack x y : 0 <= x <= 65535 -> 0 <= y <= 65535 -> hi16 (pack_xy x y) = y.
Proof.
  intros. rewrite pack_xy_sum by done. unfold hi16. rewrite Z.shiftr_div_pow2 by lia.
  change (2 ^ 16) with 65536. rewrite Z.div_add by lia. rewrite Z.div_small by lia. lia.
Qed.

Lemma pack_xy_u32 x y : 0 <= x <= 65535 -> 0 <= y <= 65535 -> is_u32 (pack_xy x y).
Proof. intros. rewrite pack_xy_sum by done. unfold is_u32, u32_max. lia. Qed.

(** ** The layout, as byte strings *)

Definition cmd_header (kind atlas_xy desktop_xy wh payload_len changed_count : Z) : list Z :=
  le_bytes 4 kind ++ le_bytes 4 atlas_xy ++ le_bytes 4 desktop_xy ++ le_bytes 4 wh ++
  le_bytes 4 payload_len ++ le_bytes 4 changed_count.

Definition enc_command (c : Owned.OwnedCommand) : list Z :=
  cmd_header (Owned.kind c) (Owned.atlas_xy c) (Owned.desktop_xy c) (Owned.wh c)
    (len (Owned.payload c)) (Owned.changed_count c) ++ Owned.payload c.

Definition enc_commands (cs : list Owned.OwnedCommand) : list Z := concat (map enc_command cs).

Definition stream_header (atlas_width atlas_height command_count byte_len descriptor_count : Z)
    : list Z :=
  le_bytes 4 TILE_COMMAND_STREAM_MAGIC ++ le_bytes 4 TILE_COMMAND_STREAM_VERSION ++
  le_bytes 4 (pack_xy atlas_width atlas_height) ++
  le_bytes 4 (pack_xy TILE_SIZE (tiles_across atlas_width)) ++
  le_bytes 4 command_count ++ le_bytes 4 byte_len ++ le_bytes 4 descriptor_count ++ le_bytes 4 0.

Definition wf_command (c : Owned.OwnedCommand) : Prop :=
  is_u32 (Owned.kind c) /\ is_u32 (Owned.atlas_xy c) /\ is_u32 (Owned.desktop_xy c) /\
  is_u32 (Owned.wh c) /\ is_u32 (Owned.changed_count c) /\
  bytes_ok (Owned.payload c) /\ len (Owned.payload c) <= u32_max.

(** The reference to a command that starts at [off]. *)
Definition ref_of (off : Z) (c : Owned.OwnedCommand) : Ref.CommandRef :=
  {| Ref.kind := Owned.kind c; Ref.atlas_xy := Owned.atlas_xy c;
     Ref.desktop_xy := Owned.desktop_xy c; Ref.wh := Owned.wh c;
     Ref.payload_len := len (Owned.payload c); Ref.changed_count := Owned.changed_count c;
     Ref.command_offset := off; Ref.payload_offset := off + TILE_COMMAND_HEADER_BYTES |}.

Lemma ref_atlas_x off c : Ref.atlas_x (ref_of off c) = Owned.atlas_x c.
Proof. reflexivity. Qed.
Lemma ref_atlas_y off c : Ref.atlas_y (ref_of off c) = Owned.atlas_y c.
Proof. reflexivity. Qed.
Lemma ref_desktop_x off c : Ref.desktop_x (ref_of off c) = Owned.desktop_x c.
Proof. reflexivity. Qed.
Lemma ref_desktop_y off c : Ref.desktop_y (ref_of off c) = Owned.desktop_y c.
Proof. reflexivity. Qed.
Lemma ref_width off c : Ref.width (ref_of off c) = Owned.width c.
Proof. reflexivity. Qed.
Lemma ref_height off c : Ref.height (ref_of off c) = Owned.height c.
Proof. reflexivity. Qed.
Lemma ref_kind off c : Ref.kind (ref_of off c) = Owned.kind c.
Proof. reflexivity. Qed.
Lemma ref_changed_count off c : Ref.changed_count (ref_of off c) = Owned.changed_count c.
Proof. reflexivity. Qed.

(** The fields of a reference are those of its command. *)
Create Rewrite HintDb talos_ref.
#[export] Hint Rewrite ref_atlas_x ref_atlas_y ref_desktop_x ref_desktop_y ref_width ref_height
  ref_kind ref_changed_count : talos_ref.

Fixpoint refs_of (off : Z) (cs : list Owned.OwnedCommand) : list Ref.CommandRef :=
  match cs with
  | [] => []
  | c :: cs => ref_of off c :: refs_of (off + Owned.encoded_len c) cs
  end.

(** The header words that the parsers check. *)
Definition basic_header (bs : list Z) : Prop :=
  TILE_COMMAND_STREAM_HEADER_BYTES <= len bs <= u32_max /\ len bs mod 4 = 0 /\
  slice bs 0 4 = Some (le_bytes 4 TILE_COMMAND_STREAM_MAGIC) /\
  slice bs 4 8 = Some (le_bytes 4 TILE_COMMAND_STREAM_VERSION) /\
  slice bs 20 24 = Some (le_bytes 4 (len bs)).

Lemma cmd_header_len k a d w p n : len (cmd_header k a d w p n) = 24.
Proof. unfold cmd_header. by len_solve. Qed.

Lemma stream_header_len w h n b d : len (stream_header w h n b d) = 32.
Proof. unfold stream_header. by len_solve. Qed.

Lemma enc_command_len c : len (enc_command c) = Owned.encoded_len c.
Proof. unfold enc_command, Owned.encoded_len. by rewrite len_app, cmd_header_len. Qed.

#[export] Hint Rewrite cmd_header_len stream_header_len enc_command_len : talos_len.

Arguments enc_commands : simpl never.
Arguments enc_command : simpl never.

Lemma enc_commands_cons c cs : enc_commands (c :: cs) = enc_command c ++ enc_commands cs.
Proof. done. Qed.

Lemma enc_commands_app cs ds : enc_commands (cs ++ ds) = enc_commands cs ++ enc_commands ds.
Proof. unfold enc_commands. by rewrite map_app, concat_app. Qed.

Lemma encoded_len_pos c : 24 <= Owned.encoded_len c.
Proof. unfold Owned.encoded_len, TILE_COMMAND_HEADER_BYTES. len_solve. Qed.

Lemma enc_commands_count cs : 24 * len cs <= len (enc_commands cs).
Proof.
  induction cs as [|c cs IH]; [done|]. rewrite enc_commands_cons, len_app, len_cons, enc_command_len.
  pose proof (encoded_len_pos c). lia.
Qed.

Lemma bytes_ok_cmd_header k a d w p n : bytes_ok (cmd_header k a d w p n).
Proof. unfold cmd_header, bytes_ok. repeat apply Forall_app_2; by apply le_bytes_ok. Qed.

Lemma enc_commands_ok cs : Forall wf_command cs -> bytes_ok (enc_commands cs).
Proof.
  induction 1 as [|c cs Hc _ IH]; [constructor|].
  rewrite enc_commands_cons. apply Forall_app_2; [|done].
  apply Forall_app_2; [apply bytes_ok_cmd_header|]. unfold wf_command in Hc. tauto.
Qed.

(** ** Words *)

Lemma read_u32_inv bs o v :
  bytes_ok bs -> read_u32 bs o = Ok v -> slice bs o (o + 4) = Some (le_bytes 4 v) /\ is_u32 v.
Proof.
  intros Hbs H. unfold read_u32, try_into_array, checked_add in H. run_inv.
  destruct (_ <=? _) in Hb; [|done]. simplify_eq.
  destruct (len x0 =? 4) eqn:Hl; [|done]. simplify_eq.
  pose proof (slice_ok _ _ _ _ Hbs Hb0).
  rewrite le_bytes_le_val by (done || lia). split; [done|]. apply le_val_u32; [done|lia].
Qed.

Lemma read_u32_slice bs o v :
  slice bs o (o + 4) = Some (le_bytes 4 v) -> is_u32 v -> len bs <= usize_max ->
  read_u32 bs o = Ok v.
Proof.
  intros Hs Hv Hl. pose proof (slice_inv _ _ _ _ Hs). unfold read_u32.
  rewrite checked_add_some by lia. cbn [ok_or mbind res_bind]. rewrite Hs.
  cbn [ok_or mbind res_bind]. unfold try_into_array. rewrite le_bytes_len by done. cbn.
  by rewrite le_val_u32_bytes.
Qed.

Lemma read_u32_safe bs o : safe (read_u32 bs o).
Proof.
  unfold read_u32, checked_add. repeat safe_step.
  apply ok_or_ok_inv in H. apply ok_or_ok_inv in H0. zify_in H; simplify_eq.
  apply slice_inv in H0. unfold try_into_array.
  replace (len a0 =? 4) with true by lia. done.
Qed.

Lemma read_u32_some bs o : 0 <= o -> o + 4 <= len bs -> len bs <= usize_max ->
  exists v, read_u32 bs o = Ok v.
Proof.
  intros. unfold read_u32. rewrite checked_add_some by lia. cbn [ok_or mbind res_bind].
  destruct (proj2 (slice_is_Some bs o (o + 4))) as [s Hs]; [lia|]. rewrite Hs.
  apply slice_inv in Hs. cbn [ok_or mbind res_bind]. unfold try_into_array.
  replace (len s =? 4) with true by lia. cbn. eauto.
Qed.

Lemma write_u32_mid {E} pre old post o v :
  o = len pre -> len old = 4 ->
  write_u32 (E:=E) (pre ++ old ++ post) o v = Ok (pre ++ le_bytes 4 v ++ post).
Proof.
  intros Ho Hold. unfold write_u32. by rewrite copy_at_mid by (rewrite ?le_bytes_len; done).
Qed.

(** Consecutive words. *)
Fixpoint write_words {E} (bs : list Z) (o : Z) (ws : list Z) : res E (list Z) :=
  match ws with
  | [] => Ok bs
  | v :: ws => bs ← write_u32 bs o v; write_words bs (o + 4) ws
  end.

Lemma write_words_mid {E} ws pre old post o :
  o = len pre -> len old = 4 * len ws ->
  write_words (E:=E) (pre ++ old ++ post) o ws =
  Ok (pre ++ concat (map (le_bytes 4) ws) ++ post).
Proof.
  revert pre old o; induction ws as [|v ws IH]; intros pre old o -> Hold.
  { by apply len_0_nil in Hold as ->. }
  rewrite len_cons in Hold. destruct (len_split old 4) as (w & b & -> & Hw); [len_pos; lia|].
  rewrite len_app in Hold. cbn [write_words map concat]. rewrite <- !app_assoc.
  rewrite write_u32_mid by done. cbn [mbind res_bind].
  rewrite (app_assoc pre). rewrite IH by len_solve. by rewrite <- !app_assoc.
Qed.

Lemma bind_ok_r {E A} (m : res E A) : (m ≫= fun a => Ok a) = m.
Proof. by destruct m. Qed.

(** Compare two sequences of writes step by step. *)
Ltac writes_eq :=
  repeat match goal with
  | |- ?m ≫= _ = ?m ≫= _ => destruct m; cbn [mbind res_bind]; try reflexivity
  end; try (symmetry; apply bind_ok_r).

Lemma write_command_header_mid {E} pre old post o k a d w p n :
  o = len pre -> len old = 24 ->
  write_command_header (E:=E) (pre ++ old ++ post) o k a d w p n =
  Ok (pre ++ cmd_header k a d w p n ++ post).
Proof.
  intros Ho Hold. trans (write_words (E:=E) (pre ++ old ++ post) o [k; a; d; w; p; n]).
  - cbn [write_words]. rewrite <- !Z.add_assoc. z_norm. unfold write_command_header. writes_eq.
  - rewrite write_words_mid by done. reflexivity.
Qed.

Lemma write_stream_header_built {E} old post aw ah cc bl dc :
  len old = 32 ->
  write_stream_header (E:=E) (old ++ post) aw ah (tiles_across aw) cc bl dc 0 =
  Ok (stream_header aw ah cc bl dc ++ post).
Proof.
  intros Hold.
  trans (write_words (E:=E) ([] ++ old ++ post) 0
    [TILE_COMMAND_STREAM_MAGIC; TILE_COMMAND_STREAM_VERSION; pack_xy aw ah;
     pack_xy TILE_SIZE (tiles_across aw); cc; bl; dc; 0]).
  - cbn [write_words app]. z_norm. unfold write_stream_header. writes_eq.
  - rewrite write_words_mid by done. reflexivity.
Qed.

(** ** Parsing, characterised *)

Lemma validate_basic_ok bs :
  bytes_ok bs -> validate_basic_stream_bytes bs = Ok tt <-> basic_header bs.
Proof.
  intros Hbs. unfold basic_header. split.
  - intros H. unfold validate_basic_stream_bytes in H. run_inv.
    repeat match goal with H : read_u32 _ _ = Ok _ |- _ => apply read_u32_inv in H as [? ?]; [|done] end.
    assert (x1 = TILE_COMMAND_STREAM_MAGIC) as -> by lia.
    assert (x3 = TILE_COMMAND_STREAM_VERSION) as -> by lia.
    assert (x5 = len bs) as -> by lia.
    unfold is_u32 in *. split_and!; try done; lia.
  - intros (Hl & Hm & H0 & H4 & H20). unfold validate_basic_stream_bytes.
    assert (len bs <= usize_max) by (unfold usize_max, u64_max, u32_max in *; lia).
    rewrite (read_u32_slice bs 0 _ H0), (read_u32_slice bs 4 _ H4), (read_u32_slice bs 20 _ H20)
      by (first [done | unfold is_u32, u32_max in *; len_solve]).
    unfold ensure. repeat (match goal with |- context [if ?b then _ else _] =>
      replace b with true by (symmetry; lia) end; cbn [mbind res_bind]).
    done.
Qed.

Lemma validate_basic_safe bs : safe (validate_basic_stream_bytes bs).
Proof. unfold validate_basic_stream_bytes. repeat safe_step; apply read_u32_safe. Qed.

Lemma parse_command_at_safe bs e off : safe (parse_command_at bs e off).
Proof. unfold parse_command_at. repeat safe_step; apply read_u32_safe. Qed.

(** The command at an offset: what the parser returns refers to a well-formed
    command whose encoding is there. *)
Lemma parse_command_at_ok bs e off r :
  bytes_ok bs -> 0 <= off -> e <= len bs ->
  parse_command_at bs e off = Ok r ->
  exists c, wf_command c /\ r = ref_of off c /\ off + Owned.encoded_len c <= e /\
    slice bs off (off + Owned.encoded_len c) = Some (enc_command c).
Proof.
  intros Hbs Hoff He H. unfold parse_command_at in H. run_inv.
  repeat match goal with H : read_u32 _ _ = Ok _ |- _ => apply read_u32_inv in H as [? ?]; [|done] end.
  unfold checked_add, TILE_COMMAND_HEADER_BYTES in *. destruct (_ <=? _) in Hb6; [|done]. simplify_eq.
  rename x0 into kind, x1 into axy, x2 into dxy, x3 into wh, x4 into plen, x5 into cc.
  destruct (proj2 (slice_is_Some bs (off + 24) (off + 24 + plen))) as [p Hp].
  { unfold is_u32 in *. lia. }
  pose proof (slice_inv _ _ _ _ Hp) as (_ & _ & Hpl).
  exists {| Owned.kind := kind; Owned.atlas_xy := axy; Owned.desktop_xy := dxy; Owned.wh := wh;
            Owned.changed_count := cc; Owned.payload := p |}.
  unfold wf_command, ref_of, Owned.encoded_len, TILE_COMMAND_HEADER_BYTES; cbn.
  replace (len p) with plen by lia. split_and!; try done; try lia.
  - eauto using slice_ok.
  - unfold is_u32 in *. lia.
  - unfold enc_command, cmd_header; cbn. rewrite Z.add_assoc.
    replace (len p) with plen by lia. rewrite <- !app_assoc.
    rewrite <- !Z.add_assoc in *. repeat (eapply slice_join; [eassumption|]). done.
Qed.

Lemma slice_enc_field bs off c a b v :
  slice bs off (off + Owned.encoded_len c) = Some (enc_command c) -> 0 <= a -> b <= 24 ->
  slice (enc_command c) a b = Some (le_bytes 4 v) ->
  slice bs (off + a) (off + b) = Some (le_bytes 4 v).
Proof.
  intros Hs Ha Hb H. pose proof (encoded_len_pos c).
  erewrite <- slice_slice by (try exact Hs; lia). done.
Qed.

Lemma parse_command_at_built bs e off c :
  wf_command c -> slice bs off (off + Owned.encoded_len c) = Some (enc_command c) ->
  off + Owned.encoded_len c <= e -> len bs <= usize_max ->
  parse_command_at bs e off = Ok (ref_of off c).
Proof.
  intros (? & ? & ? & ? & ? & ? & ?) Hs He Hl. pose proof (slice_inv _ _ _ _ Hs).
  pose proof (encoded_len_pos c).
  unfold parse_command_at, ensure. unfold Owned.encoded_len, TILE_COMMAND_HEADER_BYTES in *.
  replace (off + 24 <=? e) with true by len_solve. cbn [mbind res_bind].
  assert (forall a v, slice (enc_command c) a (a + 4) = Some (le_bytes 4 v) -> is_u32 v -> 0 <= a <= 20 ->
          read_u32 bs (off + a) = Ok v) as Hread.
  { intros a v Ha Hv ?. apply read_u32_slice; [|done..]. rewrite <- Z.add_assoc.
    eapply slice_enc_field; [exact Hs|lia|lia|done]. }
  replace off with (off + 0) at 1 by lia.
  do 6 (erewrite Hread by (first [unfold enc_command, cmd_header; slice_find | eassumption
                                 | apply u32_len; lia | lia]); cbn [mbind res_bind]).
  rewrite checked_add_some by lia. cbn [ok_or mbind res_bind].
  by replace (off + 24 + _ <=? e) with true by lia.
Qed.

Lemma refs_of_app off cs ds :
  refs_of off (cs ++ ds) = refs_of off cs ++ refs_of (off + len (enc_commands cs)) ds.
Proof.
  revert off; induction cs as [|c cs IH]; intros off; cbn [app refs_of].
  - by rewrite Z.add_0_r.
  - rewrite IH, enc_commands_cons, len_app, enc_command_len. by rewrite Z.add_assoc.
Qed.

(** The loop over command references returns the references to the commands whose
    encodings fill the rest of the stream, and only then. *)
Lemma command_refs_loop_ok fuel bs off rs :
  bytes_ok bs -> 0 <= off <= len bs -> command_refs_loop fuel bs off = Ok rs ->
  exists cs, Forall wf_command cs /\ rs = refs_of off cs /\
    slice bs off (len bs) = Some (enc_commands cs).
Proof.
  intros Hbs. revert off rs; induction fuel as [|fuel IH]; intros off rs Hoff H; [done|].
  cbn [command_refs_loop] in H. destruct (Z.ltb_spec off (len bs)).
  - run_inv. apply parse_command_at_ok in Hb as (c & Hc & -> & Hle & Hs); [|done|lia..].
    pose proof (encoded_len_pos c).
    apply IH in Hb0 as (cs & Hcs & -> & Hs'); [|unfold Ref.payload_end; cbn; unfold Owned.encoded_len in *; lia].
    unfold Ref.payload_end in *. cbn in *. rewrite <- Z.add_assoc in *.
    exists (c :: cs). split_and!; [by constructor|done|].
    rewrite enc_commands_cons. by eapply slice_join.
  - run_inv. exists []. split_and!; [constructor|done|].
    assert (off = len bs) as -> by lia. rewrite slice_some by lia. by rewrite Z.sub_diag.
Qed.

Lemma command_refs_loop_built fuel bs off cs :
  Forall wf_command cs -> slice bs off (len bs) = Some (enc_commands cs) ->
  len bs <= usize_max -> (length cs < fuel)%nat ->
  command_refs_loop fuel bs off = Ok (refs_of off cs).
Proof.
  intros Hcs. revert off fuel; induction Hcs as [|c cs Hc Hcs IH]; intros off fuel Hs Hl Hf.
  - destruct fuel; [lia|]. cbn [command_refs_loop]. apply slice_inv in Hs as (? & ? & Hs).
    change (len (enc_commands [])) with 0 in Hs. by replace (off <? len bs) with false by lia.
  - destruct fuel; [cbn in Hf; lia|]. cbn [command_refs_loop length] in *.
    pose proof (slice_inv _ _ _ _ Hs) as (? & ? & Hlen). rewrite enc_commands_cons in *.
    apply slice_split in Hs as [Hs1 Hs2]. rewrite enc_command_len in *.
    pose proof (encoded_len_pos c). pose proof (slice_inv _ _ _ _ Hs1). pose proof (slice_inv _ _ _ _ Hs2).
    replace (off <? len bs) with true by lia.
    rewrite (parse_command_at_built _ _ _ c) by (done || lia). cbn [mbind res_bind].
    unfold Ref.payload_end; cbn [ref_of Ref.payload_offset Ref.payload_len].
    rewrite <- Z.add_assoc. rewrite IH by (done || lia). done.
Qed.

Lemma command_refs_loop_safe fuel bs off :
  0 <= off <= len bs -> (length bs < fuel + Z.to_nat off)%nat -> bytes_ok bs ->
  safe (command_refs_loop fuel bs off).
Proof.
  intros Hoff Hf Hbs. revert off Hoff Hf; induction fuel as [|fuel IH]; intros off Hoff Hf.
  { exfalso. unfold len in *. lia. }
  cbn [command_refs_loop]. destruct (Z.ltb_spec off (len bs)); [|done].
  apply bind_safe; [apply parse_command_at_safe|]. intros r Hr.
  apply parse_command_at_ok in Hr as (c & Hc & -> & Hle & Hs); [|done|lia..].
  pose proof (encoded_len_pos c). unfold Owned.encoded_len in *.
  apply bind_safe; [|done]. apply IH; unfold Ref.payload_end; cbn; lia.
Qed.

Lemma ref_payload bs off c :
  slice bs off (off + Owned.encoded_len c) = Some (enc_command c) ->
  slice bs (Ref.payload_offset (ref_of off c)) (Ref.payload_end (ref_of off c)) =
  Some (Owned.payload c).
Proof.
  intros Hs. unfold enc_command in Hs. apply slice_split in Hs as [_ Hs].
  rewrite cmd_header_len in Hs. unfold Ref.payload_end; cbn. rewrite <- Z.add_assoc. exact Hs.
Qed.

Lemma owned_commands_loop_ok fuel bs off cs :
  bytes_ok bs -> 0 <= off <= len bs -> owned_commands_loop fuel bs off = Ok cs ->
  Forall wf_command cs /\ slice bs off (len bs) = Some (enc_commands cs).
Proof.
  intros Hbs. revert off cs; induction fuel as [|fuel IH]; intros off cs Hoff H; [done|].
  cbn [owned_commands_loop] in H. destruct (Z.ltb_spec off (len bs)).
  - run_inv. apply parse_command_at_ok in Hb as (c & Hc & -> & Hle & Hs); [|done|lia..].
    pose proof (encoded_len_pos c). rewrite (ref_payload _ _ _ Hs) in Hb0. simplify_eq.
    apply IH in Hb1 as (Hcs & Hs'); [|unfold Ref.payload_end; cbn; unfold Owned.encoded_len in *; lia].
    unfold Ref.payload_end in Hs'. cbn [ref_of Ref.payload_offset Ref.payload_len] in Hs'.
    rewrite <- Z.add_assoc in Hs'.
    replace (Owned.Build_OwnedCommand _ _ _ _ _ _) with c by (by destruct c).
    split; [by constructor|]. rewrite enc_commands_cons. by eapply slice_join.
  - run_inv. split; [constructor|].
    assert (off = len bs) as -> by lia. rewrite slice_some by lia. by rewrite Z.sub_diag.
Qed.

Lemma owned_commands_loop_built fuel bs off cs :
  Forall wf_command cs -> slice bs off (len bs) = Some (enc_commands cs) ->
  len bs <= usize_max -> (length cs < fuel)%nat ->
  owned_commands_loop fuel bs off = Ok cs.
Proof.
  intros Hcs. revert off fuel; induction Hcs as [|c cs Hc Hcs IH]; intros off fuel Hs Hl Hf.
  - destruct fuel; [lia|]. cbn [owned_commands_loop]. apply slice_inv in Hs as (? & ? & Hs).
    change (len (enc_commands [])) with 0 in Hs. by replace (off <? len bs) with false by lia.
  - destruct fuel; [cbn in Hf; lia|]. cbn [owned_commands_loop length] in *.
    pose proof (slice_inv _ _ _ _ Hs) as (? & ? & Hlen). rewrite enc_commands_cons in *.
    apply slice_split in Hs as [Hs1 Hs2]. rewrite enc_command_len in *.
    pose proof (encoded_len_pos c). pose proof (slice_inv _ _ _ _ Hs1). pose proof (slice_inv _ _ _ _ Hs2).
    replace (off <? len bs) with true by lia.
    rewrite (parse_command_at_built _ _ _ c) by (done || lia). cbn [mbind res_bind].
    rewrite (ref_payload _ _ _ Hs1). cbn [or_panic mbind res_bind].
    unfold Ref.payload_end; cbn [ref_of Ref.payload_offset Ref.payload_len].
    rewrite <- Z.add_assoc. rewrite IH by (done || lia). by destruct c.
Qed.

Lemma owned_commands_loop_safe fuel bs off :
  0 <= off <= len bs -> (length bs < fuel + Z.to_nat off)%nat -> bytes_ok bs ->
  safe (owned_commands_loop fuel bs off).
Proof.
  intros Hoff Hf Hbs. revert off Hoff Hf; induction fuel as [|fuel IH]; intros off Hoff Hf.
  { exfalso. unfold len in *. lia. }
  cbn [owned_commands_loop]. destruct (Z.ltb_spec off (len bs)); [|done].
  apply bind_safe; [apply parse_command_at_safe|]. intros r Hr.
  apply parse_command_at_ok in Hr as (c & Hc & -> & Hle & Hs); [|done|lia..].
  pose proof (encoded_len_pos c). rewrite (ref_payload _ _ _ Hs). cbn [or_panic mbind res_bind].
  unfold Owned.encoded_len in *.
  apply bind_safe; [|done]. apply IH; unfold Ref.payload_end; cbn; lia.
Qed.

(** The layout of a whole stream. *)
Definition stream_of (bs : list Z) (cs : list Owned.OwnedCommand) : Prop :=
  basic_header bs /\ Forall wf_command cs /\ slice bs 32 (len bs) = Some (enc_commands cs).

Lemma stream_of_fuel bs cs : stream_of bs cs -> (length cs < S (length bs))%nat.
Proof.
  intros (Hb & _ & Hs). pose proof (enc_commands_count cs).
  apply slice_inv in Hs as (? & ? & Hs). unfold len in *. lia.
Qed.

Lemma basic_header_bounds bs : basic_header bs -> 32 <= len bs <= usize_max.
Proof. intros [H _]. unfold TILE_COMMAND_STREAM_HEADER_BYTES, usize_max, u64_max, u32_max in *. lia. Qed.

Lemma parse_owned_iff bs cs :
  bytes_ok bs -> parse_owned_commands bs = Ok cs <-> stream_of bs cs.
Proof.
  intros Hbs. unfold parse_owned_commands. split.
  - intros H. run_inv. destruct x. apply validate_basic_ok in Hb; [|done].
    pose proof (basic_header_bounds _ Hb).
    apply owned_commands_loop_ok in Hk as [? ?]; [done|done|unfold TILE_COMMAND_STREAM_HEADER_BYTES; lia].
  - intros Hs. pose proof (stream_of_fuel _ _ Hs). destruct Hs as (Hb & Hcs & Hs).
    pose proof (basic_header_bounds _ Hb).
    rewrite (proj2 (validate_basic_ok bs Hbs) Hb). cbn [mbind res_bind].
    apply owned_commands_loop_built; [done|exact Hs|lia|done].
Qed.

Lemma parse_refs_iff bs rs :
  bytes_ok bs ->
  parse_command_refs bs = Ok rs <-> exists cs, stream_of bs cs /\ rs = refs_of 32 cs.
Proof.
  intros Hbs. unfold parse_command_refs. split.
  - intros H. run_inv. destruct x. apply validate_basic_ok in Hb; [|done].
    pose proof (basic_header_bounds _ Hb).
    apply command_refs_loop_ok in Hk as (cs & ? & ? & ?);
      [exists cs; done|done|unfold TILE_COMMAND_STREAM_HEADER_BYTES; lia].
  - intros (cs & Hs & ->). pose proof (stream_of_fuel _ _ Hs). destruct Hs as (Hb & Hcs & Hs).
    pose proof (basic_header_bounds _ Hb).
    rewrite (proj2 (validate_basic_ok bs Hbs) Hb). cbn [mbind res_bind].
    apply command_refs_loop_built; [done|exact Hs|lia|done].
Qed.

Lemma parse_owned_safe bs : bytes_ok bs -> safe (parse_owned_commands bs).
Proof.
  intros Hbs. unfold parse_owned_commands. apply bind_safe; [apply validate_basic_safe|].
  intros [] Hv. apply validate_basic_ok in Hv; [|done]. pose proof (basic_header_bounds _ Hv).
  apply owned_commands_loop_safe; [unfold TILE_COMMAND_STREAM_HEADER_BYTES; lia..|done].
Qed.

Lemma parse_refs_safe bs : bytes_ok bs -> safe (parse_command_refs bs).
Proof.
  intros Hbs. unfold parse_command_refs. apply bind_safe; [apply validate_basic_safe|].
  intros [] Hv. apply validate_basic_ok in Hv; [|done]. pose proof (basic_header_bounds _ Hv).
  apply command_refs_loop_safe; [unfold TILE_COMMAND_STREAM_HEADER_BYTES; lia..|done].
Qed.

(** ** Building, characterised *)

Lemma encoded_total cs s :
  0 <= s <= usize_max ->
  foldM (fun sum command =>
    ok_or (checked_add usize_max sum (Owned.encoded_len command))
      "tile command stream byte length overflow"%string) s cs =
  if s + len (enc_commands cs) <=? usize_max then Ok (s + len (enc_commands cs))
  else Err "tile command stream byte length overflow"%string.
Proof.
  revert s; induction cs as [|c cs IH]; intros s Hs; cbn [foldM].
  - change (len (enc_commands [])) with 0. rewrite Z.add_0_r.
    by replace (s <=? usize_max) with true by lia.
  - rewrite enc_commands_cons, len_app, enc_command_len. pose proof (encoded_len_pos c).
    pose proof (len_nonneg (enc_commands cs)).
    unfold checked_add. destruct (Z.leb_spec (s + Owned.encoded_len c) usize_max); cbn [ok_or mbind res_bind].
    + rewrite IH by lia. by rewrite Z.add_assoc.
    + by replace (_ <=? usize_max) with false by lia.
Qed.

Lemma write_command_step_mid pre old post c :
  len (Owned.payload c) <= u32_max -> len old = Owned.encoded_len c ->
  write_command_step (pre ++ old ++ post, len pre) c =
  Ok ((pre ++ enc_command c) ++ post, len (pre ++ enc_command c)).
Proof.
  intros Hc Hold. unfold Owned.encoded_len, TILE_COMMAND_HEADER_BYTES in Hold.
  pose proof (len_nonneg (Owned.payload c)).
  destruct (len_split old 24) as (h & p & -> & Hh); [lia|]. rewrite len_app in Hold.
  unfold write_command_step. rewrite <- app_assoc, write_command_header_mid by done.
  cbn [mbind res_bind]. rewrite (app_assoc pre).
  rewrite copy_at_mid by (rewrite ?len_app, ?cmd_header_len; unfold TILE_COMMAND_HEADER_BYTES; lia).
  cbn [or_panic mbind res_bind]. unfold enc_command. rewrite as_u32_small by by apply u32_len.
  rewrite <- !app_assoc, !len_app, cmd_header_len. do 2 f_equal.
  unfold TILE_COMMAND_HEADER_BYTES. lia.
Qed.

Lemma write_commands_built cs pre :
  Forall wf_command cs ->
  foldM write_command_step (pre ++ zeros (len (enc_commands cs)), len pre) cs =
  Ok (pre ++ enc_commands cs, len (pre ++ enc_commands cs)).
Proof.
  intros Hcs. revert pre; induction Hcs as [|c cs Hc _ IH]; intros pre; cbn [foldM].
  { change (zeros (len (enc_commands []))) with (@nil Z). change (enc_commands []) with (@nil Z).
    by rewrite app_nil_r. }
  rewrite enc_commands_cons, len_app, zeros_app by apply len_nonneg.
  pose proof (encoded_len_pos c).
  rewrite write_command_step_mid by (first [apply Hc | rewrite zeros_len; rewrite enc_command_len; lia]).
  cbn [mbind res_bind]. rewrite IH. by rewrite <- app_assoc.
Qed.

Lemma build_stream_eq aw ah dc cs :
  Forall wf_command cs -> 32 + len (enc_commands cs) <= u32_max ->
  build_command_stream_from_commands aw ah dc cs =
  Ok (stream_header aw ah (len cs) (32 + len (enc_commands cs)) dc ++ enc_commands cs).
Proof.
  intros Hcs Hl. unfold build_command_stream_from_commands, TILE_COMMAND_STREAM_HEADER_BYTES.
  pose proof (len_nonneg (enc_commands cs)). pose proof (enc_commands_count cs).
  pose proof (len_nonneg cs).
  rewrite encoded_total by (unfold usize_max, u64_max; lia).
  replace (_ <=? usize_max) with true by (unfold usize_max, u64_max, u32_max in *; lia).
  cbn [mbind res_bind]. unfold ensure, vec_zeroed.
  replace (_ <=? u32_max) with true by lia. cbn [mbind res_bind].
  replace (_ <=? isize_max) with true by (unfold isize_max, u32_max in *; lia). cbn [mbind res_bind].
  rewrite zeros_app by lia. rewrite write_stream_header_built by (by rewrite zeros_len).
  cbn [mbind res_bind]. rewrite !as_u32_small by (unfold is_u32; lia).
  set (h := stream_header _ _ _ _ _).
  change 32 with (len h) at 1. rewrite write_commands_built by done. done.
Qed.

Lemma built_stream_of aw ah cc dc n cs :
  Forall wf_command cs -> n = 32 + len (enc_commands cs) -> n <= u32_max ->
  len (enc_commands cs) mod 4 = 0 ->
  stream_of (stream_header aw ah cc n dc ++ enc_commands cs) cs.
Proof.
  intros Hcs Hn Hl Hm. set (h := stream_header _ _ _ _ _).
  assert (len (h ++ enc_commands cs) = n) as Hlen by (rewrite len_app; unfold h; rewrite stream_header_len; lia).
  split; [|split; [done|]].
  - unfold basic_header. rewrite Hlen. pose proof (len_nonneg (enc_commands cs)).
    unfold TILE_COMMAND_STREAM_HEADER_BYTES. split_and!; try lia.
    + rewrite Hn, <- Zplus_mod_idemp_r, Hm. done.
    + unfold h, stream_header. slice_find.
    + unfold h, stream_header. slice_find.
    + unfold h, stream_header. slice_find.
  - apply slice_tail; [done|]. by rewrite Hlen.
Qed.

Definition aligned_command (c : Owned.OwnedCommand) : Prop := len (Owned.payload c) mod 4 = 0.

Lemma enc_commands_aligned cs : Forall aligned_command cs -> len (enc_commands cs) mod 4 = 0.
Proof.
  induction 1 as [|c cs Hc _ IH]; [done|]. rewrite enc_commands_cons, len_app, enc_command_len.
  unfold Owned.encoded_len, aligned_command, TILE_COMMAND_HEADER_BYTES in *.
  rewrite <- Z.add_assoc, Z.add_mod, (Z.add_mod (len _)), IH, Hc by done. done.
Qed.

Lemma stream_header_ok w h n b d : bytes_ok (stream_header w h n b d).
Proof. unfold stream_header, bytes_ok. repeat apply Forall_app_2; by apply le_bytes_ok. Qed.

(** Commands that fit a stream: what the chunks of a stream are made of. *)
Definition fits (cs : list Owned.OwnedCommand) : Prop :=
  Forall wf_command cs /\ Forall aligned_command cs /\ 32 + len (enc_commands cs) <= u32_max.

(** What a chunk promises: it carries its commands, and is within the target size
    unless it holds a single command. *)
Definition chunk_ok (target : Z) (chunk : TileCommandWireChunk) (g : list Owned.OwnedCommand) : Prop :=
  parse_owned_commands (chunk_bytes chunk) = Ok g /\ bytes_ok (chunk_bytes chunk) /\
  chunk_copy_rects chunk = map Owned.copy_rect g /\
  (len g <= 1 \/ len (chunk_bytes chunk) <= target).

Lemma build_wire_chunk_ok aw ah target cs :
  fits cs -> (len cs <= 1 \/ 32 + len (enc_commands cs) <= target) ->
  exists chunk, build_wire_chunk aw ah cs = Ok chunk /\ chunk_ok target chunk cs.
Proof.
  intros (Hwf & Hal & Hl) Ht. unfold build_wire_chunk. rewrite build_stream_eq by done.
  cbn [mbind res_bind]. eexists; split; [done|]. unfold chunk_ok; cbn [chunk_bytes chunk_copy_rects].
  assert (bytes_ok (stream_header aw ah (len cs) (32 + len (enc_commands cs)) (as_u32 (len cs)) ++
                    enc_commands cs)) as Hok.
  { apply Forall_app_2; [apply stream_header_ok|by apply enc_commands_ok]. }
  split_and!; [|done|done|].
  - apply parse_owned_iff; [done|]. apply built_stream_of; auto using enc_commands_aligned.
  - rewrite len_app, stream_header_len. done.
Qed.

(** The state of the chunking loop after the commands [ds]. *)
Definition chunking (target : Z) (ds : list Owned.OwnedCommand)
    (st : list TileCommandWireChunk * list Owned.OwnedCommand * Z) : Prop :=
  let '(chunks, current, current_bytes) := st in
  exists groups, concat groups ++ current = ds /\ Forall2 (chunk_ok target) chunks groups /\
    Forall (fun g => g <> []) groups /\
    current_bytes = 32 + len (enc_commands current) /\
    (len current <= 1 \/ current_bytes <= target) /\ (current = [] -> ds = []).

Lemma fits_app_l cs ds : fits (cs ++ ds) -> fits cs.
Proof.
  intros (H1 & H2 & H3). rewrite enc_commands_app, len_app in H3.
  apply Forall_app in H1, H2. pose proof (len_nonneg (enc_commands ds)). unfold fits.
  split_and!; [tauto..|lia].
Qed.

Lemma fits_app_r cs ds : fits (cs ++ ds) -> fits ds.
Proof.
  intros (H1 & H2 & H3). rewrite enc_commands_app, len_app in H3.
  apply Forall_app in H1, H2. pose proof (len_nonneg (enc_commands cs)). unfold fits.
  split_and!; [tauto..|lia].
Qed.

Lemma enc_commands_one c : enc_commands [c] = enc_command c.
Proof. unfold enc_commands; cbn. apply app_nil_r. Qed.

Lemma wire_chunks_step_ok s target ds c st :
  fits (ds ++ [c]) -> chunking target ds st ->
  exists st', wire_chunks_step s target st c = Ok st' /\ chunking target (ds ++ [c]) st'.
Proof.
  destruct st as [[chunks current] cb]. intros Hfit (groups & Hds & Hg & Hgne & -> & Ht & Hne).
  unfold wire_chunks_step. subst ds. rewrite <- app_assoc in Hfit.
  pose proof (fits_app_r _ _ Hfit) as Hc. pose proof (encoded_len_pos c).
  assert (saturating_add usize_max (32 + len (enc_commands current)) (Owned.encoded_len c) =
          32 + len (enc_commands (current ++ [c]))) as Hsat.
  { destruct Hc as (_ & _ & Hc). rewrite enc_commands_app, len_app, enc_commands_one, enc_command_len in *.
    unfold saturating_add, usize_max, u64_max, u32_max in *. lia. }
  rewrite Hsat. destruct (negb _ && _) eqn:Hcond.
  - destruct (build_wire_chunk_ok (Stream.atlas_width s) (Stream.atlas_height s) target current)
      as (chunk & -> & Hok); [by eapply fits_app_l|done|].
    cbn [mbind res_bind app]. eexists; split; [done|]. exists (groups ++ [current]).
    split_and!.
    + rewrite concat_app; cbn. by rewrite app_nil_r.
    + by apply Forall2_app; [|constructor].
    + apply Forall_app_2; [done|]. apply Forall_cons_2; [|done]. intros ->. cbn in Hcond. discriminate.
    + rewrite enc_commands_one, enc_command_len. unfold TILE_COMMAND_STREAM_HEADER_BYTES, saturating_add.
      apply fits_app_r in Hc as (_ & _ & Hc). rewrite enc_commands_one, enc_command_len in Hc.
      unfold usize_max, u64_max, u32_max in *. lia.
    + left. done.
    + done.
  - cbn [mbind res_bind]. eexists; split; [done|]. exists groups. split_and!; [by rewrite app_assoc|done|done|done| |].
    + destruct current as [|c0 cur]; [by left|]. right. rewrite len_cons in Hcond. len_pos. lia.
    + by destruct current.
Qed.

Lemma wire_chunks_loop_ok s target cs ds st :
  fits (ds ++ cs) -> chunking target ds st ->
  exists st', foldM (wire_chunks_step s target) st cs = Ok st' /\ chunking target (ds ++ cs) st'.
Proof.
  revert ds st; induction cs as [|c cs IH]; intros ds st Hfit Hst; cbn [foldM].
  { rewrite app_nil_r. eauto. }
  destruct (wire_chunks_step_ok s target ds c st) as (st' & -> & Hst'); [|done|].
  { replace (ds ++ c :: cs) with ((ds ++ [c]) ++ cs) in Hfit by by rewrite <- app_assoc.
    by eapply fits_app_l. }
  cbn [mbind res_bind]. destruct (IH (ds ++ [c]) st') as (st'' & -> & H);
    [by rewrite <- app_assoc|done|]. rewrite <- app_assoc in H. eauto.
Qed.

Lemma stream_of_size bs cs : stream_of bs cs -> 32 + len (enc_commands cs) <= u32_max.
Proof.
  intros ([Hb _] & _ & Hs). apply slice_inv in Hs. unfold TILE_COMMAND_STREAM_HEADER_BYTES in *. lia.
Qed.

Lemma wire_chunks_ok s cs target :
  bytes_ok (Stream.bytes s) -> parse_owned_commands (Stream.bytes s) = Ok cs ->
  Forall aligned_command cs ->
  exists chunks groups, wire_chunks s target = Ok chunks /\ concat groups = cs /\
    Forall2 (chunk_ok (Z.max target 33)) chunks groups /\ (cs <> [] -> Forall (fun g => g <> []) groups).
Proof.
  intros Hbs Hp Hal. unfold wire_chunks. rewrite Hp. cbn [mbind res_bind].
  destruct cs as [|c cs].
  { eexists; exists [[]]. split; [done|]. split; [done|].
    split; [|done]. constructor; [|constructor]. split_and!; try done. by left. }
  rewrite len_cons. len_pos. replace (1 + len cs =? 0) with false by lia.
  apply parse_owned_iff in Hp; [|done]. pose proof (stream_of_size _ _ Hp).
  destruct Hp as (_ & Hwf & _).
  destruct (wire_chunks_loop_ok s (Z.max target 33) (c :: cs) [] ([], [], 32))
    as ([[chunks current] cb] & Hf & groups & Hds & Hg & Hgne & -> & Ht & Hne); [done| |].
  { exists []. split_and!; try done. by left. }
  unfold TILE_COMMAND_STREAM_HEADER_BYTES. cbn [app] in *. change (32 + 1) with 33. rewrite Hf.
  cbn [mbind res_bind]. destruct current as [|c' cur]; [by specialize (Hne eq_refl)|].
  rewrite len_cons. len_pos. replace (1 + len cur =? 0) with false by lia. cbn [negb].
  destruct (build_wire_chunk_ok (Stream.atlas_width s) (Stream.atlas_height s) (Z.max target 33)
              (c' :: cur)) as (chunk & -> & Hok); [|done|].
  { eapply fits_app_r. by rewrite Hds. }
  cbn [mbind res_bind]. eexists; exists (groups ++ [c' :: cur]). split; [done|]. split_and!.
  - rewrite concat_app; cbn. by rewrite app_nil_r.
  - by apply Forall2_app; [|constructor].
  - intros _. apply Forall_app_2; [done|]. by apply Forall_cons_2.
Qed.

(** ** Properties *)

(** Building a stream from commands and parsing it is the identity: for
    commands with word-aligned payloads that fit a 32-bit stream, the builder
    succeeds and [parse_owned_commands] of its bytes returns the commands. *)
Theorem tile_stream_roundtrip aw ah dc cs :
  Forall wf_command cs -> Forall aligned_command cs -> 32 + len (enc_commands cs) <= u32_max ->
  exists bs, build_command_stream_from_commands aw ah dc cs = Ok bs /\
    parse_owned_commands bs = Ok cs.
Proof.
  intros Hwf Hal Hl. rewrite build_stream_eq by done. eexists; split; [done|].
  apply parse_owned_iff.
  - apply Forall_app_2; [apply stream_header_ok|by apply enc_commands_ok].
  - apply built_stream_of; auto using enc_commands_aligned.
Qed.

Definition sample_command : Owned.OwnedCommand :=
  {| Owned.kind := TILE_COMMAND_SOLID_COLOR; Owned.atlas_xy := pack_xy 32 0;
     Owned.desktop_xy := pack_xy 64 96; Owned.wh := pack_xy 32 32; Owned.changed_count := 1024;
     Owned.payload := [1; 2; 3; 255] |}.

Lemma tile_stream_roundtrip_witness :
  exists bs, build_command_stream_from_commands 64 32 2 [sample_command; sample_command] = Ok bs /\
    parse_owned_commands bs = Ok [sample_command; sample_command].
Proof.
  apply tile_stream_roundtrip.
  - assert (wf_command sample_command) as H.
    { unfold wf_command. split_and!; try bytes_check; vm_compute; try split; discriminate. }
    by repeat constructor.
  - by repeat constructor.
  - vm_compute. discriminate.
Defined.

(** [wire_chunks] always succeeds on a well-formed stream with word-aligned
    payloads and splits it without loss: the chunks' commands, concatenated in
    order, are the commands of the stream, each chunk parses on its own and lists
    the rectangles of its commands, and no chunk with more than one command
    exceeds the target size. *)
Theorem wire_chunks_partition s cs target :
  bytes_ok (Stream.bytes s) -> parse_owned_commands (Stream.bytes s) = Ok cs ->
  Forall aligned_command cs ->
  exists chunks groups, wire_chunks s target = Ok chunks /\ concat groups = cs /\
    Forall2 (chunk_ok (Z.max target 33)) chunks groups.
Proof.
  intros Hbs Hp Hal. destruct (wire_chunks_ok s cs target Hbs Hp Hal) as (chunks & groups & ? & ? & ? & _).
  by exists chunks, groups.
Qed.

Definition sample_stream : Stream.TileCommandStream :=
  {| Stream.atlas_width := 64; Stream.atlas_height := 32; Stream.descriptor_count := 2;
     Stream.command_count := 2; Stream.byte_len := 88; Stream.raw_equivalent_bytes := 88;
     Stream.delta_bytes_saved_estimate := 0; Stream.copy_rects := [];
     Stream.bytes := stream_header 64 32 2 88 2 ++ enc_commands [sample_command; sample_command];
     Stream.command_counts := Counts.default |}.

Lemma wire_chunks_partition_witness :
  exists chunks groups, wire_chunks sample_stream 60 = Ok chunks /\
    concat groups = [sample_command; sample_command] /\
    Forall2 (chunk_ok (Z.max 60 33)) chunks groups.
Proof.
  apply wire_chunks_partition; [bytes_check|vm_compute; reflexivity|by repeat constructor].
Defined.

(** Parsing a stream never panics and always terminates, whatever the bytes:
    the loops of [parse_owned_commands] and [parse_command_refs] stop within one
    turn per byte, and their slices are in range. *)
Theorem tile_stream_parse_safe bs :
  bytes_ok bs -> safe (parse_owned_commands bs) /\ safe (parse_command_refs bs).
Proof. intros. split; [by apply parse_owned_safe|by apply parse_refs_safe]. Qed.

Lemma tile_stream_parse_safe_witness :
  safe (parse_owned_commands (Stream.bytes sample_stream ++ [9; 9; 9; 9])) /\
  safe (parse_command_refs (Stream.bytes sample_stream ++ [9; 9; 9; 9])).
Proof. apply tile_stream_parse_safe. bytes_check. Defined.
