(* ===== verification/TileDecode.v ===== *)
(** * Tile command decoding

    The pixels a tile command stream stands for: the reconstruction the helper keeps
    of its own stream, [reconstruct_atlas_from_stream] and the payload decoders of
    [apps/talos_worker_helper/src/tile_commands.rs].  An atlas is a BGRA buffer of
    [atlas_width * atlas_height * 4] bytes. *)

From S2P Require Import Prelude Bytes Pixels TileStream.

(** ** Pixels and colors *)

(** [(value + 3) & !3] on [usize]. *)
Definition align_usize_to_4 (value : Z) : Z := Z.land (wrap_usize (value + 3)) (usize_max - 3).

Definition clamp_u8 (value : Z) : Z := Z.max 0 (Z.min 255 value).

Definition sign_extend (value bits : Z) : Z :=
  let sign_bit := Z.shiftl 1 (bits - 1) in
  if Z.land value sign_bit =? 0 then value else value - Z.shiftl 1 bits.

Definition apply_masked_quant_delta (previous_pixel packed_delta quant_shift : Z) : Z :=
  let step := Z.shiftl 1 quant_shift in
  let previous_b := Z.land previous_pixel 0xff in
  let previous_g := Z.land (Z.shiftr previous_pixel 8) 0xff in
  let previous_r := Z.land (Z.shiftr previous_pixel 16) 0xff in
  let alpha := Z.land previous_pixel 0xff000000 in
  let delta_b := sign_extend (Z.land packed_delta 0x1f) 5 * step in
  let delta_g := sign_extend (Z.land (Z.shiftr packed_delta 5) 0x3f) 6 * step in
  let delta_r := sign_extend (Z.land (Z.shiftr packed_delta 11) 0x1f) 5 * step in
  let b := clamp_u8 (previous_b + delta_b) in
  let g := clamp_u8 (previous_g + delta_g) in
  let r := clamp_u8 (previous_r + delta_r) in
  Z.lor (Z.lor (Z.lor b (Z.shiftl g 8)) (Z.shiftl r 16)) alpha.

Definition rgb565_to_bgra (value : Z) : Z :=
  let b5 := Z.land value 0x1f in
  let g6 := Z.land (Z.shiftr value 5) 0x3f in
  let r5 := Z.land (Z.shiftr value 11) 0x1f in
  let b := Z.lor (Z.shiftl b5 3) (Z.shiftr b5 2) in
  let g := Z.lor (Z.shiftl g6 2) (Z.shiftr g6 4) in
  let r := Z.lor (Z.shiftl r5 3) (Z.shiftr r5 2) in
  Z.lor (Z.lor (Z.lor b (Z.shiftl g 8)) (Z.shiftl r 16)) 0xff000000.

Definition ycocg_to_bgra (y co cg : Z) : Z :=
  let tmp := y - Z.shiftr cg 1 in
  let g := cg + tmp in
  let b := tmp - Z.shiftr co 1 in
  let r := b + co in
  Z.lor (Z.lor (Z.lor (clamp_u8 b) (Z.shiftl (clamp_u8 g) 8)) (Z.shiftl (clamp_u8 r) 16)) 0xff000000.

Definition read_previous_pixel (previous : list Z) (desktop_width desktop_x desktop_y tile_width pixel : Z)
    : res anyhow Z :=
  if tile_width =? 0 then Panic else
  let row := pixel / tile_width in
  let col := pixel mod tile_width in
  offset ← ok_or (checked_mul usize_max ((desktop_y + row) * desktop_width + desktop_x + col) 4)
             "previous desktop pixel offset overflow"%string;
  read_u32 previous offset.

Definition fill_rect {E} (atlas : list Z) (atlas_stride atlas_x atlas_y width height : Z)
    (color : list Z) : res E (list Z) :=
  foldM (fun atlas row =>
    let dst := (atlas_y + row) * atlas_stride + atlas_x * 4 in
    foldM (fun atlas pixel =>
      let start := dst + pixel * 4 in
      or_panic (copy_at atlas start color)) atlas (seqZ 0 width)) atlas (seqZ 0 height).

Definition write_pixel {E} (atlas : list Z) (atlas_stride atlas_x atlas_y width pixel : Z)
    (color : list Z) : res E (list Z) :=
  if width =? 0 then Panic else
  let row := pixel / width in
  let col := pixel mod width in
  let dst := (atlas_y + row) * atlas_stride + (atlas_x + col) * 4 in
  or_panic (copy_at atlas dst color).

(** [o.is_some_and(|v| v <= limit)] *)
Definition is_some_and_le (o : option Z) (limit : Z) : bool :=
  match o with Some v => v <=? limit | None => false end.

Definition validate_rect (x y width height limit_width limit_height : Z) : res anyhow unit :=
  _ ← ensure ((0 <? width) && (0 <? height)) "tile command has empty rect"%string;
  ensure (is_some_and_le (checked_add u32_max x width) limit_width
          && is_some_and_le (checked_add u32_max y height) limit_height)
    "tile command rect exceeds bounds"%string.

(** ** Payloads *)

Definition decode_raw_payload (atlas : list Z) (atlas_stride atlas_x atlas_y width height : Z)
    (payload : list Z) : res anyhow (list Z) :=
  let row_bytes := width * 4 in
  let expected := row_bytes * height in
  _ ← ensure (len payload =? expected) "raw payload length mismatch"%string;
  foldM (fun atlas row =>
    let src := row * row_bytes in
    let dst := (atlas_y + row) * atlas_stride + atlas_x * 4 in
    s ← or_panic (slice payload src (src + row_bytes));
    or_panic (copy_at atlas dst s)) atlas (seqZ 0 height).

Definition decode_xor_raw_payload (atlas : list Z)
    (atlas_stride atlas_x atlas_y desktop_x desktop_y width height : Z) (payload : list Z)
    (previous_desktop : option (list Z)) (desktop_width desktop_height : Z) : res anyhow (list Z) :=
  previous ← ok_or previous_desktop "XOR raw command requires previous desktop"%string;
  _ ← validate_rect desktop_x desktop_y width height desktop_width desktop_height;
  let pixel_count := width * height in
  _ ← ensure (len payload =? pixel_count * 4) "XOR raw payload length mismatch"%string;
  foldM (fun atlas pixel =>
    previous_pixel ← read_previous_pixel previous desktop_width desktop_x desktop_y width pixel;
    xor_pixel ← read_u32 payload (pixel * 4);
    let color := le_bytes 4 (Z.lxor previous_pixel xor_pixel) in
    write_pixel atlas atlas_stride atlas_x atlas_y width pixel color) atlas (seqZ 0 pixel_count).

(** [(0..n).step_by(8)] *)
Definition step_by_8 (n : Z) : list Z := map (Z.mul 8) (seqZ 0 (div_ceil n 8)).

Definition decode_xor_sparse_payload (atlas : list Z)
    (atlas_stride atlas_x atlas_y desktop_x desktop_y width height : Z) (payload : list Z)
    (previous_desktop : option (list Z)) (desktop_width desktop_height : Z) : res anyhow (list Z) :=
  previous ← ok_or previous_desktop "XOR sparse command requires previous desktop"%string;
  _ ← validate_rect desktop_x desktop_y width height desktop_width desktop_height;
  _ ← ensure (len payload mod 8 =? 0) "XOR sparse payload length is not 8-byte aligned"%string;
  let pixel_count := width * height in
  atlas ← foldM (fun atlas pixel =>
    previous_pixel ← read_previous_pixel previous desktop_width desktop_x desktop_y width pixel;
    write_pixel atlas atlas_stride atlas_x atlas_y width pixel (le_bytes 4 previous_pixel))
    atlas (seqZ 0 pixel_count);
  foldM (fun atlas entry_offset =>
    pixel ← read_u32 payload entry_offset;
    _ ← ensure (pixel <? pixel_count) "XOR sparse pixel index exceeds tile"%string;
    previous_pixel ← read_previous_pixel previous desktop_width desktop_x desktop_y width pixel;
    xor_pixel ← read_u32 payload (entry_offset + 4);
    let color := le_bytes 4 (Z.lxor previous_pixel xor_pixel) in
    write_pixel atlas atlas_stride atlas_x atlas_y width pixel color)
    atlas (step_by_8 (len payload)).

Definition decode_masked_quant_delta_payload (atlas : list Z)
    (atlas_stride atlas_x atlas_y desktop_x desktop_y width height : Z) (payload : list Z)
    (changed_count : Z) (previous_desktop : option (list Z)) (desktop_width desktop_height : Z)
    : res anyhow (list Z) :=
  previous ← ok_or previous_desktop "masked quant delta command requires previous desktop"%string;
  _ ← validate_rect desktop_x desktop_y width height desktop_width desktop_height;
  let pixel_count := width * height in
  _ ← ensure (changed_count <=? pixel_count) "masked quant delta changed count exceeds tile"%string;
  let mask_words := div_ceil pixel_count 32 in
  mask_bytes ← ok_or (checked_mul usize_max mask_words 4)
                 "masked quant delta mask byte length overflow"%string;
  residual_bytes ← ok_or (checked_mul usize_max pixel_count 2)
                     "masked quant delta residual byte length overflow"%string;
  total ← ok_or (value ← checked_add usize_max 4 mask_bytes;
                 checked_add usize_max value residual_bytes)
            "masked quant delta payload length overflow"%string;
  let expected := align_usize_to_4 total in
  _ ← ensure (len payload =? expected) "masked quant delta payload length mismatch"%string;
  word ← read_u32 payload 0;
  let quant_shift := Z.land word 0xff in
  _ ← ensure (quant_shift <=? 4) "masked quant delta shift is invalid"%string;
  let mask_offset := 4 in
  let residual_offset := mask_offset + mask_bytes in
  '(atlas, seen_changed) ← foldM (fun '(atlas, seen_changed) pixel =>
    previous_pixel ← read_previous_pixel previous desktop_width desktop_x desktop_y width pixel;
    mask_word ← read_u32 payload (mask_offset + (pixel / 32) * 4);
    '(color, seen_changed) ←
      (if negb (Z.land mask_word (Z.shiftl 1 (Z.land pixel 31)) =? 0) then
         let seen_changed := saturating_add usize_max seen_changed 1 in
         residual_word ← read_u32 payload (residual_offset + (pixel / 2) * 4);
         let packed := if Z.land pixel 1 =? 0 then Z.land residual_word 0xffff
                       else Z.shiftr residual_word 16 in
         Ok (apply_masked_quant_delta previous_pixel packed quant_shift, seen_changed)
       else Ok (previous_pixel, seen_changed));
    atlas ← write_pixel atlas atlas_stride atlas_x atlas_y width pixel (le_bytes 4 color);
    Ok (atlas, seen_changed)) (atlas, 0) (seqZ 0 pixel_count);
  _ ← ensure (seen_changed =? changed_count) "masked quant delta changed mask count mismatch"%string;
  Ok atlas.

Definition decode_lossy_ui_block_payload (atlas : list Z)
    (atlas_stride atlas_x atlas_y width height : Z) (payload : list Z) : res anyhow (list Z) :=
  let pixel_count := width * height in
  let chroma_width := div_ceil width 4 in
  let chroma_height := div_ceil height 4 in
  chroma_count ← ok_or (checked_mul usize_max chroma_width chroma_height)
                   "lossy UI block chroma count overflow"%string;
  let y_bytes := align_usize_to_4 (div_ceil pixel_count 2) in
  let chroma_bytes := align_usize_to_4 chroma_count in
  expected ← ok_or (value ← checked_add usize_max 4 y_bytes;
                    checked_add usize_max value chroma_bytes)
               "lossy UI block payload length overflow"%string;
  _ ← ensure (len payload =? expected) "lossy UI block payload length mismatch"%string;
  header ← read_u32 payload 0;
  _ ← ensure ((Z.land header 0xffff =? chroma_width) && (Z.shiftr header 16 =? chroma_height))
        "lossy UI block chroma dimensions mismatch"%string;
  let y_offset := 4 in
  let chroma_offset := y_offset + y_bytes in
  foldM (fun atlas pixel =>
    y_word ← read_u32 payload (y_offset + (pixel / 8) * 4);
    let y4 := Z.land (Z.shiftr y_word (Z.land pixel 7 * 4)) 0x0f in
    let y := Z.lor (Z.shiftl y4 4) y4 in
    let px := pixel mod width in
    let py := pixel / width in
    let chroma_index := (py / 4) * chroma_width + px / 4 in
    chroma_word ← read_u32 payload (chroma_offset + (chroma_index / 4) * 4);
    let chroma_byte := Z.land (Z.shiftr chroma_word (Z.land chroma_index 3 * 8)) 0xff in
    let co := sign_extend (Z.land chroma_byte 0x0f) 4 * 32 in
    let cg := sign_extend (Z.land (Z.shiftr chroma_byte 4) 0x0f) 4 * 32 in
    let color := ycocg_to_bgra y co cg in
    write_pixel atlas atlas_stride atlas_x atlas_y width pixel (le_bytes 4 color))
    atlas (seqZ 0 pixel_count).

Definition decode_sharp_ui_block_payload (atlas : list Z)
    (atlas_stride atlas_x atlas_y width height : Z) (payload : list Z) : res anyhow (list Z) :=
  let pixel_count := width * height in
  total ← ok_or (checked_mul usize_max pixel_count 2)
            "sharp UI block payload length overflow"%string;
  let expected := align_usize_to_4 total in
  _ ← ensure (len payload =? expected) "sharp UI block payload length mismatch"%string;
  foldM (fun atlas pixel =>
    word ← read_u32 payload ((pixel / 2) * 4);
    let packed := if Z.land pixel 1 =? 0 then Z.land word 0xffff else Z.shiftr word 16 in
    let color := rgb565_to_bgra packed in
    write_pixel atlas atlas_stride atlas_x atlas_y width pixel (le_bytes 4 color))
    atlas (seqZ 0 pixel_count).

(** ** Streams *)

Definition validate_stream_header (stream : Stream.TileCommandStream) : res anyhow unit :=
  _ ← ensure (TILE_COMMAND_STREAM_HEADER_BYTES <=? len (Stream.bytes stream))
        "tile command stream is shorter than header"%string;
  magic ← read_u32 (Stream.bytes stream) 0;
  _ ← ensure (magic =? TILE_COMMAND_STREAM_MAGIC) "bad ATX2 tile command stream magic"%string;
  version ← read_u32 (Stream.bytes stream) 4;
  _ ← ensure (version =? TILE_COMMAND_STREAM_VERSION)
        "unsupported ATX2 tile command stream version"%string;
  byte_len ← read_u32 (Stream.bytes stream) 20;
  ensure (byte_len =? Stream.byte_len stream)
    "tile command stream byte length header mismatch"%string.

(** The body of the loop over the commands, after the header of [c] was read. *)
Definition decode_command (bytes : list Z) (atlas_width atlas_height : Z)
    (previous_desktop : option (list Z)) (desktop_width desktop_height : Z)
    (atlas : list Z) (c : Ref.CommandRef) : res anyhow (list Z) :=
  let atlas_stride := atlas_width * 4 in
  let ax := Ref.atlas_x c in let ay := Ref.atlas_y c in
  let dx := Ref.desktop_x c in let dy := Ref.desktop_y c in
  let w := Ref.width c in let h := Ref.height c in
  let kind := Ref.kind c in
  _ ← validate_rect ax ay w h atlas_width atlas_height;
  let payload := or_panic (slice bytes (Ref.payload_offset c) (Ref.payload_end c)) in
  if kind =? TILE_COMMAND_SOLID_COLOR then
    color ← read_u32 bytes (Ref.payload_offset c);
    fill_rect atlas atlas_stride ax ay w h (le_bytes 4 color)
  else if kind =? TILE_COMMAND_RAW_BGRA then
    payload ← payload;
    decode_raw_payload atlas atlas_stride ax ay w h payload
  else if kind =? TILE_COMMAND_XOR_RAW then
    payload ← payload;
    decode_xor_raw_payload atlas atlas_stride ax ay dx dy w h payload
      previous_desktop desktop_width desktop_height
  else if kind =? TILE_COMMAND_XOR_SPARSE then
    payload ← payload;
    decode_xor_sparse_payload atlas atlas_stride ax ay dx dy w h payload
      previous_desktop desktop_width desktop_height
  else if kind =? TILE_COMMAND_MASKED_QUANT_DELTA then
    payload ← payload;
    decode_masked_quant_delta_payload atlas atlas_stride ax ay dx dy w h payload
      (Ref.changed_count c) previous_desktop desktop_width desktop_height
  else if kind =? TILE_COMMAND_LOSSY_UI_BLOCK then
    payload ← payload;
    decode_lossy_ui_block_payload atlas atlas_stride ax ay w h payload
  else if kind =? TILE_COMMAND_SHARP_UI_BLOCK then
    payload ← payload;
    decode_sharp_ui_block_payload atlas atlas_stride ax ay w h payload
  else Err "unknown tile command kind"%string.

Fixpoint reconstruct_loop (fuel : nat) (bytes : list Z) (atlas_width atlas_height : Z)
    (previous_desktop : option (list Z)) (desktop_width desktop_height end_ : Z)
    (atlas : list Z) (offset : Z) : res anyhow (list Z) :=
  match fuel with
  | O => Fuel
  | S fuel =>
      if offset <? end_ then
        c ← parse_command_at bytes end_ offset;
        atlas ← decode_command bytes atlas_width atlas_height previous_desktop
                  desktop_width desktop_height atlas c;
        reconstruct_loop fuel bytes atlas_width atlas_height previous_desktop
          desktop_width desktop_height end_ atlas (Ref.payload_end c)
      else Ok atlas
  end.

Definition reconstruct_atlas_from_stream (stream : Stream.TileCommandStream)
    (previous_desktop : option (list Z)) (desktop_width desktop_height : Z) : res anyhow (list Z) :=
  _ ← validate_stream_header stream;
  let expected := wrap_usize (Stream.atlas_width stream * Stream.atlas_height stream * 4) in
  reconstructed ← vec_zeroed expected;
  reconstruct_loop (S (Z.to_nat (Stream.byte_len stream))) (Stream.bytes stream)
    (Stream.atlas_width stream) (Stream.atlas_height stream) previous_desktop
    desktop_width desktop_height (Stream.byte_len stream) reconstructed
    TILE_COMMAND_STREAM_HEADER_BYTES.

(** ** Every decoder paints its rectangle *)

Lemma validate_rect_safe x y w h lw lh : safe (validate_rect x y w h lw lh).
Proof. unfold validate_rect. repeat safe_step. Qed.

Lemma validate_rect_inv x y w h lw lh u :
  validate_rect x y w h lw lh = Ok u ->
  0 < w /\ 0 < h /\ x + w <= lw /\ y + h <= lh.
Proof.
  intros H. unfold validate_rect in H. run_inv. unfold is_some_and_le, checked_add in Hk.
  repeat match goal with H : context [if ?b then _ else _] |- _ => destruct b eqn:? end; lia.
Qed.

Lemma validate_rect_built x y w h lw lh :
  0 < w -> 0 < h -> x + w <= Z.min lw u32_max -> y + h <= Z.min lh u32_max ->
  validate_rect x y w h lw lh = Ok tt.
Proof.
  intros. unfold validate_rect, ensure. replace ((0 <? w) && (0 <? h)) with true by lia. cbn [mbind res_bind].
  rewrite !checked_add_some by lia. cbn [is_some_and_le]. by replace (_ && _) with true by lia.
Qed.

Lemma read_previous_pixel_safe p dw dx dy w px :
  w <> 0 -> safe (read_previous_pixel p dw dx dy w px).
Proof.
  intros Hw. unfold read_previous_pixel. replace (w =? 0) with false by lia.
  repeat safe_step. apply read_u32_safe.
Qed.

Section decoders.
Context (W H ax ay w h : Z).
Context (HW : 0 < W) (Hax : 0 <= ax) (HaxW : ax + w <= W) (Hay : 0 <= ay) (HayH : ay + h <= H).
Context (Hw : 0 < w) (Hh : 0 < h).

Abbreviation paints := (paint_action W H ax ay w h).

Lemma paints_write_pixel {E} p c :
  0 <= p < w * h -> len c = 4 ->
  paints (fun a => write_pixel (E:=E) a (W * 4) ax ay w p c).
Proof.
  intros Hp Hc. eapply paint_action_ext; [|by apply (paint_action_pixel W H HW ax ay w h p c)].
  intros a _. cbv beta. unfold write_pixel. replace (w =? 0) with false by lia.
  do 2 f_equal. lia.
Qed.

(** What the loops over the pixels of a tile leave, when every color is known. *)
Lemma write_pixels_painted {E} (f : Z -> list Z) a n :
  (forall i, 0 <= i < w * h -> len (f i) = 4) -> 0 <= n <= w * h -> frame W H a ->
  exists a', foldM (fun a px => write_pixel (E:=E) a (W * 4) ax ay w px (f px)) a (seqZ 0 n) = Ok a' /\
    painted W H ax ay w h (upto n f) a a'.
Proof.
  intros Hf Hn Ha.
  apply (foldM_seqZ (fun i b => painted W H ax ay w h (upto i f) a b)); [lia| |].
  - eapply painted_ext; [|by apply painted_none]. intros i Hi. unfold upto.
    by replace (_ && _) with false by lia.
  - intros i b Hi Hb. destruct (painted_snoc W H HW ax ay w h f i a b) as (b' & Hb' & Hp);
      [first [done | lia | apply Hf; lia]..|].
    exists b'. split; [|done]. unfold write_pixel. replace (w =? 0) with false by lia.
    replace ((ay + i / w) * (W * 4) + (ax + i mod w) * 4)
      with (((ay + i / w) * W + (ax + i mod w)) * 4) by lia. by rewrite Hb'.
Qed.

Lemma fill_rows_painted {E} c a :
  len c = 4 -> frame W H a ->
  exists a', fill_rect (E:=E) a (W * 4) ax ay w h c = Ok a' /\
    painted W H ax ay w h (upto (h * w) (fun _ => c)) a a'.
Proof.
  intros Hc Ha. unfold fill_rect.
  apply (foldM_seqZ (fun r b => painted W H ax ay w h (upto (r * w) (fun _ => c)) a b)); [lia| |].
  { eapply painted_ext; [|by apply painted_none]. intros i Hi. unfold upto.
    by replace (_ && _) with false by lia. }
  intros r b Hr Hb. cbv beta zeta. replace ((r + 1) * w) with (r * w + w) by lia.
  apply (foldM_seqZ (fun k b' => painted W H ax ay w h (upto (r * w + k) (fun _ => c)) a b'));
    [lia|by rewrite Z.add_0_r|].
  intros k b1 Hk Hb1.
  destruct (painted_snoc W H HW ax ay w h (fun _ => c) (r * w + k) a b1) as (b2 & Hb2 & Hp2);
    [first [done | lia | nia]..|]. exists b2. rewrite Z.add_assoc. split; [|done]. cbv beta.
  rewrite (Z.add_comm (r * w) k), Z.div_add, Z.mod_add, Z.div_small, Z.mod_small in Hb2 by lia.
  replace ((ay + r) * (W * 4) + ax * 4 + k * 4) with (((ay + (0 + r)) * W + (ax + k)) * 4) by lia.
  by rewrite Hb2.
Qed.

Lemma fill_rect_painted {E} c a :
  len c = 4 -> frame W H a ->
  exists a', fill_rect (E:=E) a (W * 4) ax ay w h c = Ok a' /\
    painted W H ax ay w h (fun _ => Some c) a a'.
Proof.
  intros Hc Ha. destruct (fill_rows_painted (E:=E) c a Hc Ha) as (a' & Ha' & Hp).
  exists a'. split; [done|]. eapply painted_ext; [|exact Hp]. intros i Hi. unfold upto.
  by replace (_ && _) with true by lia.
Qed.

Lemma paints_fill_rect {E} c :
  len c = 4 -> paints (fun a => fill_rect (E:=E) a (W * 4) ax ay w h c).
Proof. intros Hc. left. exists (fun _ => Some c). intros a Ha. by apply fill_rect_painted. Qed.

Lemma paints_raw payload :
  paints (fun a => decode_raw_payload a (W * 4) ax ay w h payload).
Proof.
  unfold decode_raw_payload. apply paint_action_bind; [apply ensure_safe|]. intros [] Hl.
  apply ensure_ok_inv in Hl. apply paint_action_foldM. intros row Hrow. apply elem_of_seqZ in Hrow.
  apply paint_action_bind.
  - apply or_panic_safe, slice_is_Some. nia.
  - intros s Hs. apply or_panic_ok_inv, slice_inv in Hs as (_ & _ & Hs).
    eapply paint_action_ext; [|apply (paint_action_row W H HW ax ay w h row s); lia].
    intros a _. cbv beta. do 2 f_equal. lia.
Qed.

(** The reads of a loop body, then its write. *)
Ltac paint_reads :=
  repeat (apply paint_action_bind;
    [first [apply read_u32_safe | apply read_previous_pixel_safe; lia | apply ensure_safe
           | apply ok_or_safe | apply validate_rect_safe]|intros ? ?]).

Lemma paints_xor_raw dx dy payload prev dw dh :
  paints (fun a => decode_xor_raw_payload a (W * 4) ax ay dx dy w h payload prev dw dh).
Proof.
  unfold decode_xor_raw_payload. paint_reads. apply paint_action_foldM. intros px Hpx.
  apply elem_of_seqZ in Hpx. paint_reads. apply paints_write_pixel; [lia|by rewrite le_bytes_len].
Qed.

Lemma paints_xor_sparse dx dy payload prev dw dh :
  bytes_ok payload ->
  paints (fun a => decode_xor_sparse_payload a (W * 4) ax ay dx dy w h payload prev dw dh).
Proof.
  intros Hp. unfold decode_xor_sparse_payload. paint_reads.
  apply (paint_action_seq W H ax ay w h (fun a => foldM _ a _)).
  - apply paint_action_foldM. intros px Hpx. apply elem_of_seqZ in Hpx. paint_reads.
    apply paints_write_pixel; [lia|by rewrite le_bytes_len].
  - apply paint_action_foldM. intros e _. paint_reads.
    match goal with H : read_u32 _ e = Ok _ |- _ => apply read_u32_inv in H as [_ Hu]; [|done] end.
    match goal with H : ensure (_ <? w * h) _ = Ok _ |- _ => apply ensure_ok_inv in H end.
    apply paints_write_pixel; [unfold is_u32 in *; lia|by rewrite le_bytes_len].
Qed.

Lemma paints_masked_quant_delta dx dy payload cc prev dw dh :
  paints (fun a => decode_masked_quant_delta_payload a (W * 4) ax ay dx dy w h payload cc prev dw dh).
Proof.
  unfold decode_masked_quant_delta_payload. paint_reads.
  apply (paint_action_st_end W H ax ay w h (fun a => foldM _ (a, 0) _)
           (fun s => ensure (s =? cc) _)); [|intros; apply ensure_safe].
  apply paint_action_st_foldM. intros px seen Hpx. apply elem_of_seqZ in Hpx.
  repeat (apply paint_action_st_bind;
    [first [apply read_u32_safe | apply read_previous_pixel_safe; lia
           | repeat safe_step; apply read_u32_safe]|intros ? ?]).
  match goal with p : (Z * Z)%type |- _ => destruct p end.
  apply paint_action_st_ret, paints_write_pixel; [lia|by rewrite le_bytes_len].
Qed.

Lemma paints_lossy payload :
  paints (fun a => decode_lossy_ui_block_payload a (W * 4) ax ay w h payload).
Proof.
  unfold decode_lossy_ui_block_payload. paint_reads. apply paint_action_foldM. intros px Hpx.
  apply elem_of_seqZ in Hpx. paint_reads. apply paints_write_pixel; [lia|by rewrite le_bytes_len].
Qed.

Lemma paints_sharp payload :
  paints (fun a => decode_sharp_ui_block_payload a (W * 4) ax ay w h payload).
Proof.
  unfold decode_sharp_ui_block_payload. paint_reads. apply paint_action_foldM. intros px Hpx.
  apply elem_of_seqZ in Hpx. paint_reads. apply paints_write_pixel; [lia|by rewrite le_bytes_len].
Qed.
End decoders.

(** ** Commands and streams *)

Section streams.
Context (W H : Z) (prev : option (list Z)) (dw dh : Z).

Abbreviation decode := (fun bs => decode_command bs W H prev dw dh).

Lemma decode_command_paints bs off c :
  bytes_ok bs -> wf_command c -> 0 <= off -> off + Owned.encoded_len c <= len bs ->
  paint_action W H (Owned.atlas_x c) (Owned.atlas_y c) (Owned.width c) (Owned.height c)
    (fun a => decode bs a (ref_of off c)).
Proof.
  intros Hbs Hwf Hoff Hend. unfold Owned.encoded_len, TILE_COMMAND_HEADER_BYTES in Hend.
  pose proof (len_nonneg (Owned.payload c)).
  unfold decode_command. apply paint_action_bind; [apply validate_rect_safe|]. intros u Hv.
  apply validate_rect_inv in Hv as (Hw & Hh & HxW & HyH).
  change (Ref.atlas_x (ref_of off c)) with (Owned.atlas_x c) in *.
  change (Ref.atlas_y (ref_of off c)) with (Owned.atlas_y c) in *.
  change (Ref.width (ref_of off c)) with (Owned.width c) in *.
  change (Ref.height (ref_of off c)) with (Owned.height c) in *.
  assert (0 <= Owned.atlas_x c) by apply lo16_bound.
  assert (0 <= Owned.atlas_y c) by (apply hi16_bound, Hwf).
  assert (safe (or_panic (E:=anyhow)
            (slice bs (Ref.payload_offset (ref_of off c)) (Ref.payload_end (ref_of off c))))) as Hp.
  { apply or_panic_safe, slice_is_Some. unfold Ref.payload_end, ref_of, TILE_COMMAND_HEADER_BYTES; cbn. lia. }
  repeat match goal with |- paint_action _ _ _ _ _ _ (fun a => if ?b then _ else _) => destruct b end;
    try (apply paint_action_bind; [first [exact Hp | apply read_u32_safe]|intros p Hpl]).
  - apply paints_fill_rect; [lia..|by rewrite le_bytes_len].
  - apply paints_raw; lia.
  - apply paints_xor_raw; lia.
  - apply paints_xor_sparse; [lia..|]. apply or_panic_ok_inv in Hpl. by eapply slice_ok.
  - apply paints_masked_quant_delta; lia.
  - apply paints_lossy; lia.
  - apply paints_sharp; lia.
  - apply paint_action_err.
Qed.

(** A solid command carries its color; every other kind may have any payload. *)
Definition solid_ok (c : Owned.OwnedCommand) : Prop :=
  Owned.kind c = TILE_COMMAND_SOLID_COLOR -> 4 <= len (Owned.payload c).

(** The decoder sees a command only through its fields and payload. *)
Lemma decode_command_shift bs off c a :
  slice bs off (off + Owned.encoded_len c) = Some (enc_command c) -> solid_ok c ->
  len bs <= usize_max ->
  decode bs a (ref_of off c) = decode (enc_command c) a (ref_of 0 c).
Proof.
  intros Hs Hsolid Hl.
  assert (slice (enc_command c) 0 (0 + Owned.encoded_len c) = Some (enc_command c)) as Hs0.
  { apply slice_all. by rewrite enc_command_len. }
  pose proof (slice_inv _ _ _ _ Hs) as (? & ? & ?).
  unfold decode_command. rewrite (ref_payload _ _ _ Hs), (ref_payload _ _ _ Hs0).
  change (Ref.kind (ref_of off c)) with (Owned.kind c).
  change (Ref.kind (ref_of 0 c)) with (Owned.kind c).
  destruct (validate_rect _ _ _ _ _ _); cbn [mbind res_bind]; try reflexivity.
  destruct (Z.eqb_spec (Owned.kind c) TILE_COMMAND_SOLID_COLOR) as [Hk|Hk]; [|reflexivity].
  specialize (Hsolid Hk). f_equal. cbn [ref_of Ref.payload_offset].
  unfold Owned.encoded_len, TILE_COMMAND_HEADER_BYTES in *.
  unfold read_u32. rewrite !checked_add_some by (unfold usize_max, u64_max in *; lia).
  cbn [ok_or mbind res_bind]. rewrite (slice_slice _ _ _ _ (0 + 24) (0 + 24 + 4) Hs) by lia.
  replace (off + (0 + 24)) with (off + 24) by lia.
  by replace (off + (0 + 24 + 4)) with (off + 24 + 4) by lia.
Qed.

(** The loop runs the decoder over the references of the stream. *)
Lemma reconstruct_loop_eq fuel bs a off cs :
  Forall wf_command cs -> slice bs off (len bs) = Some (enc_commands cs) ->
  len bs <= usize_max -> (length cs < fuel)%nat ->
  reconstruct_loop fuel bs W H prev dw dh (len bs) a off =
  foldM (decode bs) a (refs_of off cs).
Proof.
  intros Hcs. revert a off fuel; induction Hcs as [|c cs Hc Hcs IH]; intros a off fuel Hs Hl Hf.
  - destruct fuel; [lia|]. cbn [reconstruct_loop]. apply slice_inv in Hs as (? & ? & Hs).
    change (len (enc_commands [])) with 0 in Hs. by replace (off <? len bs) with false by lia.
  - destruct fuel; [cbn in Hf; lia|]. cbn [reconstruct_loop length refs_of foldM] in *.
    rewrite enc_commands_cons in Hs. apply slice_split in Hs as [Hs1 Hs2].
    rewrite enc_command_len in *. pose proof (encoded_len_pos c).
    pose proof (slice_inv _ _ _ _ Hs1). pose proof (slice_inv _ _ _ _ Hs2).
    replace (off <? len bs) with true by lia.
    rewrite (parse_command_at_built _ _ _ c) by (done || lia). cbn [mbind res_bind].
    destruct (decode bs a (ref_of off c)); cbn [mbind res_bind]; try reflexivity.
    unfold Ref.payload_end; cbn [ref_of Ref.payload_offset Ref.payload_len].
    rewrite <- Z.add_assoc. apply IH; [done|done|lia].
Qed.

(** The command as such, apart from the stream it is in. *)
Definition decode_owned (a : list Z) (c : Owned.OwnedCommand) : res anyhow (list Z) :=
  decode (enc_command c) a (ref_of 0 c).

Lemma decode_refs_owned bs a off cs :
  Forall solid_ok cs -> slice bs off (len bs) = Some (enc_commands cs) -> len bs <= usize_max ->
  foldM (decode bs) a (refs_of off cs) = foldM decode_owned a cs.
Proof.
  intros Hcs. revert a off; induction Hcs as [|c cs Hc Hcs IH]; intros a off Hs Hl; [done|].
  cbn [refs_of foldM]. rewrite enc_commands_cons in Hs. apply slice_split in Hs as [Hs1 Hs2].
  rewrite enc_command_len in *. rewrite (decode_command_shift _ _ _ _ Hs1) by done.
  fold (decode_owned a c). destruct (decode_owned a c); cbn [mbind res_bind]; try done. by apply IH.
Qed.

Lemma decode_owned_paints c :
  wf_command c ->
  paint_action W H (Owned.atlas_x c) (Owned.atlas_y c) (Owned.width c) (Owned.height c)
    (fun a => decode_owned a c).
Proof.
  intros Hc. apply decode_command_paints; [|done|lia|by rewrite enc_command_len].
  apply Forall_app_2; [apply bytes_ok_cmd_header|apply Hc].
Qed.
End streams.

(** ** Exclusive-or tiles are lossless *)

(** The word at a pixel of a frame. *)
Definition pixel_value (dw : Z) (f : list Z) (x y : Z) : Z :=
  match pix dw f x y with Some s => le_val s | None => 0 end.

(** The payload that takes [prev] to [cur] on a tile: one word per pixel. *)
Definition xor_payload (dw : Z) (prev cur : list Z) (dx dy w h : Z) : list Z :=
  concat (map (fun px => le_bytes 4 (Z.lxor (pixel_value dw prev (dx + px mod w) (dy + px / w))
                                            (pixel_value dw cur (dx + px mod w) (dy + px / w))))
            (seqZ 0 (w * h))).

Lemma concat_words_len {A} (g : A -> Z) l : len (concat (map (fun x => le_bytes 4 (g x)) l)) = len l * 4.
Proof. induction l; [done|]. cbn [map concat]. rewrite len_app, len_cons, le_bytes_len by done. lia. Qed.

Lemma concat_words_slice (g : Z -> Z) m n i :
  0 <= i < n ->
  slice (concat (map (fun x => le_bytes 4 (g x)) (seqZ m n))) (i * 4) (i * 4 + 4) =
  Some (le_bytes 4 (g (m + i))).
Proof.
  intros Hi. replace n with (i + (1 + (n - i - 1))) by lia. rewrite !seqZ_app by lia.
  rewrite (seqZ_cons (m + i) 1), (seqZ_nil (Z.succ (m + i)) (Z.pred 1)) by lia.
  rewrite !map_app, !concat_app. cbn [map concat]. rewrite app_nil_r.
  assert (len (seqZ m i) = i) as Hlen by (unfold len; rewrite length_seqZ; lia).
  apply slice_mid; rewrite concat_words_len, Hlen; [lia|rewrite le_bytes_len; lia].
Qed.

Lemma lxor_u32 a b : is_u32 a -> is_u32 b -> is_u32 (Z.lxor a b).
Proof.
  unfold is_u32, u32_max. intros Ha Hb.
  assert (0 <= Z.lxor a b) by (apply Z.lxor_nonneg; lia).
  assert (forall v, 0 <= v < 2 ^ 32 <-> 0 <= v /\ Z.land v (Z.ones 32) = v) as Hmask.
  { intros v. rewrite Z.land_ones by lia. split; intros [? ?]; (split; [lia|]).
    - by apply Z.mod_small. - pose proof (Z.mod_pos_bound v (2 ^ 32)). lia. }
  assert (0 <= Z.lxor a b < 2 ^ 32); [|change (2 ^ 32) with 4294967296 in *; lia].
  apply Hmask. split; [done|]. change 4294967295 with (2 ^ 32 - 1) in *.
  apply Z.bits_inj'. intros n Hn. rewrite Z.land_spec, Z.lxor_spec.
  destruct (decide (n < 32)); [rewrite Z.ones_spec_low by lia; by rewrite andb_true_r|].
  rewrite Z.ones_spec_high by lia. rewrite andb_false_r.
  rewrite <- (Z.mod_small a (2 ^ 32)), <- (Z.mod_small b (2 ^ 32)) by lia.
  by rewrite !Z.mod_pow2_bits_high by lia.
Qed.

Section xor.
Context (dw dh dx dy w h : Z).
Context (Hdx : 0 <= dx) (Hdy : 0 <= dy) (Hw : 0 < w) (Hh : 0 < h).
Context (HdW : dx + w <= dw <= u32_max) (HdH : dy + h <= dh <= u32_max).
Context (Hsize : dw * dh * 4 <= isize_max).

Lemma tile_pixel f px :
  frame dw dh f -> bytes_ok f -> 0 <= px < w * h ->
  exists s, pix dw f (dx + px mod w) (dy + px / w) = Some s /\ len s = 4 /\ bytes_ok s /\
    ((dy + px / w) * dw + dx + px mod w) * 4 + 4 <= len f.
Proof.
  unfold frame. intros Hf Hok Hpx. pose proof (Z.mod_pos_bound px w Hw).
  assert (0 <= px / w < h) by (split; [apply Z.div_pos; lia|apply Z.div_lt_upper_bound; lia]).
  assert ((dy + px / w + 1) * dw <= dh * dw) by nia.
  destruct (proj2 (slice_is_Some f (((dy + px / w) * dw + (dx + px mod w)) * 4)
                     (((dy + px / w) * dw + (dx + px mod w)) * 4 + 4))) as [s Hs]; [nia|].
  exists s. unfold pix. pose proof (slice_inv _ _ _ _ Hs) as (? & ? & ?).
  split_and!; [done|lia|by eapply slice_ok|lia].
Qed.

Lemma read_previous_pixel_value f px :
  frame dw dh f -> bytes_ok f -> 0 <= px < w * h ->
  read_previous_pixel f dw dx dy w px = Ok (pixel_value dw f (dx + px mod w) (dy + px / w)) /\
  is_u32 (pixel_value dw f (dx + px mod w) (dy + px / w)).
Proof.
  intros Hf Hok Hpx. destruct (tile_pixel f px Hf Hok Hpx) as (s & Hs & Hl & Hsok & Hend).
  unfold pixel_value. rewrite Hs. assert (is_u32 (le_val s)) by by apply le_val_u32.
  split; [|done]. unfold read_previous_pixel. replace (w =? 0) with false by lia.
  unfold frame in Hf. rewrite checked_mul_some by (unfold usize_max, u64_max, isize_max in *; lia).
  cbn [ok_or mbind res_bind]. apply read_u32_slice; [|done|unfold usize_max, u64_max, isize_max in *; lia].
  rewrite le_bytes_le_val by done. rewrite <- Hs. unfold pix. by rewrite Z.add_assoc.
Qed.
End xor.

Lemma xor_payload_word dw prev cur dx dy w h i :
  0 <= i < w * h ->
  slice (xor_payload dw prev cur dx dy w h) (i * 4) (i * 4 + 4) =
  Some (le_bytes 4 (Z.lxor (pixel_value dw prev (dx + i mod w) (dy + i / w))
                           (pixel_value dw cur (dx + i mod w) (dy + i / w)))).
Proof. intros Hi. unfold xor_payload. by rewrite concat_words_slice. Qed.

Lemma xor_payload_len dw prev cur dx dy w h :
  0 <= w * h -> len (xor_payload dw prev cur dx dy w h) = w * h * 4.
Proof.
  intros. unfold xor_payload. rewrite concat_words_len. unfold len. rewrite length_seqZ. lia.
Qed.

(** The color a turn of the loop writes is the pixel of the current frame. *)
Lemma xor_color dw dh prev cur dx dy w h i :
  0 <= dx -> 0 <= dy -> 0 < w -> 0 < h -> dx + w <= dw <= u32_max -> dy + h <= dh <= u32_max ->
  dw * dh * 4 <= isize_max -> frame dw dh prev -> bytes_ok prev -> frame dw dh cur -> bytes_ok cur ->
  0 <= i < w * h ->
  exists p x, read_previous_pixel prev dw dx dy w i = Ok p /\
    read_u32 (xor_payload dw prev cur dx dy w h) (i * 4) = Ok x /\
    Some (le_bytes 4 (Z.lxor p x)) = pix dw cur (dx + i mod w) (dy + i / w).
Proof.
  intros Hdx Hdy Hw Hh HdW HdH Hsz Hp Hpok Hc Hcok Hi.
  destruct (read_previous_pixel_value dw dh dx dy w h Hdx Hdy Hw HdW HdH Hsz prev i Hp Hpok Hi)
    as [Hrp Hpu].
  destruct (read_previous_pixel_value dw dh dx dy w h Hdx Hdy Hw HdW HdH Hsz cur i Hc Hcok Hi)
    as [_ Hcu].
  eexists _, _. split; [exact Hrp|]. split.
  - apply read_u32_slice; [by apply xor_payload_word|by apply lxor_u32|].
    rewrite xor_payload_len by lia.
    assert (w * h <= dw * dh) by nia. unfold usize_max, u64_max, isize_max in *. lia.
  - rewrite <- Z.lxor_assoc, Z.lxor_nilpotent, Z.lxor_0_l.
    destruct (tile_pixel dw dh dx dy w h Hdx Hdy Hw HdW HdH cur i Hc Hcok Hi)
      as (s & Hs & Hl & Hsok & _).
    unfold pixel_value. rewrite Hs. by rewrite le_bytes_le_val.
Qed.

(** ** Reconstruction never panics *)

Lemma validate_stream_header_safe s : safe (validate_stream_header s).
Proof. unfold validate_stream_header. repeat safe_step; apply read_u32_safe. Qed.

Lemma reconstruct_loop_safe fuel bs W H prev dw dh a off :
  bytes_ok bs -> 0 <= off <= len bs -> (length bs < fuel + Z.to_nat off)%nat -> frame W H a ->
  safe (reconstruct_loop fuel bs W H prev dw dh (len bs) a off).
Proof.
  intros Hbs. revert a off; induction fuel as [|fuel IH]; intros a off Hoff Hf Ha.
  { exfalso. unfold len in *. lia. }
  cbn [reconstruct_loop]. destruct (Z.ltb_spec off (len bs)); [|done].
  apply bind_safe; [apply parse_command_at_safe|]. intros r Hr.
  apply parse_command_at_ok in Hr as (c & Hc & -> & Hle & Hs); [|done|lia..].
  pose proof (encoded_len_pos c).
  pose proof (decode_command_paints W H prev dw dh bs off c Hbs Hc ltac:(lia) Hle) as Hpaint.
  apply bind_safe; [by eapply (paint_action_safe W H _ _ _ _ (fun a => _ a _))|]. intros a' Ha'.
  unfold Owned.encoded_len in *. apply IH; unfold Ref.payload_end; cbn; [lia|lia|].
  by eapply (paint_action_frame W H _ _ _ _ (fun a => _ a _)).
Qed.

(** A stream with a well-formed header is decoded over a zeroed atlas. *)
Lemma reconstruct_header s prev dw dh :
  basic_header (Stream.bytes s) -> Stream.byte_len s = len (Stream.bytes s) ->
  0 <= Stream.atlas_width s -> 0 <= Stream.atlas_height s ->
  Stream.atlas_width s * Stream.atlas_height s * 4 <= isize_max ->
  reconstruct_atlas_from_stream s prev dw dh =
  reconstruct_loop (S (length (Stream.bytes s))) (Stream.bytes s) (Stream.atlas_width s)
    (Stream.atlas_height s) prev dw dh (len (Stream.bytes s))
    (zeros (Stream.atlas_width s * Stream.atlas_height s * 4)) 32.
Proof.
  intros Hb Hbl HW HH Hsz. pose proof (basic_header_bounds _ Hb). destruct Hb as (Hl & Hm & Hs0 & Hs4 & Hs20).
  unfold reconstruct_atlas_from_stream, validate_stream_header. rewrite Hbl.
  rewrite (read_u32_slice _ 0 _ Hs0), (read_u32_slice _ 4 _ Hs4), (read_u32_slice _ 20 _ Hs20)
    by (first [done | lia | unfold is_u32, u32_max in *; lia]).
  unfold ensure. replace (_ <=? len _) with true by lia.
  assert (0 <= Stream.atlas_width s * Stream.atlas_height s) by nia.
  rewrite !bind_Ok, !Z.eqb_refl, !bind_Ok. unfold wrap_usize, vec_zeroed.
  rewrite Z.mod_small by (unfold isize_max in *; lia).
  replace (_ * _ * 4 <=? isize_max) with true by lia. rewrite bind_Ok. unfold len. by rewrite Nat2Z.id.
Qed.

(** ** Properties *)

(** Reconstructing an atlas from a tile command stream never panics and always
    terminates: whatever commands, rectangles, payload lengths and pixel indices
    the bytes claim, every buffer access is in range or the stream is refused,
    provided the stream knows its own length and the atlas fits in memory. *)
Theorem reconstruct_safe s prev dw dh :
  bytes_ok (Stream.bytes s) -> Stream.byte_len s = len (Stream.bytes s) ->
  0 <= Stream.atlas_width s -> 0 <= Stream.atlas_height s ->
  Stream.atlas_width s * Stream.atlas_height s * 4 <= isize_max ->
  safe (reconstruct_atlas_from_stream s prev dw dh).
Proof.
  intros Hbs Hbl HW HH Hsz. unfold reconstruct_atlas_from_stream.
  set (W := Stream.atlas_width s) in *. set (H := Stream.atlas_height s) in *.
  assert (0 <= W * H) by nia.
  apply bind_safe; [apply validate_stream_header_safe|]. intros [] Hv.
  assert (32 <= len (Stream.bytes s)).
  { unfold validate_stream_header, TILE_COMMAND_STREAM_HEADER_BYTES in Hv. run_inv. lia. }
  unfold wrap_usize, vec_zeroed. rewrite Z.mod_small by (unfold isize_max in *; lia).
  replace (_ <=? isize_max) with true by lia. cbn [mbind res_bind]. rewrite Hbl.
  apply reconstruct_loop_safe; [done|unfold TILE_COMMAND_STREAM_HEADER_BYTES; lia| |].
  - unfold len, TILE_COMMAND_STREAM_HEADER_BYTES. lia.
  - unfold frame. by rewrite zeros_len by lia.
Qed.

Lemma reconstruct_safe_witness :
  safe (reconstruct_atlas_from_stream sample_stream None 1920 1080).
Proof.
  apply reconstruct_safe; [bytes_check|reflexivity|vm_compute; discriminate..].
Defined.

(** Exclusive-or tiles lose nothing: for a rectangle inside the desktop, the
    payload made of the exclusive-or of the previous and the current frame decodes,
    against the previous frame, to exactly the current frame's pixels, and leaves
    the rest of the atlas alone. *)
Theorem xor_raw_lossless W H ax ay dw dh dx dy w h prev cur a :
  0 <= ax -> ax + w <= W -> 0 <= ay -> ay + h <= H ->
  0 <= dx -> 0 <= dy -> 0 < w -> 0 < h -> dx + w <= dw <= u32_max -> dy + h <= dh <= u32_max ->
  dw * dh * 4 <= isize_max -> frame dw dh prev -> bytes_ok prev -> frame dw dh cur -> bytes_ok cur ->
  frame W H a ->
  exists a', decode_xor_raw_payload a (W * 4) ax ay dx dy w h
               (xor_payload dw prev cur dx dy w h) (Some prev) dw dh = Ok a' /\
    frame W H a' /\
    forall x y, 0 <= x < W -> 0 <= y < H ->
      pix W a' x y = if in_rect ax ay w h x y then pix dw cur (dx + (x - ax)) (dy + (y - ay))
                     else pix W a x y.
Proof.
  intros Hax HaxW Hay HayH Hdx Hdy Hw Hh HdW HdH Hsz Hp Hpok Hc Hcok Ha.
  assert (0 < w * h) by nia. assert (HW : 0 < W) by lia.
  set (f i := match pix dw cur (dx + i mod w) (dy + i / w) with Some s => s | None => [] end).
  assert (forall i, 0 <= i < w * h -> pix dw cur (dx + i mod w) (dy + i / w) = Some (f i) /\ len (f i) = 4)
    as Hf.
  { intros i Hi. destruct (tile_pixel dw dh dx dy w h Hdx Hdy Hw HdW HdH cur i Hc Hcok Hi)
      as (s & Hs & Hl & _). unfold f. by rewrite Hs. }
  destruct (write_pixels_painted (E:=anyhow) W H ax ay w h HW Hax HaxW Hay HayH Hw f a (w * h))
    as (a' & Ha' & [Hfr Hpix]); [intros; by apply Hf|lia|done|].
  exists a'. split.
  - unfold decode_xor_raw_payload. cbn [ok_or mbind res_bind].
    rewrite validate_rect_built by lia. cbn [mbind res_bind]. unfold ensure.
    rewrite xor_payload_len, Z.eqb_refl by lia. cbn [mbind res_bind]. rewrite <- Ha'.
    apply foldM_ext. intros b i Hi. apply elem_of_seqZ in Hi.
    destruct (xor_color dw dh prev cur dx dy w h i) as (p & v & -> & Hv & Hcol); [done..|lia|].
    cbn [mbind res_bind]. rewrite Hv. cbn [mbind res_bind].
    destruct (Hf i) as [Hfi _]; [lia|]. rewrite Hfi in Hcol. congruence.
  - split; [done|]. intros x y Hx Hy. rewrite Hpix by done.
    destruct (in_rect ax ay w h x y) eqn:Hin; [|done].
    pose proof (rect_index_bound ax ay w h x y Hin) as Hi. unfold upto.
    replace (_ && _) with true by lia. rewrite <- (proj1 (Hf _ Hi)).
    unfold rect_index, in_rect in *. rewrite (Z.add_comm _ (x - ax)), Z.div_add, Z.mod_add by lia.
    rewrite Z.div_small, Z.mod_small by lia. f_equal; lia.
Qed.

Lemma xor_raw_lossless_witness :
  exists a', decode_xor_raw_payload (zeros 16) (2 * 4) 0 0 1 0 1 2
               (xor_payload 2 (zeros 16) (replicate 16 7) 1 0 1 2) (Some (zeros 16)) 2 2 = Ok a' /\
    frame 2 2 a' /\
    forall x y, 0 <= x < 2 -> 0 <= y < 2 ->
      pix 2 a' x y = if in_rect 0 0 1 2 x y then pix 2 (replicate 16 7) (1 + (x - 0)) (0 + (y - 0))
                     else pix 2 (zeros 16) x y.
Proof.
  apply (xor_raw_lossless 2 2 0 0 2 2 1 0 1 2 (zeros 16) (replicate 16 7) (zeros 16));
    first [bytes_check | reflexivity | unfold u32_max, isize_max; lia].
Defined.
