(* ===== verification/TileMerge.v ===== *)
(** * Merging solid tiles preserves the picture

    [merge_solid_color_row_bands] reorders the commands of a stream and joins
    neighbouring tiles of one color.  When the commands write disjoint parts of the
    atlas, as the packer lays them out, the merged stream stands for the same
    pixels. *)

From S2P Require Import Prelude Bytes Pixels TileStream TileDecode.

(** ** Sorting *)

Lemma insert_by_key_perm {A} (x : list Z * A) l : insert_by_key x l ≡ₚ x :: l.
Proof.
  induction l as [|y l IH]; cbn; [done|]. destruct (lex_leb _ _); [done|].
  rewrite IH. apply Permutation_swap.
Qed.

Lemma sort_by_key_perm {A} (l : list (list Z * A)) : sort_by_key l ≡ₚ l.
Proof. induction l as [|x l IH]; cbn; [done|]. by rewrite insert_by_key_perm, IH. Qed.

Lemma Forall2_perm_l {A B} (R : A -> B -> Prop) l l' k :
  l ≡ₚ l' -> Forall2 R l k -> exists k', k ≡ₚ k' /\ Forall2 R l' k'.
Proof.
  intros Hp. revert k. induction Hp as [|x l l' _ IH|x y l|l1 l2 l3 _ IH1 _ IH2]; intros k Hk.
  - eauto.
  - inversion Hk as [|? z ? k0 Hz Hk0]; subst. destruct (IH _ Hk0) as (k' & Hkk & Hf).
    exists (z :: k'). split; [by constructor|by constructor].
  - inversion Hk as [|? z ? k0 Hz Hk0]; subst. inversion Hk0 as [|? z' ? k1 Hz' Hk1]; subst.
    exists (z' :: z :: k1). split; [apply Permutation_swap|by repeat constructor].
  - destruct (IH1 _ Hk) as (k2 & Hp1 & Hf1). destruct (IH2 _ Hf1) as (k3 & Hp2 & Hf2).
    exists k3. split; [by rewrite Hp1|done].
Qed.

Lemma mapR_pure {E A B} (f : A -> res E B) (g : A -> B) l :
  Forall (fun x => f x = Ok (g x)) l -> mapR f l = Ok (map g l).
Proof. induction 1 as [|x l Hx _ IH]; cbn; [done|]. rewrite Hx. cbn. by rewrite IH. Qed.

(** ** Commands of the stream *)

(** [r] refers to the command [c] of the stream. *)
Definition at_ref (bs : list Z) (r : Ref.CommandRef) (c : Owned.OwnedCommand) : Prop :=
  exists off, r = ref_of off c /\
    slice bs off (off + Owned.encoded_len c) = Some (enc_command c) /\ wf_command c.

Definition solid_cmd (c : Owned.OwnedCommand) : bool :=
  (Owned.kind c =? TILE_COMMAND_SOLID_COLOR) && (len (Owned.payload c) =? 4).

Definition color_of (c : Owned.OwnedCommand) : Z :=
  if solid_cmd c then le_val (Owned.payload c) else 0.

Lemma refs_at bs off cs :
  Forall wf_command cs -> slice bs off (len bs) = Some (enc_commands cs) ->
  Forall2 (at_ref bs) (refs_of off cs) cs.
Proof.
  intros Hcs. revert off; induction Hcs as [|c cs Hc Hcs IH]; intros off Hs; [constructor|].
  rewrite enc_commands_cons in Hs. apply slice_split in Hs as [Hs1 Hs2].
  rewrite enc_command_len in *. constructor; [by exists off|by apply IH].
Qed.

Lemma at_ref_solid bs r c : at_ref bs r c -> is_solid r = solid_cmd c.
Proof. by intros (off & -> & _). Qed.

Lemma at_ref_color {E} bs r c : at_ref bs r c -> solid_color_key (E:=E) bs r = Ok (color_of c).
Proof.
  intros Hr. unfold solid_color_key, color_of. rewrite (at_ref_solid _ _ _ Hr).
  destruct Hr as (off & -> & Hs & Hc). destruct (solid_cmd c) eqn:Hsolid; [|done].
  unfold solid_cmd in Hsolid. pose proof (ref_payload _ _ _ Hs) as Hp.
  unfold Ref.payload_end in Hp. cbn [ref_of Ref.payload_len] in Hp.
  replace (len (Owned.payload c)) with 4 in Hp by lia. rewrite Hp. cbn.
  unfold try_into_array. by replace (_ =? 4) with true by lia.
Qed.

(** The band that starts at [c], [width] pixels wide. *)
Definition band (c : Owned.OwnedCommand) (width changed_count : Z) : Owned.OwnedCommand :=
  {| Owned.kind := TILE_COMMAND_SOLID_COLOR; Owned.atlas_xy := Owned.atlas_xy c;
     Owned.desktop_xy := Owned.desktop_xy c; Owned.wh := pack_xy width (Owned.height c);
     Owned.changed_count := changed_count; Owned.payload := le_bytes 4 (color_of c) |}.

Lemma pack_unpack v : is_u32 v -> pack_xy (lo16 v) (hi16 v) = v.
Proof.
  intros Hv. rewrite pack_xy_sum by (apply lo16_bound || by apply hi16_bound).
  rewrite lo16_mod. unfold hi16. rewrite Z.shiftr_div_pow2 by lia. change (2 ^ 16) with 65536.
  pose proof (Z.div_mod v 65536). lia.
Qed.

Lemma band_self c :
  wf_command c -> solid_cmd c = true -> band c (Owned.width c) (Owned.changed_count c) = c.
Proof.
  intros (_ & _ & _ & Hwh & _ & Hp & _) Hs. unfold band, color_of. rewrite Hs.
  unfold solid_cmd in Hs. rewrite (le_bytes_le_val 4) by (done || lia).
  unfold Owned.width, Owned.height. rewrite pack_unpack by done.
  assert (Owned.kind c = TILE_COMMAND_SOLID_COLOR) as <- by lia. by destruct c.
Qed.

Lemma color_of_u32 c : wf_command c -> is_u32 (color_of c).
Proof.
  intros (_ & _ & _ & _ & _ & Hp & _). unfold color_of. destruct (solid_cmd c) eqn:Hs.
  - unfold solid_cmd in Hs. apply le_val_u32; [done|lia].
  - unfold is_u32, u32_max. lia.
Qed.

Lemma band_wf c width cc :
  wf_command c -> 0 <= width <= 65535 -> is_u32 cc -> wf_command (band c width cc).
Proof.
  intros Hc Hw Hcc. pose proof Hc as (_ & ? & ? & Hwh & _). unfold wf_command, band; cbn.
  split_and!; first [done | by apply le_bytes_ok | by rewrite le_bytes_len
                     | apply pack_xy_u32; [done|by apply hi16_bound]].
Qed.

(** ** Painting a band *)

Section picture.
Context (W H : Z) (prev : option (list Z)) (dw dh : Z).

Abbreviation dec := (decode_owned W H prev dw dh).

Lemma band_fields c width cc :
  wf_command c -> 0 <= width <= 65535 ->
  Owned.width (band c width cc) = width /\ Owned.height (band c width cc) = Owned.height c.
Proof.
  intros (_ & _ & _ & Hwh & _) Hw. unfold Owned.width at 1, Owned.height at 1, band; cbn.
  assert (0 <= Owned.height c <= 65535) by by apply hi16_bound.
  by rewrite lo16_pack, hi16_pack.
Qed.

(** What a band does to a buffer. *)
Lemma dec_band_eq c width cc a :
  wf_command c -> 0 <= width <= 65535 ->
  dec a (band c width cc) =
  (_ ← validate_rect (Owned.atlas_x c) (Owned.atlas_y c) width (Owned.height c) W H;
   fill_rect a (W * 4) (Owned.atlas_x c) (Owned.atlas_y c) width (Owned.height c)
     (le_bytes 4 (color_of c))).
Proof.
  intros Hc Hw. destruct (band_fields c width cc Hc Hw) as [Hbw Hbh].
  unfold decode_owned, decode_command.
  change (Ref.atlas_x (ref_of 0 (band c width cc))) with (Owned.atlas_x c).
  change (Ref.atlas_y (ref_of 0 (band c width cc))) with (Owned.atlas_y c).
  change (Ref.width (ref_of 0 (band c width cc))) with (Owned.width (band c width cc)).
  change (Ref.height (ref_of 0 (band c width cc))) with (Owned.height (band c width cc)).
  rewrite Hbw, Hbh. destruct (validate_rect _ _ _ _ _ _); cbn [mbind res_bind]; try reflexivity.
  change (Ref.kind (ref_of 0 (band c width cc))) with TILE_COMMAND_SOLID_COLOR.
  rewrite Z.eqb_refl.
  rewrite (read_u32_slice _ _ (color_of c)); [done| |by apply color_of_u32|].
  - change (Ref.payload_offset _) with 24. unfold enc_command, band; cbn -[cmd_header].
    unfold cmd_header. slice_find.
  - rewrite enc_command_len. unfold Owned.encoded_len, band; cbn. rewrite le_bytes_len by done. done.
Qed.

Lemma dec_band_painted c width cc a b :
  wf_command c -> 0 <= width <= 65535 -> frame W H a ->
  dec a (band c width cc) = Ok b ->
  painted W H (Owned.atlas_x c) (Owned.atlas_y c) width (Owned.height c)
    (fun _ => Some (le_bytes 4 (color_of c))) a b /\
  0 < width /\ Owned.atlas_x c + width <= W /\ Owned.atlas_y c + Owned.height c <= H /\
  0 < Owned.height c.
Proof.
  intros Hc Hw Ha Hb. rewrite dec_band_eq in Hb by done. run_inv.
  apply validate_rect_inv in Hb0 as (? & ? & ? & ?).
  assert (0 <= Owned.atlas_x c) by apply lo16_bound.
  assert (0 <= Owned.atlas_y c) by (apply hi16_bound, Hc).
  split; [|lia].
  destruct (fill_rect_painted W H (Owned.atlas_x c) (Owned.atlas_y c) width (Owned.height c)
              ltac:(lia) ltac:(lia) ltac:(lia) ltac:(lia) ltac:(lia) ltac:(lia) ltac:(lia)
              (E:=anyhow) (le_bytes 4 (color_of c)) a) as (b' & Hb' & Hp); [by rewrite le_bytes_len|done|].
  rewrite Hb' in Hk. by apply Ok_inj in Hk as <-.
Qed.

(** Two neighbouring bands of one color are one band. *)
Lemma painted_join ax ay w1 w2 h c a b1 b :
  0 <= w1 -> 0 <= w2 ->
  painted W H ax ay w1 h (fun _ => Some c) a b1 ->
  painted W H (ax + w1) ay w2 h (fun _ => Some c) b1 b ->
  painted W H ax ay (w1 + w2) h (fun _ => Some c) a b.
Proof.
  intros Hw1 Hw2 [_ H1] [Hb H2]. split; [done|]. intros x y Hx Hy. rewrite H2, H1 by done.
  unfold in_rect. destruct ((ay <=? y) && (y <? ay + h)) eqn:Hrow.
  - rewrite <- !andb_assoc, Hrow, !andb_true_r.
    destruct (Z.leb_spec ax x), (Z.ltb_spec x (ax + w1)), (Z.leb_spec (ax + w1) x),
      (Z.ltb_spec x (ax + w1 + w2)), (Z.ltb_spec x (ax + (w1 + w2))); cbn [andb]; try done; lia.
  - rewrite <- !andb_assoc, Hrow, !andb_false_r. done.
Qed.

Lemma dec_band_join c n width cc cc' cc'' a b1 b :
  wf_command c -> wf_command n -> color_of n = color_of c ->
  Owned.atlas_y n = Owned.atlas_y c -> Owned.height n = Owned.height c ->
  Owned.atlas_x n = Owned.atlas_x c + width -> 0 <= width -> width + Owned.width n <= 65535 ->
  frame W H a ->
  dec a (band c width cc) = Ok b1 -> dec b1 (band n (Owned.width n) cc') = Ok b ->
  dec a (band c (width + Owned.width n) cc'') = Ok b.
Proof.
  intros Hc Hn Hcol Hy Hh Hx Hw Hsum Ha H1 H2. pose proof (lo16_bound (Owned.wh n)).
  fold (Owned.width n) in *.
  apply dec_band_painted in H1 as (Hp1 & ? & ? & ? & ?); [|done|lia|done].
  apply dec_band_painted in H2 as (Hp2 & ? & ? & ? & ?); [|done|lia|by eapply painted_frame].
  rewrite Hcol, Hy, Hh, Hx in *.
  rewrite dec_band_eq by (done || lia).
  assert (0 <= Owned.atlas_x c <= 65535) by apply lo16_bound.
  assert (0 <= Owned.atlas_y c <= 65535) by (apply hi16_bound, Hc).
  assert (0 <= Owned.height c <= 65535) by (apply hi16_bound, Hc).
  rewrite validate_rect_built by (unfold u32_max; lia). cbn [mbind res_bind].
  pose proof (painted_join _ _ _ _ _ _ _ _ _ Hw (Z.lt_le_incl _ _ H2) Hp1 Hp2) as Hp.
  destruct (fill_rect_painted W H (Owned.atlas_x c) (Owned.atlas_y c) (width + Owned.width n)
              (Owned.height c)
              ltac:(lia) ltac:(lia) ltac:(lia) ltac:(lia) ltac:(lia) ltac:(lia) ltac:(lia)
              (E:=anyhow) (le_bytes 4 (color_of c)) a) as (b' & Hb' & Hp'); [by rewrite le_bytes_len|done|].
  rewrite Hb'. f_equal. eapply painted_det; [|exact Hp'|exact Hp]. lia.
Qed.

(** What [continues_band] checks, of the commands themselves. *)
Lemma continues_band_inv bs r c next n width :
  at_ref bs r c -> at_ref bs next n -> 0 <= width <= 65535 ->
  continues_band r next (color_of c) (color_of n) width = true ->
  solid_cmd n = true /\ color_of n = color_of c /\ Owned.atlas_y n = Owned.atlas_y c /\
  Owned.height n = Owned.height c /\ Owned.atlas_x n = Owned.atlas_x c + width /\
  width + Owned.width n <= 65535.
Proof.
  intros (off & -> & _) Hn Hw Hc. unfold continues_band in Hc.
  rewrite (at_ref_solid _ _ _ Hn) in Hc. destruct Hn as (off' & -> & _).
  autorewrite with talos_ref in Hc. assert (0 <= Owned.atlas_x c <= 65535) by apply lo16_bound.
  unfold saturating_add, checked_add in Hc.
  repeat (apply andb_true_iff in Hc as [Hc ?]).
  repeat match goal with H : (_ =? _) = true |- _ => apply Z.eqb_eq in H end.
  split; [unfold solid_cmd; lia|].
  destruct (width + Owned.width n <=? u32_max); [|discriminate].
  unfold u32_max, u16_max in *. lia.
Qed.

(** Absorbing the commands that continue a band keeps the picture. *)
Lemma absorb_band_ok {E} bs r c rest ds width cc :
  at_ref bs r c -> solid_cmd c = true -> Forall2 (at_ref bs) rest ds ->
  0 <= width <= 65535 -> is_u32 cc ->
  exists width' cc' rest' ds',
    absorb_band (E:=E) bs r (color_of c) width cc rest = Ok (width', cc', rest') /\
    Forall2 (at_ref bs) rest' ds' /\ 0 <= width' <= 65535 /\ is_u32 cc' /\
    (length rest' <= length rest)%nat /\ (exists gone, ds = gone ++ ds') /\
    forall a a', frame W H a -> foldM dec a (band c width cc :: ds) = Ok a' ->
      foldM dec a (band c width' cc' :: ds') = Ok a'.
Proof.
  intros Hr Hs Hrest. revert width cc.
  induction Hrest as [|next n rest ds Hn Hrest IH]; intros width cc Hw Hcc; cbn [absorb_band].
  { exists width, cc, [], []. split; [done|]. split; [constructor|]. split; [done|]. split; [done|].
    split; [done|]. split; [by exists []|auto]. }
  rewrite (at_ref_color _ _ _ Hn). cbn [mbind res_bind].
  destruct (continues_band r next (color_of c) (color_of n) width) eqn:Hcont.
  - destruct (continues_band_inv _ _ _ _ _ _ Hr Hn Hw Hcont) as (Hsn & Hcol & Hy & Hh & Hx & Hsum).
    assert (wf_command c) as Hcwf by (by destruct Hr as (? & _ & _ & ?)).
    assert (wf_command n) as Hnwf by (by destruct Hn as (? & _ & _ & ?)).
    pose proof (lo16_bound (Owned.wh n)).
    assert (Ref.width next = Owned.width n /\ Ref.changed_count next = Owned.changed_count n)
      as [-> ->] by (destruct Hn as (? & -> & _); by autorewrite with talos_ref).
    fold (Owned.width n) in *.
    destruct (IH (width + Owned.width n) (saturating_add u32_max cc (Owned.changed_count n)))
      as (w' & cc' & rest' & ds' & -> & Hrd & Hw' & Hcc' & Hl & [gone ->] & Hsem); [lia| |].
    { destruct Hnwf as (_ & _ & _ & _ & Hu & _). unfold saturating_add, is_u32 in *. lia. }
    exists w', cc', rest', ds'. split; [done|]. split; [done|]. split; [done|]. split; [done|].
    split; [cbn; lia|]. split; [by exists (n :: gone)|].
    intros a a' Ha Hf. apply Hsem; [done|]. cbn [foldM] in Hf |- *. run_inv.
    rewrite <- (band_self n Hnwf Hsn) in Hb0.
    rewrite (dec_band_join c n width cc (Owned.changed_count n) _ a x x0) by (done || lia). done.
  - exists width, cc, (next :: rest), (n :: ds). split; [done|]. split; [by constructor|].
    split; [done|]. split; [done|]. split; [done|]. split; [by exists []|auto].
Qed.

(** What the merged commands owe to the original ones. *)
Definition merges_to (cs ms : list Owned.OwnedCommand) : Prop :=
  Forall wf_command ms /\ Forall solid_ok ms /\ len (enc_commands ms) <= len (enc_commands cs) /\
  (Forall aligned_command cs -> Forall aligned_command ms) /\
  forall a a', frame W H a -> foldM dec a cs = Ok a' -> foldM dec a ms = Ok a'.

Lemma merges_to_cons c cs ms :
  wf_command c -> solid_ok c -> merges_to cs ms -> merges_to (c :: cs) (c :: ms).
Proof.
  intros Hc Hs (H1 & H2 & H3 & H4 & H5). unfold merges_to. rewrite !enc_commands_cons, !len_app.
  split; [by constructor|]. split; [by constructor|]. split; [lia|]. split.
  - intros [Ha Hal]%Forall_cons. constructor; auto.
  - intros a a' Ha Hf. cbn [foldM] in *. run_inv. rewrite Hb. cbn [mbind res_bind].
    apply H5; [|done]. by eapply (paint_action_frame W H _ _ _ _ (fun a => dec a c) _ _
      (decode_owned_paints W H prev dw dh c Hc)).
Qed.

Lemma merges_to_band c m cs ds gone ms :
  wf_command m -> solid_ok m -> aligned_command m -> Owned.encoded_len m <= Owned.encoded_len c ->
  cs = gone ++ ds ->
  (forall a a', frame W H a -> foldM dec a (c :: cs) = Ok a' -> foldM dec a (m :: ds) = Ok a') ->
  merges_to ds ms -> merges_to (c :: cs) (m :: ms).
Proof.
  intros Hm Hs Hal Hle -> Hsem Hds. destruct (merges_to_cons m ds ms Hm Hs Hds) as (H1 & H2 & H3 & H4 & H5).
  unfold merges_to. split; [done|]. split; [done|]. split; [|split].
  - rewrite (enc_commands_cons c), (enc_commands_app gone), !len_app, (enc_command_len c).
    rewrite (enc_commands_cons m ds), len_app, enc_command_len in H3.
    pose proof (len_nonneg (enc_commands gone)). lia.
  - intros [_ [_ Ha]%Forall_app]%Forall_cons. apply H4. by constructor.
  - intros a a' Ha Hf. apply H5; [done|]. by apply Hsem.
Qed.

Lemma band_written {E} output c w cc :
  exists o1, write_command_header (E:=E) (output ++ zeros (TILE_COMMAND_HEADER_BYTES + 4)) (len output)
     TILE_COMMAND_SOLID_COLOR (Owned.atlas_xy c) (Owned.desktop_xy c) (pack_xy w (Owned.height c)) 4 cc
     = Ok o1 /\
   write_u32 (E:=E) o1 (len output + TILE_COMMAND_HEADER_BYTES) (color_of c) =
   Ok (output ++ enc_command (band c w cc)).
Proof.
  unfold TILE_COMMAND_HEADER_BYTES. rewrite zeros_app by done.
  rewrite write_command_header_mid by (rewrite ?zeros_len; done).
  eexists; split; [done|]. rewrite app_assoc, <- (app_nil_r (zeros 4)).
  rewrite write_u32_mid by (rewrite ?len_app, ?cmd_header_len, ?zeros_len; done).
  unfold enc_command, band; cbn -[cmd_header]. rewrite le_bytes_len by done.
  by rewrite app_nil_r, <- app_assoc.
Qed.

Lemma merge_loop_ok {E} bs fuel : forall rs cs out n,
  Forall2 (at_ref bs) rs cs -> Forall solid_ok cs -> (length rs <= fuel)%nat ->
  exists ms n', merge_loop (E:=E) fuel bs out n rs = Ok (out ++ enc_commands ms, n') /\
    merges_to cs ms.
Proof.
  induction fuel as [|fuel IH]; intros rs cs out n Hrs Hsol Hf;
    (inversion Hrs as [|r c rs0 cs0 Hr Hrs0]; subst;
     [exists [], n; split; [cbn; by rewrite app_nil_r|by split_and!]|]);
    [cbn in Hf; lia|].
  apply Forall_cons in Hsol as [Hsc Hsol]. cbn [length] in Hf. cbn [merge_loop].
  pose proof Hr as (off & -> & Hs & Hc).
  destruct (is_solid (ref_of off c)) eqn:Hsolid; cbn [negb].
  - rewrite (at_ref_solid _ _ _ Hr) in Hsolid. rewrite (at_ref_color _ _ _ Hr). cbn [mbind res_bind].
    autorewrite with talos_ref.
    destruct (absorb_band_ok (E:=E) bs (ref_of off c) c rs0 cs0 (Owned.width c) (Owned.changed_count c))
      as (w' & cc' & rest' & ds' & -> & Hrd & Hw' & Hcc' & Hl & [gone Hgone] & Hsem);
      [done..|apply lo16_bound|apply Hc|].
    cbn [mbind res_bind]. cbn [ref_of Ref.atlas_xy Ref.desktop_xy].
    destruct (band_written (E:=E) out c w' cc') as (o1 & -> & Ho1). cbn [mbind res_bind]. rewrite Ho1.
    cbn [mbind res_bind].
    destruct (IH rest' ds' (out ++ enc_command (band c w' cc')) (saturating_add u32_max n 1))
      as (ms & n' & -> & Hms); [done|subst; by apply Forall_app in Hsol as [_ ?]|lia|].
    exists (band c w' cc' :: ms), n'. split; [by rewrite enc_commands_cons, app_assoc|].
    assert (len (Owned.payload (band c w' cc')) = 4) as Hp4 by (cbn; by rewrite le_bytes_len).
    eapply merges_to_band; [by apply band_wf|unfold solid_ok; lia|unfold aligned_command; by rewrite Hp4
      | |exact Hgone| |exact Hms].
    + unfold Owned.encoded_len. rewrite Hp4. unfold solid_cmd in Hsolid. lia.
    + intros a a' Ha Hf'. apply Hsem; [done|]. by rewrite (band_self c Hc Hsolid).
  - assert (slice bs (Ref.command_offset (ref_of off c)) (Ref.payload_end (ref_of off c)) =
            Some (enc_command c)) as ->.
    { unfold Ref.payload_end; cbn. rewrite <- Z.add_assoc. exact Hs. }
    cbn [or_panic mbind res_bind].
    destruct (IH rs0 cs0 (out ++ enc_command c) (saturating_add u32_max n 1))
      as (ms & n' & -> & Hms); [done|done|lia|].
    exists (c :: ms), n'. split; [by rewrite enc_commands_cons, app_assoc|]. by apply merges_to_cons.
Qed.
End picture.

(** ** The whole merge *)

(** No pixel of the atlas belongs to two of the commands. *)
Definition disjoint_rects (c d : Owned.OwnedCommand) : Prop :=
  forall x y,
    in_rect (Owned.atlas_x c) (Owned.atlas_y c) (Owned.width c) (Owned.height c) x y = true ->
    in_rect (Owned.atlas_x d) (Owned.atlas_y d) (Owned.width d) (Owned.height d) x y = false.

Lemma disjoint_rects_sym c d : disjoint_rects c d -> disjoint_rects d c.
Proof.
  intros H x y Hd. destruct (in_rect _ _ _ _ _ _) eqn:Hc in |- *; [|done].
  rewrite (H x y Hc) in Hd. discriminate.
Qed.

Lemma enc_commands_perm_len cs ds : cs ≡ₚ ds -> len (enc_commands cs) = len (enc_commands ds).
Proof.
  induction 1; rewrite ?enc_commands_cons, ?len_app; try done; lia.
Qed.

(** The stream with other bytes. *)
Definition with_bytes (s : Stream.TileCommandStream) (bs : list Z) : Stream.TileCommandStream :=
  {| Stream.atlas_width := Stream.atlas_width s; Stream.atlas_height := Stream.atlas_height s;
     Stream.descriptor_count := Stream.descriptor_count s;
     Stream.command_count := Stream.command_count s; Stream.byte_len := len bs;
     Stream.raw_equivalent_bytes := Stream.raw_equivalent_bytes s;
     Stream.delta_bytes_saved_estimate := Stream.delta_bytes_saved_estimate s;
     Stream.copy_rects := Stream.copy_rects s; Stream.bytes := bs;
     Stream.command_counts := Stream.command_counts s |}.

Section merge.
Context (s : Stream.TileCommandStream) (prev : option (list Z)) (dw dh : Z).

Abbreviation aw := (Stream.atlas_width s).
Abbreviation ah := (Stream.atlas_height s).

Context (HW : 0 < aw) (HH : 0 <= ah) (Hsz : aw * ah * 4 <= isize_max).

(** Reconstruction, as the fold of the decoder over the commands. *)
Lemma reconstruct_fold bs cs :
  bytes_ok bs -> stream_of bs cs -> Forall solid_ok cs ->
  reconstruct_atlas_from_stream (with_bytes s bs) prev dw dh =
  foldM (decode_owned aw ah prev dw dh) (zeros (aw * ah * 4)) cs.
Proof.
  intros Hbs Hst Hsol. pose proof (stream_of_fuel _ _ Hst). destruct Hst as (Hb & Hwf & Hs).
  pose proof (basic_header_bounds _ Hb).
  rewrite reconstruct_header by (cbn [with_bytes Stream.bytes Stream.byte_len Stream.atlas_width
    Stream.atlas_height]; done || lia).
  cbn [with_bytes Stream.bytes Stream.atlas_width Stream.atlas_height].
  rewrite (reconstruct_loop_eq aw ah prev dw dh _ bs _ _ cs) by (done || lia || unfold len; lia).
  apply decode_refs_owned; [done|exact Hs|lia].
Qed.

Lemma sort_keys_ok {E} bs rs cs :
  Forall2 (at_ref bs) rs cs ->
  exists keyed, mapR (E:=E) (fun c => k ← sort_key bs c; Ok (k, c)) rs = Ok keyed /\
    map snd keyed = rs.
Proof.
  intros Hrs.
  exists (map (fun r => (match sort_key (E:=E) bs r with Ok k => k | _ => [] end, r)) rs). split.
  - apply mapR_pure. induction Hrs as [|r c rs cs Hr _ IH]; constructor; [|done].
    unfold sort_key. by rewrite (at_ref_color _ _ _ Hr).
  - rewrite map_map. cbn. apply map_id.
Qed.

Lemma perm_preserves cs cs' a a' :
  Forall wf_command cs -> cs ≡ₚ cs' -> ForallOrdPairs disjoint_rects cs -> frame aw ah a ->
  foldM (decode_owned aw ah prev dw dh) a cs = Ok a' ->
  foldM (decode_owned aw ah prev dw dh) a cs' = Ok a'.
Proof.
  intros Hwf Hcs' Hdis.
  refine (proj2 (paint_foldM_perm aw ah HW (decode_owned aw ah prev dw dh)
    (fun c => (Owned.atlas_x c, Owned.atlas_y c, Owned.width c, Owned.height c)) disjoint_rects cs cs'
    disjoint_rects_sym (fun c d x y Hcd => Hcd x y) _ Hcs' Hdis) a a').
  eapply Forall_impl; [exact Hwf|]. intros c Hc. by apply decode_owned_paints.
Qed.

Lemma merge_ok cs dc :
  bytes_ok (Stream.bytes s) -> stream_of (Stream.bytes s) cs ->
  Forall solid_ok cs -> Forall aligned_command cs -> ForallOrdPairs disjoint_rects cs ->
  exists bs' ms, merge_solid_color_row_bands (Stream.bytes s) aw ah dc = Ok bs' /\
    bytes_ok bs' /\ stream_of bs' ms /\ len bs' <= len (Stream.bytes s) /\ Forall solid_ok ms /\
    forall a a', frame aw ah a -> foldM (decode_owned aw ah prev dw dh) a cs = Ok a' ->
      foldM (decode_owned aw ah prev dw dh) a ms = Ok a'.
Proof.
  intros Hbs Hst Hsol Hal Hdis. set (bs := Stream.bytes s) in *.
  unfold merge_solid_color_row_bands.
  rewrite (proj2 (parse_refs_iff bs (refs_of 32 cs) Hbs)) by eauto. cbn [mbind res_bind].
  destruct (len (refs_of 32 cs) <? 2); [exists bs, cs; by split_and!|].
  destruct (_ <? 2); [exists bs, cs; by split_and!|].
  pose proof (stream_of_size _ _ Hst) as Hsize. destruct Hst as (Hb & Hwf & Hs).
  pose proof (refs_at bs 32 cs Hwf Hs) as Hrefs.
  destruct (sort_keys_ok (E:=string) bs _ _ Hrefs) as (keyed & -> & Hkeyed). cbn [mbind res_bind].
  assert (refs_of 32 cs ≡ₚ map snd (sort_by_key keyed)) as Hperm.
  { rewrite <- Hkeyed. apply Permutation_map. symmetry. apply sort_by_key_perm. }
  destruct (Forall2_perm_l _ _ _ _ Hperm Hrefs) as (cs' & Hcs' & Hrefs').
  assert (Forall solid_ok cs') as Hsol' by by rewrite <- Hcs'.
  destruct (merge_loop_ok aw ah prev dw dh (E:=string) bs (length (map snd (sort_by_key keyed)))
              _ _ (zeros TILE_COMMAND_STREAM_HEADER_BYTES) 0 Hrefs' Hsol' (le_n _))
    as (ms & n' & -> & Hmwf & Hmsol & Hmlen & Hmal & Hmsem).
  rewrite bind_Ok.
  assert (len (enc_commands cs') = len (enc_commands cs)) as Hlen'.
  { symmetry. by apply enc_commands_perm_len. }
  pose proof (slice_inv _ _ _ _ Hs) as (_ & _ & Hcl). pose proof (len_nonneg (enc_commands ms)).
  assert (len (zeros TILE_COMMAND_STREAM_HEADER_BYTES ++ enc_commands ms) = 32 + len (enc_commands ms))
    as Hout by (by rewrite len_app).
  rewrite Hout. unfold ensure. replace (_ <=? u32_max) with true by lia. cbn [mbind res_bind].
  rewrite write_stream_header_built by done. rewrite as_u32_small by (unfold is_u32; lia).
  eexists _, ms. split; [done|]. split.
  { apply Forall_app_2; [apply stream_header_ok|by apply enc_commands_ok]. }
  split; [apply built_stream_of; [done|done|lia|]|split; [rewrite len_app, stream_header_len; lia|]].
  { apply enc_commands_aligned, Hmal. by rewrite <- Hcs'. }
  split; [exact Hmsol|]. intros a a' Ha Hf. apply Hmsem; [exact Ha|].
  by apply (perm_preserves cs).
Qed.
End merge.

(** ** Property *)

(** C18.  Merging row bands is invisible: for a well-formed stream whose commands
    write disjoint rectangles of the atlas and whose solid commands carry a color,
    [merge_solid_color_row_bands] succeeds, its result is a well-formed stream that
    is no longer than the original, and whatever previous frame it is decoded
    against, every atlas the original stream reconstructs to is what the merged
    stream reconstructs to. *)
Theorem merge_preserves_picture s cs dc prev dw dh :
  0 < Stream.atlas_width s -> 0 <= Stream.atlas_height s ->
  Stream.atlas_width s * Stream.atlas_height s * 4 <= isize_max ->
  bytes_ok (Stream.bytes s) -> parse_owned_commands (Stream.bytes s) = Ok cs ->
  Forall solid_ok cs -> Forall aligned_command cs -> ForallOrdPairs disjoint_rects cs ->
  exists bs' ms,
    merge_solid_color_row_bands (Stream.bytes s) (Stream.atlas_width s) (Stream.atlas_height s) dc
      = Ok bs' /\
    parse_owned_commands bs' = Ok ms /\ len bs' <= len (Stream.bytes s) /\
    forall a,
      reconstruct_atlas_from_stream (with_bytes s (Stream.bytes s)) prev dw dh = Ok a ->
      reconstruct_atlas_from_stream (with_bytes s bs') prev dw dh = Ok a.
Proof.
  intros HW HH Hsz Hbs Hp Hsol Hal Hdis. apply parse_owned_iff in Hp; [|exact Hbs].
  destruct (merge_ok s prev dw dh HW cs dc Hbs Hp Hsol Hal Hdis)
    as (bs' & ms & Hm & Hok' & Hst' & Hlen & Hsol' & Hsem).
  exists bs', ms. split; [exact Hm|]. split; [by apply parse_owned_iff|]. split; [exact Hlen|].
  intros a. rewrite (reconstruct_fold s prev dw dh HW HH Hsz _ _ Hbs Hp Hsol).
  rewrite (reconstruct_fold s prev dw dh HW HH Hsz _ _ Hok' Hst' Hsol').
  apply Hsem. unfold frame. apply zeros_len. nia.
Qed.

(** Two neighbouring red tiles and, below them, a blue one. *)
Definition solid_tile (x y : Z) (color : list Z) : Owned.OwnedCommand :=
  {| Owned.kind := TILE_COMMAND_SOLID_COLOR; Owned.atlas_xy := pack_xy x y;
     Owned.desktop_xy := pack_xy x y; Owned.wh := pack_xy 2 1; Owned.changed_count := 2;
     Owned.payload := color |}.

Definition sample_tiles : list Owned.OwnedCommand :=
  [solid_tile 2 0 [0; 0; 255; 255]; solid_tile 0 1 [255; 0; 0; 255]; solid_tile 0 0 [0; 0; 255; 255]].

Definition sample_bands : Stream.TileCommandStream :=
  {| Stream.atlas_width := 4; Stream.atlas_height := 2; Stream.descriptor_count := 3;
     Stream.command_count := 3; Stream.byte_len := 116; Stream.raw_equivalent_bytes := 116;
     Stream.delta_bytes_saved_estimate := 0; Stream.copy_rects := [];
     Stream.bytes := stream_header 4 2 3 116 3 ++ enc_commands sample_tiles;
     Stream.command_counts := Counts.default |}.

Lemma merge_preserves_picture_witness :
  exists bs' ms,
    merge_solid_color_row_bands (Stream.bytes sample_bands) 4 2 3 = Ok bs' /\
    parse_owned_commands bs' = Ok ms /\ len bs' <= len (Stream.bytes sample_bands) /\
    forall a,
      reconstruct_atlas_from_stream (with_bytes sample_bands (Stream.bytes sample_bands)) None 4 2 = Ok a ->
      reconstruct_atlas_from_stream (with_bytes sample_bands bs') None 4 2 = Ok a.
Proof.
  apply (merge_preserves_picture sample_bands sample_tiles 3 None 4 2).
  - reflexivity.
  - discriminate.
  - discriminate.
  - bytes_check.
  - vm_compute. reflexivity.
  - repeat constructor; intros _; vm_compute; discriminate.
  - repeat constructor.
  - repeat constructor; unfold disjoint_rects; intros x y; unfold in_rect; vm_compute (Owned.atlas_x _);
      vm_compute (Owned.atlas_y _); vm_compute (Owned.width _); vm_compute (Owned.height _); lia.
Defined.
