(* ===== verification/ExactMap.v ===== *)
(** What the helper's tile encoder remembers between frames
    (apps/talos_worker_helper/src/tile_commands.rs, [TileCommandEncoder]): the reference
    frame that changes are encoded against, and the map of the desktop cells that the
    viewer shows exactly.  The calls into Direct3D are parameters. *)

From S2P Require Import Prelude Bytes Pixels TileStream.

Local Open Scope Z_scope.

Module Encoder.
(** The state, without the handles of shaders and views.  A buffer is known by being
    there and by its capacity; a texture by its content. *)
Record TileCommandEncoder := {
  previous_texture : option picture;
  previous_width : Z; previous_height : Z; previous_format : Z;
  reference_valid : bool; reference_exact : bool;
  exact_map_buffer : bool; exact_map_capacity : Z;
  exact_map : list Z;
  exact_tiles_x : Z; exact_tiles_y : Z; exact_desktop_width : Z; exact_desktop_height : Z;
  tile_map_buffer : bool; tile_map_capacity : Z;
  analysis_buffer : bool; analysis_capacity : Z;
  output_buffer : bool; output_capacity : Z }.

Definition new : TileCommandEncoder :=
  {| previous_texture := None; previous_width := 0; previous_height := 0; previous_format := 0;
     reference_valid := false; reference_exact := false; exact_map_buffer := false;
     exact_map_capacity := 0; exact_map := []; exact_tiles_x := 0; exact_tiles_y := 0;
     exact_desktop_width := 0; exact_desktop_height := 0; tile_map_buffer := false;
     tile_map_capacity := 0; analysis_buffer := false; analysis_capacity := 0;
     output_buffer := false; output_capacity := 0 |}.

Definition TILE_MAP_ENTRY_BYTES : Z := 16.
Definition ANALYSIS_ENTRY_BYTES : Z := 16.

Definition command_stream_capacity (tiles : list Tile.TileCommandTile) : res anyhow Z :=
  raw_equivalent_stream_bytes tiles.

Definition set_reference (texture : option picture) (width height format : Z) (valid exact : bool)
    (e : TileCommandEncoder) : TileCommandEncoder :=
  {| previous_texture := texture; previous_width := width; previous_height := height;
     previous_format := format; reference_valid := valid; reference_exact := exact;
     exact_map_buffer := exact_map_buffer e; exact_map_capacity := exact_map_capacity e;
     exact_map := exact_map e; exact_tiles_x := exact_tiles_x e; exact_tiles_y := exact_tiles_y e;
     exact_desktop_width := exact_desktop_width e; exact_desktop_height := exact_desktop_height e;
     tile_map_buffer := tile_map_buffer e; tile_map_capacity := tile_map_capacity e;
     analysis_buffer := analysis_buffer e; analysis_capacity := analysis_capacity e;
     output_buffer := output_buffer e; output_capacity := output_capacity e |}.

Definition set_flags (valid exact : bool) (e : TileCommandEncoder) : TileCommandEncoder :=
  set_reference (previous_texture e) (previous_width e) (previous_height e) (previous_format e)
    valid exact e.

Definition set_exact_map (map : list Z) (tiles_x tiles_y width height : Z) (buffer : bool) (capacity : Z)
    (e : TileCommandEncoder) : TileCommandEncoder :=
  {| previous_texture := previous_texture e; previous_width := previous_width e;
     previous_height := previous_height e; previous_format := previous_format e;
     reference_valid := reference_valid e; reference_exact := reference_exact e;
     exact_map_buffer := buffer; exact_map_capacity := capacity; exact_map := map;
     exact_tiles_x := tiles_x; exact_tiles_y := tiles_y; exact_desktop_width := width;
     exact_desktop_height := height; tile_map_buffer := tile_map_buffer e;
     tile_map_capacity := tile_map_capacity e; analysis_buffer := analysis_buffer e;
     analysis_capacity := analysis_capacity e; output_buffer := output_buffer e;
     output_capacity := output_capacity e |}.

Definition set_map (map : list Z) (e : TileCommandEncoder) : TileCommandEncoder :=
  set_exact_map map (exact_tiles_x e) (exact_tiles_y e) (exact_desktop_width e) (exact_desktop_height e)
    (exact_map_buffer e) (exact_map_capacity e) e.

Definition set_buffers (tile_map : bool) (tile_map_cap : Z) (analysis : bool) (analysis_cap : Z)
    (output : bool) (output_cap : Z) (e : TileCommandEncoder) : TileCommandEncoder :=
  {| previous_texture := previous_texture e; previous_width := previous_width e;
     previous_height := previous_height e; previous_format := previous_format e;
     reference_valid := reference_valid e; reference_exact := reference_exact e;
     exact_map_buffer := exact_map_buffer e; exact_map_capacity := exact_map_capacity e;
     exact_map := exact_map e; exact_tiles_x := exact_tiles_x e; exact_tiles_y := exact_tiles_y e;
     exact_desktop_width := exact_desktop_width e; exact_desktop_height := exact_desktop_height e;
     tile_map_buffer := tile_map; tile_map_capacity := tile_map_cap;
     analysis_buffer := analysis; analysis_capacity := analysis_cap;
     output_buffer := output; output_capacity := output_cap |}.

Abbreviation M := (method TileCommandEncoder anyhow).

Definition modify (f : TileCommandEncoder -> TileCommandEncoder) : M unit := self ← get; put (f self).

(** ** The map of exact cells *)

Definition command_kind_is_exact (kind : Z) : bool :=
  (kind =? TILE_COMMAND_SOLID_COLOR) || (kind =? TILE_COMMAND_RAW_BGRA)
  || (kind =? TILE_COMMAND_XOR_RAW) || (kind =? TILE_COMMAND_XOR_SPARSE)
  || (kind =? TILE_COMMAND_MASKED_QUANT_DELTA).

Definition clear_exact_map (self : TileCommandEncoder) : TileCommandEncoder :=
  set_map (map (fun _ => 0) (exact_map self)) self.

(** The inclusive range [first..=last]. *)
Definition range_inclusive (first last : Z) : list Z := seqZ first (last - first + 1).

(** One turn of the inner loop of [mark_command_exactness]. *)
Definition mark_cell (self : TileCommandEncoder) (command : Ref.CommandRef) (exact : bool)
    (right bottom : Z) (map : list Z) (tile_x tile_y : Z) : list Z :=
  let index := saturating_add usize_max
                 (saturating_mul usize_max tile_y (exact_tiles_x self)) tile_x in
  match map !! Z.to_nat index with
  | None => map
  | Some _ =>
      if negb exact then <[Z.to_nat index := 0]> map else
      let cell_left := saturating_mul u32_max tile_x TILE_SIZE in
      let cell_top := saturating_mul u32_max tile_y TILE_SIZE in
      let cell_right := Z.min (saturating_add u32_max cell_left TILE_SIZE) (exact_desktop_width self) in
      let cell_bottom := Z.min (saturating_add u32_max cell_top TILE_SIZE) (exact_desktop_height self) in
      if (Ref.desktop_x command <=? cell_left) && (Ref.desktop_y command <=? cell_top) &&
         (cell_right <=? right) && (cell_bottom <=? bottom)
      then <[Z.to_nat index := 1]> map else map
  end.

Definition mark_command_exactness (command : Ref.CommandRef) (exact : bool) (self : TileCommandEncoder)
    : TileCommandEncoder :=
  if (len (exact_map self) =? 0) || (exact_tiles_x self =? 0) || (exact_tiles_y self =? 0) then self else
  match checked_add u32_max (Ref.desktop_x command) (Ref.width command),
        checked_add u32_max (Ref.desktop_y command) (Ref.height command) with
  | Some right_, Some bottom =>
      if (Ref.width command =? 0) || (Ref.height command =? 0) then self else
      let first_x := Ref.desktop_x command / TILE_SIZE in
      let last_x := saturating_sub right_ 1 / TILE_SIZE in
      let first_y := Ref.desktop_y command / TILE_SIZE in
      let last_y := saturating_sub bottom 1 / TILE_SIZE in
      set_map
        (foldl (fun map tile_y =>
           foldl (fun map tile_x => mark_cell self command exact right_ bottom map tile_x tile_y) map
             (range_inclusive first_x (Z.min last_x (saturating_sub (exact_tiles_x self) 1))))
           (exact_map self)
           (range_inclusive first_y (Z.min last_y (saturating_sub (exact_tiles_y self) 1)))) self
  | _, _ => self
  end.

Definition update_exact_map_from_stream (stream : Stream.TileCommandStream) : M unit :=
  commands ← lift (parse_command_refs (Stream.bytes stream));
  _ ← for_each (fun command =>
         modify (mark_command_exactness command (command_kind_is_exact (Ref.kind command)))) commands;
  modify (fun self =>
    set_flags (reference_valid self)
      (negb (len (exact_map self) =? 0) && forallb (fun v => negb (v =? 0)) (exact_map self)) self).

Definition reset_tile_cache : M unit :=
  modify (fun self => clear_exact_map (set_flags false false self)).

(** ** Resources on the graphics card *)

Section gpu.
(** What the card does: make a view of the atlas, a buffer of some bytes with its
    views, a texture with its view; and run the three shaders over the atlas, the
    reference frame, the tiles, the map of exact cells and the parameters, and read
    the output buffer back. *)
Context (create_atlas_view : picture -> res anyhow unit) (create_raw_buffer : Z -> res anyhow unit).
Context (create_texture : Z -> Z -> Z -> res anyhow picture).
Context (dispatch : picture -> option picture -> list Tile.TileCommandTile -> list Z -> list Z ->
                    res anyhow (list Z)).

Definition ensure_reference_texture (desktop_width desktop_height desktop_format : Z) : M unit :=
  self ← get;
  if bool_decide (is_Some (previous_texture self)) && (previous_width self =? desktop_width)
     && (previous_height self =? desktop_height) && (previous_format self =? desktop_format)
  then mret tt else
  texture ← lift (create_texture (Z.max desktop_width 1) (Z.max desktop_height 1) desktop_format);
  put (set_reference (Some texture) desktop_width desktop_height desktop_format false false self).

Definition ensure_exact_map (desktop_width desktop_height : Z) : M unit :=
  let tiles_x := Z.max (div_ceil desktop_width TILE_SIZE) 1 in
  let tiles_y := Z.max (div_ceil desktop_height TILE_SIZE) 1 in
  tile_count ← lift (ok_or (checked_mul u32_max tiles_x tiles_y)
                       "exact tile map dimensions overflow"%string);
  let byte_len := Z.max (saturating_mul u32_max tile_count 4) 4 in
  _ ← modify (fun self =>
         if negb (exact_tiles_x self =? tiles_x) || negb (exact_tiles_y self =? tiles_y)
            || negb (exact_desktop_width self =? desktop_width)
            || negb (exact_desktop_height self =? desktop_height)
         then set_exact_map (zeros tile_count) tiles_x tiles_y desktop_width desktop_height false 0 self
         else self);
  self ← get;
  if negb (exact_map_buffer self) || (exact_map_capacity self <? byte_len) then
    _ ← lift (create_raw_buffer byte_len);
    put (set_exact_map (exact_map self) (exact_tiles_x self) (exact_tiles_y self)
           (exact_desktop_width self) (exact_desktop_height self) true byte_len self)
  else mret tt.

Definition ensure_resources (atlas_texture : picture) (desktop_width desktop_height desktop_format
    descriptor_count capacity : Z) : M unit :=
  _ ← lift (create_atlas_view atlas_texture);
  _ ← ensure_reference_texture desktop_width desktop_height desktop_format;
  _ ← ensure_exact_map desktop_width desktop_height;
  let tile_map_bytes := Z.max (saturating_mul u32_max descriptor_count TILE_MAP_ENTRY_BYTES)
                          TILE_MAP_ENTRY_BYTES in
  self ← get;
  _ ← (if negb (tile_map_buffer self) || (tile_map_capacity self <? tile_map_bytes) then
         _ ← lift (create_raw_buffer tile_map_bytes);
         put (set_buffers true tile_map_bytes (analysis_buffer self) (analysis_capacity self)
                (output_buffer self) (output_capacity self) self)
       else mret tt);
  let analysis_bytes := Z.max (saturating_mul u32_max descriptor_count ANALYSIS_ENTRY_BYTES)
                          ANALYSIS_ENTRY_BYTES in
  self ← get;
  _ ← (if negb (analysis_buffer self) || (analysis_capacity self <? analysis_bytes) then
         _ ← lift (create_raw_buffer analysis_bytes);
         put (set_buffers (tile_map_buffer self) (tile_map_capacity self) true analysis_bytes
                (output_buffer self) (output_capacity self) self)
       else mret tt);
  self ← get;
  if negb (output_buffer self) || (output_capacity self <? capacity) then
    _ ← lift (create_raw_buffer capacity);
    _ ← lift (create_raw_buffer capacity);
    put (set_buffers (tile_map_buffer self) (tile_map_capacity self) (analysis_buffer self)
           (analysis_capacity self) true capacity self)
  else mret tt.

Definition upload_exact_map : M unit :=
  self ← get;
  _ ← lift (ensure (exact_map_buffer self) "exact tile map buffer unavailable"%string);
  lift (ensure (saturating_mul usize_max (len (exact_map self)) 4 <=? u32_max)
          "exact tile map byte length overflows u32"%string).

Definition upload_tile_map (tiles : list Tile.TileCommandTile) : M unit :=
  self ← get;
  _ ← lift (ensure (tile_map_buffer self) "tile map buffer unavailable"%string);
  lift (ensure (saturating_mul usize_max (len tiles) 16 <=? u32_max)
          "tile map byte length overflows u32"%string).

(** The words of [TileCommandParams]. *)
Definition update_params (self : TileCommandEncoder) (atlas_width atlas_height desktop_width desktop_height
    tile_count capacity : Z) (reference_enabled delta_exact_enabled : bool) : list Z :=
  [atlas_width; atlas_height; desktop_width; desktop_height; tile_count; capacity;
   if reference_enabled then 1 else 0; if delta_exact_enabled then 1 else 0;
   exact_tiles_x self; exact_tiles_y self; 0; 0].

Definition encode_atlas (atlas_texture : picture) (atlas_width atlas_height desktop_width desktop_height
    desktop_format : Z) (tiles : list Tile.TileCommandTile) (allow_delta : bool)
    : M Stream.TileCommandStream :=
  if len tiles =? 0 then lift (empty_stream atlas_width atlas_height) else
  descriptor_count ← lift (if len tiles <=? u32_max then Ok (len tiles)
                           else Err "too many tile descriptors"%string);
  capacity ← lift (command_stream_capacity tiles);
  raw_equivalent_bytes ← lift (raw_equivalent_stream_bytes tiles);
  _ ← ensure_resources atlas_texture desktop_width desktop_height desktop_format descriptor_count capacity;
  _ ← upload_tile_map tiles;
  self ← get;
  let reference_enabled :=
    allow_delta && reference_valid self && (previous_width self =? desktop_width)
    && (previous_height self =? desktop_height) && (previous_format self =? desktop_format) in
  _ ← (if negb reference_enabled || negb allow_delta then modify clear_exact_map else mret tt);
  _ ← upload_exact_map;
  self ← get;
  let params := update_params self atlas_width atlas_height desktop_width desktop_height descriptor_count
                  capacity reference_enabled false in
  all_bytes ← lift (dispatch atlas_texture (previous_texture self) tiles (exact_map self) params);
  stream ← lift (read_mapped_stream all_bytes (output_capacity self) atlas_width atlas_height
                   descriptor_count raw_equivalent_bytes);
  _ ← update_exact_map_from_stream stream;
  mret stream.

Definition commit_reference (desktop_texture : picture) (desktop_width desktop_height desktop_format : Z)
    (emitted_lossy full_lossless_refresh : bool) : M unit :=
  self ← get;
  let previous_reference_exact := reference_valid self && reference_exact self in
  _ ← ensure_reference_texture desktop_width desktop_height desktop_format;
  self ← get;
  _ ← lift (ensure (bool_decide (is_Some (previous_texture self)))
              "delta reference texture unavailable"%string);
  put (set_reference (Some desktop_texture) (previous_width self) (previous_height self)
         (previous_format self) true
         (negb emitted_lossy && (previous_reference_exact || full_lossless_refresh)) self).
End gpu.
End Encoder.

Import Encoder.

(** ** What the map means *)

(** The command draws the pixel. *)
Definition draws (x y : Z) (c : Ref.CommandRef) : bool :=
  in_rect (Ref.desktop_x c) (Ref.desktop_y c) (Ref.width c) (Ref.height c) x y.

(** The last of the commands that draws the pixel. *)
Definition last_drawn (cs : list Ref.CommandRef) (x y : Z) : option Ref.CommandRef :=
  last (List.filter (draws x y) cs).

(** The pixel was last drawn by a command that loses nothing. *)
Definition drawn_exactly (cs : list Ref.CommandRef) (x y : Z) : Prop :=
  exists c, last_drawn cs x y = Some c /\ command_kind_is_exact (Ref.kind c) = true.

Lemma last_drawn_snoc cs c x y :
  last_drawn (cs ++ [c]) x y = if draws x y c then Some c else last_drawn cs x y.
Proof.
  unfold last_drawn. rewrite List.filter_app. cbn [List.filter].
  destruct (draws x y c); [by rewrite last_snoc|by rewrite app_nil_r].
Qed.

(** The slot of a cell. *)
Definition slot (e : TileCommandEncoder) (map : list Z) (tx ty : Z) : option Z :=
  map !! Z.to_nat (ty * exact_tiles_x e + tx).

(** The cell is on the map. *)
Definition cell (e : TileCommandEncoder) (tx ty : Z) : Prop :=
  0 <= tx < exact_tiles_x e /\ 0 <= ty < exact_tiles_y e.

(** The map has a slot for every cell, and the cells make up the desktop. *)
Record shaped (e : TileCommandEncoder) : Prop := {
  sh_x : 0 <= exact_tiles_x e <= u32_max;
  sh_y : 0 <= exact_tiles_y e <= u32_max;
  sh_w : 0 <= exact_desktop_width e <= Z.min (32 * exact_tiles_x e) u32_max;
  sh_h : 0 <= exact_desktop_height e <= Z.min (32 * exact_tiles_y e) u32_max;
  sh_len : len (exact_map e) = exact_tiles_x e * exact_tiles_y e;
  sh_count : exact_tiles_x e * exact_tiles_y e <= u32_max;
}.

(** Every pixel of a marked cell was last drawn exactly. *)
Definition sound (e : TileCommandEncoder) (map : list Z) (cs : list Ref.CommandRef) : Prop :=
  forall x y v, 0 <= x < exact_desktop_width e -> 0 <= y < exact_desktop_height e ->
    slot e map (x / 32) (y / 32) = Some v -> v <> 0 -> drawn_exactly cs x y.

Definition ref_ok (c : Ref.CommandRef) : Prop :=
  0 <= Ref.desktop_x c <= 65535 /\ 0 <= Ref.desktop_y c <= 65535 /\
  0 <= Ref.width c <= 65535 /\ 0 <= Ref.height c <= 65535.

Section mark.
Context (e : TileCommandEncoder) (He : shaped e) (c : Ref.CommandRef) (Hc : ref_ok c).

Lemma pixel_cell x y :
  0 <= x < exact_desktop_width e -> 0 <= y < exact_desktop_height e -> cell e (x / 32) (y / 32).
Proof.
  destruct He. intros Hx Hy. split; (split; [apply Z.div_pos; lia|apply Z.div_lt_upper_bound; lia]).
Qed.

Lemma cell_index tx ty :
  cell e tx ty ->
  saturating_add usize_max (saturating_mul usize_max ty (exact_tiles_x e)) tx = ty * exact_tiles_x e + tx.
Proof.
  destruct He. intros [Hx Hy]. unfold saturating_add, saturating_mul, usize_max, u64_max, u32_max in *.
  assert (0 <= ty * exact_tiles_x e <= exact_tiles_y e * exact_tiles_x e) by nia. lia.
Qed.

Lemma cell_inj tx ty tx' ty' :
  cell e tx ty -> cell e tx' ty' ->
  Z.to_nat (ty * exact_tiles_x e + tx) = Z.to_nat (ty' * exact_tiles_x e + tx') -> tx = tx' /\ ty = ty'.
Proof.
  intros [? ?] [? ?] Hi. assert (ty * exact_tiles_x e + tx = ty' * exact_tiles_x e + tx') as H' by nia.
  destruct (Z.lt_total ty ty') as [Hlt|[->|Hlt]]; [|lia|]; exfalso.
  - assert ((ty + 1) * exact_tiles_x e <= ty' * exact_tiles_x e) by (apply Z.mul_le_mono_nonneg_r; lia). lia.
  - assert ((ty' + 1) * exact_tiles_x e <= ty * exact_tiles_x e) by (apply Z.mul_le_mono_nonneg_r; lia). lia.
Qed.

Abbreviation right_ := (Ref.desktop_x c + Ref.width c).
Abbreviation bottom := (Ref.desktop_y c + Ref.height c).

(** The command covers the part of the cell that is on the desktop. *)
Definition covers (tx ty : Z) : Prop :=
  Ref.desktop_x c <= 32 * tx /\ Ref.desktop_y c <= 32 * ty /\
  Z.min (32 * tx + 32) (exact_desktop_width e) <= right_ /\
  Z.min (32 * ty + 32) (exact_desktop_height e) <= bottom.

(** How one turn changes the slot of a cell. *)
Lemma mark_cell_slot exact m tx ty tx' ty' v :
  cell e tx ty -> cell e tx' ty' -> slot e (mark_cell e c exact right_ bottom m tx' ty') tx ty = Some v -> v <> 0 ->
  (exact = true /\ covers tx ty) \/
  (slot e m tx ty = Some v /\ (exact = true \/ (tx, ty) <> (tx', ty'))).
Proof.
  intros Hcell Hcell' Hs Hv. unfold mark_cell in Hs. rewrite cell_index in Hs by done. unfold slot in *.
  destruct (m !! Z.to_nat (ty' * exact_tiles_x e + tx')) as [u|] eqn:Hm.
  - destruct (decide ((tx, ty) = (tx', ty'))) as [Heq|Hne].
    + injection Heq as <- <-. apply lookup_lt_Some in Hm as Hlt. destruct exact; cbn [negb] in Hs.
      * destruct (_ && _) eqn:Hcov in Hs; [|right; auto]. left. split; [done|].
        unfold covers. destruct He, Hcell. unfold saturating_mul, saturating_add, TILE_SIZE, u32_max in *. lia.
      * rewrite list_lookup_insert_eq in Hs by done. congruence.
    + right. split; [|by right]. rewrite <- Hs.
      assert (Z.to_nat (ty' * exact_tiles_x e + tx') <> Z.to_nat (ty * exact_tiles_x e + tx)).
      { intros Hi. apply cell_inj in Hi as [-> ->]; done. }
      destruct exact; cbn [negb]; [|by rewrite list_lookup_insert_ne].
      destruct (_ && _); by rewrite ?list_lookup_insert_ne.
  - right. split; [done|]. right. intros [= <- <-]. congruence.
Qed.

(** The same for all cells of a list. *)
Lemma mark_cells_slot exact l : forall m tx ty v,
  cell e tx ty -> (forall p, p ∈ l -> cell e p.1 p.2) ->
  slot e (foldl (fun m p => mark_cell e c exact right_ bottom m p.1 p.2) m l) tx ty = Some v -> v <> 0 ->
  (exact = true /\ covers tx ty) \/ (slot e m tx ty = Some v /\ (exact = true \/ (tx, ty) ∉ l)).
Proof.
  induction l as [|p l IH]; intros m tx ty v Hcell Hl Hs Hv; cbn [foldl] in Hs.
  { right. split; [done|]. right. apply not_elem_of_nil. }
  apply IH in Hs as [Hs|[Hs Hor]]; [by left| |done|intros; apply Hl; by right|done].
  apply mark_cell_slot in Hs as [Hs|[Hs Hor']]; [by left| |done|apply Hl; left|done].
  right. split; [done|]. destruct Hor as [|Hnot]; [by left|]. destruct Hor' as [|Hne]; [by left|].
  right. apply not_elem_of_cons. destruct p. by split.
Qed.

Lemma foldl_rows {A B C} (f : A -> B -> C -> A) (xs : list B) (ys : list C) a :
  foldl (fun a y => foldl (fun a x => f a x y) a xs) a ys =
  foldl (fun a p => f a p.1 p.2) a (ys ≫= fun y => (fun x => (x, y)) <$> xs).
Proof.
  revert a; induction ys as [|y ys IH]; intros a; [done|]. cbn. rewrite foldl_app, IH. f_equal.
  clear. revert a; induction xs as [|x xs IH]; intros a; [done|]. apply IH.
Qed.

Lemma elem_of_range a b z : z ∈ range_inclusive a b <-> a <= z <= b.
Proof. unfold range_inclusive. rewrite elem_of_seqZ. lia. Qed.

Lemma mark_cell_length exact m tx ty : length (mark_cell e c exact right_ bottom m tx ty) = length m.
Proof. unfold mark_cell. repeat case_match; rewrite ?length_insert; done. Qed.

Lemma div_range a b z : a <= z < b -> 0 < b -> a / 32 <= z / 32 <= saturating_sub b 1 / 32.
Proof. intros. unfold saturating_sub. split; apply Z.div_le_mono; lia. Qed.

(** The cells that the command touches. *)
Definition touched : list (Z * Z) :=
  range_inclusive (Ref.desktop_y c / 32) (Z.min (saturating_sub bottom 1 / 32) (saturating_sub (exact_tiles_y e) 1))
    ≫= fun y => (fun x => (x, y)) <$>
      range_inclusive (Ref.desktop_x c / 32) (Z.min (saturating_sub right_ 1 / 32) (saturating_sub (exact_tiles_x e) 1)).

Lemma elem_of_touched tx ty :
  (tx, ty) ∈ touched <->
  Ref.desktop_x c / 32 <= tx <= Z.min (saturating_sub right_ 1 / 32) (saturating_sub (exact_tiles_x e) 1) /\
  Ref.desktop_y c / 32 <= ty <= Z.min (saturating_sub bottom 1 / 32) (saturating_sub (exact_tiles_y e) 1).
Proof.
  unfold touched. rewrite list_elem_of_bind. split.
  - intros (y & Hy' & Hyr). apply list_elem_of_fmap in Hy' as (x & [= -> ->] & Hxr).
    apply elem_of_range in Hxr, Hyr. by split.
  - intros [Hxr Hyr]. exists ty. split; [apply list_elem_of_fmap; exists tx; split; [done|]|]; by apply elem_of_range.
Qed.

Lemma touched_cell p : 0 < exact_tiles_x e -> 0 < exact_tiles_y e -> p ∈ touched -> cell e p.1 p.2.
Proof.
  destruct p as [tx ty]. intros ? ? Hp%elem_of_touched. destruct Hc as (? & ? & _).
  pose proof (Z.div_pos (Ref.desktop_x c) 32 ltac:(lia) ltac:(lia)).
  pose proof (Z.div_pos (Ref.desktop_y c) 32 ltac:(lia) ltac:(lia)).
  unfold cell, saturating_sub in *. cbn. lia.
Qed.

Lemma draws_touched x y :
  0 <= x < exact_desktop_width e -> 0 <= y < exact_desktop_height e -> draws x y c = true ->
  (x / 32, y / 32) ∈ touched.
Proof.
  intros Hx Hy Hd. destruct (pixel_cell x y Hx Hy) as [[? ?] [? ?]]. unfold draws, in_rect in Hd.
  pose proof (div_range (Ref.desktop_x c) right_ x ltac:(lia) ltac:(lia)).
  pose proof (div_range (Ref.desktop_y c) bottom y ltac:(lia) ltac:(lia)).
  apply elem_of_touched. unfold saturating_sub in *. lia.
Qed.

Lemma covers_draws x y :
  0 <= x < exact_desktop_width e -> 0 <= y < exact_desktop_height e -> covers (x / 32) (y / 32) ->
  draws x y c = true.
Proof.
  intros Hx Hy (? & ? & ? & ?). unfold draws, in_rect.
  pose proof (Z.div_mod x 32 ltac:(lia)). pose proof (Z.mod_pos_bound x 32 ltac:(lia)).
  pose proof (Z.div_mod y 32 ltac:(lia)). pose proof (Z.mod_pos_bound y 32 ltac:(lia)). lia.
Qed.

Lemma mark_cells_length exact l m :
  length (foldl (fun m p => mark_cell e c exact right_ bottom m p.1 p.2) m l) = length m.
Proof. revert m; induction l as [|p l IH]; intros m; [done|]. cbn [foldl]. by rewrite IH, mark_cell_length. Qed.

(** A command that draws nothing on the map leaves it as it is. *)
Lemma sound_undrawn m cs :
  (forall x y, draws x y c = false) -> sound e m cs -> sound e m (cs ++ [c]).
Proof.
  intros Hn Hs x y v Hx Hy Hv Hv0. destruct (Hs x y v Hx Hy Hv Hv0) as (d & Hd & Hk).
  exists d. by rewrite last_drawn_snoc, Hn.
Qed.

Lemma sound_nil cs : sound e [] cs.
Proof. intros x y v _ _ Hv. unfold slot in Hv. by rewrite lookup_nil in Hv. Qed.

Lemma mark_touched_sound cs :
  0 < exact_tiles_x e -> 0 < exact_tiles_y e -> sound e (exact_map e) cs ->
  sound e (foldl (fun m p => mark_cell e c (command_kind_is_exact (Ref.kind c)) right_ bottom m p.1 p.2)
             (exact_map e) touched) (cs ++ [c]).
Proof.
  intros HX HY Hs x y v Hx Hy Hv Hv0. pose proof (pixel_cell x y Hx Hy) as Hcell.
  unfold drawn_exactly. rewrite last_drawn_snoc.
  apply mark_cells_slot in Hv as [[Hex Hcov]|[Hv Hor]]; [| |done|intros; by apply touched_cell|done].
  - rewrite covers_draws by done. by exists c.
  - destruct (draws x y c) eqn:Hd; [|by apply (Hs x y v)]. exists c. split; [done|].
    destruct Hor as [|Hnot]; [done|]. destruct Hnot. by apply draws_touched.
Qed.

(** Marking a command keeps the map sound. *)
Lemma mark_command_sound cs :
  let e' := mark_command_exactness c (command_kind_is_exact (Ref.kind c)) e in
  sound e (exact_map e) cs -> shaped e' /\ sound e' (exact_map e') (cs ++ [c]).
Proof.
  intros e' Hs. unfold e', mark_command_exactness. pose proof He as [Hx Hy Hw Hh Hlen Hcount].
  destruct (_ || _) eqn:Hempty.
  { split; [done|]. rewrite (len_0_nil (exact_map e)) by nia. apply sound_nil. }
  destruct Hc as (Hcx & Hcy & Hcw & Hch). unfold checked_add, u32_max in *.
  rewrite !(proj2 (Z.leb_le _ _)) by lia. destruct ((Ref.width c =? 0) || (Ref.height c =? 0)) eqn:Hflat.
  { split; [done|]. apply sound_undrawn; [|done]. intros. unfold draws, in_rect. lia. }
  cbv zeta. rewrite foldl_rows. split.
  - constructor; try done. cbn. rewrite <- Hlen. unfold len. f_equal. apply mark_cells_length.
  - apply mark_touched_sound; [lia|lia|done].
Qed.
End mark.

(** ** The encoder keeps the map sound *)

Definition tracks (cs : list Ref.CommandRef) (e : TileCommandEncoder) : Prop :=
  shaped e /\ sound e (exact_map e) cs.

Definition sized (w h : Z) (e : TileCommandEncoder) : Prop :=
  exact_desktop_width e = w /\ exact_desktop_height e = h.

(** Only the map matters. *)
Lemma tracks_same cs e e' :
  exact_map e' = exact_map e -> exact_tiles_x e' = exact_tiles_x e -> exact_tiles_y e' = exact_tiles_y e ->
  exact_desktop_width e' = exact_desktop_width e -> exact_desktop_height e' = exact_desktop_height e ->
  tracks cs e -> tracks cs e'.
Proof.
  intros Hm Hx Hy Hw Hh [[] Hs]. unfold tracks, sound, slot in *. rewrite Hm, Hx, Hw, Hh. split; [|done].
  constructor; congruence.
Qed.

Ltac same_map :=
  match goal with H : tracks _ ?e |- tracks _ _ => apply (tracks_same _ e); [reflexivity..|exact H] end.

Lemma sound_zeros e m cs : Forall (fun v => v = 0) m -> sound e m cs.
Proof.
  intros Hm x y v _ _ Hv Hv0. rewrite Forall_lookup in Hm. by apply Hm in Hv.
Qed.

Lemma tracks_clear cs e : tracks cs e -> tracks cs (clear_exact_map e).
Proof.
  intros [[] _]. split.
  - constructor; try done. cbn. unfold len in *. by rewrite length_map.
  - apply sound_zeros. apply Forall_forall. intros v Hv. apply list_elem_of_In, in_map_iff in Hv.
    by destruct Hv as (? & <- & _).
Qed.

(** The commands of a stream. *)
Definition commands_of (stream : Stream.TileCommandStream) : list Ref.CommandRef :=
  match parse_command_refs (Stream.bytes stream) with Ok cs => cs | _ => [] end.

Lemma parsed_refs_ok bs rs : bytes_ok bs -> parse_command_refs bs = Ok rs -> Forall ref_ok rs.
Proof.
  intros Hbs Hp. apply parse_refs_iff in Hp as (cs & (_ & Hcs & _) & ->); [|done]. generalize 32.
  induction Hcs as [|c cs Hc Hcs IH]; intros off; cbn; constructor; [|apply IH].
  unfold ref_ok. rewrite ref_desktop_x, ref_desktop_y, ref_width, ref_height.
  destruct Hc as (_ & _ & Hd & Hw & _). unfold Owned.desktop_x, Owned.desktop_y, Owned.width, Owned.height.
  auto using lo16_bound, hi16_bound.
Qed.

Lemma wlp_modify f (Q : unit -> TileCommandEncoder -> Prop) R e : Q tt (f e) -> wlp (modify f) Q R e.
Proof. done. Qed.

Ltac enc_step :=
  first [wlp_step | match goal with |- wlp (modify _) _ _ _ => apply wlp_modify; cbv beta end].

Lemma mark_commands_run rs cs e w h :
  Forall ref_ok rs -> tracks cs e -> sized w h e ->
  wlp (for_each (fun c => modify (mark_command_exactness c (command_kind_is_exact (Ref.kind c)))) rs)
    (fun _ e' => tracks (cs ++ rs) e' /\ sized w h e') (fun _ => False) e.
Proof.
  intros Hrs. revert cs e. induction Hrs as [|c rs Hc Hrs IH]; intros cs e [Hsh Hso] Hd; cbn [for_each].
  { wlp_step. by rewrite app_nil_r. }
  repeat enc_step. destruct (mark_command_sound e Hsh c Hc cs Hso) as [Hsh' Hso'].
  replace (cs ++ c :: rs) with ((cs ++ [c]) ++ rs) by by rewrite <- app_assoc.
  apply IH; [by split|]. unfold mark_command_exactness. repeat case_match; done.
Qed.

(** The flag says that every cell is marked. *)
Definition flagged (e : TileCommandEncoder) : Prop :=
  reference_exact e = true -> exact_map e <> [] /\ Forall (fun v => v <> 0) (exact_map e).

Lemma update_exact_map_run stream cs e w h :
  tracks cs e -> sized w h e -> bytes_ok (Stream.bytes stream) ->
  wlp (update_exact_map_from_stream stream)
    (fun _ e' => tracks (cs ++ commands_of stream) e' /\ sized w h e' /\ flagged e') (tracks cs) e.
Proof.
  intros He Hd Hb. unfold update_exact_map_from_stream, commands_of. do 2 wlp_step; [done|].
  rewrite H. apply (parsed_refs_ok _ _ Hb) in H. wlp_step.
  eapply wlp_mono; [by apply mark_commands_run| |done]. intros _ e' [Ht Hd']. enc_step.
  split; [same_map|]. split; [done|]. unfold flagged; cbn. intros [Hne Hall]%andb_prop. split.
  - intros Hn. by rewrite Hn in Hne.
  - apply Forall_forall. intros v Hv. rewrite forallb_forall in Hall. apply list_elem_of_In, Hall in Hv. lia.
Qed.

Lemma modifies_run {A} (g : A -> TileCommandEncoder -> TileCommandEncoder) l e :
  wlp (for_each (fun a => modify (g a)) l) (fun _ _ => True) (fun _ => False) e.
Proof. revert e; induction l as [|a l IH]; intros e; cbn [for_each]; repeat enc_step; [done|apply IH]. Qed.

(** The bytes of a stream are bytes; the encoder's map does not need to know. *)
Lemma update_exact_map_run' stream cs e w h :
  tracks cs e -> sized w h e ->
  wlp (update_exact_map_from_stream stream)
    (fun _ e' => bytes_ok (Stream.bytes stream) ->
       tracks (cs ++ commands_of stream) e' /\ sized w h e' /\ flagged e') (tracks cs) e.
Proof.
  intros He Hd. destruct (decide (Forall (fun b => 0 <= b <= u8_max) (Stream.bytes stream))) as [Hb|Hb].
  - eapply wlp_mono; [by apply update_exact_map_run|done..].
  - unfold update_exact_map_from_stream. do 2 enc_step; [done|]. enc_step.
    eapply wlp_mono; [apply modifies_run| |done]. intros _ e' _. enc_step. intros Hb'. by destruct Hb.
Qed.

Section encode.
Context (create_atlas_view : picture -> res anyhow unit) (create_raw_buffer : Z -> res anyhow unit).
Context (create_texture : Z -> Z -> Z -> res anyhow picture).
Context (dispatch : picture -> option picture -> list Tile.TileCommandTile -> list Z -> list Z ->
                    res anyhow (list Z)).

Lemma ensure_reference_run cs e P w h f :
  (forall tx W H F v x e, P e -> P (set_reference tx W H F v x e)) -> P e -> tracks cs e ->
  wlp (ensure_reference_texture create_texture w h f) (fun _ e' => tracks cs e' /\ P e') (tracks cs) e.
Proof.
  intros HP Hp He. unfold ensure_reference_texture. repeat wlp_step. case_match; repeat enc_step; try done.
  split; [same_map|auto].
Qed.

(** A new map is blank. *)
Lemma tracks_new_map cs e w h n b c :
  is_u32 w -> is_u32 h ->
  checked_mul u32_max (Z.max (div_ceil w TILE_SIZE) 1) (Z.max (div_ceil h TILE_SIZE) 1) = Some n ->
  tracks cs (set_exact_map (zeros n) (Z.max (div_ceil w TILE_SIZE) 1) (Z.max (div_ceil h TILE_SIZE) 1) w h b c e).
Proof.
  intros [? ?] [? ?] Hn. unfold checked_mul in Hn. case_match; [|done]. injection Hn as <-.
  pose proof (div_ceil_spec w 32 ltac:(lia) ltac:(lia)). pose proof (div_ceil_spec h 32 ltac:(lia) ltac:(lia)).
  unfold TILE_SIZE, u32_max in *. split; [|apply sound_zeros, Forall_replicate; done].
  constructor; cbn; unfold u32_max; try lia. rewrite zeros_len; nia.
Qed.

Lemma ensure_exact_map_run cs e w h :
  is_u32 w -> is_u32 h -> tracks cs e ->
  wlp (ensure_exact_map create_raw_buffer w h) (fun _ e' => tracks cs e' /\ sized w h e') (tracks cs) e.
Proof.
  intros Hw Hh He. unfold ensure_exact_map. do 2 enc_step; [done|]. repeat enc_step.
  apply ok_or_ok_inv in H. match goal with |- context [if ?b then set_exact_map _ _ _ _ _ _ _ _ else _] =>
    destruct b eqn:Hb end.
  - pose proof (tracks_new_map cs e w h a false 0 Hw Hh H). case_match; repeat enc_step; try done.
    split; [same_map|done].
  - assert (sized w h e) by (split; lia). case_match; repeat enc_step; try done.
    split; [same_map|done].
Qed.

Lemma ensure_resources_run cs e tex w h f n cap :
  is_u32 w -> is_u32 h -> tracks cs e ->
  wlp (ensure_resources create_atlas_view create_raw_buffer create_texture tex w h f n cap)
    (fun _ e' => tracks cs e' /\ sized w h e') (tracks cs) e.
Proof.
  intros Hw Hh He. unfold ensure_resources. do 2 enc_step; [done|]. enc_step.
  eapply wlp_mono; [by apply (ensure_reference_run cs e (fun _ => True))| |done]. intros _ e1 [He1 _]. enc_step.
  eapply wlp_mono; [by apply ensure_exact_map_run| |done]. intros _ e2 [He2 Hd2]. repeat enc_step.
  repeat (case_match; repeat enc_step; try done); try same_map; (split; [same_map|done]).
Qed.

(** A frame: the commands of the stream are remembered, and if the flag says so the
    viewer shows the whole desktop exactly. *)
Lemma encode_atlas_run cs e tex aw ah w h f tiles delta :
  is_u32 w -> is_u32 h -> tracks cs e -> tiles <> [] ->
  wlp (encode_atlas create_atlas_view create_raw_buffer create_texture dispatch tex aw ah w h f tiles delta)
    (fun stream e' => bytes_ok (Stream.bytes stream) ->
       tracks (cs ++ commands_of stream) e' /\ sized w h e' /\ flagged e') (tracks cs) e.
Proof.
  intros Hw Hh He Hne. unfold encode_atlas. rewrite (proj2 (Z.eqb_neq (len tiles) 0)).
  2: { intros H0. by apply len_0_nil in H0. }
  do 2 enc_step; [done|]. do 2 enc_step; [done|]. do 2 enc_step; [done|]. enc_step.
  eapply wlp_mono; [by apply ensure_resources_run| |done]. intros _ e1 [He1 Hd1]. enc_step.
  unfold upload_tile_map. do 3 enc_step. enc_step; [done|]. enc_step; [done|]. do 3 enc_step.
  apply (wlp_mono _ (fun _ e' => tracks cs e' /\ sized w h e') _ (tracks cs)); [| |done].
  { destruct (negb _ || negb delta); enc_step; [|done]. split; [by apply tracks_clear|done]. }
  intros _ e2 [He2 Hd2]. unfold upload_exact_map. do 4 enc_step.
  enc_step; [done|]. enc_step; [done|]. do 2 enc_step. do 2 enc_step; [done|]. do 2 enc_step; [done|]. enc_step.
  eapply wlp_mono; [by apply update_exact_map_run'| |done]. intros ? e3 He3. by enc_step.
Qed.

Lemma commit_reference_run cs e tex w h f lossy full :
  tracks cs e ->
  wlp (commit_reference create_texture tex w h f lossy full) (fun _ => tracks cs) (tracks cs) e.
Proof.
  intros He. unfold commit_reference. do 3 enc_step.
  eapply wlp_mono; [by apply (ensure_reference_run cs e (fun _ => True))| |done]. intros _ e1 [He1 _].
  repeat enc_step; [done|same_map].
Qed.

Lemma empty_stream_commands aw ah stream : empty_stream (E:=anyhow) aw ah = Ok stream -> commands_of stream = [].
Proof.
  unfold empty_stream, build_empty_stream.
  change (vec_zeroed TILE_COMMAND_STREAM_HEADER_BYTES) with (Ok (E:=anyhow) (zeros 32 ++ [])). rewrite bind_Ok.
  unfold TILE_COMMAND_STREAM_HEADER_BYTES. rewrite write_stream_header_built by done. rewrite bind_Ok. intros H. apply Ok_inj in H as <-.
  unfold commands_of; cbn [Stream.bytes].
  assert (bytes_ok (stream_header aw ah 0 32 0 ++ [])) as Hb by (rewrite app_nil_r; apply stream_header_ok).
  assert (parse_command_refs (stream_header aw ah 0 32 0 ++ []) = Ok []) as ->; [|done].
  apply (parse_refs_iff _ _ Hb). exists []. split; [|done]. by apply (built_stream_of aw ah 0 0 32 []).
Qed.

(** ** All that can happen *)

(** The encoder after any calls, with the commands of all streams that it returned.
    A call that failed may have changed the encoder. *)
Inductive encoder_run : list Ref.CommandRef -> TileCommandEncoder -> Prop :=
| run_new : encoder_run [] new
| run_encode cs e e' tex aw ah w h f tiles delta stream :
    encoder_run cs e -> is_u32 w -> is_u32 h -> bytes_ok (Stream.bytes stream) ->
    encode_atlas create_atlas_view create_raw_buffer create_texture dispatch tex aw ah w h f tiles delta e
      = (e', Ok stream) ->
    encoder_run (cs ++ commands_of stream) e'
| run_encode_err cs e e' tex aw ah w h f tiles delta x :
    encoder_run cs e -> is_u32 w -> is_u32 h ->
    encode_atlas create_atlas_view create_raw_buffer create_texture dispatch tex aw ah w h f tiles delta e
      = (e', Err x) ->
    encoder_run cs e'
| run_commit cs e e' tex w h f lossy full r :
    encoder_run cs e -> safe r -> commit_reference create_texture tex w h f lossy full e = (e', r) ->
    encoder_run cs e'
| run_reset cs e e' r :
    encoder_run cs e -> reset_tile_cache e = (e', r) -> encoder_run cs e'.

Lemma encoder_run_tracks cs e : encoder_run cs e -> tracks cs e.
Proof.
  induction 1 as [|cs e e' tex aw ah w h f tiles delta stream _ IH Hw Hh Hb He
                  |cs e e' tex aw ah w h f tiles delta x _ IH Hw Hh He
                  |cs e e' tex w h f lossy full r _ IH Hsafe He|cs e e' r _ IH He].
  - split; [by constructor|]. intros x y v Hx. cbn in Hx. lia.
  - destruct (decide (tiles = [])) as [->|Hne].
    + apply pair_equal_spec in He as [<- He]. by rewrite (empty_stream_commands _ _ _ He), app_nil_r.
    + pose proof (encode_atlas_run cs e tex aw ah w h f tiles delta Hw Hh IH Hne) as Hrun.
      unfold wlp in Hrun. rewrite He in Hrun. by apply Hrun.
  - destruct (decide (tiles = [])) as [->|Hne].
    + unfold encode_atlas in He. cbn in He. by injection He as <- _.
    + pose proof (encode_atlas_run cs e tex aw ah w h f tiles delta Hw Hh IH Hne) as Hrun.
      unfold wlp in Hrun. by rewrite He in Hrun.
  - pose proof (commit_reference_run cs e tex w h f lossy full IH) as Hrun. unfold wlp in Hrun.
    rewrite He in Hrun. by destruct r.
  - injection He as <- _. apply tracks_clear. same_map.
Qed.
End encode.

(** C19. Whatever calls the encoder saw, failed ones included: every pixel of a cell
    that the map marks as exact was last drawn, by the commands of all returned
    streams, by a command that loses nothing.  After a frame with tiles whose encoding
    sets the flag for the whole reference, this holds of every pixel of the desktop. *)
Theorem exact_map_sound create_atlas_view create_raw_buffer create_texture dispatch cs e :
  encoder_run create_atlas_view create_raw_buffer create_texture dispatch cs e ->
  (forall x y v, 0 <= x < exact_desktop_width e -> 0 <= y < exact_desktop_height e ->
     exact_map e !! Z.to_nat (y / 32 * exact_tiles_x e + x / 32) = Some v -> v <> 0 ->
     drawn_exactly cs x y) /\
  (forall tex aw ah w h f tiles delta stream e', is_u32 w -> is_u32 h -> tiles <> [] ->
     bytes_ok (Stream.bytes stream) ->
     encode_atlas create_atlas_view create_raw_buffer create_texture dispatch tex aw ah w h f tiles delta e
       = (e', Ok stream) ->
     reference_exact e' = true ->
     forall x y, 0 <= x < w -> 0 <= y < h -> drawn_exactly (cs ++ commands_of stream) x y).
Proof.
  intros He%encoder_run_tracks. split; [apply He|].
  intros tex aw ah w h f tiles delta stream e' Hw Hh Hne Hb Henc Hex x y Hx Hy.
  pose proof (encode_atlas_run create_atlas_view create_raw_buffer create_texture dispatch cs e tex aw ah w h f
    tiles delta Hw Hh He Hne) as Hrun.
  unfold wlp in Hrun. rewrite Henc in Hrun. destruct (Hrun Hb) as ([Hsh Hso] & [<- <-] & Hfl).
  destruct (Hfl Hex) as [_ Hall]. pose proof (pixel_cell e' Hsh x y Hx Hy) as [Hcx Hcy]. destruct Hsh.
  destruct (lookup_lt_is_Some_2 (exact_map e') (Z.to_nat (y / 32 * exact_tiles_x e' + x / 32))) as [v Hv].
  { unfold len in sh_len0. nia. }
  apply (Hso x y v Hx Hy Hv). rewrite Forall_lookup in Hall. by apply Hall in Hv.
Qed.

(** A desktop of two pixels, drawn by one command. *)
Definition two_pixels : Owned.OwnedCommand :=
  {| Owned.kind := TILE_COMMAND_RAW_BGRA; Owned.atlas_xy := 0; Owned.desktop_xy := 0;
     Owned.wh := pack_xy 2 1; Owned.changed_count := 2; Owned.payload := [1; 2; 3; 255; 4; 5; 6; 255] |}.

Definition two_pixel_tile : Tile.TileCommandTile :=
  {| Tile.atlas_xy := 0; Tile.desktop_xy := 0; Tile.wh := pack_xy 2 1; Tile.flags := 0 |}.

Definition two_pixel_card (_ : picture) (_ : option picture) (_ : list Tile.TileCommandTile)
    (_ _ : list Z) : res anyhow (list Z) :=
  Ok (stream_header 32 32 1 64 1 ++ enc_command two_pixels).

Lemma exact_map_sound_witness :
  exists e' stream,
    encode_atlas (fun _ => Ok tt) (fun _ => Ok tt) (fun _ _ _ => Ok black) two_pixel_card black 32 32 2 1 87
      [two_pixel_tile] true new = (e', Ok stream) /\
    exact_map e' = [1] /\ reference_exact e' = true /\
    drawn_exactly (commands_of stream) 0 0 /\ drawn_exactly (commands_of stream) 1 0.
Proof.
  eexists _, _. split; [vm_compute; reflexivity|]. split; [reflexivity|]. split; [reflexivity|].
  pose proof (exact_map_sound (fun _ => Ok tt) (fun _ => Ok tt) (fun _ _ _ => Ok black) two_pixel_card [] new
    (run_new _ _ _ _)) as [_ H].
  split; (eapply (H black 32 32 2 1 87 [two_pixel_tile] true);
    [by vm_compute|by vm_compute|discriminate| |vm_compute; reflexivity|reflexivity|lia|lia]; bytes_check).
Defined.
