(* ===== verification/Atlas.v ===== *)
(** The capture side of the display stream: which rectangles of a captured frame
    are sent and where they lie in the atlas texture
    (apps/talos_worker_helper/src/atlas.rs, dxgi_capture.rs, dump.rs).  Dirty
    rectangles are merged when that costs little, split at the texture limit,
    packed on shelves of an atlas and cut into tiles.  The graphics card, which
    copies the pixels and encodes the tiles, is a parameter. *)

From S2P Require Import Prelude Bytes Pixels TileStream TileMerge.

Local Open Scope Z_scope.

Module Atlas.
Record DirtyRect := { left : Z; top : Z; right : Z; bottom : Z }.
Record RectU32 := { x : Z; y : Z; w : Z; h : Z }.
Record DumpDirtyRect := { desktop : RectU32; atlas_rect : RectU32 }.
Record PackedRect := { source : DirtyRect; atlas : RectU32 }.
Record PackedAtlas := { width : Z; height : Z; rects : list PackedRect }.

Definition normalize_dirty_rect (left top right bottom : Z) : option DirtyRect :=
  let left := Z.max left 0 in
  let top := Z.max top 0 in
  let right := Z.max right 0 in
  let bottom := Z.max bottom 0 in
  if (right <=? left) || (bottom <=? top) then None
  else Some {| left := left; top := top; right := right; bottom := bottom |}.

(** ** Merging *)

Definition DIRTY_RECT_MERGE_MAX_AREA_GROWTH_NUMERATOR : Z := 5.
Definition DIRTY_RECT_MERGE_MAX_AREA_GROWTH_DENOMINATOR : Z := 4.

Definition dirty_rect_area (rect : DirtyRect) : Z :=
  saturating_sub (right rect) (left rect) * saturating_sub (bottom rect) (top rect).

Definition union_dirty_rect (a b : DirtyRect) : DirtyRect :=
  {| left := Z.min (left a) (left b);
     top := Z.min (top a) (top b);
     right := Z.max (right a) (right b);
     bottom := Z.max (bottom a) (bottom b) |}.

Definition rects_touch_or_overlap (a b : DirtyRect) : bool :=
  (left a <=? right b) && (left b <=? right a) && (top a <=? bottom b) && (top b <=? bottom a).

Definition should_merge_dirty_rects (a b : DirtyRect) : bool :=
  if negb (rects_touch_or_overlap a b) then false
  else
    let combined_area := saturating_add u64_max (dirty_rect_area a) (dirty_rect_area b) in
    let union := union_dirty_rect a b in
    let union_area := dirty_rect_area union in
    saturating_mul u64_max union_area DIRTY_RECT_MERGE_MAX_AREA_GROWTH_DENOMINATOR
      <=? saturating_mul u64_max combined_area DIRTY_RECT_MERGE_MAX_AREA_GROWTH_NUMERATOR.

(** [rects.sort_by_key(|rect| (rect.top, rect.left, rect.bottom, rect.right))] *)
Definition sort_rects (rects : list DirtyRect) : list DirtyRect :=
  snd <$> sort_by_key (map (fun r => ([top r; left r; bottom r; right r], r)) rects).

(** [merged.iter().position(p)] *)
Fixpoint position {A} (p : A -> bool) (l : list A) : option nat :=
  match l with
  | [] => None
  | a :: l => if p a then Some 0%nat else S <$> position p l
  end.

(** [merged.swap_remove(index)]: the last element takes the place of the removed. *)
Definition swap_remove {A} (l : list A) (i : nat) : option (A * list A) :=
  match l !! i, last l with
  | Some a, Some z => Some (a, take (length l - 1) (<[i := z]> l))
  | _, _ => None
  end.

(** The [while let] loop of one rectangle; every turn removes one of [merged]. *)
Fixpoint absorb (fuel : nat) (merged : list DirtyRect) (pending : DirtyRect)
    : res anyhow (list DirtyRect) :=
  match fuel with
  | O => Fuel
  | S fuel =>
      match position (fun existing => should_merge_dirty_rects existing pending) merged with
      | None => Ok (merged ++ [pending])
      | Some index =>
          '(existing, merged) ← or_panic (swap_remove merged index);
          absorb fuel merged (union_dirty_rect existing pending)
      end
  end.

Definition coalesce_dirty_rects (rects : list DirtyRect) : res anyhow (list DirtyRect) :=
  merged ← foldM (fun merged rect => absorb (S (length merged)) merged rect) [] (sort_rects rects);
  Ok (sort_rects merged).

(** ** Splitting at the texture limit *)

(** The two [while] loops; a turn goes forward by at least one. *)
Fixpoint split_row (fuel : nat) (limit left rect_right top bottom : Z)
    : res anyhow (list DirtyRect) :=
  match fuel with
  | O => Fuel
  | S fuel =>
      if left <? rect_right then
        let right := Z.min (saturating_add u32_max left limit) rect_right in
        rest ← split_row fuel limit right rect_right top bottom;
        Ok ({| left := left; top := top; right := right; bottom := bottom |} :: rest)
      else Ok []
  end.

(** Enough turns to cover a length in steps of [limit]. *)
Definition turns (limit length : Z) : nat := Z.to_nat (length / limit + 2).

Fixpoint split_rows (fuel : nat) (limit top : Z) (rect : DirtyRect) : res anyhow (list DirtyRect) :=
  match fuel with
  | O => Fuel
  | S fuel =>
      if top <? bottom rect then
        let bottom_ := Z.min (saturating_add u32_max top limit) (bottom rect) in
        row ← split_row (turns limit (right rect - left rect)) limit (left rect) (right rect) top
                bottom_;
        rest ← split_rows fuel limit bottom_ rect;
        Ok (row ++ rest)
      else Ok []
  end.

Definition split_rects_to_texture_limit (rects : list DirtyRect) (texture_size_limit : Z)
    : res anyhow (list DirtyRect) :=
  let limit := Z.max texture_size_limit 1 in
  foldM (fun split rect =>
    pieces ← split_rows (turns limit (bottom rect - top rect)) limit (top rect) rect;
    Ok (split ++ pieces)) [] rects.

(** ** Packing *)

Definition align_to_tile (value : Z) : Z :=
  saturating_mul u32_max (div_ceil value TILE_SIZE) TILE_SIZE.

Record shelf := { current_x : Z; current_y : Z; row_height : Z; packed : list PackedRect }.

Definition pack_rect (atlas_width : Z) (s : shelf) (rect : DirtyRect) : shelf :=
  let width := wrap_u32 (right rect - left rect) in
  let height := wrap_u32 (bottom rect - top rect) in
  let packed_width := align_to_tile width in
  let packed_height := align_to_tile height in
  let s :=
    if (0 <? current_x s) && (atlas_width <? saturating_add u32_max (current_x s) packed_width)
    then {| current_x := 0; current_y := saturating_add u32_max (current_y s) (row_height s);
            row_height := 0; packed := packed s |}
    else s in
  {| current_x := saturating_add u32_max (current_x s) packed_width;
     current_y := current_y s;
     row_height := Z.max (row_height s) packed_height;
     packed := packed s ++ [{| source := rect;
                               atlas := {| x := current_x s; y := current_y s;
                                           w := width; h := height |} |}] |}.

Definition pack_shelf (rects : list DirtyRect) (texture_size_limit : Z) : res anyhow PackedAtlas :=
  sum ← foldM (fun sum rect =>
          ok_or (checked_add u32_max sum (align_to_tile (saturating_sub (right rect) (left rect))))
            "atlas width overflow"%string) 0 rects;
  let atlas_width := Z.max (Z.min sum texture_size_limit) 1 in
  let s := foldl (pack_rect atlas_width)
             {| current_x := 0; current_y := 0; row_height := 0; packed := [] |} rects in
  Ok {| width := atlas_width;
        height := Z.max (saturating_add u32_max (current_y s) (row_height s)) 1;
        rects := packed s |}.

(** ** Tiles *)

Definition build_rect_descriptors (descriptors : list Tile.TileCommandTile) (rect : PackedRect)
    : res anyhow (list Tile.TileCommandTile) :=
  let width := wrap_u32 (right (source rect) - left (source rect)) in
  let height := wrap_u32 (bottom (source rect) - top (source rect)) in
  let tiles_x := div_ceil width TILE_SIZE in
  let tiles_y := div_ceil height TILE_SIZE in
  foldM (fun descriptors tile_y =>
    let y_offset := wrap_u32 (tile_y * TILE_SIZE) in
    let tile_height := Z.min TILE_SIZE (wrap_u32 (height - y_offset)) in
    foldM (fun descriptors tile_x =>
      let x_offset := wrap_u32 (tile_x * TILE_SIZE) in
      let tile_width := Z.min TILE_SIZE (wrap_u32 (width - x_offset)) in
      tile ← Tile.new (wrap_u32 (x (atlas rect) + x_offset)) (wrap_u32 (y (atlas rect) + y_offset))
               (wrap_u32 (left (source rect) + x_offset)) (wrap_u32 (top (source rect) + y_offset))
               tile_width tile_height;
      Ok (descriptors ++ [tile])) descriptors (seqZ 0 tiles_x)) descriptors (seqZ 0 tiles_y).

Definition build_tile_command_descriptors (rects : list PackedRect)
    : res anyhow (list Tile.TileCommandTile) :=
  foldM build_rect_descriptors [] rects.

(** ** From a captured frame to an encoded atlas *)

Definition CONSERVATIVE_MAX_TEXTURE_SIZE : Z := 16384.

(** The feature levels of Direct3D are the numbers of its headers. *)
Definition max_texture_size_for_device (feature_level : Z) : Z :=
  if 0xb000 <=? feature_level then CONSERVATIVE_MAX_TEXTURE_SIZE
  else if 0xa000 <=? feature_level then 8192
  else if 0x9300 <=? feature_level then 4096
  else 2048.

Definition DXGI_FORMAT_B8G8R8A8_UNORM : Z := 87.
Definition DXGI_FORMAT_B8G8R8A8_UNORM_SRGB : Z := 91.

Definition ensure_bgra_format (format : Z) : res anyhow unit :=
  ensure ((format =? DXGI_FORMAT_B8G8R8A8_UNORM) || (format =? DXGI_FORMAT_B8G8R8A8_UNORM_SRGB))
    "unsupported DXGI atlas dump format"%string.

(** A captured frame: its size, its texture and the device that holds it. *)
Record CapturedFrame := {
  frame_width : Z;
  frame_height : Z;
  format : Z;
  feature_level : Z;
  texture : picture;
}.

Definition full_desktop_dirty_rect (width height : Z) : DirtyRect :=
  {| left := 0; top := 0; right := width; bottom := height |}.

(** [source_rects.retain(..)] *)
Definition in_frame (frame : CapturedFrame) (rect : DirtyRect) : bool :=
  (left rect <? right rect) && (top rect <? bottom rect)
  && (right rect <=? frame_width frame) && (bottom rect <=? frame_height frame).

Definition prepare_rects (frame : CapturedFrame) (dirty_rects : list DirtyRect)
    (force_full_frame : bool) (texture_size_limit : Z) : res anyhow (list DirtyRect) :=
  let source_rects :=
    if force_full_frame then [full_desktop_dirty_rect (frame_width frame) (frame_height frame)]
    else dirty_rects in
  let source_rects := List.filter (in_frame frame) source_rects in
  source_rects ← (if force_full_frame then Ok source_rects else coalesce_dirty_rects source_rects);
  split_rects_to_texture_limit source_rects texture_size_limit.

(** The packed rectangles, and why the whole frame was packed if it was. *)
Definition pack_rects (frame : CapturedFrame) (source_rects : list DirtyRect)
    (force_full_frame : bool) (texture_size_limit : Z) : res anyhow (PackedAtlas * option string) :=
  packed ← pack_shelf source_rects texture_size_limit;
  let fallback := if force_full_frame then Some "initial_full_frame"%string else None in
  '(packed, fallback) ←
    (if (texture_size_limit <? width packed) || (texture_size_limit <? height packed) then
       source_rects ← split_rects_to_texture_limit
                        [full_desktop_dirty_rect (frame_width frame) (frame_height frame)]
                        texture_size_limit;
       packed ← pack_shelf source_rects texture_size_limit;
       Ok (packed, Some "atlas_overflow_full_frame"%string)
     else Ok (packed, fallback));
  _ ← ensure ((width packed <=? texture_size_limit) && (height packed <=? texture_size_limit))
        "atlas dimensions exceed D3D feature-level texture limit"%string;
  Ok (packed, fallback).

(** [ClearRenderTargetView] and the [CopySubresourceRegion] of every rectangle. *)
Definition copy_rects_to_texture (frame : CapturedFrame) (rects : list PackedRect) : picture :=
  foldl (fun atlas_texture rect =>
    blit (texture frame) (left (source rect)) (top (source rect)) (x (atlas rect)) (y (atlas rect))
      (right (source rect) - left (source rect)) (bottom (source rect) - top (source rect))
      atlas_texture) black rects.

Record AtlasReadback := {
  atlas_width : Z;
  atlas_height : Z;
  dirty_rects : list DumpDirtyRect;
  tile_commands : Stream.TileCommandStream;
  fallback_reason : option string;
}.

Definition emitted_rect (rect : Rect.TileCommandCopyRect) : DumpDirtyRect :=
  {| desktop := {| x := Rect.desktop_x rect; y := Rect.desktop_y rect;
                   w := Rect.width rect; h := Rect.height rect |};
     atlas_rect := {| x := Rect.atlas_x rect; y := Rect.atlas_y rect;
                      w := Rect.width rect; h := Rect.height rect |} |}.

Section encoder.
(** The tile encoder, which runs on the graphics card: texture, atlas size, desktop
    size, format, tiles, and whether commands may refer to the previous frame. *)
Context (encode_atlas : picture -> Z -> Z -> Z -> Z -> Z -> list Tile.TileCommandTile -> bool ->
           res anyhow Stream.TileCommandStream).

(** Without the optional copy of the atlas back into memory, which only the dump
    tool asks for, and the timings. *)
Definition copy_dirty_rects_to_compact_atlas (frame : CapturedFrame)
    (dirty_rects_ : list DirtyRect) (force_full_frame allow_delta : bool) : res anyhow AtlasReadback :=
  _ ← ensure_bgra_format (format frame);
  let texture_size_limit := max_texture_size_for_device (feature_level frame) in
  source_rects ← prepare_rects frame dirty_rects_ force_full_frame texture_size_limit;
  match source_rects with
  | [] =>
      stream ← empty_stream 1 1;
      Ok {| atlas_width := 1; atlas_height := 1; dirty_rects := []; tile_commands := stream;
            fallback_reason := None |}
  | _ =>
      '(packed, fallback) ← pack_rects frame source_rects force_full_frame texture_size_limit;
      let atlas_texture := copy_rects_to_texture frame (rects packed) in
      tile_descriptors ← build_tile_command_descriptors (rects packed);
      stream ← encode_atlas atlas_texture (width packed) (height packed) (frame_width frame)
                 (frame_height frame) (format frame) tile_descriptors allow_delta;
      Ok {| atlas_width := width packed; atlas_height := height packed;
            dirty_rects := emitted_rect <$> Stream.copy_rects stream;
            tile_commands := stream; fallback_reason := fallback |}
  end.
End encoder.
End Atlas.

Import Atlas.

(** ** Lists whose elements are pairwise related *)

Section pairs.
Context {A : Type} (R : A -> A -> Prop).

Lemma FOP_app l1 l2 :
  ForallOrdPairs R l1 -> ForallOrdPairs R l2 -> (forall a b, a ∈ l1 -> b ∈ l2 -> R a b) ->
  ForallOrdPairs R (l1 ++ l2).
Proof.
  intros H1 H2 H12. induction H1 as [|a l Ha H1 IH]; cbn; [done|]. constructor.
  - apply Forall_app. split; [done|]. apply Forall_forall. intros b Hb. apply H12; [left|done].
  - apply IH. intros; apply H12; [by right|done].
Qed.

Lemma FOP_one a : ForallOrdPairs R [a].
Proof. repeat constructor. Qed.

Lemma FOP_snoc l a : ForallOrdPairs R l -> (forall b, b ∈ l -> R b a) -> ForallOrdPairs R (l ++ [a]).
Proof.
  intros Hl Ha. apply FOP_app; [done|apply FOP_one|]. intros b c Hb Hc.
  apply list_elem_of_singleton in Hc as ->. auto.
Qed.

Lemma FOP_concat {B} (f : B -> list A) (bs : list B) :
  (forall b, b ∈ bs -> ForallOrdPairs R (f b)) ->
  ForallOrdPairs (fun b c => forall x y, x ∈ f b -> y ∈ f c -> R x y) bs ->
  ForallOrdPairs R (bs ≫= f).
Proof.
  intros Hf. induction 1 as [|b l Hb Hl IH]; cbn; [constructor|]. apply FOP_app.
  - apply Hf. left.
  - apply IH. intros; apply Hf. by right.
  - intros x y Hx Hy. apply list_elem_of_bind in Hy as (c & Hy & Hc).
    rewrite Forall_forall in Hb. by apply (Hb c).
Qed.

Lemma FOP_seqZ {B} (f : Z -> B) (Q : B -> B -> Prop) m n :
  (forall i j, m <= i < j -> j < m + n -> Q (f i) (f j)) -> ForallOrdPairs Q (f <$> seqZ m n).
Proof.
  intros HQ. destruct (decide (0 <= n)) as [Hn|]; [|rewrite seqZ_nil by lia; constructor].
  revert m HQ. pattern n. apply natlike_ind; [..|done].
  - intros m _. rewrite seqZ_nil by lia. constructor.
  - intros k Hk IH m HQ. rewrite seqZ_cons by lia. cbn. replace (Z.pred (Z.succ k)) with k by lia.
    constructor.
    + apply Forall_forall. intros b Hb. apply list_elem_of_fmap in Hb as (j & -> & Hj).
      apply elem_of_seqZ in Hj. apply HQ; lia.
    + apply IH. intros; apply HQ; lia.
Qed.

Lemma FOP_perm l l' :
  (forall a b, R a b -> R b a) -> l ≡ₚ l' -> ForallOrdPairs R l -> ForallOrdPairs R l'.
Proof.
  intros Hsym. induction 1 as [|c l l' Hl IH|c d l|l1 l2 l3 H12 IH1 H23 IH2]; intros HR; auto.
  - inversion HR; subst. constructor; [by rewrite <- Hl|auto].
  - inversion HR as [|? ? Hc HR']; subst. inversion HR'; subst. apply Forall_cons in Hc as [? ?].
    constructor; [constructor; auto|by constructor].
Qed.
End pairs.

Lemma position_some {A} (p : A -> bool) l i :
  position p l = Some i -> exists a, l !! i = Some a /\ p a = true.
Proof.
  revert i; induction l as [|b l IH]; intros i; cbn; [done|]. destruct (p b) eqn:Hb.
  - intros [= <-]. by exists b.
  - destruct (position p l) as [j|]; cbn; [|done]. intros [= <-]. by apply IH.
Qed.

Lemma position_none {A} (p : A -> bool) l : position p l = None -> Forall (fun a => p a = false) l.
Proof.
  induction l as [|b l IH]; cbn; [done|]. destruct (p b) eqn:Hb; [done|].
  destruct (position p l); cbn; [done|]. auto.
Qed.

Lemma swap_remove_perm {A} (l : list A) i a :
  l !! i = Some a -> exists l', swap_remove l i = Some (a, l') /\ l ≡ₚ a :: l'.
Proof.
  intros Hi. unfold swap_remove. rewrite Hi.
  destruct l as [|z0 l0 _] using rev_ind; [done|]. rewrite last_snoc. eexists; split; [done|].
  rewrite length_app, Nat.add_sub. apply lookup_app_Some in Hi as [Hi|[Hle Hi]].
  - rewrite insert_app_l by by eapply lookup_lt_Some.
    rewrite take_app_le by (rewrite length_insert; lia).
    rewrite take_ge by (rewrite length_insert; lia).
    assert (i < length l0)%nat by by eapply lookup_lt_Some.
    rewrite insert_take_drop by done. rewrite <- (take_drop_middle l0 i a Hi) at 1.
    rewrite <- !app_assoc. cbn. rewrite <- !Permutation_middle. by rewrite app_nil_r.
  - rewrite list_lookup_singleton in Hi. destruct (i - length l0)%nat eqn:Hx; [|done].
    injection Hi as ->. replace i with (length l0) by lia.
    rewrite insert_app_r_alt by lia. rewrite Nat.sub_diag. cbn. rewrite take_app_length.
    by rewrite Permutation_app_comm.
Qed.

(** ** Rectangles as sets of pixels *)

Definition inside_rect (r : DirtyRect) (px py : Z) : Prop :=
  left r <= px < right r /\ top r <= py < bottom r.

Definition covered (l : list DirtyRect) (px py : Z) : Prop := exists r, r ∈ l /\ inside_rect r px py.

(** A rectangle with at least one pixel, inside a desktop. *)
Definition within (W H : Z) (r : DirtyRect) : Prop :=
  0 <= left r < right r /\ right r <= W /\ 0 <= top r < bottom r /\ bottom r <= H.

Lemma covered_cons r l px py : covered (r :: l) px py <-> inside_rect r px py \/ covered l px py.
Proof.
  unfold covered. split.
  - intros (r' & Hr & Hin). apply elem_of_cons in Hr as [->|Hr]; eauto.
  - intros [Hin|(r' & Hr & Hin)]; [exists r|exists r']; split; try done; [left|by right].
Qed.

Lemma covered_app l l' px py : covered (l ++ l') px py <-> covered l px py \/ covered l' px py.
Proof.
  induction l as [|r l IH]; cbn.
  - split; [by right|]. intros [(r & Hr & _)|]; [by apply elem_of_nil in Hr|done].
  - rewrite !covered_cons, IH. tauto.
Qed.

Lemma covered_nil px py : ~ covered [] px py.
Proof. intros (r & Hr & _). by apply elem_of_nil in Hr. Qed.

#[export] Instance covered_proper : Proper ((≡ₚ) ==> (=) ==> (=) ==> iff) covered.
Proof.
  intros l l' Hl ? ? -> ? ? ->. unfold covered. split; intros (r & Hr & ?); exists r; [by rewrite <- Hl|by rewrite Hl].
Qed.

Lemma union_within W H a b : within W H a -> within W H b -> within W H (union_dirty_rect a b).
Proof. unfold within, union_dirty_rect; cbn. lia. Qed.

Lemma union_inside a b px py :
  inside_rect a px py \/ inside_rect b px py -> inside_rect (union_dirty_rect a b) px py.
Proof. unfold inside_rect, union_dirty_rect; cbn. lia. Qed.

(** ** Merging *)

Definition unmergeable (a b : DirtyRect) : Prop := should_merge_dirty_rects a b = false.

Lemma unmergeable_sym a b : unmergeable a b -> unmergeable b a.
Proof.
  unfold unmergeable, should_merge_dirty_rects. intros H.
  assert (union_dirty_rect b a = union_dirty_rect a b) as ->.
  { unfold union_dirty_rect. f_equal; lia. }
  assert (rects_touch_or_overlap b a = rects_touch_or_overlap a b) as ->.
  { unfold rects_touch_or_overlap. lia. }
  unfold saturating_add in *. by rewrite (Z.add_comm (dirty_rect_area b)).
Qed.

Lemma sort_rects_perm l : sort_rects l ≡ₚ l.
Proof.
  unfold sort_rects. rewrite sort_by_key_perm. induction l as [|r l IH]; cbn; [done|]. by apply perm_skip.
Qed.

Section merge.
Context (W H : Z).

Lemma absorb_ok fuel merged pending :
  (length merged < fuel)%nat -> Forall (within W H) merged -> within W H pending ->
  ForallOrdPairs unmergeable merged ->
  exists out, absorb fuel merged pending = Ok out /\ Forall (within W H) out /\
    ForallOrdPairs unmergeable out /\ (length out <= S (length merged))%nat /\
    forall px py, covered (pending :: merged) px py -> covered out px py.
Proof.
  revert merged pending. induction fuel as [|fuel IH]; intros merged pending Hf Hm Hp HR; [lia|].
  cbn [absorb]. destruct (position _ merged) as [i|] eqn:Hi.
  - apply position_some in Hi as (a & Ha & Hma).
    destruct (swap_remove_perm merged i a Ha) as (l' & -> & Hl). cbn.
    pose proof Hm as Hm'. rewrite Hl in Hm'. apply Forall_cons in Hm' as [Hwa Hml].
    apply (FOP_perm _ _ _ unmergeable_sym Hl) in HR. inversion HR; subst.
    assert (length merged = S (length l')) as Hlen by (by rewrite Hl).
    destruct (IH l' (union_dirty_rect a pending)) as (out & -> & Ho & HRo & Hlo & Hc);
      [lia|done|by apply union_within|done|].
    exists out. split_and!; [done..|lia|]. intros px py Hin. apply Hc. rewrite Hl in Hin.
    rewrite !covered_cons in Hin. rewrite covered_cons.
    destruct Hin as [?|[?|?]]; [left; apply union_inside; tauto..|by right].
  - apply position_none in Hi. exists (merged ++ [pending]). split_and!; [done|..].
    + apply Forall_app. split; [done|]. apply Forall_cons; by split; [|apply Forall_nil].
    + apply FOP_snoc; [done|]. intros b Hb. rewrite Forall_forall in Hi. by apply Hi.
    + rewrite length_app. cbn. lia.
    + intros px py. rewrite covered_app, !covered_cons. pose proof (covered_nil px py). tauto.
Qed.

Lemma coalesce_ok l :
  Forall (within W H) l ->
  exists out, coalesce_dirty_rects l = Ok out /\ Forall (within W H) out /\
    ForallOrdPairs unmergeable out /\ (length out <= length l)%nat /\
    forall px py, covered l px py -> covered out px py.
Proof.
  intros Hl. unfold coalesce_dirty_rects. assert (Forall (within W H) (sort_rects l)) as Hs
    by (by rewrite sort_rects_perm).
  assert (forall k m, Forall (within W H) k -> Forall (within W H) m -> ForallOrdPairs unmergeable m ->
    exists out, foldM (fun m r => absorb (S (length m)) m r) m k = Ok out /\
      Forall (within W H) out /\ ForallOrdPairs unmergeable out /\
      (length out <= length k + length m)%nat /\
      forall px py, covered (k ++ m) px py -> covered out px py) as Hloop.
  { induction k as [|r k IH]; intros m Hk Hm HR; cbn [foldM]; [by exists m|].
    apply Forall_cons in Hk as [Hr Hk].
    destruct (absorb_ok (S (length m)) m r) as (m' & -> & Hm' & HR' & Hlm & Hc); [lia|done..|].
    rewrite bind_Ok.
    destruct (IH m') as (out & -> & ? & ? & ? & Hc'); [done..|]. exists out. split_and!; try done.
    - cbn. lia.
    - intros px py Hin. apply Hc'. cbn in Hin. rewrite covered_cons, covered_app in Hin.
      rewrite covered_app. specialize (Hc px py). rewrite covered_cons in Hc. tauto. }
  destruct (Hloop (sort_rects l) []) as (out & -> & Ho & HR & Hlen & Hc); [done|constructor..|].
  rewrite bind_Ok, app_nil_r in *. exists (sort_rects out). split_and!; [done|..].
  - by rewrite sort_rects_perm.
  - apply (FOP_perm _ out); [apply unmergeable_sym|by rewrite sort_rects_perm|done].
  - rewrite (Permutation_length (sort_rects_perm out)).
    rewrite (Permutation_length (sort_rects_perm l)) in Hlen. cbn in Hlen. lia.
  - intros px py Hin. rewrite sort_rects_perm. apply Hc. by rewrite sort_rects_perm.
Qed.
End merge.

(** ** Splitting *)

(** A piece fits the limit. *)
Definition small (limit : Z) (r : DirtyRect) : Prop :=
  right r - left r <= limit /\ bottom r - top r <= limit.

Definition enough (fuel : nat) (limit n : Z) : Prop :=
  (0 < fuel)%nat /\ (0 < n -> n / limit + 1 < Z.of_nat fuel).

Lemma turns_enough limit n : 0 < limit -> 0 <= n -> enough (turns limit n) limit n.
Proof. intros Hl Hn. unfold enough, turns. pose proof (Z.div_pos n limit). lia. Qed.

Lemma enough_step fuel limit n m :
  0 < limit -> 0 < n -> m = Z.max 0 (n - limit) -> enough (S fuel) limit n -> enough fuel limit m.
Proof.
  intros Hl Hn -> [_ Hf]. specialize (Hf Hn). pose proof (Z.div_pos n limit).
  split; [lia|]. intros Hm. replace (Z.max 0 (n - limit)) with (n + (-1) * limit) by lia.
  rewrite Z.div_add by lia. lia.
Qed.

Section split.
Context (limit : Z) (Hlimit : 0 < limit).

Lemma split_row_ok fuel l rr t b :
  l <= rr <= u32_max -> enough fuel limit (rr - l) ->
  exists out, split_row fuel limit l rr t b = Ok out /\
    Forall (fun r => l <= left r < right r /\ right r <= rr /\ right r - left r <= limit /\
                     top r = t /\ bottom r = b) out /\
    forall px py, t <= py < b -> l <= px < rr -> covered out px py.
Proof.
  revert l. induction fuel as [|fuel IH]; intros l Hl Hf; [by destruct Hf; lia|]. cbn [split_row].
  destruct (Z.ltb_spec l rr); [|exists []; split_and!; [done|constructor|lia]].
  set (m := Z.min (saturating_add u32_max l limit) rr).
  assert (l < m <= rr /\ m - l <= limit /\ (m = rr \/ m = l + limit)) as (Hm & Hml & Hm')
    by (unfold m, saturating_add; lia).
  destruct (IH m) as (out & -> & Ho & Hc); [lia| |].
  { eapply enough_step; [done| | |exact Hf]; lia. }
  rewrite bind_Ok. eexists; split; [done|]. split.
  - apply Forall_cons. split; [cbn; lia|]. eapply Forall_impl; [exact Ho|]. cbn. lia.
  - intros px py Hpy Hpx. rewrite covered_cons. destruct (decide (px < m)).
    + left. unfold inside_rect; cbn. lia.
    + right. apply Hc; lia.
Qed.

Lemma split_rows_ok fuel t r :
  left r <= right r <= u32_max -> t <= bottom r <= u32_max -> enough fuel limit (bottom r - t) ->
  exists out, split_rows fuel limit t r = Ok out /\
    Forall (fun p => left r <= left p < right p /\ right p <= right r /\
                     t <= top p < bottom p /\ bottom p <= bottom r /\ small limit p) out /\
    forall px py, left r <= px < right r -> t <= py < bottom r -> covered out px py.
Proof.
  intros Hx. revert t. induction fuel as [|fuel IH]; intros t Ht Hf; [by destruct Hf; lia|].
  cbn [split_rows]. destruct (Z.ltb_spec t (bottom r)); [|exists []; split_and!; [done|constructor|lia]].
  set (m := Z.min (saturating_add u32_max t limit) (bottom r)).
  assert (t < m <= bottom r /\ m - t <= limit /\ (m = bottom r \/ m = t + limit)) as (Hm & Hml & Hm')
    by (unfold m, saturating_add; lia).
  destruct (split_row_ok (turns limit (right r - left r)) (left r) (right r) t m) as (row & -> & Hr & Hrc);
    [lia|apply turns_enough; lia|].
  destruct (IH m) as (out & -> & Ho & Hc); [lia| |].
  { eapply enough_step; [done| | |exact Hf]; lia. }
  rewrite !bind_Ok. eexists; split; [done|]. split.
  - apply Forall_app. split; [eapply Forall_impl; [exact Hr|]|eapply Forall_impl; [exact Ho|]];
      unfold small; cbn; lia.
  - intros px py Hpx Hpy. rewrite covered_app. destruct (decide (py < m)); [left; apply Hrc|right; apply Hc]; lia.
Qed.
End split.

Lemma split_ok W H l limit :
  W <= u32_max -> H <= u32_max -> 0 < limit -> Forall (within W H) l ->
  exists out, split_rects_to_texture_limit l limit = Ok out /\
    Forall (fun r => within W H r /\ small limit r) out /\
    forall px py, covered l px py <-> covered out px py.
Proof.
  intros HW HH Hl. unfold split_rects_to_texture_limit. rewrite Z.max_l by lia.
  assert (forall acc, Forall (within W H) l ->
    exists out, foldM (fun split rect =>
        pieces ← split_rows (turns limit (bottom rect - top rect)) limit (top rect) rect;
        Ok (split ++ pieces)) acc l = Ok (acc ++ out) /\
      Forall (fun r => within W H r /\ small limit r) out /\
      forall px py, covered l px py <-> covered out px py) as Hloop.
  { induction l as [|r l IH]; intros acc Hin; cbn [foldM].
    - exists []. rewrite app_nil_r. by split_and!; [|constructor|].
    - apply Forall_cons in Hin as [Hr Hin]. pose proof Hr as (? & ? & ? & ?).
      destruct (split_rows_ok limit Hl (turns limit (bottom r - top r)) (top r) r) as (ps & -> & Hps & Hc);
        [lia|lia|apply turns_enough; lia|].
      rewrite !bind_Ok. destruct (IH (acc ++ ps) Hin) as (out & -> & Ho & Hco).
      exists (ps ++ out). rewrite app_assoc. split_and!; [done|..].
      + apply Forall_app. split; [|done]. eapply Forall_impl; [exact Hps|].
        intros p (? & ? & ? & ? & ?). split; [unfold within; lia|done].
      + intros px py. rewrite covered_cons, covered_app, Hco.
        enough (inside_rect r px py <-> covered ps px py) by tauto. split.
        * intros [? ?]. apply Hc; lia.
        * intros (p & Hp & Hpin). rewrite Forall_forall in Hps. specialize (Hps _ Hp).
          unfold inside_rect in *. lia. }
  intros Hin. destruct (Hloop [] Hin) as (out & Heq & ?). by exists out.
Qed.

(** ** Packing *)

Lemma align_spec v :
  0 <= v <= u16_max -> v <= align_to_tile v < v + 32 /\ (32 | align_to_tile v).
Proof.
  intros Hv. unfold align_to_tile, saturating_mul. change TILE_SIZE with 32.
  pose proof (div_ceil_spec v 32). unfold u16_max, u32_max in *. rewrite Z.min_r by lia.
  split; [lia|]. by exists (div_ceil v 32).
Qed.

Lemma align_limit v L : 0 <= v <= L -> L <= u16_max -> (32 | L) -> align_to_tile v <= L.
Proof.
  intros Hv HL [k ->]. destruct (align_spec v) as [Hb [j Hj]]; [lia|]. rewrite Hj in *. lia.
Qed.

(** The cell of the atlas that a rectangle takes: its size rounded up to tiles. *)
Definition cell_w (p : PackedRect) : Z := align_to_tile (w (atlas p)).
Definition cell_h (p : PackedRect) : Z := align_to_tile (h (atlas p)).

Definition cells_apart (p q : PackedRect) : Prop :=
  x (atlas p) + cell_w p <= x (atlas q) \/ x (atlas q) + cell_w q <= x (atlas p) \/
  y (atlas p) + cell_h p <= y (atlas q) \/ y (atlas q) + cell_h q <= y (atlas p).

(** A rectangle keeps its size in the atlas and starts on the grid of tiles. *)
Definition packed_ok (A : Z) (p : PackedRect) : Prop :=
  w (atlas p) = right (source p) - left (source p) /\
  h (atlas p) = bottom (source p) - top (source p) /\
  0 <= x (atlas p) /\ (32 | x (atlas p)) /\ 0 <= y (atlas p) /\ (32 | y (atlas p)) /\
  x (atlas p) + cell_w p <= A.

(** The rectangles packed so far lie above the current shelf, or on it and left of
    the current position. *)
Record shelf_ok (A : Z) (s : shelf) : Prop := {
  sh_x : 0 <= current_x s <= A;
  sh_x32 : (32 | current_x s);
  sh_y : 0 <= current_y s;
  sh_y32 : (32 | current_y s);
  sh_h32 : (32 | row_height s);
  sh_h : 0 <= row_height s;
  sh_rects : Forall (fun p => packed_ok A p /\
    (y (atlas p) + cell_h p <= current_y s \/
     (y (atlas p) = current_y s /\ cell_h p <= row_height s /\
      x (atlas p) + cell_w p <= current_x s))) (packed s);
  sh_apart : ForallOrdPairs cells_apart (packed s);
}.

(** The height used so far. *)
Definition used (s : shelf) : Z := saturating_add u32_max (current_y s) (row_height s).

(** A rectangle small enough for the atlas. *)
Definition fits_atlas (A : Z) (r : DirtyRect) : Prop :=
  0 < right r - left r <= u16_max /\ 0 < bottom r - top r <= u16_max /\
  align_to_tile (right r - left r) <= A.

Section pack.
Context (A : Z) (HA : 0 <= A <= u16_max).

(** The start of a new shelf when the rectangle does not fit on the current one. *)
Definition next_shelf (s : shelf) (packed_width : Z) : shelf :=
  if (0 <? current_x s) && (A <? saturating_add u32_max (current_x s) packed_width)
  then {| current_x := 0; current_y := used s; row_height := 0; packed := packed s |}
  else s.

Lemma next_shelf_ok s pw :
  shelf_ok A s -> used s < u32_max -> 0 <= pw <= A ->
  shelf_ok A (next_shelf s pw) /\ current_x (next_shelf s pw) + pw <= A.
Proof.
  intros Hs Hu Hpw. destruct Hs. unfold next_shelf, used, saturating_add in *.
  unfold u16_max, u32_max in *. rewrite Z.min_r in * by lia. rewrite Z.min_r by lia.
  destruct ((0 <? current_x s) && (A <? current_x s + pw)) eqn:Hc; (split; [|cbn; lia]); [|by constructor].
  constructor; cbn; try done; [lia|by exists 0|lia|by apply Z.divide_add_r|by exists 0|].
  eapply Forall_impl; [exact sh_rects0|]. intros p [Hp Hpos]. split; [done|]. left. lia.
Qed.

Lemma used_mono s r : used s <= used (pack_rect A s r).
Proof.
  unfold pack_rect, used, saturating_add. cbv zeta. case_match; cbn; lia.
Qed.

Definition place (s : shelf) (r : DirtyRect) (pw ph : Z) : shelf :=
  {| current_x := saturating_add u32_max (current_x s) pw;
     current_y := current_y s;
     row_height := Z.max (row_height s) ph;
     packed := packed s ++ [{| source := r;
                               atlas := {| x := current_x s; y := current_y s;
                                           w := right r - left r; h := bottom r - top r |} |}] |}.

Lemma pack_rect_eq s r :
  0 <= right r - left r <= u32_max -> 0 <= bottom r - top r <= u32_max ->
  pack_rect A s r =
  place (next_shelf s (align_to_tile (right r - left r))) r
    (align_to_tile (right r - left r)) (align_to_tile (bottom r - top r)).
Proof. intros. unfold pack_rect. by rewrite !wrap_u32_small. Qed.

Lemma pack_rect_ok s r :
  shelf_ok A s -> fits_atlas A r -> used (pack_rect A s r) < u32_max -> shelf_ok A (pack_rect A s r).
Proof.
  intros Hs (Hw & Hh & Ha) Hu. pose proof (used_mono s r). unfold u16_max, u32_max in *.
  rewrite pack_rect_eq in * by (unfold u32_max; lia).
  set (pw := align_to_tile (right r - left r)) in *. set (ph := align_to_tile (bottom r - top r)) in *.
  destruct (align_spec (right r - left r)) as [Hpw Hpw32]; [unfold u16_max; lia|]. fold pw in Hpw, Hpw32.
  destruct (align_spec (bottom r - top r)) as [Hph Hph32]; [unfold u16_max; lia|]. fold ph in Hph, Hph32.
  destruct (next_shelf_ok s pw) as [[] Hfit]; [done|unfold u32_max; lia|lia|].
  set (n := next_shelf s pw) in *. unfold place, used, saturating_add, u32_max in *. cbn in Hu.
  rewrite Z.min_r in * by lia.
  constructor; cbn; try done; [lia|by apply Z.divide_add_r| |lia| |].
  - by destruct (Z.max_spec (row_height n) ph) as [[_ ->]|[_ ->]].
  - apply Forall_app. split.
    + eapply Forall_impl; [exact sh_rects0|]. intros q [Hq Hpos]. split; [done|]. lia.
    + apply Forall_cons. split; [|apply Forall_nil; done]. split.
      * unfold packed_ok, cell_w; cbn. fold pw. split_and!; try done; lia.
      * right. unfold cell_w, cell_h; cbn. fold pw ph. lia.
  - apply FOP_snoc; [done|]. intros q Hq. rewrite Forall_forall in sh_rects0.
    destruct (sh_rects0 q Hq) as [_ Hpos]. unfold cells_apart, cell_w, cell_h in *; cbn. lia.
Qed.

Lemma pack_rects_ok rs s :
  (used s < u32_max -> shelf_ok A s) -> Forall (fits_atlas A) rs ->
  used (foldl (pack_rect A) s rs) < u32_max -> shelf_ok A (foldl (pack_rect A) s rs).
Proof.
  revert s; induction rs as [|r rs IH]; intros s Hs Hrs; cbn; [done|].
  apply Forall_cons in Hrs as [Hr Hrs]. apply IH; [|done]. intros Hu. pose proof (used_mono s r).
  apply pack_rect_ok; [|done..]. apply Hs. lia.
Qed.

Lemma pack_rects_sources rs s :
  source <$> packed (foldl (pack_rect A) s rs) = (source <$> packed s) ++ rs.
Proof.
  revert s; induction rs as [|r rs IH]; intros s; cbn; [by rewrite app_nil_r|]. rewrite IH.
  unfold pack_rect. cbv zeta. cbn. rewrite fmap_app. cbn. rewrite <- app_assoc.
  by case_match.
Qed.
End pack.

(** The sum of the widths, rounded up to tiles. *)
Definition widths (rs : list DirtyRect) : Z :=
  foldr (fun r n => align_to_tile (saturating_sub (right r) (left r)) + n) 0 rs.

Lemma align_nonneg v : 0 <= v -> 0 <= align_to_tile v.
Proof.
  intros Hv. unfold align_to_tile, saturating_mul, u32_max. pose proof (div_ceil_spec v TILE_SIZE).
  change TILE_SIZE with 32 in *. lia.
Qed.

Lemma widths_nonneg rs : 0 <= widths rs.
Proof.
  induction rs as [|r rs IH]; cbn [widths foldr]; [lia|]. fold (widths rs).
  pose proof (align_nonneg (saturating_sub (right r) (left r))). unfold saturating_sub in *. lia.
Qed.

Lemma widths_elem rs r : r ∈ rs -> align_to_tile (saturating_sub (right r) (left r)) <= widths rs.
Proof.
  induction 1 as [r rs|r r' rs _ IH]; cbn [widths foldr]; fold (widths rs); [pose proof (widths_nonneg rs); lia|].
  pose proof (align_nonneg (saturating_sub (right r') (left r'))). unfold saturating_sub in *. lia.
Qed.

Lemma sum_widths rs n :
  0 <= n ->
  foldM (fun sum rect =>
    ok_or (checked_add u32_max sum (align_to_tile (saturating_sub (right rect) (left rect))))
      "atlas width overflow"%string) n rs =
  if n + widths rs <=? u32_max then Ok (n + widths rs)
  else match rs with [] => Ok n | _ => Err "atlas width overflow"%string end.
Proof.
  revert n; induction rs as [|r rs IH]; intros n Hn; cbn [foldM widths foldr].
  { rewrite Z.add_0_r. by case_match. }
  pose proof (align_nonneg (saturating_sub (right r) (left r)) ltac:(unfold saturating_sub; lia)) as Ha.
  set (a := align_to_tile _) in *. fold (widths rs). pose proof (widths_nonneg rs).
  unfold checked_add. destruct (Z.leb_spec (n + a) u32_max); cbn [ok_or].
  - rewrite bind_Ok, IH by lia. replace (n + (a + widths rs)) with (n + a + widths rs) by lia.
    destruct (Z.leb_spec (n + a + widths rs) u32_max); [done|]. destruct rs; [|done]. cbn in *. lia.
  - destruct (Z.leb_spec (n + (a + widths rs)) u32_max); [lia|]. done.
Qed.

(** A packed atlas: its rectangles are the given ones, inside the atlas, on the grid
    of tiles and apart. *)
Definition atlas_ok (rs : list DirtyRect) (a : PackedAtlas) : Prop :=
  source <$> rects a = rs /\
  Forall (fun p => packed_ok (width a) p /\ y (atlas p) + cell_h p <= height a) (rects a) /\
  ForallOrdPairs cells_apart (rects a).

Lemma pack_shelf_ok rs L :
  0 < L <= u16_max -> (32 | L) ->
  Forall (fun r => 0 < right r - left r <= L /\ 0 < bottom r - top r <= L) rs ->
  if widths rs <=? u32_max
  then exists a, pack_shelf rs L = Ok a /\ 1 <= width a <= L /\ 1 <= height a /\
         (height a < u32_max -> atlas_ok rs a)
  else pack_shelf rs L = Err "atlas width overflow"%string.
Proof.
  intros HL HL32 Hrs. unfold pack_shelf. rewrite sum_widths by lia. rewrite Z.add_0_l.
  destruct (Z.leb_spec (widths rs) u32_max); [|by destruct rs].
  rewrite bind_Ok. set (A := Z.max _ 1). eexists; split; [done|]. cbn.
  pose proof (widths_nonneg rs). split; [unfold A; lia|]. split; [lia|]. intros Hh.
  set (s0 := {| current_x := 0; current_y := 0; row_height := 0; packed := [] |}) in *.
  assert (shelf_ok A (foldl (pack_rect A) s0 rs)) as Hs.
  { apply pack_rects_ok; [unfold A, u16_max in *; lia| | |unfold used; lia].
    - intros _. constructor; cbn; try done; unfold A; try lia; try (by exists 0); constructor.
    - apply Forall_forall. intros r Hr. rewrite Forall_forall in Hrs. specialize (Hrs r Hr).
      unfold fits_atlas. unfold u16_max in *. split_and!; try lia. pose proof (widths_elem rs r Hr) as He.
      unfold saturating_sub in He. rewrite Z.max_r in He by lia.
      pose proof (align_limit (right r - left r) L ltac:(lia) ltac:(unfold u16_max; lia) HL32).
      unfold A. lia. }
  split; [|split].
  - exact (pack_rects_sources A rs s0).
  - destruct Hs. eapply Forall_impl; [exact sh_rects0|]. cbn. intros p [Hp Hpos]. split; [done|].
    unfold saturating_add, u32_max in *. lia.
  - apply Hs.
Qed.

(** ** Tiles *)

Definition tile_ax (t : Tile.TileCommandTile) : Z := lo16 (Tile.atlas_xy t).
Definition tile_ay (t : Tile.TileCommandTile) : Z := hi16 (Tile.atlas_xy t).
Definition tile_dx (t : Tile.TileCommandTile) : Z := lo16 (Tile.desktop_xy t).
Definition tile_dy (t : Tile.TileCommandTile) : Z := hi16 (Tile.desktop_xy t).

(** The tile in column [i] and row [j] of a packed rectangle. *)
Definition tile_at (p : PackedRect) (i j : Z) : Tile.TileCommandTile :=
  {| Tile.atlas_xy := pack_xy (x (atlas p) + i * 32) (y (atlas p) + j * 32);
     Tile.desktop_xy := pack_xy (left (source p) + i * 32) (top (source p) + j * 32);
     Tile.wh := pack_xy (Z.min 32 (right (source p) - left (source p) - i * 32))
                  (Z.min 32 (bottom (source p) - top (source p) - j * 32));
     Tile.flags := 1 |}.

Definition columns (p : PackedRect) : Z := div_ceil (right (source p) - left (source p)) 32.
Definition lines (p : PackedRect) : Z := div_ceil (bottom (source p) - top (source p)) 32.

Definition tiles_of (p : PackedRect) : list Tile.TileCommandTile :=
  seqZ 0 (lines p) ≫= fun j => (fun i => tile_at p i j) <$> seqZ 0 (columns p).

(** A packed rectangle whose coordinates fit 16 bits. *)
Record placed (p : PackedRect) : Prop := {
  pl_l : 0 <= left (source p) < right (source p);
  pl_r : right (source p) <= u16_max;
  pl_t : 0 <= top (source p) < bottom (source p);
  pl_b : bottom (source p) <= u16_max;
  pl_x : 0 <= x (atlas p) /\ x (atlas p) + (right (source p) - left (source p)) <= u16_max;
  pl_y : 0 <= y (atlas p) /\ y (atlas p) + (bottom (source p) - top (source p)) <= u16_max;
}.

Lemma foldM_collect {E A B} (f : list B -> A -> res E (list B)) (g : A -> list B) l s :
  (forall a s, a ∈ l -> f s a = Ok (s ++ g a)) -> foldM f s l = Ok (s ++ (l ≫= g)).
Proof.
  revert s; induction l as [|a l IH]; intros s Hf; cbn [foldM]; [cbn; by rewrite app_nil_r|].
  rewrite Hf by left. rewrite bind_Ok, IH; [|intros; apply Hf; by right]. cbn. by rewrite app_assoc.
Qed.

Lemma tile_new_ok ax ay dx dy w h :
  0 <= ax <= u16_max -> 0 <= ay <= u16_max -> 0 <= dx <= u16_max -> 0 <= dy <= u16_max ->
  0 < w <= u16_max -> 0 < h <= u16_max ->
  Tile.new ax ay dx dy w h =
  Ok {| Tile.atlas_xy := pack_xy ax ay; Tile.desktop_xy := pack_xy dx dy; Tile.wh := pack_xy w h;
        Tile.flags := 1 |}.
Proof.
  intros. unfold Tile.new, ensure. replace (_ && _) with true by lia. rewrite bind_Ok.
  by replace (_ && _) with true by lia.
Qed.

Lemma tile_index n i : 0 <= i < div_ceil n 32 -> 0 < n -> i * 32 < n.
Proof. intros Hi Hn. pose proof (div_ceil_spec n 32). lia. Qed.

Section tiles.
Context (p : PackedRect) (Hp : placed p).

Lemma build_rect_ok ds : build_rect_descriptors ds p = Ok (ds ++ tiles_of p).
Proof.
  destruct Hp. unfold u16_max in *. unfold build_rect_descriptors. cbv zeta. change TILE_SIZE with 32.
  rewrite !(wrap_u32_small (_ - _)) by (unfold u32_max; lia).
  apply foldM_collect. intros j s Hj. apply elem_of_seqZ in Hj. unfold lines in Hj.
  pose proof (tile_index (bottom (source p) - top (source p)) j) as Hj'.
  rewrite !(wrap_u32_small (j * 32)) by (unfold u32_max; lia).
  rewrite (foldM_collect _ (fun i => [tile_at p i j])).
  { by do 2 f_equal. }
  intros i s' Hi. apply elem_of_seqZ in Hi.
  pose proof (tile_index (right (source p) - left (source p)) i) as Hi'.
  rewrite !(wrap_u32_small (i * 32)) by (unfold u32_max; lia).
  rewrite !wrap_u32_small by (unfold u32_max; lia).
  by rewrite tile_new_ok by (unfold u16_max; lia).
Qed.

Lemma tile_elem t :
  t ∈ tiles_of p ->
  exists i j, t = tile_at p i j /\ 0 <= i < columns p /\ 0 <= j < lines p.
Proof.
  intros Ht. apply list_elem_of_bind in Ht as (j & Ht & Hj). apply elem_of_seqZ in Hj.
  apply list_elem_of_fmap in Ht as (i & -> & Hi). apply elem_of_seqZ in Hi. exists i, j. split; [done|lia].
Qed.

(** The fields of a tile. *)
Lemma tile_at_fields i j :
  0 <= i < columns p -> 0 <= j < lines p ->
  tile_ax (tile_at p i j) = x (atlas p) + i * 32 /\ tile_ay (tile_at p i j) = y (atlas p) + j * 32 /\
  tile_dx (tile_at p i j) = left (source p) + i * 32 /\
  tile_dy (tile_at p i j) = top (source p) + j * 32 /\
  Tile.width (tile_at p i j) = Z.min 32 (right (source p) - left (source p) - i * 32) /\
  Tile.height (tile_at p i j) = Z.min 32 (bottom (source p) - top (source p) - j * 32) /\
  i * 32 < right (source p) - left (source p) /\ j * 32 < bottom (source p) - top (source p).
Proof.
  intros Hi Hj. destruct Hp. unfold u16_max in *.
  pose proof (tile_index (bottom (source p) - top (source p)) j Hj ltac:(lia)).
  pose proof (tile_index (right (source p) - left (source p)) i Hi ltac:(lia)).
  unfold tile_ax, tile_ay, tile_dx, tile_dy, Tile.width, Tile.height, tile_at; cbn.
  by rewrite !lo16_pack, !hi16_pack by lia.
Qed.
End tiles.

(** What a tile is of a packed rectangle: a part of it, at the same displacement
    between desktop and atlas. *)
Definition tile_part (p : PackedRect) (t : Tile.TileCommandTile) : Prop :=
  tile_ax t - tile_dx t = x (atlas p) - left (source p) /\
  tile_ay t - tile_dy t = y (atlas p) - top (source p) /\
  left (source p) <= tile_dx t /\ tile_dx t + Tile.width t <= right (source p) /\
  top (source p) <= tile_dy t /\ tile_dy t + Tile.height t <= bottom (source p) /\
  0 < Tile.width t <= 32 /\ 0 < Tile.height t <= 32.

Definition on_tile (t : Tile.TileCommandTile) (px py : Z) : Prop :=
  tile_dx t <= px < tile_dx t + Tile.width t /\ tile_dy t <= py < tile_dy t + Tile.height t.

(** Two tiles do not share a pixel of the atlas. *)
Definition tiles_apart (t u : Tile.TileCommandTile) : Prop :=
  tile_ax t + Tile.width t <= tile_ax u \/ tile_ax u + Tile.width u <= tile_ax t \/
  tile_ay t + Tile.height t <= tile_ay u \/ tile_ay u + Tile.height u <= tile_ay t.

Lemma tiles_of_part p t : placed p -> t ∈ tiles_of p -> tile_part p t.
Proof.
  intros Hp Ht. apply tile_elem in Ht as (i & j & -> & Hi & Hj).
  destruct (tile_at_fields p Hp i j Hi Hj) as (Ea & Eb & Ec & Ed & Ee & Ef & ? & ?).
  unfold tile_part. rewrite Ea, Eb, Ec, Ed, Ee, Ef. lia.
Qed.

Lemma tiles_of_cover p px py :
  placed p -> inside_rect (source p) px py -> exists t, t ∈ tiles_of p /\ on_tile t px py.
Proof.
  intros Hp [Hx Hy]. set (i := (px - left (source p)) / 32). set (j := (py - top (source p)) / 32).
  pose proof (Z.div_mod (px - left (source p)) 32). pose proof (Z.mod_pos_bound (px - left (source p)) 32).
  pose proof (Z.div_mod (py - top (source p)) 32). pose proof (Z.mod_pos_bound (py - top (source p)) 32).
  pose proof (div_ceil_spec (right (source p) - left (source p)) 32).
  pose proof (div_ceil_spec (bottom (source p) - top (source p)) 32).
  assert (0 <= i < columns p) as Hi by (unfold i, columns; lia).
  assert (0 <= j < lines p) as Hj by (unfold j, lines; lia).
  exists (tile_at p i j). split.
  - apply list_elem_of_bind. exists j. split; [|apply elem_of_seqZ; lia].
    apply list_elem_of_fmap. exists i. split; [done|]. apply elem_of_seqZ. lia.
  - destruct (tile_at_fields p Hp i j Hi Hj) as (_ & _ & Ec & Ed & Ee & Ef & ? & ?).
    unfold on_tile. rewrite Ec, Ed, Ee, Ef. unfold i, j in *. lia.
Qed.

Lemma tiles_of_apart p : placed p -> ForallOrdPairs tiles_apart (tiles_of p).
Proof.
  intros Hp. unfold tiles_of. apply FOP_concat.
  - intros j Hj. apply elem_of_seqZ in Hj. apply FOP_seqZ. intros i i' Hi Hi'.
    destruct (tile_at_fields p Hp i j) as (Ea & Eb & _ & _ & Ee & Ef & ? & ?); [lia..|].
    destruct (tile_at_fields p Hp i' j) as (Ea' & Eb' & _ & _ & Ee' & Ef' & ? & ?); [lia..|].
    unfold tiles_apart. rewrite Ea, Eb, Ee, Ef, Ea', Eb', Ee', Ef'. lia.
  - rewrite <- (list_fmap_id (seqZ 0 (lines p))). apply FOP_seqZ. intros j j' Hj Hj' t u Ht Hu.
    apply list_elem_of_fmap in Ht as (i & -> & Hi). apply elem_of_seqZ in Hi.
    apply list_elem_of_fmap in Hu as (i' & -> & Hi'). apply elem_of_seqZ in Hi'. unfold id in *.
    destruct (tile_at_fields p Hp i j) as (Ea & Eb & _ & _ & Ee & Ef & ? & ?); [lia..|].
    destruct (tile_at_fields p Hp i' j') as (Ea' & Eb' & _ & _ & Ee' & Ef' & ? & ?); [lia..|].
    unfold tiles_apart. rewrite Ea, Eb, Ee, Ef, Ea', Eb', Ee', Ef'. lia.
Qed.

(** ** What the atlas shows *)

Lemma FOP_snoc_inv {A} (R : A -> A -> Prop) l a :
  ForallOrdPairs R (l ++ [a]) -> ForallOrdPairs R l /\ forall b, b ∈ l -> R b a.
Proof.
  induction l as [|c l IH]; cbn; intros HR; [split; [constructor|intros b Hb; by apply elem_of_nil in Hb]|].
  inversion HR as [|? ? Hc HR']; subst. destruct (IH HR') as [Hl Ha].
  apply Forall_app in Hc as [Hc Hca]. apply Forall_cons in Hca as [Hca _]. split; [by constructor|].
  intros b Hb. apply elem_of_cons in Hb as [->|Hb]; auto.
Qed.

(** Every packed rectangle shows its part of the frame: later copies do not touch it. *)
Lemma texture_shows frame l p a b :
  Forall (fun p => exists A, packed_ok A p) l -> Forall placed l -> ForallOrdPairs cells_apart l ->
  p ∈ l ->
  x (atlas p) <= a < x (atlas p) + (right (source p) - left (source p)) ->
  y (atlas p) <= b < y (atlas p) + (bottom (source p) - top (source p)) ->
  copy_rects_to_texture frame l a b =
  texture frame (left (source p) + (a - x (atlas p))) (top (source p) + (b - y (atlas p))).
Proof.
  unfold copy_rects_to_texture. induction l as [|q l IH] using rev_ind; intros Hok Hpl HR Hp Ha Hb;
    [by apply elem_of_nil in Hp|].
  rewrite foldl_app. cbn. unfold blit at 1, in_rect.
  apply Forall_app in Hok as [Hok Hq]. apply Forall_app in Hpl as [Hpl Hplq].
  apply FOP_snoc_inv in HR as [HR Hapart]. apply elem_of_app in Hp as [Hp|Hp].
  - replace (_ && _) with false; [by apply IH|]. symmetry. apply not_true_iff_false. intros Hin.
    apply Forall_cons in Hq as [[A Hq] _]. apply Forall_cons in Hplq as [[] _].
    rewrite Forall_forall in Hok. destruct (Hok p Hp) as [A' Hpk].
    rewrite Forall_forall in Hpl. destruct (Hpl p Hp).
    specialize (Hapart p Hp). unfold cells_apart, packed_ok, cell_w, cell_h in *. unfold u16_max in *.
    destruct Hq as (Hqw & Hqh & _), Hpk as (Hpw & Hph & _).
    pose proof (align_spec (w (atlas p))) as Ew. pose proof (align_spec (h (atlas p))) as Eh.
    pose proof (align_spec (w (atlas q))) as Fw. pose proof (align_spec (h (atlas q))) as Fh.
    rewrite Hpw, Hph, Hqw, Hqh in *. unfold u16_max in *. lia.
  - apply list_elem_of_singleton in Hp as ->. by replace (_ && _) with true by lia.
Qed.

(** ** Texture limits *)

Lemma device_limit fl :
  let L := max_texture_size_for_device fl in 2048 <= L <= 16384 /\ (32 | L).
Proof.
  unfold max_texture_size_for_device, CONSERVATIVE_MAX_TEXTURE_SIZE.
  repeat case_match; (split; [lia|]); [by exists 512|by exists 256|by exists 128|by exists 64].
Qed.

Section plan.
Context (frame : CapturedFrame) (L : Z).
Context (HL : 0 < L <= 16384) (HL32 : (32 | L)).
Context (Hfw : 0 < frame_width frame <= u16_max) (Hfh : 0 < frame_height frame <= u16_max).

#[local] Abbreviation W := (frame_width frame).
#[local] Abbreviation H := (frame_height frame).

Lemma full_within : within W H (full_desktop_dirty_rect W H).
Proof. unfold within; cbn. lia. Qed.

(** The rectangles that are packed: non-empty pieces of the frame below the limit,
    which contain every valid dirty rectangle. *)
Definition pieces (wanted rs : list DirtyRect) : Prop :=
  Forall (fun r => within W H r /\ small L r) rs /\
  forall px py, covered wanted px py -> covered rs px py.

Lemma prepare_ok dirty force :
  Forall (fun r => 0 <= left r /\ 0 <= top r) dirty ->
  exists rs, prepare_rects frame dirty force L = Ok rs /\
    pieces (if force then [full_desktop_dirty_rect W H] else List.filter (in_frame frame) dirty) rs.
Proof.
  intros Hd. unfold prepare_rects, pieces. unfold u16_max in *. destruct force.
  - replace (List.filter _ _) with [full_desktop_dirty_rect W H].
    2: { cbn. unfold in_frame; cbn. by replace (_ && _) with true by lia. }
    rewrite bind_Ok. destruct (split_ok W H [full_desktop_dirty_rect W H] L) as (rs & -> & Hrs & Hc);
      [unfold u32_max; lia..| |].
    { apply Forall_cons. split; [apply full_within|by apply Forall_nil]. }
    exists rs. split_and!; try done. intros px py. apply Hc.
  - assert (Forall (within W H) (List.filter (in_frame frame) dirty)) as Hin.
    { clear HL HL32. induction Hd as [|r l Hr Hd IH]; cbn; [done|].
      destruct (in_frame frame r) eqn:Hi; [|done]. apply Forall_cons. split; [|done].
      unfold in_frame in Hi. unfold within. lia. }
    destruct (coalesce_ok W H _ Hin) as (out & -> & Ho & _ & _ & Hc). rewrite bind_Ok.
    destruct (split_ok W H out L) as (rs & -> & Hrs & Hcs); [unfold u32_max; lia..|done|].
    exists rs. split_and!; try done. intros px py Hpx. apply Hcs. by apply Hc.
Qed.

Lemma pieces_sizes rs :
  Forall (fun r => within W H r /\ small L r) rs ->
  Forall (fun r => 0 < right r - left r <= L /\ 0 < bottom r - top r <= L) rs.
Proof. intros Hrs. eapply Forall_impl; [exact Hrs|]. unfold within, small. cbn. lia. Qed.

Definition overflow_error : anyhow := "atlas width overflow"%string.
Definition too_large_error : anyhow := "atlas dimensions exceed D3D feature-level texture limit"%string.

(** The atlas that is used: within the limit, with the pieces of what was wanted
    or, when they do not fit, of the whole frame. *)
Definition packing (wanted : list DirtyRect) (a : PackedAtlas) : Prop :=
  exists rs, pieces wanted rs /\ atlas_ok rs a /\ 1 <= width a <= L /\ 1 <= height a <= L.

Lemma pack_rects_cases wanted rs force :
  Forall (fun r => 0 <= left r /\ right r <= W /\ 0 <= top r /\ bottom r <= H) wanted ->
  pieces wanted rs ->
  (exists a fb, pack_rects frame rs force L = Ok (a, fb) /\ packing wanted a) \/
  pack_rects frame rs force L = Err overflow_error \/
  pack_rects frame rs force L = Err too_large_error.
Proof.
  intros Hw [Hrs Hc]. unfold pack_rects. unfold u16_max in *.
  assert (0 < L <= u16_max) as HL' by (unfold u16_max; lia).
  pose proof (pack_shelf_ok rs L HL' HL32 (pieces_sizes rs Hrs)) as Hp.
  destruct (widths rs <=? u32_max); [|right; left; by rewrite Hp].
  destruct Hp as (a & -> & Ha & Hh & Hok). rewrite bind_Ok. cbv zeta.
  destruct ((L <? width a) || (L <? height a)) eqn:Hbig; last first.
  { left. cbn. unfold ensure. replace (_ && _) with true by lia. eexists _, _. split; [done|].
    exists rs. split; [by split|]. split; [|lia]. apply Hok. unfold u32_max; lia. }
  destruct (split_ok W H [full_desktop_dirty_rect W H] L) as (rs' & -> & Hrs' & Hc');
    [unfold u32_max; lia..| |].
  { apply Forall_cons. split; [apply full_within|by apply Forall_nil]. }
  rewrite bind_Ok. pose proof (pack_shelf_ok rs' L HL' HL32 (pieces_sizes rs' Hrs')) as Hp'.
  destruct (widths rs' <=? u32_max); [|right; left; by rewrite Hp'].
  destruct Hp' as (a' & -> & Ha' & Hh' & Hok'). rewrite !bind_Ok.
  unfold ensure. destruct ((width a' <=? L) && (height a' <=? L)) eqn:Hs; [|by right; right].
  left. eexists _, _. split; [done|]. exists rs'. split; [|split; [|lia]].
  - split; [done|]. intros px py (r & Hr & Hin). apply Hc'. exists (full_desktop_dirty_rect W H).
    split; [left|]. rewrite Forall_forall in Hw. specialize (Hw r Hr). unfold inside_rect in *; cbn. lia.
  - apply Hok'. unfold u32_max; lia.
Qed.
End plan.

(** ** The tiles of a packing *)

(** The tiles lie apart on the grid of the atlas, show there what the frame shows on
    the desktop, and together contain what was wanted. *)
Record tiles_sound (frame : CapturedFrame) (wanted : list DirtyRect) (a : PackedAtlas)
    (ts : list Tile.TileCommandTile) : Prop := {
  ts_apart : ForallOrdPairs tiles_apart ts;
  ts_grid : Forall (fun t => (32 | tile_ax t) /\ (32 | tile_ay t)) ts;
  ts_atlas : Forall (fun t => 0 <= tile_ax t /\ tile_ax t + Tile.width t <= width a /\
                              0 <= tile_ay t /\ tile_ay t + Tile.height t <= height a) ts;
  ts_desktop : Forall (fun t => 0 <= tile_dx t /\ tile_dx t + Tile.width t <= frame_width frame /\
                                0 <= tile_dy t /\ tile_dy t + Tile.height t <= frame_height frame) ts;
  ts_size : Forall (fun t => 0 < Tile.width t <= 32 /\ 0 < Tile.height t <= 32) ts;
  ts_shows : forall t i j, t ∈ ts -> 0 <= i < Tile.width t -> 0 <= j < Tile.height t ->
    copy_rects_to_texture frame (rects a) (tile_ax t + i) (tile_ay t + j) =
    texture frame (tile_dx t + i) (tile_dy t + j);
  ts_covers : forall px py, covered wanted px py -> exists t, t ∈ ts /\ on_tile t px py;
}.

Section packing_tiles.
Context (frame : CapturedFrame) (L : Z) (HL : 0 < L <= 16384).
Context (Hfw : 0 < frame_width frame <= u16_max) (Hfh : 0 < frame_height frame <= u16_max).
Context (wanted : list DirtyRect) (a : PackedAtlas) (Ha : packing frame L wanted a).

Lemma packing_rect p :
  p ∈ rects a ->
  placed p /\ packed_ok (width a) p /\ within (frame_width frame) (frame_height frame) (source p) /\
  x (atlas p) + (right (source p) - left (source p)) <= width a /\
  y (atlas p) + (bottom (source p) - top (source p)) <= height a.
Proof.
  destruct Ha as (rs & [Hrs _] & (Hsrc & Hok & _) & Hw & Hh). intros Hp.
  assert (within (frame_width frame) (frame_height frame) (source p) /\ small L (source p)) as [Hin Hsm].
  { rewrite Forall_forall in Hrs. apply Hrs. rewrite <- Hsrc. apply list_elem_of_fmap. eauto. }
  rewrite Forall_forall in Hok. destruct (Hok p Hp) as [Hpk Hy]. pose proof Hpk as (Ew & Eh & Hx & _ & Hy0 & _ & Hxw).
  unfold within, small, cell_w, cell_h in *. unfold u16_max in *.
  pose proof (align_spec (w (atlas p))) as Aw. pose proof (align_spec (h (atlas p))) as Ah.
  rewrite Ew, Eh in *. unfold u16_max in *.
  split_and!; try done; try lia. constructor; unfold u16_max; lia.
Qed.

Lemma build_descriptors_ok :
  build_tile_command_descriptors (rects a) = Ok (rects a ≫= tiles_of).
Proof.
  unfold build_tile_command_descriptors. rewrite (foldM_collect _ tiles_of); [done|].
  intros p s Hp. apply build_rect_ok. by apply packing_rect.
Qed.

Lemma tile_of_packing t :
  t ∈ rects a ≫= tiles_of ->
  exists p, p ∈ rects a /\ placed p /\ packed_ok (width a) p /\ t ∈ tiles_of p /\ tile_part p t.
Proof.
  intros Ht. apply list_elem_of_bind in Ht as (p & Ht & Hp). destruct (packing_rect p Hp) as (Hpl & Hpk & _).
  exists p. split_and!; try done; by apply tiles_of_part.
Qed.

Lemma packing_tiles : tiles_sound frame wanted a (rects a ≫= tiles_of).
Proof.
  constructor.
  - apply FOP_concat; [intros p Hp; apply tiles_of_apart; by apply packing_rect|].
    destruct Ha as (rs & _ & (_ & _ & HR) & _ & _).
    assert (forall p, p ∈ rects a -> placed p /\ packed_ok (width a) p) as Hall.
    { intros p Hp. by destruct (packing_rect p Hp) as (? & ? & _). }
    revert HR Hall. generalize (rects a). intros l HR Hall.
    induction HR as [|p l Hp HR IH]; constructor; [|apply IH; intros; apply Hall; by right].
    apply Forall_forall. intros q Hq t u Ht Hu. rewrite Forall_forall in Hp. specialize (Hp q Hq).
    destruct (Hall p) as [Hpl Hpk]; [left|]. destruct (Hall q) as [Hql Hqk]; [by right|].
    apply tiles_of_part in Ht; [|done]. apply tiles_of_part in Hu; [|done]. destruct Hpl, Hql.
    unfold tiles_apart, cells_apart, tile_part, packed_ok, cell_w, cell_h in *. unfold u16_max in *.
    pose proof (align_spec (w (atlas p))). pose proof (align_spec (h (atlas p))).
    pose proof (align_spec (w (atlas q))). pose proof (align_spec (h (atlas q))). unfold u16_max in *.
    lia.
  - apply Forall_forall. intros t Ht. apply tile_of_packing in Ht as (p & Hp & Hpl & Hpk & Ht & _).
    apply tile_elem in Ht as (i & j & -> & Hi & Hj).
    destruct (tile_at_fields p Hpl i j Hi Hj) as (-> & -> & _). destruct Hpk as (_ & _ & _ & ? & _ & ? & _).
    split; apply Z.divide_add_r; try done; by eexists.
  - apply Forall_forall. intros t Ht. apply tile_of_packing in Ht as (p & Hp & Hpl & Hpk & _ & Hpart).
    destruct (packing_rect p Hp) as (_ & _ & Hin & ? & ?). destruct Hpl. unfold tile_part, packed_ok in *. lia.
  - apply Forall_forall. intros t Ht. apply tile_of_packing in Ht as (p & Hp & Hpl & Hpk & _ & Hpart).
    destruct (packing_rect p Hp) as (_ & _ & Hin & ? & ?). unfold tile_part, within in *. lia.
  - apply Forall_forall. intros t Ht. apply tile_of_packing in Ht as (p & _ & _ & _ & _ & Hpart).
    unfold tile_part in *. lia.
  - intros t i j Ht Hi Hj. apply tile_of_packing in Ht as (p & Hp & _ & _ & _ & Hpart).
    pose proof Ha as (rs & Hrs & (Hsrc & Hok & HR) & Hd). unfold tile_part in Hpart.
    rewrite (texture_shows frame (rects a) p); [f_equal; lia|..|done|done|lia|lia].
    + apply Forall_forall. intros q Hq. exists (width a). by apply packing_rect.
    + apply Forall_forall. intros q Hq. by apply packing_rect.
  - intros px py Hc. pose proof Ha as (rs & [Hrs Hcov] & (Hsrc & Hok & HR) & Hd).
    destruct (Hcov px py Hc) as (r & Hr & Hin). rewrite <- Hsrc in Hr. apply list_elem_of_fmap in Hr as (p & -> & Hp).
    destruct (tiles_of_cover p px py) as (t & Ht & Hon); [by apply packing_rect|done|].
    exists t. split; [|done]. apply list_elem_of_bind. eauto.
Qed.
End packing_tiles.

(** ** When nothing can go wrong *)

Lemma split_small W H L l :
  W <= L -> H <= L -> 0 < L <= 16384 -> Forall (within W H) l ->
  split_rects_to_texture_limit l L = Ok l.
Proof.
  intros HW HH HL Hl. unfold split_rects_to_texture_limit. rewrite Z.max_l by lia.
  rewrite (foldM_collect _ (fun r => [r])).
  { cbn. f_equal. clear. induction l as [|r l IH]; cbn; [done|]. by rewrite IH. }
  intros r s Hr. rewrite Forall_forall in Hl. destruct (Hl r Hr) as (? & ? & ? & ?).
  assert (forall n, 0 < n -> exists k, turns L n = S (S k)) as Hturns.
  { intros n Hn. unfold turns. exists (Z.to_nat (n / L)). pose proof (Z.div_pos n L). lia. }
  destruct (Hturns (bottom r - top r)) as [k ->]; [lia|].
  destruct (Hturns (right r - left r)) as [m Hm]; [lia|]. cbn [split_rows]. rewrite Hm. cbn [split_row].
  unfold saturating_add, u32_max. destruct r as [l0 t0 r0 b0]; cbn in *.
  replace (t0 <? b0) with true by lia. replace (l0 <? r0) with true by lia.
  rewrite !(Z.min_r 4294967295) by lia. rewrite !Z.min_r by lia.
  rewrite !Z.ltb_irrefl. done.
Qed.

Lemma widths_bound rs L :
  0 < L <= u16_max -> (32 | L) -> Forall (fun r => 0 < right r - left r <= L) rs ->
  widths rs <= len rs * L.
Proof.
  intros HL HL32. induction 1 as [|r rs Hr Hrs IH]; [done|]. cbn [widths foldr]. fold (widths rs).
  rewrite len_cons. unfold saturating_sub. rewrite Z.max_r by lia.
  pose proof (align_limit (right r - left r) L ltac:(lia) ltac:(lia) HL32). lia.
Qed.

(** One rectangle that fits the limit makes an atlas that does. *)
Lemma pack_one r L :
  0 < L <= u16_max -> (32 | L) -> 0 < right r - left r <= L -> 0 < bottom r - top r <= L ->
  exists a, pack_shelf [r] L = Ok a /\ width a <= L /\ height a <= L.
Proof.
  intros HL HL32 Hw Hh. unfold pack_shelf. rewrite sum_widths by lia.
  pose proof (align_limit (right r - left r) L ltac:(lia) ltac:(lia) HL32) as Aw.
  pose proof (align_limit (bottom r - top r) L ltac:(lia) ltac:(lia) HL32) as Ah.
  unfold widths, saturating_sub; cbn [foldr]. rewrite Z.max_r by lia. unfold u16_max, u32_max in *.
  replace (_ <=? _) with true by lia. rewrite bind_Ok. eexists; split; [done|]. cbn.
  rewrite !wrap_u32_small by (unfold u32_max; lia). unfold saturating_add, u32_max. lia.
Qed.

(** The rectangles of the frame that have to be sent. *)
Definition wanted (frame : CapturedFrame) (dirty : list DirtyRect) (force_full_frame : bool)
    : list DirtyRect :=
  if force_full_frame then [full_desktop_dirty_rect (frame_width frame) (frame_height frame)]
  else List.filter (in_frame frame) dirty.

Lemma wanted_inside frame dirty force :
  0 < frame_width frame -> 0 < frame_height frame ->
  Forall (fun r => 0 <= left r /\ 0 <= top r) dirty ->
  Forall (within (frame_width frame) (frame_height frame)) (wanted frame dirty force).
Proof.
  intros Hw Hh Hd. unfold wanted. destruct force.
  - apply Forall_cons. split; [|by apply Forall_nil]. unfold within; cbn. lia.
  - induction Hd as [|r l Hr Hd IH]; cbn; [done|].
    destruct (in_frame frame r) eqn:Hi; [|done]. apply Forall_cons. split; [|done].
    unfold in_frame in Hi. unfold within. lia.
Qed.

Lemma pieces_nil frame L ws px py : pieces frame L ws [] -> ~ covered ws px py.
Proof. intros [_ Hc] Hin. by apply Hc, covered_nil in Hin. Qed.

Section outcomes.
Context (encode : picture -> Z -> Z -> Z -> Z -> Z -> list Tile.TileCommandTile -> bool ->
           res anyhow Stream.TileCommandStream).
Context (frame : CapturedFrame) (dirty : list DirtyRect) (force allow_delta : bool).
Context (Hfw : 0 < frame_width frame <= u16_max) (Hfh : 0 < frame_height frame <= u16_max).
Context (Hd : Forall (fun r => 0 <= left r /\ 0 <= top r) dirty).

(** The answer when there is nothing to send. *)
Definition nothing : res anyhow AtlasReadback :=
  stream ← empty_stream 1 1;
  Ok {| atlas_width := 1; atlas_height := 1; dirty_rects := []; tile_commands := stream;
        fallback_reason := None |}.

(** The answer when the tiles [ts] of the atlas [a] are encoded. *)
Definition encoded (a : PackedAtlas) (fb : option string) (ts : list Tile.TileCommandTile)
    : res anyhow AtlasReadback :=
  stream ← encode (copy_rects_to_texture frame (rects a)) (width a) (height a) (frame_width frame)
             (frame_height frame) (format frame) ts allow_delta;
  Ok {| atlas_width := width a; atlas_height := height a;
        dirty_rects := emitted_rect <$> Stream.copy_rects stream;
        tile_commands := stream; fallback_reason := fb |}.

Lemma copy_dirty_rects_prepared rs :
  ensure_bgra_format (format frame) = Ok tt ->
  prepare_rects frame dirty force (max_texture_size_for_device (feature_level frame)) = Ok rs ->
  copy_dirty_rects_to_compact_atlas encode frame dirty force allow_delta =
  match rs with
  | [] => nothing
  | _ => '(a, fb) ← pack_rects frame rs force (max_texture_size_for_device (feature_level frame));
         ts ← build_tile_command_descriptors (rects a); encoded a fb ts
  end.
Proof.
  intros Hf Hp. unfold copy_dirty_rects_to_compact_atlas. rewrite Hf, bind_Ok. cbv zeta.
  by rewrite Hp, bind_Ok.
Qed.

Lemma prepare_eq L :
  prepare_rects frame dirty force L =
  (rs ← (if force then Ok (wanted frame dirty force) else coalesce_dirty_rects (wanted frame dirty force));
   split_rects_to_texture_limit rs L).
Proof.
  unfold prepare_rects, wanted. destruct force; [|done]. cbn [List.filter].
  unfold in_frame; cbn [left right top bottom full_desktop_dirty_rect].
  by replace (_ && _) with true by lia.
Qed.

(** Small frames and not absurdly many rectangles are always packed. *)
Lemma pack_rects_total rs :
  let L := max_texture_size_for_device (feature_level frame) in
  frame_width frame <= L -> frame_height frame <= L -> len dirty <= 262143 ->
  prepare_rects frame dirty force L = Ok rs ->
  pieces frame L (wanted frame dirty force) rs ->
  exists a fb, pack_rects frame rs force L = Ok (a, fb).
Proof.
  cbv zeta. destruct (device_limit (feature_level frame)) as [HL HL32].
  set (L := max_texture_size_for_device (feature_level frame)) in *. intros HW HH Hn Hprep [Hrs _].
  unfold u16_max in *.
  assert (0 < L <= u16_max) as HL' by (unfold u16_max; lia).
  assert (len rs <= 262143) as Hlen.
  { pose proof (wanted_inside frame dirty force ltac:(lia) ltac:(lia) Hd) as Hw.
    rewrite prepare_eq in Hprep. unfold wanted in *. destruct force.
    - rewrite bind_Ok, (split_small (frame_width frame) (frame_height frame)) in Hprep by (done || lia).
      by apply Ok_inj in Hprep as <-.
    - destruct (coalesce_ok _ _ _ Hw) as (out & Hco & Ho & _ & Hl & _). rewrite Hco, bind_Ok in Hprep.
      rewrite (split_small (frame_width frame) (frame_height frame)) in Hprep by (done || lia).
      apply Ok_inj in Hprep as <-. unfold len in *.
      assert (length (List.filter (in_frame frame) dirty) <= length dirty)%nat.
      { clear. induction dirty as [|r l IH]; cbn; [lia|]. case_match; cbn; lia. }
      lia. }
  pose proof (pack_shelf_ok rs L HL' HL32 (pieces_sizes frame L rs Hrs)) as Hp.
  pose proof (widths_bound rs L HL' HL32) as Hwb.
  assert (widths rs <= u32_max) as Hwid.
  { eapply Z.le_trans; [apply Hwb|].
    - eapply Forall_impl; [exact (pieces_sizes frame L rs Hrs)|]. cbn. lia.
    - unfold u32_max. pose proof (len_nonneg rs). nia. }
  replace (widths rs <=? u32_max) with true in Hp by lia. destruct Hp as (a & Hp & Ha & _).
  unfold pack_rects. rewrite Hp, bind_Ok. cbv zeta.
  destruct ((L <? width a) || (L <? height a)) eqn:Hbig.
  - rewrite (split_small (frame_width frame) (frame_height frame)); [|done|done|lia|].
    2: { apply Forall_cons. split; [unfold within; cbn; lia|by apply Forall_nil]. }
    destruct (pack_one (full_desktop_dirty_rect (frame_width frame) (frame_height frame)) L)
      as (a' & Hp' & ? & ?); [done|done|cbn; lia|cbn; lia|].
    rewrite bind_Ok, Hp', !bind_Ok. unfold ensure. replace (_ && _) with true by lia.
    rewrite bind_Ok. eauto.
  - rewrite bind_Ok. unfold ensure. replace (_ && _) with true by lia. rewrite bind_Ok. eauto.
Qed.
End outcomes.

Definition format_error : anyhow := "unsupported DXGI atlas dump format"%string.

Lemma bgra_format_cases f :
  ensure_bgra_format f = Ok tt \/ ensure_bgra_format f = Err format_error.
Proof. unfold ensure_bgra_format, ensure. case_match; auto. Qed.

Section sound.
Context (encode : picture -> Z -> Z -> Z -> Z -> Z -> list Tile.TileCommandTile -> bool ->
           res anyhow Stream.TileCommandStream).
Context (frame : CapturedFrame) (dirty : list DirtyRect) (force allow_delta : bool).
Context (Hfw : 0 < frame_width frame <= u16_max) (Hfh : 0 < frame_height frame <= u16_max).
Context (Hd : Forall (fun r => 0 <= left r /\ 0 <= top r) dirty).

(** Nothing was wanted and nothing is sent, or sound tiles go to the encoder. *)
Definition sent (r : res anyhow AtlasReadback) : Prop :=
  ((forall px py, ~ covered (wanted frame dirty force) px py) /\ r = nothing) \/
  exists a fb ts, r = encoded encode frame allow_delta a fb ts /\
    tiles_sound frame (wanted frame dirty force) a ts /\
    1 <= width a <= max_texture_size_for_device (feature_level frame) /\
    1 <= height a <= max_texture_size_for_device (feature_level frame).

Lemma copy_dirty_rects_cases :
  ensure_bgra_format (format frame) = Ok tt ->
  exists rs, prepare_rects frame dirty force (max_texture_size_for_device (feature_level frame)) = Ok rs /\
    pieces frame (max_texture_size_for_device (feature_level frame)) (wanted frame dirty force) rs /\
    let r := copy_dirty_rects_to_compact_atlas encode frame dirty force allow_delta in
    let p := pack_rects frame rs force (max_texture_size_for_device (feature_level frame)) in
    (rs <> [] /\ p = Err overflow_error /\ r = Err overflow_error) \/
    (rs <> [] /\ p = Err too_large_error /\ r = Err too_large_error) \/ sent r.
Proof.
  intros Hf. destruct (device_limit (feature_level frame)) as [HL HL32].
  destruct (prepare_ok frame (max_texture_size_for_device (feature_level frame))) with
    (dirty := dirty) (force := force) as (rs & Hrs & Hp); [lia|done..|].
  exists rs. split; [done|]. split; [done|]. cbv zeta.
  rewrite (copy_dirty_rects_prepared _ _ _ _ _ rs Hf Hrs).
  destruct rs as [|r rs']; [right; right; left; split; [|done]; intros px py; by eapply pieces_nil|].
  set (rs := r :: rs') in *.
  destruct (pack_rects_cases frame (max_texture_size_for_device (feature_level frame))) with
    (wanted := wanted frame dirty force) (rs := rs) (force := force)
    as [(a & fb & Hpk & Hpack)|[Hpk|Hpk]]; [lia|done|done|done| |done| | |].
  - eapply Forall_impl; [apply wanted_inside; [lia|lia|done]|]. unfold within; cbn. lia.
  - right; right; right. exists a, fb, (rects a ≫= tiles_of). split_and!.
    + rewrite Hpk, bind_Ok. erewrite build_descriptors_ok; [done| | | |exact Hpack]; [lia|done..].
    + eapply packing_tiles; [| | |exact Hpack]; [lia|done..].
    + destruct Hpack as (? & ? & ? & ? & ?). lia.
    + destruct Hpack as (? & ? & ? & ? & ?). lia.
    + destruct Hpack as (? & ? & ? & ? & ?). lia.
    + destruct Hpack as (? & ? & ? & ? & ?). lia.
  - left. by rewrite Hpk.
  - right; left. by rewrite Hpk.
Qed.
End sound.

(** Merging dirty rectangles ends, gives at most as many rectangles, all of them
    inside the desktop, loses no pixel, and leaves no two rectangles that the rule
    would still merge. *)
Theorem coalesce_dirty_rects_sound W H l :
  Forall (within W H) l ->
  exists out, coalesce_dirty_rects l = Ok out /\
    (length out <= length l)%nat /\ Forall (within W H) out /\
    (forall px py, covered l px py -> covered out px py) /\
    ForallOrdPairs (fun a b => should_merge_dirty_rects a b = false) out.
Proof. intros Hl. destruct (coalesce_ok W H l Hl) as (out & ? & ? & ? & ? & ?). by exists out. Qed.

Definition sample_rect (l r : Z) : DirtyRect := {| left := l; top := 0; right := r; bottom := 10 |}.

Lemma coalesce_dirty_rects_sound_witness :
  coalesce_dirty_rects [sample_rect 20 30; sample_rect 100 110; sample_rect 0 10; sample_rect 10 20]
    = Ok [sample_rect 0 30; sample_rect 100 110] /\
  exists out,
    coalesce_dirty_rects [sample_rect 20 30; sample_rect 100 110; sample_rect 0 10; sample_rect 10 20]
      = Ok out /\ (length out <= 4)%nat.
Proof.
  split; [vm_compute; reflexivity|].
  destruct (coalesce_dirty_rects_sound 110 10
    [sample_rect 20 30; sample_rect 100 110; sample_rect 0 10; sample_rect 10 20]) as (out & ? & ? & _).
  - repeat (apply Forall_cons_2; [unfold within; cbn; lia|]). apply Forall_nil_2.
  - by exists out.
Defined.

(** C6. Whatever rectangles a captured frame comes with, the capture side refuses
    the frame with one of three errors, sends nothing because nothing is dirty, or
    encodes an atlas within the texture limit whose tiles lie apart on its grid,
    show there what the frame shows on the desktop, and contain every valid dirty
    rectangle. *)
Theorem atlas_tiles_show_frame encode frame dirty force allow_delta :
  0 < frame_width frame <= u16_max -> 0 < frame_height frame <= u16_max ->
  Forall (fun r => 0 <= left r /\ 0 <= top r) dirty ->
  let r := copy_dirty_rects_to_compact_atlas encode frame dirty force allow_delta in
  (exists e, r = Err e /\ e ∈ [format_error; overflow_error; too_large_error]) \/
  sent encode frame dirty force allow_delta r.
Proof.
  intros Hfw Hfh Hd. cbv zeta. destruct (bgra_format_cases (format frame)) as [Hf|Hf].
  - destruct (copy_dirty_rects_cases encode frame dirty force allow_delta Hfw Hfh Hd Hf)
      as (rs & _ & _ & [(_ & _ & ->)|[(_ & _ & ->)|Hs]]); [left..|by right].
    + exists overflow_error. split; [done|]. right; left.
    + exists too_large_error. split; [done|]. right; right; left.
  - left. exists format_error. split; [|left]. unfold copy_dirty_rects_to_compact_atlas.
    by rewrite Hf.
Qed.

Definition sample_frame : CapturedFrame :=
  {| frame_width := 64; frame_height := 40; format := 87; feature_level := 0xb000; texture := black |}.

Lemma atlas_tiles_show_frame_witness :
  sent (fun _ _ _ _ _ _ _ _ => empty_stream 1 1) sample_frame [sample_rect 0 40] false true
    (copy_dirty_rects_to_compact_atlas (fun _ _ _ _ _ _ _ _ => empty_stream 1 1) sample_frame
       [sample_rect 0 40] false true).
Proof.
  destruct (atlas_tiles_show_frame (fun _ _ _ _ _ _ _ _ => empty_stream 1 1) sample_frame
    [sample_rect 0 40] false true) as [(e & He & _)|Hs]; [unfold u16_max; cbn; lia..| | |done].
  - apply Forall_cons_2; [cbn; lia|apply Forall_nil_2].
  - exfalso. vm_compute in He. discriminate He.
Defined.

(** A frame that is no larger than the texture limit, with at most 262143 dirty
    rectangles, is never refused: when the rectangles do not fit an atlas, the whole
    frame does. *)
Theorem atlas_always_packed encode frame dirty force allow_delta :
  let L := max_texture_size_for_device (feature_level frame) in
  ensure_bgra_format (format frame) = Ok tt ->
  0 < frame_width frame <= L -> 0 < frame_height frame <= L -> len dirty <= 262143 ->
  Forall (fun r => 0 <= left r /\ 0 <= top r) dirty ->
  sent encode frame dirty force allow_delta
    (copy_dirty_rects_to_compact_atlas encode frame dirty force allow_delta).
Proof.
  cbv zeta. intros Hf Hw Hh Hn Hd. pose proof (device_limit (feature_level frame)) as [HL _].
  assert (0 < frame_width frame <= u16_max) as Hw' by (unfold u16_max; lia).
  assert (0 < frame_height frame <= u16_max) as Hh' by (unfold u16_max; lia).
  destruct (copy_dirty_rects_cases encode frame dirty force allow_delta Hw' Hh' Hd Hf)
    as (rs & Hrs & Hp & [(_ & Hpk & _)|[(_ & Hpk & _)|Hs]]); [..|done];
    (destruct (pack_rects_total frame dirty force Hw' Hh' Hd rs) as (a & fb & Hok); [lia|lia|done..|]);
    rewrite Hpk in Hok; discriminate Hok.
Qed.

Lemma atlas_always_packed_witness :
  sent (fun _ _ _ _ _ _ _ _ => empty_stream 1 1) sample_frame [sample_rect 0 40; sample_rect 50 90]
    false true
    (copy_dirty_rects_to_compact_atlas (fun _ _ _ _ _ _ _ _ => empty_stream 1 1) sample_frame
       [sample_rect 0 40; sample_rect 50 90] false true).
Proof.
  apply atlas_always_packed; [done|vm_compute; split; [reflexivity|discriminate]..|vm_compute; discriminate|].
  repeat (apply Forall_cons_2; [cbn; lia|]). apply Forall_nil_2.
Defined.
