(* ===== verification/ViewportCpu.v ===== *)
(** * The CPU viewer

    [apps/talos_viewer/src-tauri/src/viewport_cpu.rs]: the viewer's own decoder of
    tile command streams, and [ModernDisplayCompositor], the state machine that
    turns display records into frames.  The build modelled is the one without the
    platform decoders (VideoToolbox, Metal); libvpx is not modelled, and zstd is a
    parameter of the compositor.  Errors are the messages of the source. *)

From S2P Require Import Prelude Bytes Pixels DisplayRecord TileStream TileDecode.

(** ** The decoder *)

Module Cpu.

Definition TILE_COMMAND_STREAM_MAGIC : Z := 0x32585441.
Definition TILE_COMMAND_STREAM_VERSION : Z := 4.
Definition TILE_COMMAND_STREAM_HEADER_BYTES : Z := 32.
Definition TILE_COMMAND_HEADER_BYTES : Z := 24.
Definition TILE_COMMAND_RAW_BGRA : Z := 1.
Definition TILE_COMMAND_SOLID_COLOR : Z := 2.
Definition TILE_COMMAND_XOR_RAW : Z := 3.
Definition TILE_COMMAND_XOR_SPARSE : Z := 4.
Definition TILE_COMMAND_MASKED_QUANT_DELTA : Z := 5.
Definition TILE_COMMAND_LOSSY_UI_BLOCK : Z := 6.
Definition TILE_COMMAND_SHARP_UI_BLOCK : Z := 7.

Definition clamp (value : Z) : Z := Z.max 0 (Z.min 255 value).

Definition frame_len (width height : Z) : res string Z :=
  ok_or (pixels ← checked_mul usize_max width height; checked_mul usize_max pixels 4)
    "frame dimensions overflow"%string.

Definition read_u32 (bytes : list Z) (offset : Z) : res string Z :=
  end_ ← ok_or (checked_add usize_max offset 4) "u32 read offset overflow"%string;
  value ← ok_or (slice bytes offset end_) "u32 read exceeds byte stream"%string;
  value ← or_panic (try_into_array 4 value);
  Ok (le_val value).

(** [o.is_none_or(|v| v > limit)] *)
Definition is_none_or_gt (o : option Z) (limit : Z) : bool :=
  match o with Some v => limit <? v | None => true end.

Definition validate_rect (x y width height limit_width limit_height : Z) : res string unit :=
  if (width =? 0) || (height =? 0) then Err "rect is empty"%string else
  if is_none_or_gt (checked_add u32_max x width) limit_width
     || is_none_or_gt (checked_add u32_max y height) limit_height
  then Err "rect exceeds bounds"%string else
  Ok tt.

Definition write_pixel (atlas : list Z) (atlas_stride atlas_x atlas_y width pixel : Z)
    (color : list Z) : res string (list Z) :=
  if width =? 0 then Panic else
  let row := pixel / width in
  let col := pixel mod width in
  let dst := (atlas_y + row) * atlas_stride + (atlas_x + col) * 4 in
  or_panic (copy_at atlas dst color).

Definition fill_rect (atlas : list Z) (atlas_stride atlas_x atlas_y width height : Z)
    (color : list Z) : res string (list Z) :=
  foldM (fun atlas row =>
    let dst := (atlas_y + row) * atlas_stride + atlas_x * 4 in
    foldM (fun atlas pixel =>
      let start := dst + pixel * 4 in
      or_panic (copy_at atlas start color)) atlas (seqZ 0 width)) atlas (seqZ 0 height).

Definition read_previous_pixel (previous : list Z) (desktop_width desktop_x desktop_y tile_width pixel : Z)
    : res string Z :=
  if tile_width =? 0 then Panic else
  let row := pixel / tile_width in
  let col := pixel mod tile_width in
  offset ← ok_or (checked_mul usize_max ((desktop_y + row) * desktop_width + desktop_x + col) 4)
             "previous desktop pixel offset overflow"%string;
  read_u32 previous offset.

Definition copy_previous_rect (atlas : list Z) (atlas_stride atlas_x atlas_y width height : Z)
    (previous : list Z) (desktop_width desktop_x desktop_y : Z) : res string (list Z) :=
  let desktop_stride := desktop_width * 4 in
  let row_bytes := width * 4 in
  foldM (fun atlas row =>
    let src := (desktop_y + row) * desktop_stride + desktop_x * 4 in
    let dst := (atlas_y + row) * atlas_stride + atlas_x * 4 in
    s ← or_panic (slice previous src (src + row_bytes));
    or_panic (copy_at atlas dst s)) atlas (seqZ 0 height).

Definition align_usize_to_4 (value : Z) : Z := Z.land (wrap_usize (value + 3)) (usize_max - 3).

Definition sign_extend (value bits : Z) : Z :=
  let sign_bit := Z.shiftl 1 (bits - 1) in
  if Z.land value sign_bit =? 0 then value else value - Z.shiftl 1 bits.

Definition ycocg_to_bgra (y co cg : Z) : Z :=
  let tmp := y - Z.shiftr cg 1 in
  let g := cg + tmp in
  let b := tmp - Z.shiftr co 1 in
  let r := b + co in
  Z.lor (Z.lor (Z.lor (clamp b) (Z.shiftl (clamp g) 8)) (Z.shiftl (clamp r) 16)) 0xff000000.

Definition rgb565_to_bgra (value : Z) : Z :=
  let b5 := Z.land value 0x1f in
  let g6 := Z.land (Z.shiftr value 5) 0x3f in
  let r5 := Z.land (Z.shiftr value 11) 0x1f in
  let b := Z.lor (Z.shiftl b5 3) (Z.shiftr b5 2) in
  let g := Z.lor (Z.shiftl g6 2) (Z.shiftr g6 4) in
  let r := Z.lor (Z.shiftl r5 3) (Z.shiftr r5 2) in
  Z.lor (Z.lor (Z.lor b (Z.shiftl g 8)) (Z.shiftl r 16)) 0xff000000.

Definition apply_masked_quant_delta (previous_pixel packed_delta quant_shift : Z) : Z :=
  let step := Z.shiftl 1 quant_shift in
  let previous_b := Z.land previous_pixel 0xff in
  let previous_g := Z.land (Z.shiftr previous_pixel 8) 0xff in
  let previous_r := Z.land (Z.shiftr previous_pixel 16) 0xff in
  let alpha := Z.land previous_pixel 0xff000000 in
  let delta_b := sign_extend (Z.land packed_delta 0x1f) 5 * step in
  let delta_g := sign_extend (Z.land (Z.shiftr packed_delta 5) 0x3f) 6 * step in
  let delta_r := sign_extend (Z.land (Z.shiftr packed_delta 11) 0x1f) 5 * step in
  Z.lor (Z.lor (Z.lor (clamp (previous_b + delta_b)) (Z.shiftl (clamp (previous_g + delta_g)) 8))
           (Z.shiftl (clamp (previous_r + delta_r)) 16)) alpha.

Definition decode_masked_quant_delta_payload (atlas : list Z)
    (atlas_stride atlas_x atlas_y desktop_x desktop_y width height : Z) (payload : list Z)
    (changed_count : Z) (previous_desktop : option (list Z)) (desktop_width desktop_height : Z)
    : res string (list Z) :=
  previous ← ok_or previous_desktop "ATX2 masked delta command needs previous frame"%string;
  _ ← validate_rect desktop_x desktop_y width height desktop_width desktop_height;
  let pixel_count := width * height in
  if pixel_count <? changed_count then Err "ATX2 masked delta changed count exceeds tile"%string else
  let mask_words := div_ceil pixel_count 32 in
  mask_bytes ← ok_or (checked_mul usize_max mask_words 4) "ATX2 mask byte length overflow"%string;
  residual_bytes ← ok_or (checked_mul usize_max pixel_count 2)
                     "ATX2 residual byte length overflow"%string;
  total ← ok_or (value ← checked_add usize_max 4 mask_bytes;
                 checked_add usize_max value residual_bytes)
            "ATX2 masked delta payload length overflow"%string;
  let expected := align_usize_to_4 total in
  if negb (len payload =? expected) then Err "ATX2 masked delta payload length mismatch"%string else
  word ← read_u32 payload 0;
  let quant_shift := Z.land word 0xff in
  if 4 <? quant_shift then Err "ATX2 masked delta shift is invalid"%string else
  let mask_offset := 4 in
  let residual_offset := mask_offset + mask_bytes in
  '(atlas, seen_changed) ← foldM (fun '(atlas, seen_changed) pixel =>
    previous_pixel ← read_previous_pixel previous desktop_width desktop_x desktop_y width pixel;
    mask_word ← read_u32 payload (mask_offset + (pixel / 32) * 4);
    '(color, seen_changed) ←
      (if negb (Z.land mask_word (Z.shiftl 1 (Z.land pixel 31)) =? 0) then
         let seen_changed := saturating_add usize_max seen_changed 1 in
         residual_word ← read_u32 payload (residual_offset + (pixel / 2) * 4);
         let packed := if Z.land pixel 1 =? 0 then Z.land residual_word 0xffff
                       else Z.shiftr residual_word 16 in
         Ok (apply_masked_quant_delta previous_pixel packed quant_shift, seen_changed)
       else Ok (previous_pixel, seen_changed));
    atlas ← write_pixel atlas atlas_stride atlas_x atlas_y width pixel (le_bytes 4 color);
    Ok (atlas, seen_changed)) (atlas, 0) (seqZ 0 pixel_count);
  if negb (seen_changed =? changed_count)
  then Err "ATX2 masked delta changed mask count mismatch"%string else
  Ok atlas.

Definition decode_lossy_ui_block_payload (atlas : list Z)
    (atlas_stride atlas_x atlas_y width height : Z) (payload : list Z) : res string (list Z) :=
  let pixel_count := width * height in
  let chroma_width := div_ceil width 4 in
  let chroma_height := div_ceil height 4 in
  chroma_count ← ok_or (checked_mul usize_max chroma_width chroma_height)
                   "ATX2 lossy block chroma count overflow"%string;
  let y_bytes := align_usize_to_4 (div_ceil pixel_count 2) in
  let chroma_bytes := align_usize_to_4 chroma_count in
  expected ← ok_or (value ← checked_add usize_max 4 y_bytes;
                    checked_add usize_max value chroma_bytes)
               "ATX2 lossy block payload length overflow"%string;
  if negb (len payload =? expected) then Err "ATX2 lossy block payload length mismatch"%string else
  header ← read_u32 payload 0;
  if negb (Z.land header 0xffff =? chroma_width) || negb (Z.shiftr header 16 =? chroma_height)
  then Err "ATX2 lossy block chroma dimensions mismatch"%string else
  let y_offset := 4 in
  let chroma_offset := y_offset + y_bytes in
  foldM (fun atlas pixel =>
    y_word ← read_u32 payload (y_offset + (pixel / 8) * 4);
    let y4 := Z.land (Z.shiftr y_word (Z.land pixel 7 * 4)) 0x0f in
    let y := Z.lor (Z.shiftl y4 4) y4 in
    let px := pixel mod width in
    let py := pixel / width in
    let chroma_index := (py / 4) * chroma_width + px / 4 in
    chroma_word ← read_u32 payload (chroma_offset + (chroma_index / 4) * 4);
    let chroma_byte := Z.land (Z.shiftr chroma_word (Z.land chroma_index 3 * 8)) 0xff in
    let co := sign_extend (Z.land chroma_byte 0x0f) 4 * 32 in
    let cg := sign_extend (Z.land (Z.shiftr chroma_byte 4) 0x0f) 4 * 32 in
    write_pixel atlas atlas_stride atlas_x atlas_y width pixel (le_bytes 4 (ycocg_to_bgra y co cg)))
    atlas (seqZ 0 pixel_count).

Definition decode_sharp_ui_block_payload (atlas : list Z)
    (atlas_stride atlas_x atlas_y width height : Z) (payload : list Z) : res string (list Z) :=
  let pixel_count := width * height in
  total ← ok_or (checked_mul usize_max pixel_count 2)
            "ATX2 sharp block payload length overflow"%string;
  let expected := align_usize_to_4 total in
  if negb (len payload =? expected) then Err "ATX2 sharp block payload length mismatch"%string else
  foldM (fun atlas pixel =>
    word ← read_u32 payload ((pixel / 2) * 4);
    let packed := if Z.land pixel 1 =? 0 then Z.land word 0xffff else Z.shiftr word 16 in
    write_pixel atlas atlas_stride atlas_x atlas_y width pixel (le_bytes 4 (rgb565_to_bgra packed)))
    atlas (seqZ 0 pixel_count).

(** The exclusive-or branches: the previous rectangle is copied first, then the
    listed words are applied to it. *)
Definition decode_xor (kind : Z) (atlas : list Z)
    (atlas_stride atlas_x atlas_y desktop_x desktop_y width height : Z) (payload : list Z)
    (previous_desktop : option (list Z)) (desktop_width desktop_height : Z) : res string (list Z) :=
  previous ← ok_or previous_desktop "ATX2 delta command needs previous frame"%string;
  _ ← validate_rect desktop_x desktop_y width height desktop_width desktop_height;
  atlas ← copy_previous_rect atlas atlas_stride atlas_x atlas_y width height previous
            desktop_width desktop_x desktop_y;
  let pixel_count := width * height in
  if kind =? TILE_COMMAND_XOR_RAW then
    if negb (len payload =? pixel_count * 4) then Err "ATX2 XOR raw payload length mismatch"%string else
    foldM (fun atlas pixel =>
      prev ← read_previous_pixel previous desktop_width desktop_x desktop_y width pixel;
      word ← read_u32 payload (pixel * 4);
      write_pixel atlas atlas_stride atlas_x atlas_y width pixel (le_bytes 4 (Z.lxor prev word)))
      atlas (seqZ 0 pixel_count)
  else
    if negb (len payload mod 8 =? 0) then Err "ATX2 XOR sparse payload is unaligned"%string else
    foldM (fun atlas entry_offset =>
      pixel ← read_u32 payload entry_offset;
      if pixel_count <=? pixel then Err "ATX2 XOR sparse pixel index exceeds tile"%string else
      prev ← read_previous_pixel previous desktop_width desktop_x desktop_y width pixel;
      word ← read_u32 payload (entry_offset + 4);
      write_pixel atlas atlas_stride atlas_x atlas_y width pixel (le_bytes 4 (Z.lxor prev word)))
      atlas (step_by_8 (len payload)).

Definition decode_raw (atlas : list Z) (atlas_stride atlas_x atlas_y width height : Z)
    (payload : list Z) : res string (list Z) :=
  let row_bytes := width * 4 in
  if negb (len payload =? row_bytes * height) then Err "ATX2 raw payload length mismatch"%string else
  foldM (fun atlas row =>
    let src := row * row_bytes in
    let dst := (atlas_y + row) * atlas_stride + atlas_x * 4 in
    s ← or_panic (slice payload src (src + row_bytes));
    or_panic (copy_at atlas dst s)) atlas (seqZ 0 height).

(** The [match kind] of the loop. *)
Definition decode_payload (kind : Z) (atlas : list Z)
    (atlas_stride atlas_x atlas_y desktop_x desktop_y width height : Z) (payload : list Z)
    (changed_count : Z) (previous_desktop : option (list Z)) (desktop_width desktop_height : Z)
    : res string (list Z) :=
  if kind =? TILE_COMMAND_SOLID_COLOR then
    if negb (len payload =? 4) then Err "ATX2 solid-color payload length mismatch"%string else
    color ← read_u32 payload 0;
    fill_rect atlas atlas_stride atlas_x atlas_y width height (le_bytes 4 color)
  else if kind =? TILE_COMMAND_RAW_BGRA then
    decode_raw atlas atlas_stride atlas_x atlas_y width height payload
  else if (kind =? TILE_COMMAND_XOR_RAW) || (kind =? TILE_COMMAND_XOR_SPARSE) then
    decode_xor kind atlas atlas_stride atlas_x atlas_y desktop_x desktop_y width height payload
      previous_desktop desktop_width desktop_height
  else if kind =? TILE_COMMAND_MASKED_QUANT_DELTA then
    decode_masked_quant_delta_payload atlas atlas_stride atlas_x atlas_y desktop_x desktop_y
      width height payload changed_count previous_desktop desktop_width desktop_height
  else if kind =? TILE_COMMAND_LOSSY_UI_BLOCK then
    decode_lossy_ui_block_payload atlas atlas_stride atlas_x atlas_y width height payload
  else if kind =? TILE_COMMAND_SHARP_UI_BLOCK then
    decode_sharp_ui_block_payload atlas atlas_stride atlas_x atlas_y width height payload
  else Err "unsupported ATX2 command kind"%string.

(** One turn of the loop over the commands, from the header at [offset]: the atlas
    after the command and the offset of the next one. *)
Definition decode_command (bytes : list Z) (atlas_width atlas_height : Z)
    (previous_desktop : option (list Z)) (desktop_width desktop_height : Z)
    (atlas : list Z) (offset : Z) : res string (list Z * Z) :=
  let atlas_stride := atlas_width * 4 in
  if len bytes <? offset + TILE_COMMAND_HEADER_BYTES
  then Err "ATX2 command header is truncated"%string else
  kind ← read_u32 bytes offset;
  atlas_xy ← read_u32 bytes (offset + 4);
  desktop_xy ← read_u32 bytes (offset + 8);
  wh ← read_u32 bytes (offset + 12);
  payload_len ← read_u32 bytes (offset + 16);
  changed_count ← read_u32 bytes (offset + 20);
  let atlas_x := Z.land atlas_xy 0xffff in
  let atlas_y := Z.shiftr atlas_xy 16 in
  let desktop_x := Z.land desktop_xy 0xffff in
  let desktop_y := Z.shiftr desktop_xy 16 in
  let width := Z.land wh 0xffff in
  let height := Z.shiftr wh 16 in
  let payload_offset := offset + TILE_COMMAND_HEADER_BYTES in
  payload_end ← ok_or (checked_add usize_max payload_offset payload_len)
                  "ATX2 payload offset overflow"%string;
  if len bytes <? payload_end then Err "ATX2 command payload is truncated"%string else
  _ ← validate_rect atlas_x atlas_y width height atlas_width atlas_height;
  payload ← or_panic (slice bytes payload_offset payload_end);
  atlas ← decode_payload kind atlas atlas_stride atlas_x atlas_y desktop_x desktop_y width height
            payload changed_count previous_desktop desktop_width desktop_height;
  Ok (atlas, payload_end).

Fixpoint reconstruct_loop (fuel : nat) (bytes : list Z) (atlas_width atlas_height : Z)
    (previous_desktop : option (list Z)) (desktop_width desktop_height : Z)
    (atlas : list Z) (offset : Z) : res string (list Z) :=
  match fuel with
  | O => Fuel
  | S fuel =>
      if offset <? len bytes then
        '(atlas, offset) ← decode_command bytes atlas_width atlas_height previous_desktop
                             desktop_width desktop_height atlas offset;
        reconstruct_loop fuel bytes atlas_width atlas_height previous_desktop
          desktop_width desktop_height atlas offset
      else Ok atlas
  end.

Definition reconstruct_atlas_from_atx2 (bytes : list Z) (atlas_width atlas_height : Z)
    (previous_desktop : option (list Z)) (desktop_width desktop_height : Z) : res string (list Z) :=
  if (len bytes <? TILE_COMMAND_STREAM_HEADER_BYTES) || negb (len bytes mod 4 =? 0)
  then Err "ATX2 stream is truncated or unaligned"%string else
  magic ← read_u32 bytes 0;
  if negb (magic =? TILE_COMMAND_STREAM_MAGIC) then Err "bad ATX2 stream magic"%string else
  version ← read_u32 bytes 4;
  if negb (version =? TILE_COMMAND_STREAM_VERSION)
  then Err "unsupported ATX2 stream version"%string else
  byte_len ← read_u32 bytes 20;
  if negb (byte_len =? len bytes) then Err "ATX2 byte length mismatch"%string else
  n ← frame_len atlas_width atlas_height;
  atlas ← vec_zeroed n;
  reconstruct_loop (S (length bytes)) bytes atlas_width atlas_height previous_desktop
    desktop_width desktop_height atlas TILE_COMMAND_STREAM_HEADER_BYTES.
End Cpu.

(** ** The compositor *)

Module Compositor.

Record DecodedFrame := { frame_width : Z; frame_height : Z; fps : Z; argb : list Z }.

Record ModernDisplayCompositor := {
  width : Z;
  height : Z;
  bgra : list Z;
  current_frame_id : option Z;
}.

Definition new : ModernDisplayCompositor :=
  {| width := 0; height := 0; bgra := []; current_frame_id := None |}.

Definition dimensions (self : ModernDisplayCompositor) : option (Z * Z) :=
  if (0 <? width self) && (0 <? height self) then Some (width self, height self) else None.

Definition set_bgra (self : ModernDisplayCompositor) (b : list Z) : ModernDisplayCompositor :=
  {| width := width self; height := height self; bgra := b;
     current_frame_id := current_frame_id self |}.

Definition set_frame (self : ModernDisplayCompositor) (id : option Z) : ModernDisplayCompositor :=
  {| width := width self; height := height self; bgra := bgra self; current_frame_id := id |}.

(** [bgra.chunks_exact(4).map(..).collect()] *)
Fixpoint bgra_to_argb (b : list Z) : list Z :=
  match b with
  | b0 :: b1 :: b2 :: b3 :: rest =>
      Z.lor (Z.lor (Z.lor b0 (Z.shiftl b1 8)) (Z.shiftl b2 16)) (Z.shiftl b3 24)
      :: bgra_to_argb rest
  | _ => []
  end.

Definition decoded_frame (self : ModernDisplayCompositor) : DecodedFrame :=
  {| frame_width := width self; frame_height := height self; fps := 0;
     argb := bgra_to_argb (bgra self) |}.

Abbreviation M := (method ModernDisplayCompositor string).

Definition begin_frame (frame_id w h : Z) : M unit :=
  n ← lift (Cpu.frame_len w h);
  self ← get;
  _ ← (if negb (width self =? w) || negb (height self =? h) || negb (len (bgra self) =? n) then
         b ← lift (vec_zeroed n);
         put {| width := w; height := h; bgra := b; current_frame_id := current_frame_id self |}
       else mret tt);
  self ← get;
  put (set_frame self (Some frame_id)).

Definition ensure_frame (frame_id : Z) : M unit :=
  self ← get;
  lift (if decide (current_frame_id self = Some frame_id) then Ok tt
        else Err "display record frame id does not match active frame"%string).

(** Copy the rows of a rectangle of [src], [src_stride] bytes to a row, into [bgra]. *)
Definition copy_rows (src : list Z) (src_stride src_x src_y dst_stride dst_x dst_y w h : Z)
    : M unit :=
  let row_bytes := w * 4 in
  for_each (fun row =>
    let s := (src_y + row) * src_stride + src_x * 4 in
    let d := (dst_y + row) * dst_stride + dst_x * 4 in
    self ← get;
    r ← lift (or_panic (slice src s (s + row_bytes)));
    b ← lift (or_panic (copy_at (bgra self) d r));
    put (set_bgra self b)) (seqZ 0 h).

Definition apply_move (src_x src_y dst_x dst_y w h : Z) : M unit :=
  self ← get;
  _ ← lift (Cpu.validate_rect src_x src_y w h (width self) (height self));
  _ ← lift (Cpu.validate_rect dst_x dst_y w h (width self) (height self));
  let previous := bgra self in
  let stride := width self * 4 in
  copy_rows previous stride src_x src_y stride dst_x dst_y w h.

Definition blit_rect (atlas : list Z) (atlas_width atlas_height : Z) (rect : DisplayAtlasRect)
    : M unit :=
  self ← get;
  _ ← lift (Cpu.validate_rect (dst_x rect) (dst_y rect) (DisplayRecord.width rect)
              (DisplayRecord.height rect) (width self) (height self));
  _ ← lift (Cpu.validate_rect (atlas_x rect) (atlas_y rect) (DisplayRecord.width rect)
              (DisplayRecord.height rect) atlas_width atlas_height);
  copy_rows atlas (atlas_width * 4) (atlas_x rect) (atlas_y rect) (width self * 4)
    (dst_x rect) (dst_y rect) (DisplayRecord.width rect) (DisplayRecord.height rect).

Definition apply_atx2_atlas (atlas_width atlas_height : Z) (rects : list DisplayAtlasRect)
    (tile_commands : list Z) : M unit :=
  if len tile_commands =? 0 then mret tt else
  self ← get;
  atlas ← lift (Cpu.reconstruct_atlas_from_atx2 tile_commands atlas_width atlas_height
                  (Some (bgra self)) (width self) (height self));
  for_each (blit_rect atlas atlas_width atlas_height) rects.

Definition apply_h264_atlas : M unit :=
  lift (Err "H.264 atlas display-delta records are only supported on macOS/Windows viewers"%string).

Definition parse_error_message (e : DisplayRecordParseError) : string :=
  match e with
  | TooShort => "display record too short"
  | LengthMismatch => "display record length mismatch"
  | InvalidPayload => "display record payload invalid"
  end.

Section handle.
(** [zstd::stream::decode_all]: the decompressed bytes, or an error. *)
Context (decode_all : list Z -> option (list Z)).

Definition handle_keyframe (frame_id w h raw_len : Z) (payload : list Z) : M unit :=
  _ ← begin_frame frame_id w h;
  expected ← lift (Cpu.frame_len w h);
  b ← lift (if len payload =? expected then Ok payload
            else if raw_len =? expected
            then ok_or (decode_all payload) "decode zstd keyframe"%string
            else Err "display keyframe payload length mismatch"%string);
  if negb (len b =? expected)
  then lift (Err "display keyframe decoded length mismatch"%string) else
  self ← get;
  if negb (len (bgra self) =? len b) then lift Panic else
  put (set_bgra self b).

Definition handle_record (record : list Z) : M (option DecodedFrame) :=
  r ← lift (map_err parse_error_message (decode_display_record record));
  match r with
  | FrameBegin frame_id w h => _ ← begin_frame frame_id w h; mret None
  | FrameEnd frame_id =>
      _ ← ensure_frame frame_id;
      self ← get;
      _ ← put (set_frame self None);
      self ← get;
      mret (Some (decoded_frame self))
  | Keyframe frame_id w h raw_len payload =>
      _ ← handle_keyframe frame_id w h raw_len payload; mret None
  | MoveRect frame_id src_x src_y dst_x dst_y w h =>
      _ ← ensure_frame frame_id;
      _ ← apply_move src_x src_y dst_x dst_y w h;
      mret None
  | ExperimentalAtlasCommands frame_id atlas_width atlas_height rects tile_commands =>
      _ ← ensure_frame frame_id;
      _ ← apply_atx2_atlas atlas_width atlas_height rects tile_commands;
      mret None
  | ExperimentalAtlasCommandsChunk frame_id flags _ _ atlas_width atlas_height rects tile_commands =>
      _ ← ensure_frame frame_id;
      _ ← apply_atx2_atlas atlas_width atlas_height rects tile_commands;
      mret None
  | AtlasH264 frame_id _ atlas_width atlas_height rects payload =>
      _ ← ensure_frame frame_id;
      _ ← apply_h264_atlas;
      mret None
  end.
End handle.
End Compositor.

(** ** The two decoders agree

    The viewer's decoder and the helper's reconstruction were written separately;
    step by step they have the same outcome. *)

Lemma cpu_read_u32 b o : same_outcome (Cpu.read_u32 b o) (read_u32 b o).
Proof. unfold Cpu.read_u32, read_u32. repeat outcome_step. Qed.

Lemma cpu_validate_rect x y w h lw lh :
  0 <= w -> 0 <= h ->
  same_outcome (Cpu.validate_rect x y w h lw lh) (validate_rect x y w h lw lh).
Proof.
  intros Hw Hh. unfold Cpu.validate_rect, validate_rect. outcome_step.
  unfold ensure. unfold Cpu.is_none_or_gt, is_some_and_le, checked_add.
  repeat match goal with |- context [if ?b then Some _ else None] => destruct b end; cbn [orb andb];
    rewrite ?orb_true_r, ?andb_false_r; try done.
  rewrite !Z.ltb_antisym, <- negb_andb. by destruct ((x + w <=? lw) && (y + h <=? lh)).
Qed.

Lemma cpu_read_previous p dw dx dy w px :
  same_outcome (Cpu.read_previous_pixel p dw dx dy w px) (read_previous_pixel p dw dx dy w px).
Proof.
  unfold Cpu.read_previous_pixel, read_previous_pixel. destruct (w =? 0); [done|].
  outcome_step; [outcome_step|]. apply cpu_read_u32.
Qed.

Lemma cpu_write_pixel a s ax ay w px c :
  same_outcome (Cpu.write_pixel a s ax ay w px c) (write_pixel (E:=anyhow) a s ax ay w px c).
Proof.
  unfold Cpu.write_pixel, write_pixel. destruct (w =? 0); [done|]. outcome_step.
Qed.

Ltac cpu_step :=
  first [ outcome_step | apply cpu_read_u32 | apply cpu_read_previous | apply cpu_write_pixel
        | apply cpu_validate_rect; lia
        | match goal with p : (_ * _)%type |- _ => destruct p end ].

Lemma cpu_masked a s ax ay dx dy w h p cc prev dw dh :
  0 <= w -> 0 <= h ->
  same_outcome (Cpu.decode_masked_quant_delta_payload a s ax ay dx dy w h p cc prev dw dh)
    (decode_masked_quant_delta_payload a s ax ay dx dy w h p cc prev dw dh).
Proof.
  intros Hw Hh. unfold Cpu.decode_masked_quant_delta_payload, decode_masked_quant_delta_payload.
  change Cpu.align_usize_to_4 with align_usize_to_4. repeat cpu_step.
Qed.

Lemma cpu_lossy a s ax ay w h p :
  same_outcome (Cpu.decode_lossy_ui_block_payload a s ax ay w h p)
    (decode_lossy_ui_block_payload a s ax ay w h p).
Proof.
  unfold Cpu.decode_lossy_ui_block_payload, decode_lossy_ui_block_payload.
  change Cpu.align_usize_to_4 with align_usize_to_4. repeat cpu_step.
Qed.

Lemma cpu_sharp a s ax ay w h p :
  same_outcome (Cpu.decode_sharp_ui_block_payload a s ax ay w h p)
    (decode_sharp_ui_block_payload a s ax ay w h p).
Proof.
  unfold Cpu.decode_sharp_ui_block_payload, decode_sharp_ui_block_payload.
  change Cpu.align_usize_to_4 with align_usize_to_4. repeat cpu_step.
Qed.

Lemma cpu_raw a s ax ay w h p :
  same_outcome (Cpu.decode_raw a s ax ay w h p) (decode_raw_payload a s ax ay w h p).
Proof. unfold Cpu.decode_raw, decode_raw_payload. repeat cpu_step. Qed.

Lemma cpu_fill a s ax ay w h c :
  same_outcome (Cpu.fill_rect a s ax ay w h c) (fill_rect (E:=anyhow) a s ax ay w h c).
Proof. unfold Cpu.fill_rect, fill_rect. repeat cpu_step. Qed.

Section xor_equiv.
Context (W H ax ay dw dh dx dy w h : Z) (prev : list Z).
Context (Hax : 0 <= ax) (HaxW : ax + w <= W) (Hay : 0 <= ay) (HayH : ay + h <= H).
Context (Hdx : 0 <= dx) (Hdy : 0 <= dy) (Hw : 0 < w) (Hh : 0 < h).
Context (HdW : dx + w <= dw <= u32_max) (HdH : dy + h <= dh <= u32_max).
Context (Hsize : dw * dh * 4 <= isize_max) (Hprev : frame dw dh prev) (Hpok : bytes_ok prev).

(** The previous frame's pixel that a pixel of the tile starts from. *)
Definition prev_pixel (i : Z) : option (list Z) := pix dw prev (dx + i mod w) (dy + i / w).

Lemma copy_previous_painted a :
  frame W H a ->
  exists a', Cpu.copy_previous_rect a (W * 4) ax ay w h prev dw dx dy = Ok a' /\
    painted W H ax ay w h prev_pixel a a'.
Proof.
  intros Ha. assert (HW : 0 < W) by lia.
  set (src r := match slice prev (((dy + r) * dw + dx) * 4) (((dy + r) * dw + dx) * 4 + w * 4)
                with Some s => s | None => [] end).
  assert (forall r, 0 <= r < h ->
    slice prev (((dy + r) * dw + dx) * 4) (((dy + r) * dw + dx) * 4 + w * 4) = Some (src r) /\
    len (src r) = w * 4) as Hsrc.
  { intros r Hr. unfold src, frame in *. assert ((dy + r + 1) * dw <= dh * dw) by nia.
    destruct (proj2 (slice_is_Some prev (((dy + r) * dw + dx) * 4) (((dy + r) * dw + dx) * 4 + w * 4)))
      as [s Hs]; [nia|]. rewrite Hs. split; [done|]. apply slice_inv in Hs. lia. }
  destruct (painted_rows W H HW ax ay w h (E:=string) src a) as (a' & Ha' & Hp);
    [first [done | lia | intros; by apply Hsrc]..|].
  exists a'. split.
  - unfold Cpu.copy_previous_rect. rewrite <- Ha'. apply foldM_ext. intros b r Hr.
    apply elem_of_seqZ in Hr. destruct (Hsrc r) as [Hs _]; [lia|]. cbv beta zeta.
    replace ((dy + r) * (dw * 4) + dx * 4) with (((dy + r) * dw + dx) * 4) by lia. rewrite Hs.
    replace ((ay + r) * (W * 4) + ax * 4) with (((ay + r) * W + ax) * 4) by lia. done.
  - eapply painted_ext; [|exact Hp]. intros i Hi. cbv beta. unfold prev_pixel, pix.
    pose proof (Z.mod_pos_bound i w Hw).
    assert (0 <= i / w < h) by (split; [apply Z.div_pos; lia|apply Z.div_lt_upper_bound; lia]).
    destruct (Hsrc (i / w)) as [Hs _]; [lia|]. rewrite (slice_slice _ _ _ _ _ _ Hs) by lia.
    f_equal; lia.
Qed.

Lemma prev_pixel_value i :
  0 <= i < w * h ->
  read_previous_pixel prev dw dx dy w i = Ok (pixel_value dw prev (dx + i mod w) (dy + i / w)) /\
  prev_pixel i = Some (le_bytes 4 (pixel_value dw prev (dx + i mod w) (dy + i / w))).
Proof.
  intros Hi. split.
  - by apply (read_previous_pixel_value dw dh dx dy w h).
  - destruct (tile_pixel dw dh dx dy w h Hdx Hdy Hw HdW HdH prev i Hprev Hpok Hi)
      as (s & Hs & Hl & Hok & _).
    unfold prev_pixel, pixel_value. rewrite Hs. by rewrite le_bytes_le_val.
Qed.

(** The helper copies the previous rectangle pixel by pixel, to the same effect. *)
Lemma helper_copy_previous a :
  frame W H a ->
  exists a', foldM (fun atlas pixel =>
      previous_pixel ← read_previous_pixel prev dw dx dy w pixel;
      write_pixel atlas (W * 4) ax ay w pixel (le_bytes 4 previous_pixel))
      a (seqZ 0 (w * h)) = Ok a' /\
    Cpu.copy_previous_rect a (W * 4) ax ay w h prev dw dx dy = Ok a' /\ frame W H a'.
Proof.
  intros Ha. assert (HW : 0 < W) by lia.
  destruct (copy_previous_painted a Ha) as (b & Hb & Hpb).
  set (f i := le_bytes 4 (pixel_value dw prev (dx + i mod w) (dy + i / w))).
  destruct (write_pixels_painted (E:=anyhow) W H ax ay w h HW Hax HaxW Hay HayH Hw f a (w * h))
    as (a' & Ha' & Hpa); [intros; unfold f; by rewrite le_bytes_len|nia|done|].
  assert (a' = b) as ->.
  { eapply painted_det; [done|exact Hpa|]. eapply painted_ext; [|exact Hpb]. intros i Hi.
    rewrite (proj2 (prev_pixel_value i Hi)). unfold upto. by replace (_ && _) with true by lia. }
  exists b. split; [|split; [done|by eapply painted_frame]]. rewrite <- Ha'.
  apply foldM_ext. intros c i Hi. apply elem_of_seqZ in Hi.
  rewrite (proj1 (prev_pixel_value i ltac:(lia))). done.
Qed.

Lemma cpu_xor_sparse a payload :
  frame W H a ->
  same_outcome
    (Cpu.decode_xor TILE_COMMAND_XOR_SPARSE a (W * 4) ax ay dx dy w h payload (Some prev) dw dh)
    (decode_xor_sparse_payload a (W * 4) ax ay dx dy w h payload (Some prev) dw dh).
Proof.
  intros Ha. unfold Cpu.decode_xor, decode_xor_sparse_payload. cbn [ok_or]. rewrite !bind_Ok.
  outcome_step; [apply cpu_validate_rect; lia|].
  destruct (helper_copy_previous a Ha) as (b & Hb & Hc & _). rewrite Hc, bind_Ok.
  change (TILE_COMMAND_XOR_SPARSE =? Cpu.TILE_COMMAND_XOR_RAW) with false. cbv iota.
  outcome_step. rewrite Hb, bind_Ok. repeat cpu_step.
Qed.

Lemma cpu_xor_raw a payload :
  frame W H a -> bytes_ok payload -> len payload <= usize_max ->
  same_outcome
    (Cpu.decode_xor TILE_COMMAND_XOR_RAW a (W * 4) ax ay dx dy w h payload (Some prev) dw dh)
    (decode_xor_raw_payload a (W * 4) ax ay dx dy w h payload (Some prev) dw dh).
Proof.
  intros Ha Hpl Hlp. unfold Cpu.decode_xor, decode_xor_raw_payload. cbn [ok_or]. rewrite !bind_Ok.
  outcome_step; [apply cpu_validate_rect; lia|]. assert (HW : 0 < W) by lia.
  destruct (copy_previous_painted a Ha) as (b & Hb & Hpb). rewrite Hb, bind_Ok.
  pose proof (painted_frame _ _ _ _ _ _ _ _ _ Hpb) as Hfb.
  change (TILE_COMMAND_XOR_RAW =? Cpu.TILE_COMMAND_XOR_RAW) with true. cbv iota.
  outcome_step. rename H1 into Hlen.
  set (v i := match read_u32 payload (i * 4) with Ok x => x | _ => 0 end).
  set (f i := le_bytes 4 (Z.lxor (pixel_value dw prev (dx + i mod w) (dy + i / w)) (v i))).
  assert (forall i, 0 <= i < w * h -> read_u32 payload (i * 4) = Ok (v i)) as Hv.
  { intros i Hi. unfold v. destruct (read_u32_some payload (i * 4)) as [x Hx]; [lia..|]. by rewrite Hx. }
  assert (forall c, frame W H c -> exists c',
    foldM (fun atlas pixel =>
      previous_pixel ← read_previous_pixel prev dw dx dy w pixel;
      xor_pixel ← read_u32 payload (pixel * 4);
      write_pixel atlas (W * 4) ax ay w pixel (le_bytes 4 (Z.lxor previous_pixel xor_pixel)))
      c (seqZ 0 (w * h)) = Ok c' /\ painted W H ax ay w h (upto (w * h) f) c c') as Hloop.
  { intros c Hc.
    destruct (write_pixels_painted (E:=anyhow) W H ax ay w h HW Hax HaxW Hay HayH Hw f c (w * h))
      as (c' & Hc' & Hp); [intros; unfold f; by rewrite le_bytes_len|nia|done|].
    exists c'. split; [|done]. rewrite <- Hc'. apply foldM_ext. intros d i Hi.
    apply elem_of_seqZ in Hi. rewrite (proj1 (prev_pixel_value i ltac:(lia))), bind_Ok, Hv by lia. done. }
  destruct (Hloop a Ha) as (a' & Ha' & Hpa). destruct (Hloop b Hfb) as (b' & Hb' & Hpb').
  assert (b' = a') as Heq.
  { eapply (painted_over W H HW ax ay w h); [|exact Hpb|exact Hpb'|exact Hpa].
    intros i Hi. unfold upto. replace (_ && _) with true by lia. eauto. }
  rewrite Ha'. subst b'. rewrite <- Hb'. repeat cpu_step.
Qed.
End xor_equiv.

(** ** Streams *)

Lemma cpu_read_ok b o v : read_u32 b o = Ok v -> Cpu.read_u32 b o = Ok v.
Proof.
  intros Hr. pose proof (cpu_read_u32 b o) as Hs. rewrite Hr in Hs.
  destruct (Cpu.read_u32 b o); cbn in Hs; [by subst|done..].
Qed.

(** The viewer refuses a solid command without exactly one color. *)
Definition solid_exact (c : Owned.OwnedCommand) : Prop :=
  Owned.kind c = TILE_COMMAND_SOLID_COLOR -> len (Owned.payload c) = 4.

(** The frame a stream is decoded against. *)
Definition prev_ok (dw dh : Z) (prev : option (list Z)) : Prop :=
  match prev with
  | Some p => frame dw dh p /\ bytes_ok p /\ dw <= u32_max /\ dh <= u32_max /\ dw * dh * 4 <= isize_max
  | None => True
  end.

Section stream_equiv.
Context (W H dw dh : Z) (prev : option (list Z)) (Hprev : prev_ok dw dh prev).

Lemma cpu_validate_rect_inv x y ww hh lw lh u :
  0 <= ww -> 0 <= hh -> Cpu.validate_rect x y ww hh lw lh = Ok u ->
  0 < ww /\ 0 < hh /\ x + ww <= lw /\ y + hh <= lh.
Proof.
  intros Hw Hh Hv. pose proof (cpu_validate_rect x y ww hh lw lh Hw Hh) as Hs.
  eapply validate_rect_inv. eapply same_outcome_ok; [exact Hs|exact Hv].
Qed.

Lemma validate_rect_not_ok x y ww hh lw lh e :
  0 <= ww -> 0 <= hh -> validate_rect x y ww hh lw lh = Err e ->
  exists e', Cpu.validate_rect x y ww hh lw lh = Err e'.
Proof.
  intros Hw Hh Hv. pose proof (cpu_validate_rect x y ww hh lw lh Hw Hh) as Hs. rewrite Hv in Hs.
  destruct (Cpu.validate_rect x y ww hh lw lh); [done|eauto|done..].
Qed.

Lemma cpu_xor kind ax ay dx dy w h a payload :
  kind = TILE_COMMAND_XOR_RAW \/ kind = TILE_COMMAND_XOR_SPARSE ->
  0 <= ax -> ax + w <= W -> 0 <= ay -> ay + h <= H -> 0 <= dx -> 0 <= dy -> 0 < w -> 0 < h ->
  frame W H a -> bytes_ok payload -> len payload <= usize_max ->
  same_outcome (Cpu.decode_xor kind a (W * 4) ax ay dx dy w h payload prev dw dh)
    (if kind =? TILE_COMMAND_XOR_RAW
     then decode_xor_raw_payload a (W * 4) ax ay dx dy w h payload prev dw dh
     else decode_xor_sparse_payload a (W * 4) ax ay dx dy w h payload prev dw dh).
Proof.
  intros Hk Hax HaxW Hay HayH Hdx Hdy Hw Hh Ha Hp Hl.
  destruct prev as [p|]; last by destruct Hk as [-> | ->].
  destruct Hprev as (Hpf & Hpok & HdW & HdH & Hsz).
  destruct (validate_rect dx dy w h dw dh) as [u|e| |] eqn:Hv.
  - apply validate_rect_inv in Hv as (_ & _ & ? & ?).
    destruct Hk as [-> | ->]; cbn [Z.eqb Pos.eqb]; [apply (cpu_xor_raw W H)|apply (cpu_xor_sparse W H)]; lia || done.
  - destruct (validate_rect_not_ok dx dy w h dw dh e) as [e' He']; [lia|lia|done|].
    unfold Cpu.decode_xor, decode_xor_raw_payload, decode_xor_sparse_payload.
    rewrite Hv, He'. by destruct (kind =? TILE_COMMAND_XOR_RAW).
  - pose proof (validate_rect_safe dx dy w h dw dh) as Hs. by rewrite Hv in Hs.
  - pose proof (validate_rect_safe dx dy w h dw dh) as Hs. by rewrite Hv in Hs.
Qed.

(** A solid command's color, read from its payload or from the stream. *)
Lemma cpu_solid_color bs off c :
  slice bs off (off + Owned.encoded_len c) = Some (enc_command c) -> wf_command c ->
  len (Owned.payload c) = 4 -> len bs <= usize_max ->
  exists v, Cpu.read_u32 (Owned.payload c) 0 = Ok v /\
    read_u32 bs (Ref.payload_offset (ref_of off c)) = Ok v.
Proof.
  intros Hs Hwf Hp4 Hl. pose proof (ref_payload _ _ _ Hs) as Hp.
  unfold Ref.payload_end in Hp. cbn [ref_of Ref.payload_len] in Hp. rewrite Hp4 in Hp.
  destruct Hwf as (_ & _ & _ & _ & _ & Hok & _).
  exists (le_val (Owned.payload c)). split.
  - apply cpu_read_ok, read_u32_slice; [|by apply le_val_u32|rewrite Hp4; done].
    rewrite le_bytes_le_val by done. apply slice_all. lia.
  - apply read_u32_slice; [|by apply le_val_u32|done]. by rewrite le_bytes_le_val.
Qed.

Ltac cpu_consts :=
  change Cpu.TILE_COMMAND_SOLID_COLOR with TILE_COMMAND_SOLID_COLOR;
  change Cpu.TILE_COMMAND_RAW_BGRA with TILE_COMMAND_RAW_BGRA;
  change Cpu.TILE_COMMAND_XOR_RAW with TILE_COMMAND_XOR_RAW;
  change Cpu.TILE_COMMAND_XOR_SPARSE with TILE_COMMAND_XOR_SPARSE;
  change Cpu.TILE_COMMAND_MASKED_QUANT_DELTA with TILE_COMMAND_MASKED_QUANT_DELTA;
  change Cpu.TILE_COMMAND_LOSSY_UI_BLOCK with TILE_COMMAND_LOSSY_UI_BLOCK;
  change Cpu.TILE_COMMAND_SHARP_UI_BLOCK with TILE_COMMAND_SHARP_UI_BLOCK.

Lemma cpu_decode_payload bs off c a :
  slice bs off (off + Owned.encoded_len c) = Some (enc_command c) -> wf_command c ->
  solid_exact c -> len bs <= usize_max -> frame W H a ->
  same_outcome
    (_ ← Cpu.validate_rect (Owned.atlas_x c) (Owned.atlas_y c) (Owned.width c) (Owned.height c) W H;
     Cpu.decode_payload (Owned.kind c) a (W * 4) (Owned.atlas_x c) (Owned.atlas_y c)
       (Owned.desktop_x c) (Owned.desktop_y c) (Owned.width c) (Owned.height c) (Owned.payload c)
       (Owned.changed_count c) prev dw dh)
    (decode_command bs W H prev dw dh a (ref_of off c)).
Proof.
  intros Hs Hwf Hsol Hl Ha.
  pose proof (slice_inv _ _ _ _ Hs) as (? & ? & ?). pose proof (ref_payload _ _ _ Hs) as Hp.
  pose proof Hwf as (_ & Hxy & Hdxy & Hwh & _ & Hpok & Hpl).
  assert (0 <= Owned.atlas_x c) by apply lo16_bound.
  assert (0 <= Owned.atlas_y c) by by apply hi16_bound.
  assert (0 <= Owned.desktop_x c) by apply lo16_bound.
  assert (0 <= Owned.desktop_y c) by by apply hi16_bound.
  assert (0 <= Owned.width c) by apply lo16_bound.
  assert (0 <= Owned.height c) by by apply hi16_bound.
  unfold decode_command, Cpu.decode_payload. autorewrite with talos_ref. rewrite Hp. cbn [or_panic].
  cpu_consts. outcome_step; [by apply cpu_validate_rect|].
  apply cpu_validate_rect_inv in H9 as (Hw & Hh & HxW & HyH); [|done..]. rewrite !bind_Ok.
  destruct (Z.eqb_spec (Owned.kind c) TILE_COMMAND_SOLID_COLOR) as [Hk0|_].
  { assert (len (Owned.payload c) = 4) as Hp4 by by apply Hsol.
    destruct (cpu_solid_color bs off c Hs Hwf Hp4 Hl) as (v & -> & ->). rewrite Hp4, !bind_Ok.
    apply cpu_fill. }
  outcome_step; [apply cpu_raw|].
  assert (len (Owned.payload c) <= usize_max) by (unfold usize_max, u64_max, u32_max in *; lia).
  destruct (Z.eqb_spec (Owned.kind c) TILE_COMMAND_XOR_RAW) as [Hk|Hk].
  { rewrite Hk. cbn [orb Z.eqb Pos.eqb]. apply (cpu_xor TILE_COMMAND_XOR_RAW); auto. }
  destruct (Z.eqb_spec (Owned.kind c) TILE_COMMAND_XOR_SPARSE) as [Hk'|Hk'].
  { rewrite Hk'. apply (cpu_xor TILE_COMMAND_XOR_SPARSE); auto. }
  cbn [orb].
  outcome_step; [by apply cpu_masked|]. outcome_step; [apply cpu_lossy|].
  outcome_step; [apply cpu_sharp|done].
Qed.
Lemma ref_payload_end off c : Ref.payload_end (ref_of off c) = off + Owned.encoded_len c.
Proof. unfold Ref.payload_end, Owned.encoded_len. cbn. by rewrite Z.add_assoc. Qed.

(** The viewer's turn of the loop reads the same header as the helper's parser. *)
Definition cpu_decode_ref (bs a : list Z) (r : Ref.CommandRef) : res string (list Z) :=
  _ ← Cpu.validate_rect (Ref.atlas_x r) (Ref.atlas_y r) (Ref.width r) (Ref.height r) W H;
  payload ← or_panic (slice bs (Ref.payload_offset r) (Ref.payload_end r));
  Cpu.decode_payload (Ref.kind r) a (W * 4) (Ref.atlas_x r) (Ref.atlas_y r) (Ref.desktop_x r)
    (Ref.desktop_y r) (Ref.width r) (Ref.height r) payload (Ref.changed_count r) prev dw dh.

Lemma cpu_decode_command_parse bs a off :
  same_outcome (Cpu.decode_command bs W H prev dw dh a off)
    (r ← parse_command_at bs (len bs) off; a' ← cpu_decode_ref bs a r; Ok (a', Ref.payload_end r)).
Proof.
  unfold Cpu.decode_command, parse_command_at.
  change Cpu.TILE_COMMAND_HEADER_BYTES with TILE_COMMAND_HEADER_BYTES.
  repeat (rewrite res_bind_assoc; outcome_step; try apply cpu_read_u32); [by apply same_outcome_ok_or|].
  assert (a6 = off + TILE_COMMAND_HEADER_BYTES + a4) as ->.
  { unfold checked_add in H7. by case_match; simplify_eq/=. }
  rewrite bind_Ok. unfold cpu_decode_ref. rewrite res_bind_assoc.
  outcome_step; [apply same_outcome_refl|]. rewrite res_bind_assoc.
  outcome_step; [apply same_outcome_refl|]. apply same_outcome_refl.
Qed.

Lemma cpu_decode_command_equiv bs a off c :
  slice bs off (off + Owned.encoded_len c) = Some (enc_command c) -> wf_command c ->
  solid_exact c -> len bs <= usize_max -> frame W H a ->
  same_outcome (Cpu.decode_command bs W H prev dw dh a off)
    (a' ← decode_command bs W H prev dw dh a (ref_of off c); Ok (a', off + Owned.encoded_len c)).
Proof.
  intros Hs Hwf Hsol Hl Ha. pose proof (slice_inv _ _ _ _ Hs) as (? & ? & ?).
  pose proof (cpu_decode_command_parse bs a off) as Hd.
  rewrite (parse_command_at_built _ _ _ c) in Hd by (done || lia). rewrite bind_Ok in Hd.
  pose proof (cpu_decode_payload bs off c a Hs Hwf Hsol Hl Ha) as Hp.
  unfold cpu_decode_ref in Hd. autorewrite with talos_ref in Hd. rewrite (ref_payload _ _ _ Hs) in Hd.
  cbn [or_panic] in Hd. rewrite !bind_Ok in Hd.
  eapply same_outcome_trans; [exact Hd|]. outcome_step; [exact Hp|].
  by rewrite ref_payload_end.
Qed.

Lemma cpu_loop_equiv fuel bs a off cs :
  bytes_ok bs -> Forall wf_command cs -> Forall solid_exact cs ->
  slice bs off (len bs) = Some (enc_commands cs) -> len bs <= usize_max -> frame W H a ->
  same_outcome (Cpu.reconstruct_loop fuel bs W H prev dw dh a off)
    (reconstruct_loop fuel bs W H prev dw dh (len bs) a off).
Proof.
  intros Hbs Hcs. revert a off fuel; induction Hcs as [|c cs Hc Hcs IH]; intros a off fuel Hsol Hs Hl Ha.
  - destruct fuel; [done|]. cbn [reconstruct_loop Cpu.reconstruct_loop]. apply slice_inv in Hs as (? & ? & Hs).
    change (len (enc_commands [])) with 0 in Hs. by replace (off <? len bs) with false by lia.
  - destruct fuel; [done|]. cbn [reconstruct_loop Cpu.reconstruct_loop].
    apply Forall_cons in Hsol as [Hc' Hsol]. rewrite enc_commands_cons in Hs.
    apply slice_split in Hs as [Hs1 Hs2]. rewrite enc_command_len in *. pose proof (encoded_len_pos c).
    pose proof (slice_inv _ _ _ _ Hs1). pose proof (slice_inv _ _ _ _ Hs2).
    replace (off <? len bs) with true by lia.
    rewrite (parse_command_at_built _ _ _ c), bind_Ok by (done || lia).
    pose proof (cpu_decode_command_equiv bs a off c Hs1 Hc Hc' Hl Ha) as Hd.
    pose proof (decode_command_paints W H prev dw dh bs off c Hbs Hc ltac:(lia) ltac:(lia)) as Hpaint.
    rewrite ref_payload_end.
    destruct (decode_command bs W H prev dw dh a (ref_of off c)) as [a'|e| |] eqn:Ha'.
    + rewrite bind_Ok in *.
      assert (frame W H a') by by eapply (paint_action_frame W H _ _ _ _ (fun a => _ a _)).
      destruct (Cpu.decode_command _ _ _ _ _ _ _ _) as [[b o]|e| |]; [|done..].
      cbn in Hd. simplify_eq. rewrite bind_Ok. by apply IH.
    + destruct (Cpu.decode_command _ _ _ _ _ _ _ _) as [[b o]|e'| |]; done.
    + destruct (Cpu.decode_command _ _ _ _ _ _ _ _) as [[b o]|e'| |]; done.
    + destruct (Cpu.decode_command _ _ _ _ _ _ _ _) as [[b o]|e'| |]; done.
Qed.

(** What the viewer decodes is a sequence of whole commands. *)
Lemma cpu_decode_command_inv bs a off a' off' :
  bytes_ok bs -> 0 <= off -> Cpu.decode_command bs W H prev dw dh a off = Ok (a', off') ->
  exists c, wf_command c /\ solid_exact c /\ off' = off + Owned.encoded_len c /\ off' <= len bs /\
    slice bs off (off + Owned.encoded_len c) = Some (enc_command c).
Proof.
  intros Hbs Hoff Hd. pose proof (cpu_decode_command_parse bs a off) as Hs.
  apply (same_outcome_ok _ _ _ Hs) in Hd. clear Hs.
  apply bind_ok_inv in Hd as (r & Hr & Hd). apply bind_ok_inv in Hd as (b & Hb & Hd).
  apply parse_command_at_ok in Hr as (c & Hc & -> & Hle & Hs); [|done|done|lia].
  apply Ok_inj in Hd. simplify_eq. exists c.
  rewrite ref_payload_end.
  split_and!; [done| |done|done|done].
  unfold cpu_decode_ref in Hb. rewrite (ref_payload _ _ _ Hs) in Hb. cbn [or_panic] in Hb.
  apply bind_ok_inv in Hb as (u & _ & Hb). rewrite bind_Ok in Hb. autorewrite with talos_ref in Hb.
  intros Hk. unfold Cpu.decode_payload in Hb. rewrite Hk in Hb. cbn [Z.eqb Pos.eqb] in Hb.
  change (TILE_COMMAND_SOLID_COLOR =? Cpu.TILE_COMMAND_SOLID_COLOR) with true in Hb. cbn beta iota in Hb.
  destruct (Z.eqb_spec (len (Owned.payload c)) 4); done.
Qed.

Lemma cpu_loop_stream fuel bs a off a' :
  bytes_ok bs -> 0 <= off <= len bs -> Cpu.reconstruct_loop fuel bs W H prev dw dh a off = Ok a' ->
  exists cs, Forall wf_command cs /\ Forall solid_exact cs /\
    slice bs off (len bs) = Some (enc_commands cs).
Proof.
  intros Hbs. revert a off; induction fuel as [|fuel IH]; intros a off Hoff Hr; [done|].
  cbn [Cpu.reconstruct_loop] in Hr. destruct (Z.ltb_spec off (len bs)).
  - apply bind_ok_inv in Hr as ([b o] & Hd & Hr).
    apply cpu_decode_command_inv in Hd as (c & Hc & Hc' & -> & Hle & Hs); [|done|lia].
    pose proof (encoded_len_pos c).
    apply IH in Hr as (cs & Hcs & Hcs' & Hs'); [|lia].
    exists (c :: cs). split_and!; [by constructor|by constructor|].
    rewrite enc_commands_cons. by eapply slice_join.
  - exists []. split_and!; [constructor|constructor|].
    assert (off = len bs) as -> by lia. rewrite slice_some by lia. by rewrite Z.sub_diag.
Qed.

Lemma cpu_reconstruct_header bs :
  bytes_ok bs -> 0 <= W -> 0 <= H -> W * H * 4 <= isize_max -> basic_header bs ->
  Cpu.reconstruct_atlas_from_atx2 bs W H prev dw dh =
  Cpu.reconstruct_loop (S (length bs)) bs W H prev dw dh (zeros (W * H * 4)) 32.
Proof.
  intros Hbs HW HH Hsz (Hl & Hm & H0 & H4 & H20). unfold Cpu.reconstruct_atlas_from_atx2.
  assert (len bs <= usize_max) by (unfold usize_max, u64_max, u32_max in *; lia).
  assert (0 <= W * H) by nia.
  rewrite (cpu_read_ok bs 0 TILE_COMMAND_STREAM_MAGIC), (cpu_read_ok bs 4 TILE_COMMAND_STREAM_VERSION),
    (cpu_read_ok bs 20 (len bs)) by (apply read_u32_slice; first [done | unfold is_u32, u32_max in *; len_solve]).
  rewrite !bind_Ok. unfold Cpu.frame_len, vec_zeroed. unfold isize_max, usize_max, u64_max in *.
  rewrite checked_mul_some by lia. cbn [mbind option_bind].
  rewrite checked_mul_some by lia. cbn [ok_or]. rewrite !bind_Ok.
  replace (W * H * 4 <=? _) with true by lia. rewrite bind_Ok.
  change Cpu.TILE_COMMAND_STREAM_HEADER_BYTES with 32. unfold TILE_COMMAND_STREAM_HEADER_BYTES in Hl.
  replace ((len bs <? 32) || negb (len bs mod 4 =? 0)) with false by lia.
  change (TILE_COMMAND_STREAM_MAGIC =? Cpu.TILE_COMMAND_STREAM_MAGIC) with true.
  change (TILE_COMMAND_STREAM_VERSION =? Cpu.TILE_COMMAND_STREAM_VERSION) with true.
  rewrite Z.eqb_refl. reflexivity.
Qed.

Lemma cpu_reconstruct_inv bs a :
  bytes_ok bs -> Cpu.reconstruct_atlas_from_atx2 bs W H prev dw dh = Ok a -> basic_header bs.
Proof.
  intros Hbs Hr. unfold Cpu.reconstruct_atlas_from_atx2 in Hr. run_inv.
  repeat match goal with Hr : Cpu.read_u32 _ _ = Ok _ |- _ =>
    apply (same_outcome_ok _ _ _ (cpu_read_u32 _ _)) in Hr; apply read_u32_inv in Hr as [? ?]; [|done] end.
  unfold basic_header. change Cpu.TILE_COMMAND_STREAM_HEADER_BYTES with TILE_COMMAND_STREAM_HEADER_BYTES in *.
  assert (x = TILE_COMMAND_STREAM_MAGIC) as -> by (change TILE_COMMAND_STREAM_MAGIC with Cpu.TILE_COMMAND_STREAM_MAGIC; lia).
  assert (x0 = TILE_COMMAND_STREAM_VERSION) as -> by (change TILE_COMMAND_STREAM_VERSION with Cpu.TILE_COMMAND_STREAM_VERSION; lia).
  assert (x1 = len bs) as -> by lia. unfold is_u32 in *. split_and!; try done; lia.
Qed.
End stream_equiv.

(** ** Properties *)

Section properties.
Context (s : Stream.TileCommandStream) (prev : option (list Z)) (dw dh : Z).

Abbreviation aw := (Stream.atlas_width s).
Abbreviation ah := (Stream.atlas_height s).

Context (Hbs : bytes_ok (Stream.bytes s)) (Hlen : Stream.byte_len s = len (Stream.bytes s)).
Context (HW : 0 <= aw) (HH : 0 <= ah) (Hsz : aw * ah * 4 <= isize_max).
Context (Hprev : prev_ok dw dh prev).

Lemma viewer_same_outcome cs :
  stream_of (Stream.bytes s) cs -> Forall solid_exact cs ->
  same_outcome (Cpu.reconstruct_atlas_from_atx2 (Stream.bytes s) aw ah prev dw dh)
    (reconstruct_atlas_from_stream s prev dw dh).
Proof.
  intros (Hb & Hwf & Hs) Hsol. pose proof (basic_header_bounds _ Hb). assert (0 <= aw * ah) by nia.
  rewrite cpu_reconstruct_header, reconstruct_header by done.
  eapply cpu_loop_equiv; [done|done|exact Hwf|done|exact Hs|lia|].
  unfold frame. by rewrite zeros_len by lia.
Qed.

(** C17.  The viewer shows what the helper encoded: the software decoder of the
    viewer accepts a stream with an atlas exactly when the bytes are a stream of
    whole commands whose solid commands carry one color, and the helper's own
    reconstruction of that stream returns the same atlas. *)
Theorem viewer_decodes_like_helper a :
  Cpu.reconstruct_atlas_from_atx2 (Stream.bytes s) aw ah prev dw dh = Ok a <->
  exists cs, stream_of (Stream.bytes s) cs /\ Forall solid_exact cs /\
    reconstruct_atlas_from_stream s prev dw dh = Ok a.
Proof.
  split.
  - intros Hr. pose proof (cpu_reconstruct_inv _ _ _ _ _ _ _ Hbs Hr) as Hb.
    pose proof (basic_header_bounds _ Hb). pose proof Hr as Hr'.
    rewrite cpu_reconstruct_header in Hr' by done.
    apply cpu_loop_stream in Hr' as (cs & Hwf & Hsol & Hs); [|done|lia].
    exists cs. assert (stream_of (Stream.bytes s) cs) as Hst by done.
    split_and!; [done|done|]. eapply same_outcome_ok; [by eapply viewer_same_outcome|done].
  - intros (cs & Hst & Hsol & Hr). pose proof (viewer_same_outcome cs Hst Hsol) as Ho.
    rewrite Hr in Ho. destruct (Cpu.reconstruct_atlas_from_atx2 _ _ _ _ _ _); cbn in Ho; by subst.
Qed.
End properties.

(** A stream of one pixel, with one solid command that carries the given bytes. *)
Definition pixel_stream (payload : list Z) : Stream.TileCommandStream :=
  let n := len payload in
  {| Stream.atlas_width := 1; Stream.atlas_height := 1; Stream.descriptor_count := 1;
     Stream.command_count := 1; Stream.byte_len := 56 + n; Stream.raw_equivalent_bytes := 60;
     Stream.delta_bytes_saved_estimate := 0; Stream.copy_rects := [];
     Stream.bytes := stream_header 1 1 1 (56 + n) 1 ++
       cmd_header TILE_COMMAND_SOLID_COLOR 0 0 (pack_xy 1 1) n 1 ++ payload;
     Stream.command_counts := Counts.default |}.

Lemma viewer_decodes_like_helper_witness :
  exists cs, stream_of (Stream.bytes (pixel_stream [1; 2; 3; 255])) cs /\ Forall solid_exact cs /\
    reconstruct_atlas_from_stream (pixel_stream [1; 2; 3; 255]) None 0 0 = Ok [1; 2; 3; 255].
Proof.
  apply (viewer_decodes_like_helper (pixel_stream [1; 2; 3; 255]) None 0 0);
    [bytes_check|reflexivity|vm_compute; discriminate..|exact I|vm_compute; reflexivity].
Defined.

(** The condition on solid commands is needed: the helper reconstructs a
    stream whose solid command carries more than one color, by reading the first,
    and the viewer refuses the same stream. *)
Theorem solid_payload_divergence :
  reconstruct_atlas_from_stream (pixel_stream [1; 2; 3; 255; 4; 5; 6; 255]) None 0 0 = Ok [1; 2; 3; 255] /\
  Cpu.reconstruct_atlas_from_atx2 (Stream.bytes (pixel_stream [1; 2; 3; 255; 4; 5; 6; 255])) 1 1 None 0 0 =
    Err "ATX2 solid-color payload length mismatch"%string.
Proof. split; vm_compute; reflexivity. Qed.
