(* ===== verification/CpuDisplay.v ===== *)
(** The software compositor of the viewer, record by record
    (apps/talos_viewer/src-tauri/src/viewport_cpu.rs): its invariant, where it can
    panic, and the abstract screen that its pixel buffer implements. *)

From S2P Require Import Prelude Bytes Pixels DisplayRecord TileStream TileDecode ViewportCpu.

Import Compositor.

Local Open Scope Z_scope.

(** ** The atlas decoder on arbitrary bytes *)

Lemma copy_at_ok E a o s : bytes_ok a -> bytes_ok s -> ensures bytes_ok (or_panic (E:=E) (copy_at a o s)).
Proof.
  intros Ha Hs b. destruct (copy_at a o s) eqn:Hc; cbn; [|discriminate]. intros Hb.
  apply Ok_inj in Hb as <-. by eapply (copy_at_Forall _ a o s).
Qed.

Lemma write_pixel_ok a st x y w i v :
  bytes_ok a -> ensures bytes_ok (Cpu.write_pixel a st x y w i (le_bytes 4 v)).
Proof.
  intros Ha. unfold Cpu.write_pixel. ensures_step; [ensures_step|]. apply copy_at_ok; [done|].
  by apply le_bytes_ok.
Qed.

Lemma fill_rect_ok a st x y w h v :
  bytes_ok a -> ensures bytes_ok (Cpu.fill_rect a st x y w h (le_bytes 4 v)).
Proof.
  intros Ha. unfold Cpu.fill_rect. repeat ensures_step; [done..|].
  apply copy_at_ok; [done|by apply le_bytes_ok].
Qed.

Lemma copy_previous_rect_ok a st x y w h p dw dx dy :
  bytes_ok a -> bytes_ok p -> ensures bytes_ok (Cpu.copy_previous_rect a st x y w h p dw dx dy).
Proof.
  intros Ha Hp. unfold Cpu.copy_previous_rect. repeat ensures_step; [done|].
  destruct (slice p _ _) as [r|] eqn:Hs; [|discriminate]. apply copy_at_ok; [done|].
  apply Ok_inj in H0 as <-. by eapply (slice_ok p).
Qed.


#[export] Hint Resolve write_pixel_ok fill_rect_ok copy_previous_rect_ok : talos.

Lemma decode_masked_ok a st ax ay dx dy w h p cc prev dw dh :
  bytes_ok a ->
  ensures bytes_ok (Cpu.decode_masked_quant_delta_payload a st ax ay dx dy w h p cc prev dw dh).
Proof.
  intros Ha. unfold Cpu.decode_masked_quant_delta_payload.
  do 2 ensures_step. ensures_step; [ensures_step|]. do 3 ensures_step. ensures_step; [ensures_step|].
  ensures_step. ensures_step; [ensures_step|].
  apply (ensures_seq (fun r : list Z * Z => bytes_ok r.1)).
  - apply ensures_foldM; [done|]. intros [b seen] i Hb. do 2 ensures_step. do 2 ensures_step.
    eapply ensures_seq; [by apply write_pixel_ok|]. intros b' Hb'. by apply ensures_ok.
  - intros [b seen] Hb. ensures_step; [ensures_step|by apply ensures_ok].
Qed.

Lemma decode_payload_ok k a st ax ay dx dy w h p cc prev dw dh :
  bytes_ok a -> bytes_ok p -> (forall q, prev = Some q -> bytes_ok q) ->
  ensures bytes_ok (Cpu.decode_payload k a st ax ay dx dy w h p cc prev dw dh).
Proof.
  intros Ha Hp Hprev. unfold Cpu.decode_payload.
  do 2 ensures_step; [ensures_step|ensures_step; auto with talos| |].
  { unfold Cpu.decode_raw. repeat ensures_step; [done|].
    destruct (slice p _ _) as [r|] eqn:Hs; [|discriminate]. apply copy_at_ok; [done|].
    apply Ok_inj in H0 as <-. by eapply (slice_ok p). }
  ensures_step.
  { unfold Cpu.decode_xor. do 2 ensures_step. destruct prev as [q|]; [|discriminate].
    apply Ok_inj in H as <-. eapply ensures_seq; [apply copy_previous_rect_ok; auto|]. intros b Hb.
    repeat ensures_step; auto with talos. }
  ensures_step; [by apply decode_masked_ok|].
  unfold Cpu.decode_lossy_ui_block_payload, Cpu.decode_sharp_ui_block_payload.
  repeat ensures_step; auto with talos.
Qed.

Section atlas.
Context (W H dw dh : Z) (prev : option (list Z)) (Hprev : prev_ok dw dh prev).

Lemma prev_bytes q : prev = Some q -> bytes_ok q.
Proof. intros ->. apply Hprev. Qed.

(** A solid command whose payload is not one color is refused. *)
Lemma cpu_decode_ref_solid bs a off c :
  slice bs off (off + Owned.encoded_len c) = Some (enc_command c) -> ~ solid_exact c ->
  safe (cpu_decode_ref W H dw dh prev bs a (ref_of off c)) /\
  (forall a', cpu_decode_ref W H dw dh prev bs a (ref_of off c) <> Ok a').
Proof.
  intros Hs Hn.
  assert (Owned.kind c = TILE_COMMAND_SOLID_COLOR /\ len (Owned.payload c) <> 4) as [Hk Hp].
  { unfold solid_exact in Hn. destruct (decide (Owned.kind c = TILE_COMMAND_SOLID_COLOR)); [|tauto].
    split; [done|]. intros ?. by apply Hn. }
  unfold cpu_decode_ref. rewrite (ref_payload _ _ _ Hs). cbn [or_panic]. autorewrite with talos_ref.
  unfold Cpu.decode_payload. rewrite Hk.
  unfold Cpu.validate_rect. repeat case_match; cbn;
    rewrite ?(proj2 (Z.eqb_neq _ _) Hp); (split; [done|discriminate]).
Qed.

Lemma cpu_decode_command_safe bs a off :
  bytes_ok bs -> 0 <= off -> len bs <= usize_max -> frame W H a -> bytes_ok a ->
  safe (Cpu.decode_command bs W H prev dw dh a off) /\
  (forall a' off', Cpu.decode_command bs W H prev dw dh a off = Ok (a', off') ->
    frame W H a' /\ bytes_ok a' /\ off < off' <= len bs).
Proof.
  intros Hbs Hoff Hl Ha Hok.
  pose proof (cpu_decode_command_parse W H dw dh prev bs a off) as Hd.
  pose proof (parse_command_at_safe bs (len bs) off) as Hps.
  destruct (parse_command_at bs (len bs) off) as [r|e| |] eqn:Hr; [|..|done|done]; last first.
  { cbn in Hd. destruct (Cpu.decode_command _ _ _ _ _ _ _ _); done. }
  apply parse_command_at_ok in Hr as (c & Hc & -> & Hle & Hs); [|done|done|lia]. rewrite bind_Ok in Hd.
  pose proof (encoded_len_pos c).
  assert (bytes_ok (Owned.payload c)) as Hpl by apply Hc.
  assert (ensures bytes_ok (cpu_decode_ref W H dw dh prev bs a (ref_of off c))) as Hen.
  { unfold cpu_decode_ref. rewrite (ref_payload _ _ _ Hs). ensures_step.
    cbn [or_panic]. rewrite bind_Ok. apply decode_payload_ok; eauto using prev_bytes. }
  destruct (decide (Owned.kind c = TILE_COMMAND_SOLID_COLOR /\ len (Owned.payload c) <> 4)) as [Hns|Hsol].
  { destruct (cpu_decode_ref_solid bs a off c Hs) as [Hsafe Hno].
    { intros Hx. destruct Hns as [Hk Hp]. by apply Hp, Hx. }
    destruct (cpu_decode_ref _ _ _ _ _ _ _ _) as [b|e| |]; [by destruct (Hno b)| |done|done].
    cbn in Hd. destruct (Cpu.decode_command _ _ _ _ _ _ _ _); done. }
  assert (solid_exact c) as Hse by (intros Hk; destruct (decide (len (Owned.payload c) = 4)); tauto).
  pose proof (cpu_decode_command_equiv W H dw dh prev Hprev bs a off c Hs Hc Hse Hl Ha) as Heq.
  pose proof (decode_command_paints W H prev dw dh bs off c Hbs Hc Hoff Hle) as Hpaint.
  pose proof (paint_action_safe W H _ _ _ _ _ a Hpaint Ha) as Hsafe. cbv beta in Hsafe.
  destruct (decode_command _ _ _ _ _ _ _ _) as [b|e| |] eqn:Hb; [| |done|done]; cbn [mbind res_bind] in Heq;
    (destruct (Cpu.decode_command _ _ _ _ _ _ _ _) as [[b' o']|e'| |] eqn:Hb'; try done).
  cbn [same_outcome] in Heq. simplify_eq. split; [done|]. intros a' off' Hx. apply Ok_inj in Hx. simplify_eq.
  split_and!; [| |lia|lia].
  - by eapply (paint_action_frame W H _ _ _ _ (fun a => _ a _)).
  - destruct (cpu_decode_ref _ _ _ _ _ _ _ _) as [b|e| |] eqn:Hx; cbn in Hd; [|done..].
    simplify_eq. by apply Hen.
Qed.

Lemma cpu_loop_safe fuel bs a off :
  bytes_ok bs -> 0 <= off <= len bs -> len bs <= usize_max -> (length bs < fuel + Z.to_nat off)%nat ->
  frame W H a -> bytes_ok a ->
  safe (Cpu.reconstruct_loop fuel bs W H prev dw dh a off) /\
  ensures (fun a' => frame W H a' /\ bytes_ok a') (Cpu.reconstruct_loop fuel bs W H prev dw dh a off).
Proof.
  intros Hbs. revert a off; induction fuel as [|fuel IH]; intros a off Hoff Hl Hf Ha Hok.
  { exfalso. unfold len in *. lia. }
  cbn [Cpu.reconstruct_loop]. destruct (Z.ltb_spec off (len bs)); [|split; [done|by apply ensures_ok]].
  destruct (cpu_decode_command_safe bs a off) as [Hs Hn]; [done|lia|done..|].
  destruct (Cpu.decode_command _ _ _ _ _ _ _ _) as [[b o]|e| |]; [|split; done..].
  destruct (Hn b o eq_refl) as (? & ? & ?). rewrite bind_Ok. apply IH; [lia|lia|lia|done|done].
Qed.

Lemma cpu_read_u32_safe bs o : safe (Cpu.read_u32 bs o).
Proof.
  pose proof (cpu_read_u32 bs o). pose proof (read_u32_safe bs o).
  by destruct (Cpu.read_u32 bs o), (read_u32 bs o).
Qed.

Lemma cpu_reconstruct_post bs :
  bytes_ok bs -> len bs <= usize_max -> 0 <= W -> 0 <= H ->
  post (fun a => frame W H a /\ bytes_ok a /\ W * H * 4 <= isize_max) (isize_max < W * H * 4)
    (Cpu.reconstruct_atlas_from_atx2 bs W H prev dw dh).
Proof.
  intros Hbs Hl HW HH. assert (0 <= W * H) by nia. unfold Cpu.reconstruct_atlas_from_atx2.
  destruct (_ || _) eqn:Hlen; [done|].
  do 3 (apply post_bind_safe; [apply cpu_read_u32_safe|intros ? ?]; case_match; [done|]).
  apply (post_bind (fun n => n = W * H * 4)).
  { unfold Cpu.frame_len, checked_mul. repeat (case_match; simplify_eq/=; try done). }
  intros n ->. apply (post_bind (fun a => a = zeros (W * H * 4) /\ W * H * 4 <= isize_max)).
  { unfold vec_zeroed. case_match; cbn; [|lia]. split; [done|lia]. }
  intros b [-> Hfit]. change Cpu.TILE_COMMAND_STREAM_HEADER_BYTES with 32 in *.
  destruct (cpu_loop_safe (S (length bs)) bs (zeros (W * H * 4)) 32) as [Hs He];
    [done|lia|done|lia|unfold frame; by rewrite zeros_len by lia|apply zeros_ok|].
  apply post_safe; [done|]. intros b Hb. by destruct (He b Hb).
Qed.
End atlas.

(** ** The invariant *)

(** The buffer is a whole picture of the size the compositor says. *)
Definition wf (s : ModernDisplayCompositor) : Prop :=
  is_u32 (width s) /\ is_u32 (height s) /\ frame (width s) (height s) (bgra s) /\
  bytes_ok (bgra s) /\ width s * height s * 4 <= isize_max.

Lemma wf_new : wf new.
Proof. unfold wf, is_u32, u32_max, isize_max, frame; cbn. split_and!; try lia; constructor. Qed.

Lemma wf_set_frame s id : wf s -> wf (set_frame s id).
Proof. done. Qed.

Lemma wf_prev s : wf s -> prev_ok (width s) (height s) (Some (bgra s)).
Proof. intros ([] & [] & ? & ? & ?). done. Qed.

(** Copying the rows of a rectangle, as one step on the buffer. *)
Lemma copy_rows_run src sw sx sy ds dx dy w h s b :
  Cpu.copy_previous_rect (bgra s) ds dx dy w h src sw sx sy = Ok b ->
  copy_rows src (sw * 4) sx sy ds dx dy w h s = (set_bgra s b, Ok tt).
Proof.
  unfold Cpu.copy_previous_rect, copy_rows. cbv zeta. generalize (seqZ 0 h). intros l.
  revert s; induction l as [|r l IH]; intros s Hr; cbn [foldM for_each] in *.
  - apply Ok_inj in Hr as <-. by destruct s.
  - apply bind_ok_inv in Hr as (c & Hc & Hr). apply bind_ok_inv in Hc as (t & Ht & Hc).
    rewrite (method_run_bind _ _ s (set_bgra s c) tt); [by apply (IH (set_bgra s c))|].
    unfold mbind, method_bind, get, lift, put. by rewrite Ht, Hc.
Qed.

(** The buffer after it. *)
Lemma copy_previous_blit a W H src sw sh sx sy dx dy w h :
  frame W H a -> bytes_ok a -> frame sw sh src -> bytes_ok src -> sw <= u32_max -> sh <= u32_max ->
  sw * sh * 4 <= isize_max -> 0 <= sx -> 0 <= sy -> 0 <= dx -> 0 <= dy -> 0 < w -> 0 < h ->
  sx + w <= sw -> sy + h <= sh -> dx + w <= W -> dy + h <= H ->
  exists b, Cpu.copy_previous_rect a (W * 4) dx dy w h src sw sx sy = Ok b /\
    frame W H b /\ bytes_ok b /\
    forall x y, 0 <= x < W -> 0 <= y < H -> pix W b x y = blit (pix sw src) sx sy dx dy w h (pix W a) x y.
Proof.
  intros Hf Hb Hsrc Hok Hsw Hsh Hsz Hsx Hsy Hdx Hdy Hw Hh HxW HyH HdW HdH.
  destruct (copy_previous_painted W H dx dy sw sh sx sy w h src) with (a := a) as (b & Hcp & Hp); try lia; try done.
  exists b. split_and!; [done|by apply Hp|by eapply copy_previous_rect_ok; [| |exact Hcp]|].
  intros x y Hx Hy. destruct Hp as [_ Hp]. rewrite Hp by lia. unfold blit.
  destruct (in_rect dx dy w h x y) eqn:Hin; [|done]. unfold in_rect in Hin. unfold prev_pixel, rect_index.
  assert (((y - dy) * w + (x - dx)) mod w = x - dx) as ->.
  { rewrite Z.add_comm, Z.mod_add by lia. apply Z.mod_small. lia. }
  assert (((y - dy) * w + (x - dx)) / w = y - dy) as ->.
  { rewrite Z.add_comm, Z.div_add by lia. rewrite Z.div_small by lia. lia. }
  destruct (pix_is_Some sw sh ltac:(lia) src (sx + (x - dx)) (sy + (y - dy))) as [c ->]; [done|lia..|done].
Qed.

Lemma copy_rows_blit src sw sh sx sy dx dy w h s :
  wf s -> frame sw sh src -> bytes_ok src -> sw <= u32_max -> sh <= u32_max ->
  sw * sh * 4 <= isize_max -> 0 <= sx -> 0 <= sy -> 0 <= dx -> 0 <= dy -> 0 < w -> 0 < h ->
  sx + w <= sw -> sy + h <= sh -> dx + w <= width s -> dy + h <= height s ->
  exists b, copy_rows src (sw * 4) sx sy (width s * 4) dx dy w h s = (set_bgra s b, Ok tt) /\
    wf (set_bgra s b) /\
    forall x y, 0 <= x < width s -> 0 <= y < height s ->
      pix (width s) b x y = blit (pix sw src) sx sy dx dy w h (pix (width s) (bgra s)) x y.
Proof.
  intros (Hsw' & Hsh' & Hf & Hb & Hz) **.
  destruct (copy_previous_blit (bgra s) (width s) (height s) src sw sh sx sy dx dy w h)
    as (b & Hcp & Hbf & Hbb & Hp); try lia; try done.
  exists b. split; [by apply copy_rows_run|]. by split_and!.
Qed.

(** ** The abstract screen

    A screen has a size, a color for every pixel and the frame being drawn, if any.
    Two screens are the same if they agree on the pixels they have. *)

Record screen := {
  sw : Z;
  sh : Z;
  color : picture;
  active : option Z;
}.

#[export] Instance screen_equiv : Equiv screen := fun a b =>
  sw a = sw b /\ sh a = sh b /\ active a = active b /\
  forall x y, 0 <= x < sw a -> 0 <= y < sh a -> color a x y = color b x y.

#[export] Instance screen_equivalence : Equivalence (≡@{screen}).
Proof.
  split.
  - intros a. by split_and!.
  - intros a b (Hw & Hh & Ha & Hc). split_and!; try done. intros x y Hx Hy. symmetry. apply Hc; lia.
  - intros a b c (Hw & Hh & Ha & Hc) (Hw' & Hh' & Ha' & Hc'). split_and!; try congruence.
    intros x y Hx Hy. rewrite Hc by lia. apply Hc'; lia.
Qed.

(** The screen that a compositor holds. *)
Definition screen_of (s : ModernDisplayCompositor) : screen :=
  {| sw := width s; sh := height s; color := pix (width s) (bgra s); active := current_frame_id s |}.

(** Starting a frame keeps the picture unless the size changes. *)
Definition start (f w h : Z) (sc : screen) : screen :=
  {| sw := w; sh := h; color := if (sw sc =? w) && (sh sc =? h) then color sc else black;
     active := Some f |}.

Definition with_color (sc : screen) (c : Z -> Z -> option (list Z)) : screen :=
  {| sw := sw sc; sh := sh sc; color := c; active := active sc |}.

Definition stop (sc : screen) : screen :=
  {| sw := sw sc; sh := sh sc; color := color sc; active := None |}.

Definition inside (x y w h lw lh : Z) : Prop := 0 < w /\ 0 < h /\ x + w <= lw /\ y + h <= lh.

(** The rectangles of an atlas are drawn in order. *)
Definition draw_rects (atlas : Z -> Z -> option (list Z)) (rects : list DisplayAtlasRect)
    (c : Z -> Z -> option (list Z)) : Z -> Z -> option (list Z) :=
  foldl (fun c r => blit atlas (atlas_x r) (atlas_y r) (dst_x r) (dst_y r)
                      (DisplayRecord.width r) (DisplayRecord.height r) c) c rects.

(** The frame handed to the window: one word per pixel, row by row. *)
Definition frame_of (sc : screen) (f : DecodedFrame) : Prop :=
  frame_width f = sw sc /\ frame_height f = sh sc /\ len (argb f) = sw sc * sh sc /\
  forall x y, 0 <= x < sw sc -> 0 <= y < sh sc ->
    argb f !! Z.to_nat (y * sw sc + x) = le_val <$> color sc x y.

Section spec.
Context (decode_all : list Z -> option (list Z)).

(** The bytes of a key frame: raw, or compressed. *)
Definition keyframe_bytes (w h raw_len : Z) (payload b : list Z) : Prop :=
  len b = w * h * 4 /\
  (b = payload \/ (len payload <> w * h * 4 /\ raw_len = w * h * 4 /\ decode_all payload = Some b)).

(** What an atlas record draws: nothing without commands, otherwise the atlas
    that its commands decode to against the screen. *)
Inductive atlas_step (aw ah : Z) (rects : list DisplayAtlasRect) (commands : list Z)
    : screen -> screen -> Prop :=
  | atlas_empty sc : commands = [] -> atlas_step aw ah rects commands sc sc
  | atlas_draw sc sc' prev atlas :
      commands <> [] ->
      frame (sw sc) (sh sc) prev ->
      (forall x y, 0 <= x < sw sc -> 0 <= y < sh sc -> pix (sw sc) prev x y = color sc x y) ->
      Cpu.reconstruct_atlas_from_atx2 commands aw ah (Some prev) (sw sc) (sh sc) = Ok atlas ->
      Forall (fun r => inside (dst_x r) (dst_y r) (DisplayRecord.width r) (DisplayRecord.height r)
                         (sw sc) (sh sc)) rects ->
      sc' ≡ with_color sc (draw_rects (pix aw atlas) rects (color sc)) ->
      atlas_step aw ah rects commands sc sc'.

(** One record, as a step of the screen and the frame it shows, if any. *)
Inductive display_step : screen -> DisplayRecord -> screen -> option DecodedFrame -> Prop :=
  | step_begin sc sc' f w h :
      sc' ≡ start f w h sc -> display_step sc (FrameBegin f w h) sc' None
  | step_end sc sc' f out :
      active sc = Some f -> sc' ≡ stop sc -> frame_of sc out ->
      display_step sc (FrameEnd f) sc' (Some out)
  | step_keyframe sc sc' f w h raw_len payload b :
      keyframe_bytes w h raw_len payload b ->
      sc' ≡ with_color (start f w h sc) (pix w b) ->
      display_step sc (Keyframe f w h raw_len payload) sc' None
  | step_move sc sc' f sx sy dx dy w h :
      active sc = Some f -> inside sx sy w h (sw sc) (sh sc) -> inside dx dy w h (sw sc) (sh sc) ->
      sc' ≡ with_color sc (blit (color sc) sx sy dx dy w h (color sc)) ->
      display_step sc (MoveRect f sx sy dx dy w h) sc' None
  | step_atlas sc sc' f aw ah rects commands :
      active sc = Some f -> atlas_step aw ah rects commands sc sc' ->
      display_step sc (ExperimentalAtlasCommands f aw ah rects commands) sc' None
  | step_atlas_chunk sc sc' f flags i n aw ah rects commands :
      active sc = Some f -> atlas_step aw ah rects commands sc sc' ->
      display_step sc (ExperimentalAtlasCommandsChunk f flags i n aw ah rects commands) sc' None.
End spec.

(** ** Each method implements its step *)

Lemma pix_zeros w h x y :
  0 <= x < w -> 0 <= y < h -> pix w (zeros (w * h * 4)) x y = Some [0; 0; 0; 0].
Proof.
  intros Hx Hy. assert ((y + 1) * w <= h * w) by nia. unfold pix, zeros.
  rewrite slice_some by (unfold len; rewrite ?length_replicate; nia).
  rewrite drop_replicate, take_replicate. rewrite Nat.min_l by nia.
  by replace (Z.to_nat _) with 4%nat by lia.
Qed.

Lemma frame_len_post X w h : post (fun n => n = w * h * 4) X (Cpu.frame_len w h).
Proof. unfold Cpu.frame_len, checked_mul. repeat (case_match; simplify_eq/=; try done). Qed.

Lemma begin_frame_wp s f w h :
  wf s -> is_u32 w -> is_u32 h ->
  wp (begin_frame f w h)
    (fun _ s' => wf s' /\ screen_of s' ≡ start f w h (screen_of s) /\
                 (wf s' -> frame w h (bgra s') /\ width s' = w /\ height s' = h))
    wf (isize_max < w * h * 4) s.
Proof.
  intros Hwf Hw Hh. pose proof Hwf as (_ & _ & Hf & _ & Hz). unfold begin_frame.
  assert (0 <= w * h) by (unfold is_u32 in *; nia).
  wp_step. apply wp_lift_post; [|done]. eapply post_mono; [apply frame_len_post| |done].
  intros n ->. do 3 wp_step. destruct (_ || _) eqn:Hc.
  - wp_step. apply wp_lift_post; [|done]. unfold vec_zeroed. case_match; cbn; [|lia].
    repeat wp_step. assert (frame w h (zeros (w * h * 4))) by (unfold frame; by rewrite zeros_len by lia).
    split; [|split; [|done]].
    { split_and!; try done; [apply zeros_ok|cbn; lia]. }
    split_and!; try done. intros x y Hx Hy. cbn in *. rewrite pix_zeros by lia.
    replace (_ && _) with false; [done|]. unfold frame in Hf. nia.
  - repeat wp_step. assert (width s = w /\ height s = h) as [<- <-] by lia.
    split; [done|split; [|done]]. split_and!; try done. intros x y Hx Hy. cbn. by rewrite !Z.eqb_refl.
Qed.

Lemma validate_inside x y w h lw lh X :
  is_u32 w -> is_u32 h -> post (fun _ => inside x y w h lw lh) X (Cpu.validate_rect x y w h lw lh).
Proof.
  intros [Hw _] [Hh _]. destruct (Cpu.validate_rect x y w h lw lh) eqn:Hv; cbn; try done.
  - by eapply cpu_validate_rect_inv.
  - pose proof (cpu_validate_rect x y w h lw lh Hw Hh) as Hs. rewrite Hv in Hs.
    pose proof (validate_rect_safe x y w h lw lh). by destruct (validate_rect x y w h lw lh).
  - pose proof (cpu_validate_rect x y w h lw lh Hw Hh) as Hs. rewrite Hv in Hs.
    pose proof (validate_rect_safe x y w h lw lh). by destruct (validate_rect x y w h lw lh).
Qed.

Lemma apply_move_wp s sx sy dx dy w h X :
  wf s -> is_u32 sx -> is_u32 sy -> is_u32 dx -> is_u32 dy -> is_u32 w -> is_u32 h ->
  wp (apply_move sx sy dx dy w h)
    (fun _ s' => wf s' /\ inside sx sy w h (width s) (height s) /\ inside dx dy w h (width s) (height s) /\
       screen_of s' ≡ with_color (screen_of s)
         (blit (color (screen_of s)) sx sy dx dy w h (color (screen_of s)))) wf X s.
Proof.
  intros Hwf Hsx Hsy Hdx Hdy Hw Hh. pose proof Hwf as (Hsw & Hsh & Hf & Hb & Hz). unfold apply_move.
  do 3 wp_step. apply wp_lift_post; [|done]. eapply post_mono; [by apply validate_inside| |done].
  intros [] Hs. wp_step. apply wp_lift_post; [|done]. eapply post_mono; [by apply validate_inside| |done].
  intros [] Hd. pose proof Hs as (? & ? & ? & ?). pose proof Hd as (? & ? & ? & ?). unfold is_u32 in *.
  destruct (copy_rows_blit (bgra s) (width s) (height s) sx sy dx dy w h s) as (b & Hr & Hwf' & Hp);
    try lia; try done.
  unfold wp. rewrite Hr. by split_and!.
Qed.

Lemma draw_rects_ext atlas rects c c' W H :
  (forall x y, 0 <= x < W -> 0 <= y < H -> c x y = c' x y) ->
  forall x y, 0 <= x < W -> 0 <= y < H -> draw_rects atlas rects c x y = draw_rects atlas rects c' x y.
Proof.
  revert c c'; induction rects as [|r rects IH]; intros c c' Hc; cbn; [done|].
  apply IH. intros x y Hx Hy. unfold blit. case_match; [done|]. by apply Hc.
Qed.

Section blits.
Context (atlas : list Z) (aw ah : Z).
Context (Haw : 0 <= aw <= u32_max) (Hah : 0 <= ah <= u32_max) (Hsz : aw * ah * 4 <= isize_max).
Context (Hatlas : frame aw ah atlas) (Hok : bytes_ok atlas).

Lemma blit_rect_wp s r X :
  wf s -> wf_rect aw ah r ->
  wp (blit_rect atlas aw ah r)
    (fun _ s' => wf s' /\
       inside (dst_x r) (dst_y r) (DisplayRecord.width r) (DisplayRecord.height r) (width s) (height s) /\
       screen_of s' ≡ with_color (screen_of s) (draw_rects (pix aw atlas) [r] (color (screen_of s))))
    wf X s.
Proof.
  intros Hwf (Hdx & Hdy & Hw & Hh & Hax & Hay & _). unfold blit_rect.
  do 3 wp_step. apply wp_lift_post; [|done]. eapply post_mono; [by apply validate_inside| |done].
  intros [] Hd. wp_step. apply wp_lift_post; [|done]. eapply post_mono; [by apply validate_inside| |done].
  intros [] Hs. pose proof Hs as (? & ? & ? & ?). pose proof Hd as (? & ? & ? & ?). unfold is_u32 in *.
  destruct (copy_rows_blit atlas aw ah (atlas_x r) (atlas_y r) (dst_x r) (dst_y r)
    (DisplayRecord.width r) (DisplayRecord.height r) s) as (b & Hr & Hwf' & Hp); try lia; try done.
  unfold wp. rewrite Hr. by split_and!.
Qed.

Lemma blit_rects_wp s rects X :
  wf s -> Forall (wf_rect aw ah) rects ->
  wp (for_each (blit_rect atlas aw ah) rects)
    (fun _ s' => wf s' /\
       Forall (fun r => inside (dst_x r) (dst_y r) (DisplayRecord.width r) (DisplayRecord.height r)
                          (width s) (height s)) rects /\
       screen_of s' ≡ with_color (screen_of s) (draw_rects (pix aw atlas) rects (color (screen_of s))))
    wf X s.
Proof.
  intros Hwf Hrs. revert s Hwf; induction Hrs as [|r rects Hr Hrs IH]; intros s Hwf; cbn [for_each].
  { wp_step. split_and!; try done. }
  wp_step. eapply wp_mono; [by apply blit_rect_wp| |done|done].
  intros [] s1 (Hwf1 & Hin & Hsc). eapply wp_mono; [by apply IH| |done|done].
  intros [] s2 (Hwf2 & Hins & Hsc2). pose proof Hsc as (Hw & Hh & Ha & Hc). cbn in Hw, Hh.
  rewrite Hw, Hh in Hins. split_and!; [done|by constructor|].
  transitivity (with_color (screen_of s1) (draw_rects (pix aw atlas) rects (color (screen_of s1)))); [done|].
  split_and!; try done. cbn [with_color sw sh color]. intros x y Hx Hy.
  apply (draw_rects_ext _ rects _ _ (width s) (height s)); try (cbn in *; lia). intros x' y' Hx' Hy'.
  apply Hc; cbn; lia.
Qed.
End blits.

Lemma argb_word b0 b1 b2 b3 :
  bytes_ok [b0; b1; b2; b3] ->
  Z.lor (Z.lor (Z.lor b0 (Z.shiftl b1 8)) (Z.shiftl b2 16)) (Z.shiftl b3 24) = le_val [b0; b1; b2; b3].
Proof.
  intros _. unfold le_val. cbn [little_endian_to_Z].
  rewrite !Z.shiftl_lor, !Z.shiftl_shiftl, Z.shiftl_0_l, Z.lor_0_r by lia. by rewrite !Z.lor_assoc.
Qed.

Lemma bgra_to_argb_spec (n : nat) b :
  bytes_ok b -> len b = Z.of_nat n * 4 ->
  length (bgra_to_argb b) = n /\
  forall i, (i < n)%nat -> bgra_to_argb b !! i = le_val <$> slice b (Z.of_nat i * 4) (Z.of_nat i * 4 + 4).
Proof.
  revert b; induction n as [|n IH]; intros b Hb Hl.
  { assert (b = []) as -> by (apply len_0_nil; lia). split; [done|lia]. }
  destruct b as [|b0 [|b1 [|b2 [|b3 b]]]]; try (exfalso; unfold len in Hl; cbn in Hl; lia).
  assert (bytes_ok [b0; b1; b2; b3] /\ bytes_ok b) as [H4 Hb'].
  { change (b0 :: b1 :: b2 :: b3 :: b) with ([b0; b1; b2; b3] ++ b) in Hb. by apply Forall_app in Hb. }
  rewrite !len_cons in Hl. cbn [bgra_to_argb length]. rewrite argb_word by done.
  destruct (IH b Hb') as [Hlen Hi]; [lia|]. split; [by rewrite Hlen|].
  change (b0 :: b1 :: b2 :: b3 :: b) with ([b0; b1; b2; b3] ++ b). intros [|i] Hlt; cbn [lookup].
  - rewrite slice_some by (rewrite ?len_app; change (len [b0; b1; b2; b3]) with 4; len_pos; lia). done.
  - cbn [list_lookup]. rewrite Hi by lia. f_equal.
    rewrite !slice_some by (rewrite ?len_app; change (len [b0; b1; b2; b3]) with 4; len_pos; lia).
    rewrite drop_app_ge by (cbn; lia). f_equal. f_equal; [lia|]. f_equal. cbn [length]. lia.
Qed.

Lemma decoded_frame_of s : wf s -> frame_of (screen_of s) (decoded_frame s).
Proof.
  intros ((Hw & _) & (Hh & _) & Hf & Hb & _). unfold frame in Hf.
  destruct (bgra_to_argb_spec (Z.to_nat (width s * height s)) (bgra s)) as [Hl Hi]; [done|nia|].
  split_and!; [done|done|cbn; unfold len; nia|]. cbn. intros x y Hx Hy.
  assert ((y + 1) * width s <= height s * width s) by nia.
  rewrite Hi by nia. unfold pix. by rewrite !Z2Nat.id by nia.
Qed.

Lemma apply_atx2_wp s aw ah rects commands :
  wf s -> is_dim aw -> is_dim ah -> Forall (wf_rect aw ah) rects -> bytes_ok commands ->
  len commands <= u32_max ->
  wp (apply_atx2_atlas aw ah rects commands)
    (fun _ s' => wf s' /\ atlas_step aw ah rects commands (screen_of s) (screen_of s'))
    wf (isize_max < aw * ah * 4) s.
Proof.
  intros Hwf [Haw Haw'] [Hah Hah'] Hrs Hok Hl. unfold apply_atx2_atlas.
  destruct (Z.eqb_spec (len commands) 0) as [H0|H0].
  { wp_step. split; [done|]. by apply atlas_empty, len_0_nil. }
  do 3 wp_step. apply wp_lift_post; [|done].
  assert (len commands <= usize_max) by (unfold usize_max, u64_max, u32_max in *; lia).
  pose proof (cpu_reconstruct_post aw ah (width s) (height s) (Some (bgra s)) (wf_prev s Hwf) commands
    Hok ltac:(done) ltac:(lia) ltac:(lia)) as Hpost.
  apply post_eq in Hpost. eapply post_mono; [exact Hpost| |done].
  intros atlas [(Ha & Haok & Hfit) Hr].
  eapply wp_mono; [apply blit_rects_wp; try done; lia| |done|done].
  intros [] s' (Hwf' & Hins & Hsc). split; [done|].
  apply (atlas_draw _ _ _ _ _ _ (bgra s) atlas); try done; [|by apply Hwf].
  by intros ->.
Qed.

Section handle.
Context (decode_all : list Z -> option (list Z)).
Context (Hdec : forall p b, decode_all p = Some b -> bytes_ok b).

(** The pictures a record announces fit in memory. *)
Definition record_fits (r : DisplayRecord) : Prop :=
  match r with
  | FrameBegin _ w h | Keyframe _ w h _ _ => w * h * 4 <= isize_max
  | ExperimentalAtlasCommands _ aw ah _ _ | ExperimentalAtlasCommandsChunk _ _ _ _ aw ah _ _ =>
      aw * ah * 4 <= isize_max
  | _ => True
  end.

Lemma handle_keyframe_wp s f w h n p :
  wf s -> is_u32 w -> is_u32 h -> bytes_ok p ->
  wp (handle_keyframe decode_all f w h n p)
    (fun _ s' => wf s' /\ exists b, keyframe_bytes decode_all w h n p b /\
       screen_of s' ≡ with_color (start f w h (screen_of s)) (pix w b))
    wf (isize_max < w * h * 4) s.
Proof.
  intros Hwf Hw Hh Hp. unfold handle_keyframe. wp_step.
  eapply wp_mono; [by apply begin_frame_wp| |done|done].
  intros [] s1 (Hwf1 & Hsc & Hd). destruct (Hd Hwf1) as (Hf & Hw1 & Hh1). wp_step.
  apply wp_lift_post; [|done]. eapply post_mono; [apply frame_len_post| |done]. intros n' ->.
  wp_step. apply wp_lift_post; [|done].
  apply (post_mono (fun b => bytes_ok b /\ (b = p \/ (len p <> w * h * 4 /\ n = w * h * 4 /\ decode_all p = Some b)))
           _ False); [|intros b [Hb Hor]|done].
  { destruct (Z.eqb_spec (len p) (w * h * 4)); [cbn; auto|]. case_match; [|done].
    destruct (decode_all p) eqn:Hz; cbn; [|done]. split; [by eapply Hdec|]. right. split_and!; lia || done. }
  destruct (Z.eqb_spec (len b) (w * h * 4)) as [Hlb|Hlb]; cbn [negb]; [|done].
  do 2 wp_step. unfold frame in Hf. replace (len (bgra s1) =? len b) with true by lia. cbn [negb]. wp_step.
  split; [|exists b; split; [done|]].
  - destruct Hwf1 as (? & ? & ? & ? & ?). split_and!; try done. cbn. unfold frame. by rewrite Hw1, Hh1.
  - destruct Hsc as (? & ? & ? & _). split_and!; try done. intros x y _ _. cbn. by rewrite Hw1.
Qed.

Lemma ensure_frame_wp s f X :
  wf s -> wp (ensure_frame f) (fun _ s' => s' = s /\ active (screen_of s) = Some f) wf X s.
Proof.
  intros Hwf. unfold ensure_frame. do 2 wp_step. apply wp_lift_post; [|done]. by case_decide.
Qed.

Lemma handle_record_wp s bs :
  wf s -> bytes_ok bs ->
  wp (handle_record decode_all bs)
    (fun out s' => wf s' /\ exists r, decode_display_record bs = Ok r /\
       display_step decode_all (screen_of s) r (screen_of s') out)
    wf (exists r, decode_display_record bs = Ok r /\ ~ record_fits r) s.
Proof.
  intros Hwf Hbs. unfold handle_record. wp_step. apply wp_lift_safe; [|intros r Hr|done].
  { apply map_err_safe. by apply decode_display_record_no_panic. }
  apply map_err_ok_inv in Hr. pose proof (decode_ok_inv _ _ Hbs Hr) as [Hr' _].
  assert (forall P : Prop, (P -> ~ record_fits r) -> P ->
    exists r, decode_display_record bs = Ok r /\ ~ record_fits r) as HX by eauto.
  destruct r as [f w h|f|f w h n p|f sx sy dx dy w h|f fl aw ah rs p|f aw ah rs tc|f fl i n aw ah rs tc];
    cbn in Hr'; destruct_and?; wp_step.
  - eapply wp_mono; [by apply begin_frame_wp| |done|apply HX; cbn; lia].
    intros [] s' (? & ? & _). wp_step. split; [done|]. eexists; split; [done|]. by constructor.
  - eapply wp_mono; [by apply ensure_frame_wp| |done|done]. intros [] s' [-> Ha]. repeat wp_step.
    split; [done|]. eexists; split; [done|]. constructor; [done|done|].
    by apply (decoded_frame_of (set_frame s None)).
  - eapply wp_mono; [by apply handle_keyframe_wp| |done|apply HX; cbn; lia].
    intros [] s' (? & b & ? & ?). wp_step. split; [done|]. eexists; split; [done|]. by econstructor.
  - eapply wp_mono; [by apply ensure_frame_wp| |done|done]. intros [] s' [-> Ha]. wp_step.
    eapply wp_mono; [by apply apply_move_wp| |done|done].
    intros [] s' (? & ? & ? & ?). wp_step. split; [done|]. eexists; split; [done|]. by constructor.
  - eapply wp_mono; [by apply ensure_frame_wp| |done|done]. intros [] s' [-> Ha]. wp_step. done.
  - eapply wp_mono; [by apply ensure_frame_wp| |done|done]. intros [] s' [-> Ha]. wp_step. len_pos.
    eapply wp_mono; [apply apply_atx2_wp; try done; lia| |done|apply HX; cbn; lia].
    intros [] s' (? & ?). wp_step. split; [done|]. eexists; split; [done|]. by constructor.
  - eapply wp_mono; [by apply ensure_frame_wp| |done|done]. intros [] s' [-> Ha]. wp_step. len_pos.
    eapply wp_mono; [apply apply_atx2_wp; try done; lia| |done|apply HX; cbn; lia].
    intros [] s' (? & ?). wp_step. split; [done|]. eexists; split; [done|]. by constructor.
Qed.

(** The states the compositor can be in between two records, whether or not the
    records before were accepted. *)
Inductive reachable : ModernDisplayCompositor -> Prop :=
  | reachable_new : reachable new
  | reachable_ok s bs s' out :
      reachable s -> bytes_ok bs -> handle_record decode_all bs s = (s', Ok out) -> reachable s'
  | reachable_err s bs s' e :
      reachable s -> bytes_ok bs -> handle_record decode_all bs s = (s', Err e) -> reachable s'.

Lemma reachable_wf s : reachable s -> wf s.
Proof.
  induction 1 as [|s bs s' out _ IH Hbs Hr|s bs s' e _ IH Hbs Hr]; [apply wf_new|..];
    pose proof (handle_record_wp s bs IH Hbs) as Hw; unfold wp in Hw; rewrite Hr in Hw; tauto.
Qed.
End handle.

(** ** Properties *)

(** After any sequence of records, accepted or refused, the compositor's
    buffer is exactly one picture of the size it reports: the pixels of the width
    and height, each of four bytes, and no larger than memory allows. *)
Theorem compositor_invariant decode_all s :
  (forall p b, decode_all p = Some b -> bytes_ok b) ->
  reachable decode_all s ->
  is_u32 (width s) /\ is_u32 (height s) /\ len (bgra s) = width s * height s * 4 /\
  bytes_ok (bgra s) /\ width s * height s * 4 <= isize_max.
Proof. intros Hdec Hs. by apply (reachable_wf decode_all Hdec). Qed.

(** A decompressor that refuses everything, and a session that began a frame. *)
Definition no_zstd (_ : list Z) : option (list Z) := None.

Definition sample_session : ModernDisplayCompositor :=
  {| width := 4; height := 2; bgra := zeros 32; current_frame_id := Some 1 |}.

Lemma sample_reachable : reachable no_zstd sample_session.
Proof.
  apply (reachable_ok no_zstd new (build_display_frame_begin 1 4 2) _ None);
    [constructor|bytes_check|vm_compute; reflexivity].
Qed.

Lemma compositor_invariant_witness :
  len (bgra sample_session) = width sample_session * height sample_session * 4.
Proof.
  apply (compositor_invariant no_zstd sample_session); [discriminate|exact sample_reachable].
Defined.

(** C3.  The compositor implements the abstract screen: from every reachable state
    a record it accepts is a step of the screen.  Moves read the old picture even
    where source and destination overlap, atlas rectangles are drawn in order over
    the picture they were decoded against, a key frame replaces the picture, and the
    frame shown at the end has the screen's colors pixel by pixel. *)
Theorem compositor_refines_screen decode_all s bs s' out :
  (forall p b, decode_all p = Some b -> bytes_ok b) ->
  reachable decode_all s -> bytes_ok bs ->
  handle_record decode_all bs s = (s', Ok out) ->
  exists r, decode_display_record bs = Ok r /\
    display_step decode_all (screen_of s) r (screen_of s') out.
Proof.
  intros Hdec Hs Hbs Hr. apply (reachable_wf decode_all Hdec) in Hs.
  pose proof (handle_record_wp decode_all Hdec s bs Hs Hbs) as Hw. unfold wp in Hw. rewrite Hr in Hw.
  apply Hw.
Qed.

Lemma compositor_refines_screen_witness :
  exists r, decode_display_record (build_display_move_rect 1 0 0 1 0 3 2) = Ok r /\
    display_step no_zstd (screen_of sample_session) r (screen_of sample_session) None.
Proof.
  apply (compositor_refines_screen no_zstd sample_session
           (build_display_move_rect 1 0 0 1 0 3 2) sample_session None);
    [discriminate|exact sample_reachable|bytes_check|vm_compute; reflexivity].
Defined.

(** No record makes the compositor panic or loop as long as the picture or
    atlas it announces fits in memory: every slice of every copy is in range
    whatever rectangles, sizes and commands the bytes claim. *)
Theorem compositor_safe decode_all s bs :
  (forall p b, decode_all p = Some b -> bytes_ok b) ->
  reachable decode_all s -> bytes_ok bs ->
  (forall r, decode_display_record bs = Ok r -> record_fits r) ->
  safe (snd (handle_record decode_all bs s)).
Proof.
  intros Hdec Hs Hbs Hfit. apply (reachable_wf decode_all Hdec) in Hs.
  pose proof (handle_record_wp decode_all Hdec s bs Hs Hbs) as Hw. unfold wp in Hw.
  destruct (handle_record decode_all bs s) as [s' []]; cbn; try done.
  destruct Hw as (r & Hr & Hn). by apply Hn, Hfit.
Qed.

Lemma compositor_safe_witness :
  safe (snd (handle_record no_zstd (build_display_frame_begin 2 1920 1080) sample_session)).
Proof.
  apply (compositor_safe no_zstd); [discriminate|exact sample_reachable|bytes_check|].
  intros r Hr.
  assert (decode_display_record (build_display_frame_begin 2 1920 1080) = Ok (FrameBegin 2 1920 1080)) as Hd
    by (vm_compute; reflexivity).
  rewrite Hd in Hr. apply Ok_inj in Hr as <-. unfold record_fits, isize_max. lia.
Defined.

(** The bound is needed: a frame of 2^31 by 2^31 - 1 pixels passes the
    overflow test of [frame_len], and the allocation of its buffer then panics. *)
Theorem huge_frame_panics decode_all :
  handle_record decode_all (build_display_frame_begin 1 2147483648 2147483647) new = (new, Panic).
Proof. vm_compute. reflexivity. Qed.
