(* ===== verification/Transmit.v ===== *)
(** From the encoded atlas to the viewer's screen: the records a frame is sent in
    (apps/talos_worker_helper/src/experimental_stream.rs), and what the software
    compositor of the viewer shows after them.  A large frame is sent in chunks that
    the viewer decodes one after the other, each against the picture that the chunks
    before it left. *)

From S2P Require Import Prelude Bytes Pixels DisplayRecord TileStream TileDecode TileMerge Atlas.
From S2P Require Import ViewportCpu CpuDisplay.

Local Open Scope Z_scope.

Module Sender.
Definition EXPERIMENTAL_ATLAS_CHUNK_TARGET_BYTES : Z := 512 * 1024.

(** ** Moved rectangles *)

Record MoveRect := {
  source_x : Z; source_y : Z; left : Z; top : Z; right : Z; bottom : Z }.

Record ClippedMoveRect := {
  src_x : Z; src_y : Z; dst_x : Z; dst_y : Z; width : Z; height : Z }.

Definition normalize_move_rect (source_x source_y left top right bottom : Z) : option MoveRect :=
  let source_x := Z.max source_x 0 in
  let source_y := Z.max source_y 0 in
  let left := Z.max left 0 in
  let top := Z.max top 0 in
  let right := Z.max right 0 in
  let bottom := Z.max bottom 0 in
  if (right <=? left) || (bottom <=? top) then None
  else Some {| source_x := source_x; source_y := source_y; left := left; top := top;
               right := right; bottom := bottom |}.

(** The [?] in the condition leaves the function with [None]. *)
Definition clip_move_rect (rect : MoveRect) (desktop_width desktop_height : Z)
    : option ClippedMoveRect :=
  if (right rect <=? left rect) || (bottom rect <=? top rect) then None else
  let width := right rect - left rect in
  let height := bottom rect - top rect in
  if (desktop_width <? right rect) || (desktop_height <? bottom rect) then None else
  r ← checked_add u32_max (source_x rect) width;
  if desktop_width <? r then None else
  b ← checked_add u32_max (source_y rect) height;
  if desktop_height <? b then None else
  Some {| src_x := source_x rect; src_y := source_y rect; dst_x := left rect; dst_y := top rect;
          width := width; height := height |}.

Definition clip_move_rects (rects : list MoveRect) (desktop_width desktop_height : Z)
    : list ClippedMoveRect :=
  omap (fun rect => clip_move_rect rect desktop_width desktop_height) rects.

(** ** Rectangles of the records *)

Definition atlas_display_rects (atlas : Atlas.AtlasReadback) : list DisplayAtlasRect :=
  map (fun rect =>
    {| DisplayRecord.dst_x := Atlas.x (Atlas.desktop rect);
       DisplayRecord.dst_y := Atlas.y (Atlas.desktop rect);
       DisplayRecord.width := Atlas.w (Atlas.desktop rect);
       DisplayRecord.height := Atlas.h (Atlas.desktop rect);
       atlas_x := Atlas.x (Atlas.atlas_rect rect);
       atlas_y := Atlas.y (Atlas.atlas_rect rect) |}) (Atlas.dirty_rects atlas).

Definition display_rect (rect : Rect.TileCommandCopyRect) : DisplayAtlasRect :=
  {| DisplayRecord.dst_x := Rect.desktop_x rect; DisplayRecord.dst_y := Rect.desktop_y rect;
     DisplayRecord.width := Rect.width rect; DisplayRecord.height := Rect.height rect;
     atlas_x := Rect.atlas_x rect; atlas_y := Rect.atlas_y rect |}.

Definition display_rects_from_copy_rects (rects : list Rect.TileCommandCopyRect)
    : list DisplayAtlasRect := map display_rect rects.

(** The bounding box and the area of the rectangles so far. *)
Record extent := { min_x : Z; min_y : Z; max_x : Z; max_y : Z; area : Z }.

Definition extend (W H : Z) (e : extent) (rect : DisplayAtlasRect) : option extent :=
  right ← checked_add u32_max (DisplayRecord.dst_x rect) (DisplayRecord.width rect);
  bottom ← checked_add u32_max (DisplayRecord.dst_y rect) (DisplayRecord.height rect);
  if (W <? right) || (H <? bottom) then None else
  Some {| min_x := Z.min (min_x e) (DisplayRecord.dst_x rect);
          min_y := Z.min (min_y e) (DisplayRecord.dst_y rect);
          max_x := Z.max (max_x e) right;
          max_y := Z.max (max_y e) bottom;
          area := saturating_add u64_max (area e)
                    (DisplayRecord.width rect * DisplayRecord.height rect) |}.

Definition rects_cover_full_desktop (rects : list DisplayAtlasRect) (width height : Z) : bool :=
  if (len rects =? 0) || (width =? 0) || (height =? 0) then false else
  match foldl (fun e rect => e ← e; extend width height e rect)
          (Some {| min_x := width; min_y := height; max_x := 0; max_y := 0; area := 0 |}) rects with
  | None => false
  | Some e => (min_x e =? 0) && (min_y e =? 0) && (max_x e =? width) && (max_y e =? height)
              && (width * height <=? area e)
  end.

(** ** Writing records *)

(** What went into the pipe as display records, and the bytes counted for the logs.
    The pipe takes everything. *)
Record sender := { records : list (list Z); record_bytes : Z }.

Definition write_display_delta (record : list Z) : method sender anyhow unit :=
  s ← get; put {| records := records s ++ [record]; record_bytes := record_bytes s |}.

(** [record_bytes += record.len()], and the saturating form. *)
Definition count_record (record : list Z) : method sender anyhow unit :=
  s ← get; put {| records := records s; record_bytes := wrap_usize (record_bytes s + len record) |}.

Definition count_record_saturating (record : list Z) : method sender anyhow unit :=
  s ← get; put {| records := records s;
                  record_bytes := saturating_add usize_max (record_bytes s) (len record) |}.

Definition write_atx2_chunk (frame_id atlas_width atlas_height : Z) (rects : list DisplayAtlasRect)
    (allow_progressive_chunks : bool) (chunk_count : Z) (chunk : Z * TileCommandWireChunk)
    : method sender anyhow unit :=
  let '(index, chunk) := chunk in
  let flags := if allow_progressive_chunks
               then DISPLAY_EXPERIMENTAL_ATLAS_CHUNK_FLAG_PROGRESSIVE else 0 in
  let flags := if index + 1 =? chunk_count
               then Z.lor flags DISPLAY_EXPERIMENTAL_ATLAS_CHUNK_FLAG_FINAL else flags in
  let chunk_rects := display_rects_from_copy_rects (chunk_copy_rects chunk) in
  let chunk_rects := if len chunk_rects =? 0 then rects else chunk_rects in
  let record := build_display_experimental_atlas_commands_chunk frame_id flags (as_u32 index)
                  (as_u32 chunk_count) atlas_width atlas_height chunk_rects (chunk_bytes chunk) in
  _ ← count_record_saturating record;
  write_display_delta record.

Definition write_atx2_records (frame_id atlas_width atlas_height : Z)
    (rects : list DisplayAtlasRect) (tile_commands : Stream.TileCommandStream)
    (allow_progressive_chunks : bool) : method sender anyhow Z :=
  if len (Stream.bytes tile_commands) =? 0 then mret 0 else
  if len (Stream.bytes tile_commands) <=? EXPERIMENTAL_ATLAS_CHUNK_TARGET_BYTES then
    let record := build_display_experimental_atlas_commands frame_id atlas_width atlas_height rects
                    (Stream.bytes tile_commands) in
    _ ← count_record_saturating record;
    _ ← write_display_delta record;
    mret 1
  else
    chunks ← lift (wire_chunks tile_commands EXPERIMENTAL_ATLAS_CHUNK_TARGET_BYTES);
    let chunk_count := len chunks in
    _ ← for_each (write_atx2_chunk frame_id atlas_width atlas_height rects allow_progressive_chunks
                    chunk_count) (zip (seqZ 0 chunk_count) chunks);
    mret chunk_count.

(** Nothing changed: the frame is skipped. *)
Definition frame_unchanged (atlas : Atlas.AtlasReadback) (move_rects : list ClippedMoveRect) : bool :=
  (Stream.command_count (Atlas.tile_commands atlas) =? 0) && (len move_rects =? 0).

(** One captured frame, from the encoded atlas to its last record; [None] if the
    frame is skipped.  [commit_delta_reference] asks the graphics card to keep the
    frame as the reference of the next one: whether the commands lose anything, and
    whether they draw the whole desktop. *)
Definition send_frame (commit_delta_reference : bool -> bool -> res anyhow unit)
    (frame_id desktop_width desktop_height : Z) (move_rects : list ClippedMoveRect)
    (atlas : Atlas.AtlasReadback) : method sender anyhow (option Z) :=
  let record_rects := atlas_display_rects atlas in
  let tile_commands := Atlas.tile_commands atlas in
  if frame_unchanged atlas move_rects then mret None else
  let frame_begin := build_display_frame_begin frame_id desktop_width desktop_height in
  _ ← count_record frame_begin;
  _ ← write_display_delta frame_begin;
  _ ← for_each (fun rect =>
         let move_record := build_display_move_rect frame_id (src_x rect) (src_y rect) (dst_x rect)
                              (dst_y rect) (width rect) (height rect) in
         _ ← count_record move_record;
         write_display_delta move_record) move_rects;
  atlas_chunks_sent ← write_atx2_records frame_id (Atlas.atlas_width atlas) (Atlas.atlas_height atlas)
                        record_rects tile_commands (len move_rects =? 0);
  let counts := Stream.command_counts tile_commands in
  let emitted_lossy := (0 <? Counts.lossy_ui_block counts) || (0 <? Counts.sharp_ui_block counts) in
  let full_lossless_refresh :=
    negb emitted_lossy && (len move_rects =? 0) && (Counts.skipped counts =? 0) &&
    rects_cover_full_desktop record_rects desktop_width desktop_height in
  _ ← lift (commit_delta_reference emitted_lossy full_lossless_refresh);
  let frame_end := build_display_frame_end frame_id in
  _ ← count_record frame_end;
  _ ← write_display_delta frame_end;
  mret (Some atlas_chunks_sent).

(** The first frame of a stream, before anything was captured. *)
Definition send_black_bootstrap_frame (frame_id width height : Z) : method sender anyhow Z :=
  let frame_id := saturating_add u64_max frame_id 1 in
  tile_commands ← lift (solid_color width height [0; 0; 0; 255]);
  let rects := [{| DisplayRecord.dst_x := 0; DisplayRecord.dst_y := 0; atlas_x := 0; atlas_y := 0;
                   DisplayRecord.width := width; DisplayRecord.height := height |}] in
  _ ← write_display_delta (build_display_frame_begin frame_id width height);
  _ ← write_display_delta
        (build_display_experimental_atlas_commands frame_id width height rects
           (Stream.bytes tile_commands));
  _ ← write_display_delta (build_display_frame_end frame_id);
  mret frame_id.
End Sender.

Import Sender Compositor.

(** The viewer handles the records one after the other. *)
Definition show (decode_all : list Z -> option (list Z)) (records : list (list Z))
    : method ModernDisplayCompositor string unit :=
  for_each (fun record => _ ← handle_record decode_all record; mret tt) records.

(** ** A command reads the previous picture only under its own rectangle *)

Definition desktop_rect (c : Owned.OwnedCommand) (x y : Z) : bool :=
  in_rect (Owned.desktop_x c) (Owned.desktop_y c) (Owned.width c) (Owned.height c) x y.

(** Commands that change the previous picture instead of replacing it. *)
Definition is_delta (c : Owned.OwnedCommand) : bool :=
  (Owned.kind c =? TILE_COMMAND_XOR_RAW) || (Owned.kind c =? TILE_COMMAND_XOR_SPARSE)
  || (Owned.kind c =? TILE_COMMAND_MASKED_QUANT_DELTA).

Lemma read_previous_local p p' dw dx dy w px :
  pix dw p (dx + px mod w) (dy + px / w) = pix dw p' (dx + px mod w) (dy + px / w) ->
  read_previous_pixel p dw dx dy w px = read_previous_pixel p' dw dx dy w px.
Proof.
  intros Hp. unfold read_previous_pixel. case_match; [done|].
  replace ((dy + px / w) * dw + dx + px mod w) with ((dy + px / w) * dw + (dx + px mod w)) by lia.
  unfold checked_mul. case_match; [|done]. cbn [ok_or]. rewrite !bind_Ok.
  unfold pix in Hp. unfold read_u32, checked_add. case_match; [|done]. cbn [ok_or]. rewrite !bind_Ok.
  by rewrite Hp.
Qed.

Section local.
Context (W H dw dh : Z) (p p' : list Z) (c : Owned.OwnedCommand).
Context (Hc : is_delta c = true -> forall x y, desktop_rect c x y = true -> pix dw p x y = pix dw p' x y).

Lemma read_previous_same px :
  is_delta c = true -> 0 < Owned.width c -> 0 <= px < Owned.width c * Owned.height c ->
  read_previous_pixel p dw (Owned.desktop_x c) (Owned.desktop_y c) (Owned.width c) px =
  read_previous_pixel p' dw (Owned.desktop_x c) (Owned.desktop_y c) (Owned.width c) px.
Proof.
  intros Hd Hw Hpx. apply read_previous_local, Hc; [done|]. unfold desktop_rect, in_rect.
  pose proof (Z.mod_pos_bound px (Owned.width c) Hw).
  assert (0 <= px / Owned.width c < Owned.height c).
  { split; [apply Z.div_pos; lia|]. apply Z.div_lt_upper_bound; lia. }
  lia.
Qed.

Lemma xor_raw_local a st ax ay pl :
  is_delta c = true -> 0 < Owned.width c ->
  decode_xor_raw_payload a st ax ay (Owned.desktop_x c) (Owned.desktop_y c) (Owned.width c)
    (Owned.height c) pl (Some p) dw dh =
  decode_xor_raw_payload a st ax ay (Owned.desktop_x c) (Owned.desktop_y c) (Owned.width c)
    (Owned.height c) pl (Some p') dw dh.
Proof.
  intros Hd Hw. unfold decode_xor_raw_payload. cbn [ok_or]. rewrite !bind_Ok.
  do 2 (apply bind_ext; intros ? _; cbv zeta).
  apply foldM_ext. intros b px Hpx. apply elem_of_seqZ in Hpx. by rewrite read_previous_same by (done || lia).
Qed.

Lemma xor_sparse_local a st ax ay pl :
  is_delta c = true -> 0 < Owned.width c -> bytes_ok pl ->
  decode_xor_sparse_payload a st ax ay (Owned.desktop_x c) (Owned.desktop_y c) (Owned.width c)
    (Owned.height c) pl (Some p) dw dh =
  decode_xor_sparse_payload a st ax ay (Owned.desktop_x c) (Owned.desktop_y c) (Owned.width c)
    (Owned.height c) pl (Some p') dw dh.
Proof.
  intros Hd Hw Hpl. unfold decode_xor_sparse_payload. cbn [ok_or]. rewrite !bind_Ok.
  do 2 (apply bind_ext; intros ? _; cbv zeta).
  match goal with |- foldM ?f a ?l ≫= _ = foldM ?g a ?l ≫= _ => assert (foldM f a l = foldM g a l) as -> end.
  { apply foldM_ext. intros b px Hpx. apply elem_of_seqZ in Hpx. by rewrite read_previous_same by (done || lia). }
  apply bind_ext; intros b _. apply foldM_ext. intros b' o _. apply bind_ext; intros px Hpx.
  apply read_u32_inv in Hpx as [_ [Hpx _]]; [|done].
  apply bind_ext; intros u Hu. apply ensure_ok_inv in Hu. by rewrite read_previous_same by (done || lia).
Qed.

Lemma masked_local a st ax ay pl cc :
  is_delta c = true -> 0 < Owned.width c ->
  decode_masked_quant_delta_payload a st ax ay (Owned.desktop_x c) (Owned.desktop_y c) (Owned.width c)
    (Owned.height c) pl cc (Some p) dw dh =
  decode_masked_quant_delta_payload a st ax ay (Owned.desktop_x c) (Owned.desktop_y c) (Owned.width c)
    (Owned.height c) pl cc (Some p') dw dh.
Proof.
  intros Hd Hw. unfold decode_masked_quant_delta_payload. cbn [ok_or]. rewrite !bind_Ok.
  repeat (apply bind_ext; intros ? _; cbv zeta).
  match goal with |- foldM ?f ?z ?l ≫= _ = foldM ?g ?z ?l ≫= _ =>
    assert (foldM f z l = foldM g z l) as -> end; [|reflexivity].
  apply foldM_ext. intros [b n] px Hpx. apply elem_of_seqZ in Hpx. by rewrite read_previous_same by (done || lia).
Qed.

Lemma decode_owned_local a :
  wf_command c -> decode_owned W H (Some p) dw dh a c = decode_owned W H (Some p') dw dh a c.
Proof.
  intros Hwf. unfold decode_owned, decode_command. autorewrite with talos_ref.
  rewrite (ref_payload (enc_command c) 0 c) by (apply slice_all; by rewrite enc_command_len).
  cbn [or_panic]. apply bind_ext; intros u Hv. cbv zeta.
  apply validate_rect_inv in Hv as (Hw & Hh & _). rewrite !bind_Ok.
  assert (forall k, Owned.kind c = k ->
    (k = TILE_COMMAND_XOR_RAW \/ k = TILE_COMMAND_XOR_SPARSE \/ k = TILE_COMMAND_MASKED_QUANT_DELTA) ->
    is_delta c = true) as Hd.
  { intros k Hk Hor. unfold is_delta. rewrite Hk. destruct Hor as [->|[->| ->]]; reflexivity. }
  destruct (Z.eqb_spec (Owned.kind c) TILE_COMMAND_SOLID_COLOR); [reflexivity|].
  destruct (Z.eqb_spec (Owned.kind c) TILE_COMMAND_RAW_BGRA); [reflexivity|].
  destruct (Z.eqb_spec (Owned.kind c) TILE_COMMAND_XOR_RAW); [apply xor_raw_local; eauto|].
  destruct (Z.eqb_spec (Owned.kind c) TILE_COMMAND_XOR_SPARSE); [apply xor_sparse_local; [eauto|done|apply Hwf]|].
  destruct (Z.eqb_spec (Owned.kind c) TILE_COMMAND_MASKED_QUANT_DELTA); [apply masked_local; eauto|].
  reflexivity.
Qed.
End local.

(** ** Commands one by one and together *)

Lemma FOP_app_inv {A} (R : A -> A -> Prop) l1 l2 :
  ForallOrdPairs R (l1 ++ l2) ->
  ForallOrdPairs R l1 /\ ForallOrdPairs R l2 /\ forall a b, a ∈ l1 -> b ∈ l2 -> R a b.
Proof.
  induction l1 as [|c l1 IH]; cbn; intros HR.
  - split_and!; [constructor|done|]. intros a b Ha. by apply elem_of_nil in Ha.
  - inversion HR as [|? ? Hc HR']; subst. destruct (IH HR') as (H1 & H2 & H12).
    apply Forall_app in Hc as [Hc1 Hc2]. split_and!; [by constructor|done|].
    intros a b Ha Hb. apply elem_of_cons in Ha as [->|Ha]; [|auto]. rewrite Forall_forall in Hc2. auto.
Qed.

Definition atlas_area (c : Owned.OwnedCommand) (x y : Z) : bool :=
  in_rect (Owned.atlas_x c) (Owned.atlas_y c) (Owned.width c) (Owned.height c) x y.

Section decode_all_commands.
Context (W H dw dh : Z) (HW : 0 < W) (prev : option (list Z)).

Abbreviation D := (decode_owned W H prev dw dh).
Abbreviation blank := (zeros (W * H * 4)).

Lemma blank_frame : 0 <= H -> frame W H blank.
Proof. intros. unfold frame. rewrite zeros_len; nia. Qed.

(** A command that some atlas accepts, every atlas accepts. *)
Lemma accepted_anywhere c a a' b :
  wf_command c -> frame W H a -> frame W H b -> D a c = Ok a' -> exists b', D b c = Ok b'.
Proof.
  intros Hwf Ha Hb Hd. destruct (decode_owned_paints W H prev dw dh c Hwf) as [[col Hp]|[e Hp]].
  - destruct (Hp b Hb) as (b' & Hb' & _). eauto.
  - rewrite Hp in Hd by done. discriminate.
Qed.

(** It writes its own part of the atlas, whatever else is there. *)
Lemma decode_owned_area c a a' b b' :
  wf_command c -> frame W H a -> frame W H b -> D a c = Ok a' -> D b c = Ok b' ->
  frame W H a' /\
  forall x y, 0 <= x < W -> 0 <= y < H ->
    (atlas_area c x y = false -> pix W a' x y = pix W a x y) /\
    (atlas_area c x y = true -> pix W a x y = pix W b x y -> pix W a' x y = pix W b' x y).
Proof.
  intros Hwf Ha Hb Hd Hd'. destruct (decode_owned_paints W H prev dw dh c Hwf) as [[col Hp]|[e Hp]].
  2: { rewrite Hp in Hd by done. discriminate. }
  destruct (Hp a Ha) as (a1 & Ha1 & Hpa). rewrite Hd in Ha1. apply Ok_inj in Ha1 as <-.
  destruct (Hp b Hb) as (b1 & Hb1 & Hpb). rewrite Hd' in Hb1. apply Ok_inj in Hb1 as <-.
  destruct Hpa as [Hfa Hpa], Hpb as [_ Hpb]. split; [done|]. intros x y Hx Hy.
  rewrite Hpa, Hpb by done. unfold atlas_area. split; intros ->; [done|]. intros ->. done.
Qed.

Lemma commands_accepted cs a a' b :
  Forall wf_command cs -> frame W H a -> frame W H b -> foldM D a cs = Ok a' ->
  forall c, c ∈ cs -> exists b', D b c = Ok b'.
Proof.
  revert a; induction cs as [|d cs IH]; intros a Hwf Ha Hb Hf c Hc; [by apply elem_of_nil in Hc|].
  cbn [foldM] in Hf. apply bind_ok_inv in Hf as (a1 & Hd & Hf). apply Forall_cons in Hwf as [Hwd Hwf].
  apply elem_of_cons in Hc as [->|Hc]; [exact (accepted_anywhere d a a1 b Hwd Ha Hb Hd)|].
  eapply IH; [done| |done|exact Hf|done]. exact (proj1 (decode_owned_area d a a1 a a1 Hwd Ha Ha Hd Hd)).
Qed.

(** Apart in the atlas, the commands together leave what each leaves alone. *)
Lemma commands_together cs a :
  Forall wf_command cs -> ForallOrdPairs disjoint_rects cs -> 0 <= H -> frame W H a ->
  (forall c x y, c ∈ cs -> 0 <= x < W -> 0 <= y < H -> atlas_area c x y = true ->
     pix W a x y = pix W blank x y) ->
  (forall c, c ∈ cs -> exists b, D blank c = Ok b) ->
  exists a', foldM D a cs = Ok a' /\ frame W H a' /\
    forall x y, 0 <= x < W -> 0 <= y < H ->
      ((forall c, c ∈ cs -> atlas_area c x y = false) -> pix W a' x y = pix W a x y) /\
      (forall c b, c ∈ cs -> D blank c = Ok b -> atlas_area c x y = true -> pix W a' x y = pix W b x y).
Proof.
  revert a; induction cs as [|c cs IH]; intros a Hwf HR HH Ha Hz Hok; cbn [foldM].
  { exists a. split_and!; [done|done|]. intros x y Hx Hy. split; [done|].
    intros c b Hc. by apply elem_of_nil in Hc. }
  apply Forall_cons in Hwf as [Hwc Hwf]. inversion HR as [|? ? Hdis HR']; subst.
  pose proof (blank_frame HH) as Hb. destruct (Hok c) as [b Hdb]; [left|].
  destruct (accepted_anywhere c blank b a Hwc Hb Ha Hdb) as [a1 Hd].
  destruct (decode_owned_area c a a1 blank b Hwc Ha Hb Hd Hdb) as [Ha1 Hp]. rewrite Hd, bind_Ok.
  rewrite Forall_forall in Hdis.
  destruct (IH a1) as (a' & Hf & Ha' & Hp'); [done|done|done|done| |intros; apply Hok; by right|].
  { intros d x y Hd' Hx Hy Hin. rewrite <- (Hz d x y); [|by right|done..].
    apply Hp; [done|done|]. exact (disjoint_rects_sym _ _ (Hdis d Hd') x y Hin). }
  exists a'. split_and!; [done|done|]. intros x y Hx Hy. destruct (Hp' x y Hx Hy) as [Hout Hin'].
  split.
  - intros Hall. rewrite Hout by (intros; apply Hall; by right). apply Hp; [done|done|]. apply Hall. left.
  - intros d b' Hd' Hdb' Hin. apply elem_of_cons in Hd' as [->|Hd']; [|by eapply Hin'].
    rewrite Hdb in Hdb'. apply Ok_inj in Hdb' as <-. rewrite Hout.
    + apply Hp; [done|done|done|]. apply (Hz c); try done. left.
    + intros d Hd'. by apply (Hdis d Hd' x y).
Qed.
End decode_all_commands.

(** ** Drawing the commands on the screen *)

(** The picture with the parts [tile c] of the atlas drawn where the commands say. *)
Definition overlay (tile : Owned.OwnedCommand -> picture) (cs : list Owned.OwnedCommand)
    (col : picture) : picture :=
  foldl (fun col c => blit (tile c) (Owned.atlas_x c) (Owned.atlas_y c) (Owned.desktop_x c)
                        (Owned.desktop_y c) (Owned.width c) (Owned.height c) col) col cs.

Lemma overlay_cons tile c cs col :
  overlay tile (c :: cs) col =
  overlay tile cs (blit (tile c) (Owned.atlas_x c) (Owned.atlas_y c) (Owned.desktop_x c)
                     (Owned.desktop_y c) (Owned.width c) (Owned.height c) col).
Proof. reflexivity. Qed.

Lemma overlay_app tile cs ds col : overlay tile (cs ++ ds) col = overlay tile ds (overlay tile cs col).
Proof. apply foldl_app. Qed.

Lemma overlay_outside tile cs col x y :
  (forall c, c ∈ cs -> desktop_rect c x y = false) -> overlay tile cs col x y = col x y.
Proof.
  revert col; induction cs as [|c cs IH]; intros col Hc; [done|]. rewrite overlay_cons, IH by (intros; apply Hc; by right).
  unfold blit. specialize (Hc c ltac:(left)). unfold desktop_rect in Hc. by rewrite Hc.
Qed.

Lemma overlay_ext tile tile' cs col col' dw dh :
  (forall c x y, c ∈ cs -> 0 <= x < dw -> 0 <= y < dh -> desktop_rect c x y = true ->
     tile c (Owned.atlas_x c + (x - Owned.desktop_x c)) (Owned.atlas_y c + (y - Owned.desktop_y c)) =
     tile' c (Owned.atlas_x c + (x - Owned.desktop_x c)) (Owned.atlas_y c + (y - Owned.desktop_y c))) ->
  (forall x y, 0 <= x < dw -> 0 <= y < dh -> col x y = col' x y) ->
  forall x y, 0 <= x < dw -> 0 <= y < dh -> overlay tile cs col x y = overlay tile' cs col' x y.
Proof.
  revert col col'; induction cs as [|c cs IH]; intros col col' Ht Hcol; [done|]. rewrite !overlay_cons.
  apply IH; [intros; apply Ht; [by right|done..]|]. intros x y Hx Hy. unfold blit.
  destruct (in_rect _ _ _ _ x y) eqn:Hin; [|by apply Hcol]. apply Ht; [left|done|done|exact Hin].
Qed.

Definition record_rects (cs : list Owned.OwnedCommand) : list DisplayAtlasRect :=
  display_rects_from_copy_rects (map Owned.copy_rect cs).

Lemma draw_rects_overlay atlas cs col x y :
  draw_rects atlas (record_rects cs) col x y = overlay (fun _ => atlas) cs col x y.
Proof.
  unfold draw_rects, overlay, record_rects, display_rects_from_copy_rects. rewrite map_map.
  revert col; induction cs as [|c cs IH]; intros col; [done|]. apply IH.
Qed.

(** ** The viewer draws a group of commands *)

Lemma cpu_validate_ok x y w h lw lh :
  0 < w -> 0 < h -> x + w <= Z.min lw u32_max -> y + h <= Z.min lh u32_max ->
  Cpu.validate_rect x y w h lw lh = Ok tt.
Proof.
  intros Hw Hh Hx Hy. pose proof (cpu_validate_rect x y w h lw lh ltac:(lia) ltac:(lia)) as Hs.
  rewrite validate_rect_built in Hs by done.
  by destruct (Cpu.validate_rect x y w h lw lh) as [[]| | |].
Qed.

Section draw.
Context (atlas : list Z) (aw ah : Z).
Context (Haw : is_dim aw) (Hah : is_dim ah) (Hsz : aw * ah * 4 <= isize_max).
Context (Hatlas : frame aw ah atlas) (Hok : bytes_ok atlas).

(** The rectangle is on the screen. *)
Definition on_screen (s : ModernDisplayCompositor) (r : DisplayAtlasRect) : Prop :=
  inside (DisplayRecord.dst_x r) (DisplayRecord.dst_y r) (DisplayRecord.width r) (DisplayRecord.height r)
    (width s) (height s).

Lemma blit_rect_run s r :
  wf s -> wf_rect aw ah r -> on_screen s r ->
  exists b, blit_rect atlas aw ah r s = (set_bgra s b, Ok tt) /\ wf (set_bgra s b) /\
    forall x y, 0 <= x < width s -> 0 <= y < height s ->
      pix (width s) b x y = draw_rects (pix aw atlas) [r] (pix (width s) (bgra s)) x y.
Proof.
  intros Hwf (Hdx & Hdy & Hw & Hh & Hax & Hay & Hw0 & Hh0 & Haw' & Hah') (_ & _ & HdW & HdH).
  pose proof Hwf as ((? & ?) & (? & ?) & _). destruct Haw, Hah. unfold is_u32 in *.
  destruct (copy_rows_blit atlas aw ah (atlas_x r) (atlas_y r) (DisplayRecord.dst_x r) (DisplayRecord.dst_y r)
    (DisplayRecord.width r) (DisplayRecord.height r) s) as (b & Hr & Hwf' & Hp); try lia; try done.
  exists b. split; [|done]. unfold blit_rect.
  unfold mbind, method_bind, get, lift. rewrite !cpu_validate_ok by lia. exact Hr.
Qed.

Lemma blit_rects_run s rects :
  wf s -> Forall (wf_rect aw ah) rects -> Forall (on_screen s) rects ->
  exists b, for_each (blit_rect atlas aw ah) rects s = (set_bgra s b, Ok tt) /\ wf (set_bgra s b) /\
    forall x y, 0 <= x < width s -> 0 <= y < height s ->
      pix (width s) b x y = draw_rects (pix aw atlas) rects (pix (width s) (bgra s)) x y.
Proof.
  intros Hwf Hrs. revert s Hwf; induction Hrs as [|r rects Hr Hrs IH]; intros s Hwf Hin; cbn [for_each].
  { exists (bgra s). split_and!; try done; try apply Hwf. by destruct s. }
  apply Forall_cons in Hin as [Hi Hin].
  destruct (blit_rect_run s r Hwf Hr Hi) as (b & Hb & Hwf1 & Hp).
  destruct (IH (set_bgra s b)) as (b' & Hb' & Hwf2 & Hp'); [done|done|].
  exists b'. rewrite (method_run_bind _ _ s (set_bgra s b) tt) by done. rewrite Hb'.
  split_and!; try done; try apply Hwf2. intros x y Hx Hy. rewrite Hp' by done.
  change (draw_rects (pix aw atlas) (r :: rects) (pix (width s) (bgra s)) x y)
    with (draw_rects (pix aw atlas) rects (draw_rects (pix aw atlas) [r] (pix (width s) (bgra s))) x y).
  by apply (draw_rects_ext _ rects _ _ (width s) (height s)).
Qed.
End draw.

(** The viewer's decoder is the fold of the commands. *)
Lemma cpu_reconstruct_fold aw ah dw dh prev bs cs :
  0 < aw -> 0 <= ah -> aw * ah * 4 <= isize_max -> prev_ok dw dh prev ->
  bytes_ok bs -> stream_of bs cs -> Forall solid_exact cs ->
  same_outcome (Cpu.reconstruct_atlas_from_atx2 bs aw ah prev dw dh)
    (foldM (decode_owned aw ah prev dw dh) (zeros (aw * ah * 4)) cs).
Proof.
  intros Haw Hah Hsz Hprev Hbs Hst Hsol.
  set (s := {| Stream.atlas_width := aw; Stream.atlas_height := ah; Stream.descriptor_count := 0;
               Stream.command_count := 0; Stream.byte_len := 0; Stream.raw_equivalent_bytes := 0;
               Stream.delta_bytes_saved_estimate := 0; Stream.copy_rects := []; Stream.bytes := [];
               Stream.command_counts := Counts.default |}).
  assert (Forall solid_ok cs) as Hsol'.
  { eapply Forall_impl; [exact Hsol|]. intros c Hc Hk. by rewrite (Hc Hk). }
  pose proof (reconstruct_fold s prev dw dh Haw Hah Hsz bs cs Hbs Hst Hsol') as Hr.
  change (Stream.atlas_width s) with aw in Hr. change (Stream.atlas_height s) with ah in Hr. rewrite <- Hr.
  apply (viewer_same_outcome (with_bytes s bs) prev dw dh Hbs eq_refl ltac:(cbn; lia) ltac:(cbn; lia) Hsz
           Hprev cs Hst Hsol).
Qed.

(** What every command demands of its rectangle. *)
Lemma accepted_rect W H prev dw dh a a' c :
  decode_owned W H prev dw dh a c = Ok a' ->
  0 < Owned.width c /\ 0 < Owned.height c /\ Owned.atlas_x c + Owned.width c <= Z.min W u32_max /\
  Owned.atlas_y c + Owned.height c <= Z.min H u32_max.
Proof.
  unfold decode_owned, decode_command. intros Hd. apply bind_ok_inv in Hd as (u & Hv & _).
  autorewrite with talos_ref in Hv. unfold validate_rect in Hv.
  apply bind_ok_inv in Hv as (u' & Hv1 & Hv2). apply ensure_ok_inv in Hv1. apply ensure_ok_inv in Hv2.
  unfold is_some_and_le, checked_add in Hv2. repeat case_match; simplify_eq/=; lia.
Qed.

(** A later command does not read what an earlier one wrote. *)
Definition independent (c d : Owned.OwnedCommand) : Prop :=
  is_delta d = true -> forall x y, desktop_rect c x y = true -> desktop_rect d x y = false.

Lemma copy_rect_wf aw ah W H prev dw dh a a' c :
  wf_command c -> decode_owned W H prev dw dh a c = Ok a' -> W = aw -> H = ah ->
  wf_rect aw ah (display_rect (Owned.copy_rect c)).
Proof.
  intros Hwf Hd -> ->. apply accepted_rect in Hd as (? & ? & ? & ?). destruct Hwf as (_ & Ha & Hb & Hc & _).
  unfold wf_rect, is_u32; cbn. change (Owned.desktop_y c) with (hi16 (Owned.desktop_xy c)).
  pose proof (lo16_bound (Owned.atlas_xy c)). pose proof (lo16_bound (Owned.desktop_xy c)).
  pose proof (lo16_bound (Owned.wh c)). pose proof (hi16_bound _ Ha). pose proof (hi16_bound _ Hb).
  pose proof (hi16_bound _ Hc).
  unfold Owned.atlas_x, Owned.atlas_y, Owned.desktop_x, Owned.width, Owned.height, u32_max in *.
  split_and!; lia.
Qed.

Section groups.
Context (s0 : ModernDisplayCompositor).
Context (aw ah : Z) (Haw : is_dim aw) (Hah : is_dim ah) (Hsz : aw * ah * 4 <= isize_max).
Context (cs : list Owned.OwnedCommand) (Hcs : Forall wf_command cs) (Hsol : Forall solid_exact cs).
Context (Hatlas : ForallOrdPairs disjoint_rects cs).

Abbreviation blank := (zeros (aw * ah * 4)).
Abbreviation D0 := (decode_owned aw ah (Some (bgra s0)) (width s0) (height s0)).

Context (HD : forall c, c ∈ cs -> exists b, D0 blank c = Ok b).
Context (Hscreen : Forall (on_screen s0) (record_rects cs)).

(** The part of the atlas a command makes out of the picture before the frame. *)
Definition tile (c : Owned.OwnedCommand) : picture :=
  match D0 blank c with Ok b => pix aw b | _ => black end.

Lemma blank_ok : frame aw ah blank.
Proof. destruct Haw, Hah. apply blank_frame; lia. Qed.

Lemma command_on_screen c x y :
  c ∈ cs -> desktop_rect c x y = true -> 0 <= x < width s0 /\ 0 <= y < height s0.
Proof.
  intros Hc Hin. rewrite Forall_forall in Hscreen.
  assert (on_screen s0 (display_rect (Owned.copy_rect c))) as (_ & _ & Hx & Hy).
  { apply Hscreen. apply list_elem_of_In, in_map, in_map, list_elem_of_In, Hc. }
  rewrite Forall_forall in Hcs. destruct (Hcs c Hc) as (_ & _ & Hdy & _). cbn in *.
  unfold desktop_rect, in_rect in Hin. pose proof (lo16_bound (Owned.desktop_xy c)).
  pose proof (hi16_bound _ Hdy). unfold Owned.desktop_x, Owned.desktop_y in *. lia.
Qed.

Lemma tiles_of_group (g : list Owned.OwnedCommand) a' :
  (forall c, c ∈ g -> c ∈ cs) ->
  (forall x y, 0 <= x < aw -> 0 <= y < ah -> forall c b, c ∈ g -> D0 blank c = Ok b ->
     atlas_area c x y = true -> pix aw a' x y = pix aw b x y) ->
  forall c x y, c ∈ g -> desktop_rect c x y = true ->
    pix aw a' (Owned.atlas_x c + (x - Owned.desktop_x c)) (Owned.atlas_y c + (y - Owned.desktop_y c)) =
    tile c (Owned.atlas_x c + (x - Owned.desktop_x c)) (Owned.atlas_y c + (y - Owned.desktop_y c)).
Proof.
  intros Hg Hp c x y Hc Hin. unfold tile. destruct (HD c (Hg c Hc)) as [b Hb]. rewrite Hb.
  pose proof (accepted_rect _ _ _ _ _ _ _ _ Hb) as (? & ? & ? & ?).
  rewrite Forall_forall in Hcs. destruct (Hcs c (Hg c Hc)) as (_ & Hay & _).
  pose proof (lo16_bound (Owned.atlas_xy c)). pose proof (hi16_bound _ Hay).
  unfold desktop_rect, in_rect in Hin. unfold Owned.atlas_x, Owned.atlas_y in *.
  apply Hp with (c := c); [lia|lia|done|done|]. unfold atlas_area, in_rect, Owned.atlas_x, Owned.atlas_y.
  lia.
Qed.

Lemma group_rects (g : list Owned.OwnedCommand) : (forall c, c ∈ g -> c ∈ cs) ->
  Forall (wf_rect aw ah) (record_rects g) /\ Forall (on_screen s0) (record_rects g).
Proof.
  intros Hg. split; apply Forall_forall; intros r Hr; unfold record_rects, display_rects_from_copy_rects in Hr;
    rewrite map_map in Hr; apply list_elem_of_In, in_map_iff in Hr as (c & <- & Hc%list_elem_of_In).
  - destruct (HD c (Hg c Hc)) as [b Hb]. rewrite Forall_forall in Hcs.
    by eapply copy_rect_wf; [apply Hcs, Hg|exact Hb|..].
  - rewrite Forall_forall in Hscreen. apply Hscreen. apply list_elem_of_In, in_map, in_map, list_elem_of_In.
    by apply Hg.
Qed.

(** One group, drawn over a picture that the commands before it have changed. *)
Lemma group_shown before g rest b tc :
  cs = before ++ g ++ rest -> (forall d c, d ∈ before -> c ∈ g -> independent d c) ->
  wf (set_bgra s0 b) ->
  (forall x y, 0 <= x < width s0 -> 0 <= y < height s0 ->
     pix (width s0) b x y = overlay tile before (pix (width s0) (bgra s0)) x y) ->
  bytes_ok tc -> stream_of tc g ->
  exists b', apply_atx2_atlas aw ah (record_rects g) tc (set_bgra s0 b) = (set_bgra s0 b', Ok tt) /\
    wf (set_bgra s0 b') /\
    forall x y, 0 <= x < width s0 -> 0 <= y < height s0 ->
      pix (width s0) b' x y = overlay tile (before ++ g) (pix (width s0) (bgra s0)) x y.
Proof.
  intros Hsplit Hind Hwf Hb Htc Hst. destruct Haw as [Haw0 _], Hah as [Hah0 _].
  assert (forall c, c ∈ g -> c ∈ cs) as Hg.
  { intros c Hc. rewrite Hsplit. apply elem_of_app. right. apply elem_of_app. by left. }
  destruct (group_rects g Hg) as [Hrects Hscr].
  assert (ForallOrdPairs disjoint_rects g) as Hdis.
  { rewrite Hsplit in Hatlas. apply FOP_app_inv in Hatlas as (_ & Ha & _). by apply FOP_app_inv in Ha as (? & _). }
  assert (Forall solid_exact g) as Hsolg.
  { apply Forall_forall. intros c Hc. rewrite Forall_forall in Hsol. auto. }
  assert (Forall wf_command g) as Hwfg by apply Hst.
  (* every command decodes as it would have before the frame *)
  assert (foldM (decode_owned aw ah (Some b) (width s0) (height s0)) blank g = foldM D0 blank g) as Hfold.
  { apply foldM_ext. intros a c Hc. apply decode_owned_local; [|by rewrite Forall_forall in Hwfg; auto].
    intros Hd x y Hin. destruct (command_on_screen c x y (Hg c Hc) Hin). rewrite Hb by done.
    apply overlay_outside. intros d Hdb. destruct (desktop_rect d x y) eqn:Hdin; [|done].
    rewrite (Hind d c Hdb Hc Hd x y Hdin) in Hin. discriminate. }
  destruct (commands_together aw ah (width s0) (height s0) Haw0 (Some (bgra s0)) g blank)
    as (a' & Hf & Ha' & Hp); [done|done|lia|apply blank_ok|done|by auto|].
  rewrite <- Hfold in Hf.
  pose proof (cpu_reconstruct_fold aw ah (width s0) (height s0) (Some b) tc g Haw0 ltac:(lia) Hsz
    (wf_prev _ Hwf) Htc Hst Hsolg) as Hr. rewrite Hf in Hr. apply same_outcome_ok_r in Hr.
  pose proof (basic_header_bounds tc ltac:(apply Hst)) as Hlen.
  pose proof (cpu_reconstruct_post aw ah (width s0) (height s0) (Some b) (wf_prev _ Hwf) tc Htc
    ltac:(lia) ltac:(lia) ltac:(lia)) as Hpost.
  rewrite Hr in Hpost. destruct Hpost as (_ & Haok & _).
  destruct (blit_rects_run a' aw ah Haw Hah Hsz Ha' Haok (set_bgra s0 b) (record_rects g) Hwf Hrects Hscr)
    as (b' & Hrun & Hwf' & Hp').
  exists b'. split_and!; [|done..|].
  - unfold apply_atx2_atlas. replace (len tc =? 0) with false by lia.
    unfold mbind, method_bind, get, lift. change (bgra (set_bgra s0 b)) with b.
    change (width (set_bgra s0 b)) with (width s0). change (height (set_bgra s0 b)) with (height s0).
    rewrite Hr. exact Hrun.
  - intros x y Hx Hy. cbn in Hp'. rewrite Hp' by done. rewrite draw_rects_overlay, overlay_app.
    apply (overlay_ext _ _ _ _ _ (width s0) (height s0)); [|done|done|done].
    intros c x' y' Hc _ _ Hin. apply (tiles_of_group g a'); [done| |done|done].
    intros x1 y1 Hx1 Hy1 d bd Hd Hbd. by apply Hp.
Qed.
End groups.

(** ** The records of a frame *)

(** The record that a chunk is sent in, when the chunk has commands. *)
Definition chunk_record (f aw ah : Z) (rects : list DisplayAtlasRect) (progressive : bool) (n : Z)
    (chunk : Z * TileCommandWireChunk) : list Z :=
  let flags := if progressive then DISPLAY_EXPERIMENTAL_ATLAS_CHUNK_FLAG_PROGRESSIVE else 0 in
  let flags := if chunk.1 + 1 =? n then Z.lor flags DISPLAY_EXPERIMENTAL_ATLAS_CHUNK_FLAG_FINAL else flags in
  let chunk_rects := display_rects_from_copy_rects (chunk_copy_rects chunk.2) in
  build_display_experimental_atlas_commands_chunk f flags (as_u32 chunk.1) (as_u32 n) aw ah
    (if len chunk_rects =? 0 then rects else chunk_rects) (chunk_bytes chunk.2).

Lemma write_chunks_run f aw ah rects progressive n l s :
  exists k, for_each (write_atx2_chunk f aw ah rects progressive n) l s =
    ({| records := records s ++ map (chunk_record f aw ah rects progressive n) l; record_bytes := k |}, Ok tt).
Proof.
  revert s; induction l as [|[i c] l IH]; intros s; cbn [for_each map].
  { exists (record_bytes s). rewrite app_nil_r. by destruct s. }
  set (s1 := {| records := records s ++ [chunk_record f aw ah rects progressive n (i, c)];
                record_bytes := saturating_add usize_max (record_bytes s)
                                  (len (chunk_record f aw ah rects progressive n (i, c))) |}).
  rewrite (method_run_bind _ _ s s1 tt) by reflexivity. destruct (IH s1) as [k ->]. exists k. cbn.
  by rewrite <- app_assoc.
Qed.

(** Whatever was written before, the operation writes the records [recs]. *)
Definition sends {A} (m : method sender anyhow A) (recs : list (list Z)) (a : A) : Prop :=
  forall o, exists k, m o = ({| records := records o ++ recs; record_bytes := k |}, Ok a).

Lemma sends_bind {A B} (m : method sender anyhow A) (g : A -> method sender anyhow B) recs1 recs2 a b :
  sends m recs1 a -> sends (g a) recs2 b -> sends (x ← m; g x) (recs1 ++ recs2) b.
Proof.
  intros Hm Hg o. destruct (Hm o) as [k Hk]. rewrite (method_run_bind _ _ _ _ _ Hk).
  destruct (Hg {| records := records o ++ recs1; record_bytes := k |}) as [k' ->]. exists k'. cbn.
  by rewrite app_assoc.
Qed.

Lemma sends_ret {A} (a : A) : sends (mret a) [] a.
Proof. intros o. exists (record_bytes o). rewrite app_nil_r. by destruct o. Qed.

Lemma sends_record r : sends (write_display_delta r) [r] tt.
Proof. intros o. by eexists. Qed.

Lemma sends_lift {A} (r : res anyhow A) a : r = Ok a -> sends (lift r) [] a.
Proof. intros ->. apply sends_ret. Qed.

Lemma sends_count r : sends (count_record r) [] tt.
Proof. intros o. eexists. by rewrite app_nil_r. Qed.

Section show.
Context (decode_all : list Z -> option (list Z)).

Lemma show_app l1 l2 s s' :
  show decode_all l1 s = (s', Ok tt) -> show decode_all (l1 ++ l2) s = show decode_all l2 s'.
Proof.
  unfold show. revert s; induction l1 as [|r l1 IH]; intros s Hs; cbn [for_each app] in *.
  { by injection Hs as ->. }
  unfold mbind, method_bind in Hs |- *. destruct (handle_record decode_all r s) as [s1 [o|e| |]]; cbn in Hs |- *;
    [|discriminate..]. by apply IH.
Qed.

Lemma show_one r s s' :
  handle_record decode_all r s = (s', Ok None) -> show decode_all [r] s = (s', Ok tt).
Proof. intros Hr. unfold show; cbn. unfold mbind, method_bind. by rewrite Hr. Qed.

Lemma ensure_frame_run f s : current_frame_id s = Some f -> ensure_frame f s = (s, Ok tt).
Proof. intros Hf. unfold ensure_frame, mbind, method_bind, get, lift. by rewrite decide_True. Qed.

Lemma handle_atlas_record f aw ah rects tc s s' :
  wf_record (ExperimentalAtlasCommands f aw ah rects tc) -> current_frame_id s = Some f ->
  apply_atx2_atlas aw ah rects tc s = (s', Ok tt) ->
  handle_record decode_all (build_display_experimental_atlas_commands f aw ah rects tc) s = (s', Ok None).
Proof.
  intros Hwf Hf Ha. apply decode_built in Hwf. unfold encode_record in Hwf.
  unfold handle_record. rewrite Hwf. unfold mbind, method_bind, lift. cbn [map_err].
  by rewrite (ensure_frame_run f s Hf), Ha.
Qed.

Lemma handle_chunk_record f fl i n aw ah rects tc s s' :
  wf_record (ExperimentalAtlasCommandsChunk f fl i n aw ah rects tc) -> current_frame_id s = Some f ->
  apply_atx2_atlas aw ah rects tc s = (s', Ok tt) ->
  handle_record decode_all (build_display_experimental_atlas_commands_chunk f fl i n aw ah rects tc) s =
  (s', Ok None).
Proof.
  intros Hwf Hf Ha. apply decode_built in Hwf. unfold encode_record in Hwf.
  unfold handle_record. rewrite Hwf. unfold mbind, method_bind, lift. cbn [map_err].
  by rewrite (ensure_frame_run f s Hf), Ha.
Qed.
End show.

(** What acceptance of the whole stream says of its commands. *)
Lemma whole_accepted s aw ah bs cs s' :
  wf s -> is_dim aw -> is_dim ah -> aw * ah * 4 <= isize_max -> bytes_ok bs -> stream_of bs cs ->
  apply_atx2_atlas aw ah (record_rects cs) bs s = (s', Ok tt) ->
  Forall solid_exact cs /\
  (forall c, c ∈ cs -> exists b,
     decode_owned aw ah (Some (bgra s)) (width s) (height s) (zeros (aw * ah * 4)) c = Ok b) /\
  Forall (on_screen s) (record_rects cs).
Proof.
  intros Hwf [Haw Haw'] [Hah Hah'] Hsz Hbs Hst Ha. pose proof (basic_header_bounds bs ltac:(apply Hst)) as Hlen.
  unfold apply_atx2_atlas in Ha. replace (len bs =? 0) with false in Ha by lia.
  unfold mbind, method_bind, get, lift in Ha.
  destruct (Cpu.reconstruct_atlas_from_atx2 bs aw ah (Some (bgra s)) (width s) (height s)) as [atlas| | |] eqn:Hr;
    [|discriminate..].
  assert (Forall solid_exact cs) as Hsol.
  { pose proof Hr as Hr'. rewrite cpu_reconstruct_header in Hr' by (done || lia || apply Hst).
    apply cpu_loop_stream in Hr' as (cs' & Hwf' & Hsol & Hs); [|done|lia].
    assert (stream_of bs cs') as Hst' by (split; [apply Hst|done]).
    apply parse_owned_iff in Hst; [|done]. apply parse_owned_iff in Hst'; [|done].
    rewrite Hst in Hst'. by apply Ok_inj in Hst' as ->. }
  pose proof (cpu_reconstruct_fold aw ah (width s) (height s) (Some (bgra s)) bs cs Haw ltac:(lia) Hsz
    (wf_prev s Hwf) Hbs Hst Hsol) as Hf. apply (same_outcome_ok _ _ _ Hf) in Hr as Hfold.
  assert (frame aw ah (zeros (aw * ah * 4))) as Hz by (apply blank_frame; lia).
  assert (forall c, c ∈ cs -> exists b,
     decode_owned aw ah (Some (bgra s)) (width s) (height s) (zeros (aw * ah * 4)) c = Ok b) as HD.
  { intros c. eapply commands_accepted; [apply Hst|exact Hz|exact Hz|exact Hfold]. }
  pose proof (cpu_reconstruct_post aw ah (width s) (height s) (Some (bgra s)) (wf_prev _ Hwf) bs Hbs
    ltac:(lia) ltac:(lia) ltac:(lia)) as Hpost. rewrite Hr in Hpost. destruct Hpost as (Hfr & Haok & _).
  assert (Forall (wf_rect aw ah) (record_rects cs)) as Hrects.
  { unfold record_rects, display_rects_from_copy_rects. rewrite map_map. apply Forall_forall. intros r Hin.
    apply list_elem_of_In, in_map_iff in Hin as (c & <- & Hc%list_elem_of_In). destruct (HD c Hc) as [b Hb].
    assert (Forall wf_command cs) as Hcs by apply Hst. rewrite Forall_forall in Hcs.
    by eapply copy_rect_wf; [apply Hcs|exact Hb|..]. }
  pose proof (blit_rects_wp atlas aw ah ltac:(lia) ltac:(lia) Hsz Hfr Haok s (record_rects cs) False Hwf Hrects) as Hw.
  unfold wp in Hw. rewrite Ha in Hw. split_and!; [done|done|]. apply Hw.
Qed.

(** ** Chunks *)

Lemma stream_len bs cs : stream_of bs cs -> len bs = 32 + len (enc_commands cs).
Proof.
  intros (Hb & _ & Hs). apply basic_header_bounds in Hb. apply slice_inv in Hs. lia.
Qed.

Lemma nonempty_groups {A} (gs : list (list A)) :
  Forall (fun g => g <> []) gs -> (length gs <= length (concat gs))%nat.
Proof.
  induction 1 as [|g gs Hg _ IH]; cbn; [lia|]. rewrite length_app. destruct g; [done|]. cbn. lia.
Qed.

Section chunks.
Context (decode_all : list Z -> option (list Z)).
Context (s0 : ModernDisplayCompositor) (f : Z) (Hf : is_u64 f).
Context (Hframe : current_frame_id s0 = Some f).
Context (aw ah : Z) (Haw : is_dim aw) (Hah : is_dim ah) (Hsz : aw * ah * 4 <= isize_max).
Context (cs : list Owned.OwnedCommand) (Hcs : Forall wf_command cs) (Hsol : Forall solid_exact cs).
Context (Hatlas : ForallOrdPairs disjoint_rects cs) (Hind : ForallOrdPairs independent cs).
Context (HD : forall c, c ∈ cs -> exists b,
  decode_owned aw ah (Some (bgra s0)) (width s0) (height s0) (zeros (aw * ah * 4)) c = Ok b).
Context (Hscreen : Forall (on_screen s0) (record_rects cs)).
Context (Hsize : 68 + 24 * len cs + len (enc_commands cs) <= u32_max).
Context (rects : list DisplayAtlasRect) (progressive : bool) (n : Z) (Hn : 0 <= n <= len cs).

Abbreviation picture_of := (fun b => pix (width s0) b).
Abbreviation tiles := (tile s0 aw ah).

Lemma chunk_record_wf before g rest i fl tc :
  cs = before ++ g ++ rest -> stream_of tc g -> bytes_ok tc -> 0 <= i < n -> is_u32 fl ->
  wf_record (ExperimentalAtlasCommandsChunk f fl i n aw ah (record_rects g) tc).
Proof.
  intros Hsplit Hst Htc Hi Hfl. pose proof (stream_len tc g Hst) as Hlen.
  assert (forall c, c ∈ g -> c ∈ cs) as Hg.
  { intros c Hc. rewrite Hsplit. apply elem_of_app. right. apply elem_of_app. by left. }
  destruct (group_rects s0 aw ah cs Hcs HD Hscreen g Hg) as [Hrects _].
  assert (len (record_rects g) = len g) as Hlr.
  { unfold record_rects, display_rects_from_copy_rects, len. by rewrite !length_map. }
  assert (len g <= len cs /\ len (enc_commands g) <= len (enc_commands cs)) as [Hlg Hle].
  { rewrite Hsplit, !enc_commands_app, !len_app. len_pos. lia. }
  pose proof (len_nonneg (enc_commands cs)). cbn. unfold is_u32, u32_max in *.
  split_and!; try done; try lia; apply Haw || apply Hah.
Qed.

Lemma chunks_shown target chunks gs before b i :
  Forall2 (chunk_ok target) chunks gs -> Forall (fun g => g <> []) gs -> cs = before ++ concat gs ->
  0 <= i -> i + len chunks = n -> wf (set_bgra s0 b) ->
  (forall x y, 0 <= x < width s0 -> 0 <= y < height s0 ->
     picture_of b x y = overlay tiles before (picture_of (bgra s0)) x y) ->
  exists b',
    show decode_all (map (chunk_record f aw ah rects progressive n) (zip (seqZ i (len chunks)) chunks))
      (set_bgra s0 b) = (set_bgra s0 b', Ok tt) /\ wf (set_bgra s0 b') /\
    forall x y, 0 <= x < width s0 -> 0 <= y < height s0 ->
      picture_of b' x y = overlay tiles cs (picture_of (bgra s0)) x y.
Proof.
  intros Hch. revert before b i; induction Hch as [|chunk g chunks gs Hc Hch IH];
    intros before b i Hne Hsplit Hi Hin Hwf Hb.
  { exists b. rewrite Hsplit. cbn. rewrite app_nil_r. done. }
  apply Forall_cons in Hne as [Hgne Hne]. destruct Hc as (Hp & Hok & Hcr & _).
  rewrite len_cons in *. len_pos. apply parse_owned_iff in Hp; [|done]. cbn [concat] in Hsplit.
  destruct (group_shown s0 aw ah Haw Hah Hsz cs Hcs Hsol Hatlas HD Hscreen before g (concat gs) b
    (chunk_bytes chunk)) as (b1 & Hrun & Hwf1 & Hb1); [done| |done..|].
  { rewrite Hsplit in Hind. apply FOP_app_inv in Hind as (_ & _ & Hbi). intros d c Hd Hc. apply Hbi; [done|].
    apply elem_of_app. by left. }
  destruct (IH (before ++ g) b1 (i + 1)) as (b' & Hshow & ?); [done|by rewrite <- app_assoc|lia|lia|done|done|].
  exists b'. split; [|done]. rewrite seqZ_cons by lia. replace (Z.pred (1 + len chunks)) with (len chunks) by lia.
  cbn [zip zip_with map]. replace (Z.succ i) with (i + 1) by lia.
  assert (handle_record decode_all (chunk_record f aw ah rects progressive n (i, chunk)) (set_bgra s0 b) =
          (set_bgra s0 b1, Ok None)) as Hrec.
  { unfold chunk_record; cbn [fst snd]. rewrite Hcr. fold (record_rects g).
    assert (0 < len (record_rects g)).
    { unfold record_rects, display_rects_from_copy_rects, len. rewrite !length_map. destruct g; [done|]. cbn. lia. }
    replace (len (record_rects g) =? 0) with false by lia.
    assert (len cs <= u32_max) by (pose proof (len_nonneg (enc_commands cs)); lia).
    rewrite !as_u32_small by (unfold is_u32; lia).
    apply handle_chunk_record; [|done|done]. eapply chunk_record_wf; [exact Hsplit|done|done|lia|].
    destruct progressive, (i + 1 =? n); by vm_compute. }
  change (?a :: ?l) with ([a] ++ l). rewrite (show_app decode_all _ _ _ (set_bgra s0 b1)); [done|].
  by apply show_one.
Qed.
End chunks.

(** A stream in the form the helper makes it, that may be sent in one record or in
    chunks. *)
Record drawable (stream : Stream.TileCommandStream) (cs : list Owned.OwnedCommand) : Prop := {
  dr_bytes : bytes_ok (Stream.bytes stream);
  dr_parse : parse_owned_commands (Stream.bytes stream) = Ok cs;
  dr_aligned : Forall aligned_command cs;
  dr_rects : Stream.copy_rects stream = map Owned.copy_rect cs;
  dr_size : 36 + 24 * len cs + len (Stream.bytes stream) <= u32_max;
  dr_apart : ForallOrdPairs disjoint_rects cs;
  dr_chunks : EXPERIMENTAL_ATLAS_CHUNK_TARGET_BYTES < len (Stream.bytes stream) ->
    ForallOrdPairs independent cs;
}.

Lemma set_bgra_same s : set_bgra s (bgra s) = s.
Proof. by destruct s. Qed.

Section records.
Context (decode_all : list Z -> option (list Z)) (s : ModernDisplayCompositor) (Hwf : wf s).
Context (f : Z) (Hf : is_u64 f) (Hframe : current_frame_id s = Some f).
Context (aw ah : Z) (Haw : is_dim aw) (Hah : is_dim ah) (Hsz : aw * ah * 4 <= isize_max).
Context (stream : Stream.TileCommandStream) (cs : list Owned.OwnedCommand) (Hdr : drawable stream cs).
Context (Hsol : Forall solid_exact cs).
Context (HD : forall c, c ∈ cs -> exists b,
  decode_owned aw ah (Some (bgra s)) (width s) (height s) (zeros (aw * ah * 4)) c = Ok b).
Context (Hscreen : Forall (on_screen s) (record_rects cs)).

Lemma drawable_stream : stream_of (Stream.bytes stream) cs.
Proof. destruct Hdr. by apply parse_owned_iff. Qed.

(** All at once. *)
Lemma whole_drawn :
  exists b, apply_atx2_atlas aw ah (record_rects cs) (Stream.bytes stream) s = (set_bgra s b, Ok tt) /\
    wf (set_bgra s b) /\
    forall x y, 0 <= x < width s -> 0 <= y < height s ->
      pix (width s) b x y = overlay (tile s aw ah) cs (pix (width s) (bgra s)) x y.
Proof.
  destruct Hdr. pose proof drawable_stream as Hst. assert (Forall wf_command cs) as Hcs by apply Hst.
  pose proof (set_bgra_same s) as Hid.
  destruct (group_shown s aw ah Haw Hah Hsz cs Hcs Hsol dr_apart0 HD Hscreen [] cs [] (bgra s)
    (Stream.bytes stream)) as (b & Hrun & Hwf' & Hb); rewrite ?Hid, ?app_nil_r in *; try done.
  { intros d c Hd. by apply elem_of_nil in Hd. }
  by exists b.
Qed.

(** In the records that are sent. *)
Lemma records_drawn progressive :
  exists recs n b,
    sends (write_atx2_records f aw ah (record_rects cs) stream progressive) recs n /\
    show decode_all recs s = (set_bgra s b, Ok tt) /\ wf (set_bgra s b) /\
    forall x y, 0 <= x < width s -> 0 <= y < height s ->
      pix (width s) b x y = overlay (tile s aw ah) cs (pix (width s) (bgra s)) x y.
Proof.
  pose proof drawable_stream as Hst. destruct Hdr. assert (Forall wf_command cs) as Hcs by apply Hst.
  pose proof (stream_len _ _ Hst) as Hlen.
  assert (len (record_rects cs) = len cs) as Hlr.
  { unfold record_rects, display_rects_from_copy_rects, len. by rewrite !length_map. }
  pose proof (len_nonneg (enc_commands cs)). unfold write_atx2_records. rewrite Hlen in *.
  replace (32 + len (enc_commands cs) =? 0) with false by lia.
  destruct (Z.leb_spec (32 + len (enc_commands cs)) EXPERIMENTAL_ATLAS_CHUNK_TARGET_BYTES) as [Hsmall|Hbig].
  { destruct whole_drawn as (b & Hrun & ? & ?). eexists _, 1, b.
    split; [intros o; eexists; reflexivity|]. split; [|done]. apply show_one. apply handle_atlas_record; [|done|done].
    destruct (group_rects s aw ah cs Hcs HD Hscreen cs) as [Hrects _]; [done|]. cbn. rewrite Hlen.
    split_and!; try done; try lia; apply Haw || apply Hah. }
  destruct (wire_chunks_ok stream cs EXPERIMENTAL_ATLAS_CHUNK_TARGET_BYTES dr_bytes0 dr_parse0 dr_aligned0)
    as (chunks & gs & Hw & Hgs & Hch & Hne).
  assert (cs <> []) as Hcne.
  { intros ->. change (len (enc_commands [])) with 0 in *. unfold EXPERIMENTAL_ATLAS_CHUNK_TARGET_BYTES in *. lia. }
  specialize (Hne Hcne). pose proof (nonempty_groups gs Hne) as Hng. rewrite Hgs in Hng.
  pose proof (Forall2_length _ _ _ Hch) as Hlc.
  pose proof (set_bgra_same s) as Hid.
  destruct (chunks_shown decode_all s f Hf Hframe aw ah Haw Hah Hsz cs Hcs Hsol dr_apart0 (dr_chunks0 Hbig) HD Hscreen)
    with (rects := record_rects cs) (progressive := progressive) (n := len chunks)
      (target := Z.max EXPERIMENTAL_ATLAS_CHUNK_TARGET_BYTES 33) (chunks := chunks) (gs := gs)
      (before := @nil Owned.OwnedCommand) (b := bgra s) (i := 0)
    as (b & Hshow & Hwf1 & Hb); [lia|unfold len; lia|done|done|by rewrite Hgs|lia|lia|by rewrite Hid|done|].
  rewrite Hid in Hshow.
  eexists _, (len chunks), b.
  split; [|done]. intros o. rewrite Hw. unfold mbind, method_bind, lift.
  destruct (write_chunks_run f aw ah (record_rects cs) progressive (len chunks)
    (zip (seqZ 0 (len chunks)) chunks) o) as [k ->]. by exists k.
Qed.
End records.

(** Two states whose pictures agree are the same state. *)
Lemma same_picture s b1 b2 :
  wf (set_bgra s b1) -> wf (set_bgra s b2) ->
  (forall x y, 0 <= x < width s -> 0 <= y < height s -> pix (width s) b1 x y = pix (width s) b2 x y) ->
  b1 = b2.
Proof.
  intros ((? & _) & (? & _) & Hf1 & _) (_ & _ & Hf2 & _) Hp. unfold frame in *. cbn in *.
  destruct (decide (width s = 0)) as [Hw0|Hw0].
  - rewrite Hw0 in Hf1, Hf2. by rewrite (len_0_nil b1), (len_0_nil b2) by lia.
  - apply (pix_ext (width s) (height s)); [lia|done..].
Qed.

(** C7. Sending a frame in chunks shows the same as sending it at once: if the
    viewer, given all commands of a stream in one record, draws the picture [s'],
    then it accepts the records that [write_atx2_records] sends, however many they
    are, and ends in the same state.  The commands must lie apart in the atlas and,
    when there is more than one chunk, no command that changes the previous picture
    may lie, on the desktop, over a command before it. *)
Theorem chunks_show_whole_frame decode_all s s' f aw ah stream cs progressive :
  (forall p b, decode_all p = Some b -> bytes_ok b) ->
  reachable decode_all s -> current_frame_id s = Some f -> is_u64 f ->
  is_dim aw -> is_dim ah -> aw * ah * 4 <= isize_max -> drawable stream cs ->
  let rects := display_rects_from_copy_rects (Stream.copy_rects stream) in
  apply_atx2_atlas aw ah rects (Stream.bytes stream) s = (s', Ok tt) ->
  exists out n,
    write_atx2_records f aw ah rects stream progressive {| records := []; record_bytes := 0 |} = (out, Ok n) /\
    show decode_all (records out) s = (s', Ok tt).
Proof.
  intros Hdec Hreach Hframe Hf Haw Hah Hsz Hdr rects Hwhole.
  apply (reachable_wf decode_all Hdec) in Hreach as Hwf. unfold rects in *. rewrite (dr_rects _ _ Hdr) in *.
  fold (record_rects cs) in *. clear rects. pose proof (drawable_stream _ _ Hdr) as Hst.
  destruct (whole_accepted s aw ah (Stream.bytes stream) cs s' Hwf Haw Hah Hsz (dr_bytes _ _ Hdr) Hst Hwhole)
    as (Hsol & HD & Hscreen).
  destruct (records_drawn decode_all s Hwf f Hf Hframe aw ah Haw Hah Hsz stream cs Hdr Hsol HD Hscreen progressive)
    as (recs & n & b1 & Hout & Hshow & Hwf1 & Hb1).
  destruct (Hout {| records := []; record_bytes := 0 |}) as [k Hk].
  destruct (whole_drawn s Hwf aw ah Haw Hah Hsz stream cs Hdr Hsol HD Hscreen) as (b2 & Hrun & Hwf2 & Hb2).
  rewrite Hwhole in Hrun. injection Hrun as ->. eexists _, n. split; [exact Hk|].
  cbn [records app]. rewrite Hshow, (same_picture s b1 b2); [done|done|done|]. intros x y Hx Hy. by rewrite Hb1, Hb2.
Qed.

(** Two exclusive-or commands of one pixel, at the desktop columns [d1] and [d2]. *)
Definition xor_pixel (ax dx : Z) : Owned.OwnedCommand :=
  {| Owned.kind := TILE_COMMAND_XOR_RAW; Owned.atlas_xy := pack_xy ax 0;
     Owned.desktop_xy := pack_xy dx 0; Owned.wh := pack_xy 1 1; Owned.changed_count := 1;
     Owned.payload := [1; 2; 3; 0] |}.

Definition xor_stream (d1 d2 : Z) : Stream.TileCommandStream :=
  {| Stream.atlas_width := 2; Stream.atlas_height := 1; Stream.descriptor_count := 2;
     Stream.command_count := 2; Stream.byte_len := 88; Stream.raw_equivalent_bytes := 88;
     Stream.delta_bytes_saved_estimate := 0;
     Stream.copy_rects := map Owned.copy_rect [xor_pixel 0 d1; xor_pixel 1 d2];
     Stream.bytes := stream_header 2 1 2 88 2 ++ enc_commands [xor_pixel 0 d1; xor_pixel 1 d2];
     Stream.command_counts := Counts.default |}.

(** What the viewer shows after all commands at once. *)
Definition after_xor (d1 d2 : Z) : ModernDisplayCompositor :=
  fst (apply_atx2_atlas 2 1 (record_rects [xor_pixel 0 d1; xor_pixel 1 d2])
         (Stream.bytes (xor_stream d1 d2)) sample_session).

Lemma chunks_show_whole_frame_witness :
  exists out n,
    write_atx2_records 1 2 1 (display_rects_from_copy_rects (Stream.copy_rects (xor_stream 0 2)))
      (xor_stream 0 2) true {| records := []; record_bytes := 0 |} = (out, Ok n) /\
    show no_zstd (records out) sample_session = (after_xor 0 2, Ok tt).
Proof.
  apply (chunks_show_whole_frame no_zstd sample_session (after_xor 0 2) 1 2 1 (xor_stream 0 2)
           [xor_pixel 0 0; xor_pixel 1 2] true);
    [discriminate|exact sample_reachable|reflexivity|vm_compute; split; discriminate
    |vm_compute; split; [reflexivity|discriminate]..|vm_compute; discriminate| |vm_compute; reflexivity].
  constructor; [bytes_check|vm_compute; reflexivity| |reflexivity|vm_compute; discriminate| |].
  - repeat (apply Forall_cons_2; [reflexivity|]). apply Forall_nil_2.
  - repeat constructor. intros x y. change (in_rect 0 0 1 1 x y = true -> in_rect 1 0 1 1 x y = false).
    unfold in_rect. lia.
  - intros Hbig. vm_compute in Hbig. discriminate Hbig.
Defined.

(** Three dirty rectangles that lie apart: the first two are merged, and their union
    overlaps the third. *)
Definition apart_rects : list Atlas.DirtyRect :=
  [{| Atlas.left := 0; Atlas.top := 0; Atlas.right := 10; Atlas.bottom := 10 |};
   {| Atlas.left := 10; Atlas.top := 0; Atlas.right := 20; Atlas.bottom := 8 |};
   {| Atlas.left := 10; Atlas.top := 8; Atlas.right := 12; Atlas.bottom := 100 |}].

Definition share_pixel (a b : Atlas.DirtyRect) : Prop :=
  exists px py, inside_rect a px py /\ inside_rect b px py.

(** The condition on overlapping changes is needed, and the capture side does not
    provide it: merging dirty rectangles that lie apart can leave two that overlap,
    and when the same exclusive-or change reaches the viewer for one pixel from two
    tiles, the pixel ends up changed if both tiles come in one record and unchanged
    if each comes in its own chunk. *)
Theorem overlapping_changes_depend_on_chunks :
  (ForallOrdPairs (fun a b => ~ share_pixel a b) apart_rects /\
   exists a b, Atlas.coalesce_dirty_rects apart_rects = Ok [a; b] /\ share_pixel a b) /\
  (exists chunks s',
     wire_chunks (xor_stream 0 0) 60 = Ok chunks /\
     show no_zstd (map (chunk_record 1 2 1 [] true (len chunks)) (zip (seqZ 0 (len chunks)) chunks))
       sample_session = (s', Ok tt) /\
     pix 4 (bgra s') 0 0 = Some [0; 0; 0; 0] /\ pix 4 (bgra (after_xor 0 0)) 0 0 = Some [1; 2; 3; 0]).
Proof.
  split.
  - split.
    + repeat constructor; intros (px & py & Ha & Hb); unfold inside_rect in *; cbn in *; lia.
    + eexists _, _. split; [vm_compute; reflexivity|]. exists 10, 8. unfold inside_rect; cbn. lia.
  - eexists _, _. split; [vm_compute; reflexivity|]. split; [vm_compute; reflexivity|].
    split; vm_compute; reflexivity.
Qed.
