(* ===== verification/DisplayDelta.v ===== *)
(** The compositor of the Windows viewer
    (apps/talos_viewer/src-tauri/src/display_delta.rs): it keeps a picture of its own for
    key frames, moves and video tiles, and hands the atlas commands of the helper to
    the graphics card, through a queue when the window is not ready.  The card, the
    window and the video decoder are parameters; log lines and statistics are left
    out. *)

From S2P Require Import Prelude Bytes Pixels DisplayRecord TileStream TileDecode Atlas.
From S2P Require Import ViewportCpu CpuDisplay Transmit.

Local Open Scope Z_scope.

Module Delta.
Definition MAX_DEFERRED_EXPERIMENTAL_FRAMES : Z := 64.
Definition MAX_DEFERRED_EXPERIMENTAL_BYTES : Z := 192 * 1024 * 1024.
Definition LARGE_EXPERIMENTAL_FRAME_BYTES : Z := 1024 * 1024.

Record FrameDamageRect := { damage_x : Z; damage_y : Z; damage_width : Z; damage_height : Z }.

Record ExperimentalMoveRect := {
  move_src_x : Z; move_src_y : Z; move_dst_x : Z; move_dst_y : Z; move_width : Z; move_height : Z }.

Record PendingExperimentalAtlas := {
  atlas_width : Z; atlas_height : Z; rects : list DisplayAtlasRect; tile_commands : list Z;
  record_bytes : Z }.

Record DeferredExperimentalFrame := {
  frame_id : Z; desktop_width : Z; desktop_height : Z; atlas : PendingExperimentalAtlas;
  moves : list ExperimentalMoveRect; present_after_composite : bool }.

(** Both kinds of rectangles are six words. *)
Definition queued_bytes (frame : DeferredExperimentalFrame) : Z :=
  let n := saturating_add usize_max (len (tile_commands (atlas frame))) (record_bytes (atlas frame)) in
  let n := saturating_add usize_max n (saturating_mul usize_max (len (rects (atlas frame))) 24) in
  saturating_add usize_max n (saturating_mul usize_max (len (moves frame)) 24).

(** What the card answers: drawn, or not ready for the given reason. *)
Inductive ExperimentalPresentResult := Presented | Deferred (reason : string).

(** The picture handed to the window. *)
Record CachedFrame := { cached_width : Z; cached_height : Z; cached_argb : list Z }.

Record ModernDisplayCompositor (D : Type) := {
  width : Z; height : Z; bgra : list Z;
  decoder : option D; decoder_size : option (Z * Z);
  current_frame_id : option Z;
  damage : list FrameDamageRect;
  experimental_frame : bool; experimental_chunked_frame : bool;
  experimental_atlas : option PendingExperimentalAtlas;
  experimental_moves : list ExperimentalMoveRect;
  deferred_experimental_frames : list DeferredExperimentalFrame;
  deferred_experimental_bytes : Z }.
Arguments width {D}. Arguments height {D}. Arguments bgra {D}. Arguments decoder {D}.
Arguments decoder_size {D}. Arguments current_frame_id {D}. Arguments damage {D}.
Arguments experimental_frame {D}. Arguments experimental_chunked_frame {D}.
Arguments experimental_atlas {D}. Arguments experimental_moves {D}.
Arguments deferred_experimental_frames {D}. Arguments deferred_experimental_bytes {D}.
Arguments Build_ModernDisplayCompositor {D}.

Definition new (D : Type) : ModernDisplayCompositor D :=
  {| width := 0; height := 0; bgra := []; decoder := None; decoder_size := None;
     current_frame_id := None; damage := []; experimental_frame := false;
     experimental_chunked_frame := false; experimental_atlas := None; experimental_moves := [];
     deferred_experimental_frames := []; deferred_experimental_bytes := 0 |}.

(** ** Changing single fields *)

Section set.
Context {D : Type}.
Implicit Type s : ModernDisplayCompositor D.

Definition set_picture w h b s : ModernDisplayCompositor D :=
  {| width := w; height := h; bgra := b; decoder := decoder s; decoder_size := decoder_size s;
     current_frame_id := current_frame_id s; damage := damage s;
     experimental_frame := experimental_frame s;
     experimental_chunked_frame := experimental_chunked_frame s;
     experimental_atlas := experimental_atlas s; experimental_moves := experimental_moves s;
     deferred_experimental_frames := deferred_experimental_frames s;
     deferred_experimental_bytes := deferred_experimental_bytes s |}.

Definition set_bgra b s : ModernDisplayCompositor D := set_picture (width s) (height s) b s.

Definition set_decoder d size s : ModernDisplayCompositor D :=
  {| width := width s; height := height s; bgra := bgra s; decoder := d; decoder_size := size;
     current_frame_id := current_frame_id s; damage := damage s;
     experimental_frame := experimental_frame s;
     experimental_chunked_frame := experimental_chunked_frame s;
     experimental_atlas := experimental_atlas s; experimental_moves := experimental_moves s;
     deferred_experimental_frames := deferred_experimental_frames s;
     deferred_experimental_bytes := deferred_experimental_bytes s |}.

(** The active frame and what was collected for it. *)
Definition set_active id dmg exp chunked atl mvs s : ModernDisplayCompositor D :=
  {| width := width s; height := height s; bgra := bgra s; decoder := decoder s;
     decoder_size := decoder_size s; current_frame_id := id; damage := dmg;
     experimental_frame := exp; experimental_chunked_frame := chunked;
     experimental_atlas := atl; experimental_moves := mvs;
     deferred_experimental_frames := deferred_experimental_frames s;
     deferred_experimental_bytes := deferred_experimental_bytes s |}.

Definition set_queue q n s : ModernDisplayCompositor D :=
  {| width := width s; height := height s; bgra := bgra s; decoder := decoder s;
     decoder_size := decoder_size s; current_frame_id := current_frame_id s; damage := damage s;
     experimental_frame := experimental_frame s;
     experimental_chunked_frame := experimental_chunked_frame s;
     experimental_atlas := experimental_atlas s; experimental_moves := experimental_moves s;
     deferred_experimental_frames := q; deferred_experimental_bytes := n |}.

Definition set_damage dmg s : ModernDisplayCompositor D :=
  set_active (current_frame_id s) dmg (experimental_frame s) (experimental_chunked_frame s)
    (experimental_atlas s) (experimental_moves s) s.

Definition set_experimental exp chunked atl mvs s : ModernDisplayCompositor D :=
  set_active (current_frame_id s) (damage s) exp chunked atl mvs s.
End set.

(** ** The queue *)

(** The first loop of [queue_deferred_experimental_frame]. *)
Fixpoint drop_older (id : Z) (frames : list DeferredExperimentalFrame) (bytes : Z)
    : list DeferredExperimentalFrame * Z :=
  match frames with
  | pending :: rest =>
      if frame_id pending <? id then drop_older id rest (saturating_sub bytes (queued_bytes pending))
      else (frames, bytes)
  | [] => (frames, bytes)
  end.

(** The second loop. *)
Fixpoint drop_over_limit (frames : list DeferredExperimentalFrame) (bytes : Z)
    : list DeferredExperimentalFrame * Z :=
  if (MAX_DEFERRED_EXPERIMENTAL_FRAMES <? len frames) || (MAX_DEFERRED_EXPERIMENTAL_BYTES <? bytes) then
    match frames with
    | [] => ([], 0)
    | dropped :: rest => drop_over_limit rest (saturating_sub bytes (queued_bytes dropped))
    end
  else (frames, bytes).

Definition enqueue (frame : DeferredExperimentalFrame) (frames : list DeferredExperimentalFrame)
    (bytes : Z) : list DeferredExperimentalFrame * Z :=
  let '(frames, bytes) :=
    if LARGE_EXPERIMENTAL_FRAME_BYTES <=? queued_bytes frame
    then drop_older (frame_id frame) frames bytes else (frames, bytes) in
  drop_over_limit (frames ++ [frame]) (saturating_add usize_max bytes (queued_bytes frame)).

(** [str::contains]. *)
Definition contains (err pattern : string) : bool :=
  bool_decide (is_Some (String.index 0 pattern err)).

Definition is_missing_experimental_previous_error (err : string) : bool :=
  contains err "before previous desktop frame" || contains err "before initial desktop frame"
  || contains err "previous desktop texture unavailable".

Fixpoint bgra_to_words (bgra : list Z) : list Z :=
  match bgra with
  | b :: g :: r :: a :: rest => le_val [b; g; r; a] :: bgra_to_words rest
  | _ => []
  end.

(** ** The compositor *)

Section methods.
(** The video decoder: its constructor and one call of it. *)
Context {D : Type} (h264_new : Z -> Z -> Z -> res string D).
Context (h264_decode : D -> list Z -> D * res string (option (list Z))).
(** The window behind its lock: it draws the cached picture with its damage, or lets
    the card draw the commands of a frame. *)
Context {V : Type} (present_cached : V -> CachedFrame -> list FrameDamageRect -> bool -> V * res string unit).
Context (present_atlas : V -> DeferredExperimentalFrame -> V * res string ExperimentalPresentResult).

Record session := { self : ModernDisplayCompositor D; viewport : V }.

Abbreviation M := (method session string).

Definition get_self : M (ModernDisplayCompositor D) := s ← get; mret (self s).
Definition modify (f : ModernDisplayCompositor D -> ModernDisplayCompositor D) : M unit :=
  s ← get; put {| self := f (self s); viewport := viewport s |}.

(** A call of the window. *)
Definition with_viewport {A} (f : V -> V * res string A) : M A :=
  s ← get;
  let '(v, r) := f (viewport s) in
  _ ← put {| self := self s; viewport := v |};
  lift r.

Definition begin_frame (frame_id width_ height_ : Z) : M unit :=
  if (width_ =? 0) || (height_ =? 0) then lift (Err "display frame has zero dimensions"%string) else
  len_ ← lift (ok_or (pixels ← checked_mul u32_max width_ height_; checked_mul u32_max pixels 4)
                 "display frame dimensions overflow"%string);
  s ← get_self;
  _ ← (if negb (width s =? width_) || negb (height s =? height_) || negb (len (bgra s) =? len_) then
         b ← lift (vec_zeroed len_);
         modify (set_picture width_ height_ b)
       else mret tt);
  modify (set_active (Some frame_id) [] false false None []).

Definition ensure_frame (frame_id : Z) : M unit :=
  s ← get_self;
  lift (if decide (current_frame_id s = Some frame_id) then Ok tt
        else Err "display record frame id does not match active frame"%string).

(** The sums are of 32 bits and wrap. *)
Definition validate_rect (x y w h : Z) : M unit :=
  s ← get_self;
  lift (if (w =? 0) || (h =? 0) || (width s <? wrap_u32 (x + w)) || (height s <? wrap_u32 (y + h))
        then Err "display record rect exceeds desktop bounds"%string else Ok tt).

Definition pixel_offset (s : ModernDisplayCompositor D) (x y : Z) : Z :=
  wrap_usize ((y * width s + x) * 4).

(** [self.bgra[dst..dst + row_len].copy_from_slice(..)] *)
Definition write_row (dst : Z) (row : list Z) : M unit :=
  s ← get_self;
  b ← lift (or_panic (copy_at (bgra s) dst row));
  modify (set_bgra b).

Definition push_damage (x y w h : Z) : M unit :=
  modify (fun s => set_damage (damage s ++
    [{| damage_x := x; damage_y := y; damage_width := w; damage_height := h |}]) s).

Definition apply_move_rect (src_x src_y dst_x dst_y w h : Z) : M unit :=
  _ ← validate_rect src_x src_y w h;
  _ ← validate_rect dst_x dst_y w h;
  let row_len := w * 4 in
  temp ← lift (vec_zeroed (wrap_usize (row_len * h)));
  s ← get_self;
  temp ← lift (foldM (fun temp row =>
    let src := pixel_offset s src_x (wrap_u32 (src_y + row)) in
    let dst := wrap_usize (row * row_len) in
    line ← or_panic (slice (bgra s) src (src + row_len));
    or_panic (copy_at temp dst line)) temp (seqZ 0 h));
  _ ← for_each (fun row =>
    let src := wrap_usize (row * row_len) in
    let dst := pixel_offset s dst_x (wrap_u32 (dst_y + row)) in
    line ← lift (or_panic (slice temp src (src + row_len)));
    write_row dst line) (seqZ 0 h);
  push_damage dst_x dst_y w h.

Definition blit_atlas_rect (atlas_bgra : list Z) (atlas_width atlas_height : Z) (rect : DisplayAtlasRect)
    : M unit :=
  let w := DisplayRecord.width rect in
  let h := DisplayRecord.height rect in
  _ ← validate_rect (dst_x rect) (dst_y rect) w h;
  if (atlas_width <? wrap_u32 (atlas_x rect + w)) || (atlas_height <? wrap_u32 (atlas_y rect + h))
  then lift (Err "display atlas rect exceeds atlas bounds"%string) else
  let row_len := w * 4 in
  s ← get_self;
  _ ← for_each (fun row =>
    let src := wrap_usize (wrap_u32 (atlas_y rect + row) * (atlas_width * 4) + atlas_x rect * 4) in
    let dst := pixel_offset s (dst_x rect) (wrap_u32 (dst_y rect + row)) in
    line ← lift (or_panic (slice atlas_bgra src (src + row_len)));
    write_row dst line) (seqZ 0 h);
  push_damage (dst_x rect) (dst_y rect) w h.

Definition apply_h264_atlas (atlas_width atlas_height : Z) (rects : list DisplayAtlasRect)
    (payload : list Z) : M unit :=
  s ← get_self;
  _ ← (if decide (decoder_size s = Some (atlas_width, atlas_height)) then mret tt else
         d ← lift (h264_new atlas_width atlas_height 30);
         modify (set_decoder (Some d) (Some (atlas_width, atlas_height))));
  s ← get_self;
  d ← lift (ok_or (decoder s) "h264 decoder unavailable"%string);
  let '(d, r) := h264_decode d payload in
  _ ← modify (fun s => set_decoder (Some d) (decoder_size s) s);
  decoded ← lift r;
  match decoded with
  | None => mret tt
  | Some atlas_bgra => for_each (blit_atlas_rect atlas_bgra atlas_width atlas_height) rects
  end.

Definition validate_experimental_rect (atlas_width atlas_height : Z) (rect : DisplayAtlasRect) : M unit :=
  let w := DisplayRecord.width rect in
  let h := DisplayRecord.height rect in
  _ ← validate_rect (dst_x rect) (dst_y rect) w h;
  lift (match checked_add u32_max (atlas_x rect) w, checked_add u32_max (atlas_y rect) h with
        | Some right_, Some bottom =>
            if (atlas_width <? right_) || (atlas_height <? bottom)
            then Err "experimental atlas rect exceeds atlas bounds"%string else Ok tt
        | _, _ => Err "experimental atlas rect exceeds atlas bounds"%string
        end).

Definition validate_experimental_atlas (atlas_width atlas_height : Z) (rects : list DisplayAtlasRect)
    : M unit :=
  if (atlas_width =? 0) || (atlas_height =? 0)
  then lift (Err "experimental atlas has zero dimensions"%string)
  else for_each (validate_experimental_rect atlas_width atlas_height) rects.

(** ** Frames for the card *)

Definition queue_deferred_experimental_frame (frame : DeferredExperimentalFrame) : M unit :=
  modify (fun s => let '(q, n) := enqueue frame (deferred_experimental_frames s)
                                    (deferred_experimental_bytes s) in set_queue q n s).

(** [None] when the frame is done with: drawn, or dropped because the card has no
    picture to change. *)
Definition present_deferred_experimental_frame (frame : DeferredExperimentalFrame)
    : M (option string) :=
  with_viewport (fun v =>
    let '(v, r) := present_atlas v frame in
    (v, match r with
        | Ok Presented => Ok None
        | Ok (Deferred reason) => Ok (Some reason)
        | Err err => if is_missing_experimental_previous_error err then Ok None else Err err
        | Panic => Panic
        | Fuel => Fuel
        end)).

(** One turn takes a frame off the queue. *)
Fixpoint flush_loop (fuel : nat) : M unit :=
  match fuel with
  | O => lift Fuel
  | S fuel =>
      s ← get_self;
      match deferred_experimental_frames s with
      | [] => mret tt
      | frame :: rest =>
          let bytes := saturating_sub (deferred_experimental_bytes s) (queued_bytes frame) in
          _ ← modify (set_queue rest bytes);
          reason ← present_deferred_experimental_frame frame;
          match reason with
          | None => flush_loop fuel
          | Some _ =>
              modify (fun s => set_queue (frame :: deferred_experimental_frames s)
                (saturating_add usize_max (deferred_experimental_bytes s) (queued_bytes frame)) s)
          end
      end
  end.

Definition flush_deferred_experimental_frames : M unit :=
  s ← get_self; flush_loop (S (length (deferred_experimental_frames s))).

Definition has_deferred_experimental_frames (s : ModernDisplayCompositor D) : bool :=
  negb (len (deferred_experimental_frames s) =? 0).

Definition end_experimental_frame (frame_id : Z) : M unit :=
  s ← get_self;
  if experimental_chunked_frame s && bool_decide (experimental_atlas s = None) then
    if negb (len (experimental_moves s) =? 0)
    then lift (Err "experimental chunked frame cannot carry trailing move rects"%string)
    else flush_deferred_experimental_frames
  else
  match experimental_atlas s with
  | None => lift (Err "experimental frame ended without atlas command record"%string)
  | Some atlas =>
      let frame := {| frame_id := frame_id; desktop_width := width s; desktop_height := height s;
                      atlas := atlas; moves := experimental_moves s; present_after_composite := true |} in
      _ ← modify (set_experimental (experimental_frame s) (experimental_chunked_frame s) None []);
      _ ← queue_deferred_experimental_frame frame;
      flush_deferred_experimental_frames
  end.

Definition end_frame (frame_id : Z) : M unit :=
  _ ← ensure_frame frame_id;
  s ← get_self;
  if experimental_frame s then
    _ ← end_experimental_frame frame_id;
    modify (set_active None [] false false None [])
  else
    let cached := {| cached_width := width s; cached_height := height s;
                     cached_argb := bgra_to_words (bgra s) |} in
    _ ← with_viewport (fun v => present_cached v cached (damage s) (len (damage s) =? 0));
    modify (fun s => set_active None [] (experimental_frame s) (experimental_chunked_frame s)
                       (experimental_atlas s) (experimental_moves s) s).

(** [Vec::push], which panics when the vector would exceed [isize::MAX] bytes. *)
Definition push_move (m : ExperimentalMoveRect) : M unit :=
  s ← get_self;
  if isize_max <? (len (experimental_moves s) + 1) * 24 then lift Panic else
  modify (set_experimental (experimental_frame s) (experimental_chunked_frame s)
            (experimental_atlas s) (experimental_moves s ++ [m])).

Definition handle_record (record : list Z) : M unit :=
  r ← lift (map_err Compositor.parse_error_message (decode_display_record record));
  match r with
  | FrameBegin frame_id w h => begin_frame frame_id w h
  | FrameEnd frame_id => end_frame frame_id
  | MoveRect frame_id src_x src_y dst_x dst_y w h =>
      _ ← ensure_frame frame_id;
      s ← get_self;
      if experimental_frame s then
        _ ← validate_rect src_x src_y w h;
        _ ← validate_rect dst_x dst_y w h;
        push_move {| move_src_x := src_x; move_src_y := src_y; move_dst_x := dst_x;
                     move_dst_y := dst_y; move_width := w; move_height := h |}
      else apply_move_rect src_x src_y dst_x dst_y w h
  | AtlasH264 frame_id _ atlas_width atlas_height rects payload =>
      _ ← ensure_frame frame_id;
      apply_h264_atlas atlas_width atlas_height rects payload
  | ExperimentalAtlasCommands frame_id atlas_width atlas_height rects tile_commands =>
      _ ← ensure_frame frame_id;
      _ ← modify (fun s => set_experimental true (experimental_chunked_frame s) (experimental_atlas s)
                             (experimental_moves s) s);
      _ ← validate_experimental_atlas atlas_width atlas_height rects;
      modify (fun s => set_experimental (experimental_frame s) (experimental_chunked_frame s)
        (Some {| atlas_width := atlas_width; atlas_height := atlas_height; rects := rects;
                 tile_commands := tile_commands; record_bytes := len record |}) (experimental_moves s) s)
  | ExperimentalAtlasCommandsChunk frame_id flags _ _ atlas_width atlas_height rects tile_commands =>
      _ ← ensure_frame frame_id;
      _ ← modify (fun s => set_experimental true true (experimental_atlas s) (experimental_moves s) s);
      _ ← validate_experimental_atlas atlas_width atlas_height rects;
      let present_after_composite :=
        negb (Z.land flags DISPLAY_EXPERIMENTAL_ATLAS_CHUNK_FLAG_FINAL =? 0) in
      s ← get_self;
      _ ← modify (set_experimental (experimental_frame s) (experimental_chunked_frame s)
                    (experimental_atlas s) []);
      let frame := {| frame_id := frame_id; desktop_width := width s; desktop_height := height s;
                      atlas := {| atlas_width := atlas_width; atlas_height := atlas_height;
                                  rects := rects; tile_commands := tile_commands;
                                  record_bytes := len record |};
                      moves := experimental_moves s;
                      present_after_composite := present_after_composite |} in
      _ ← queue_deferred_experimental_frame frame;
      flush_deferred_experimental_frames
  | Keyframe frame_id w h _ payload =>
      _ ← begin_frame frame_id w h;
      s ← get_self;
      if negb (len payload =? len (bgra s))
      then lift (Err "display keyframe payload length mismatch"%string) else
      _ ← modify (set_bgra payload);
      push_damage 0 0 w h
  end.
End methods.
End Delta.

Import Delta.

(** ** The queue stays small *)

Definition total_bytes (frames : list DeferredExperimentalFrame) : Z :=
  foldr (fun f n => queued_bytes f + n) 0 frames.

(** A frame as records can make it: a record has at most four gibibytes. *)
Definition atlas_small (a : PendingExperimentalAtlas) : Prop :=
  len (tile_commands a) <= u32_max /\ 0 <= record_bytes a <= u32_max + 5 /\ len (rects a) <= u32_max.

Definition moves_small (ms : list ExperimentalMoveRect) : Prop := len ms * 24 <= isize_max.

Definition frame_small (f : DeferredExperimentalFrame) : Prop := atlas_small (atlas f) /\ moves_small (moves f).

Lemma queued_nonneg f : frame_small f -> 0 <= queued_bytes f <= isize_max + 30 * u32_max.
Proof.
  intros ((Ht & Hr & Hc) & Hm). unfold moves_small in Hm. unfold queued_bytes, saturating_add, saturating_mul.
  pose proof (len_nonneg (tile_commands (atlas f))). pose proof (len_nonneg (rects (atlas f))).
  pose proof (len_nonneg (moves f)). unfold usize_max, u64_max, isize_max, u32_max in *. lia.
Qed.

Lemma total_nonneg fs : Forall frame_small fs -> 0 <= total_bytes fs.
Proof. induction 1 as [|f fs Hf _ IH]; [done|]. apply queued_nonneg in Hf. cbn. fold (total_bytes fs). lia. Qed.

Lemma total_app fs gs : total_bytes (fs ++ gs) = total_bytes fs + total_bytes gs.
Proof. induction fs as [|f fs IH]; [done|]. cbn. fold (total_bytes fs) (total_bytes (fs ++ gs)). lia. Qed.

Lemma drop_older_ok id fs :
  Forall frame_small fs ->
  let '(fs', n) := drop_older id fs (total_bytes fs) in
  (exists gone, fs = gone ++ fs') /\ n = total_bytes fs'.
Proof.
  induction 1 as [|f fs Hf Hfs IH]; [by split; [exists []|]|]. cbn [drop_older].
  destruct (frame_id f <? id); [|split; [by exists []|done]].
  cbn [total_bytes foldr]. fold (total_bytes fs). unfold saturating_sub.
  pose proof (total_nonneg fs Hfs). pose proof (queued_nonneg f Hf).
  replace (Z.max 0 _) with (total_bytes fs) by lia. destruct (drop_older id fs (total_bytes fs)) as [fs' n].
  destruct IH as [[gone ->] ->]. split; [by exists (f :: gone)|done].
Qed.

Lemma drop_over_limit_ok fs :
  Forall frame_small fs ->
  let '(fs', n) := drop_over_limit fs (total_bytes fs) in
  (exists gone, fs = gone ++ fs') /\ n = total_bytes fs' /\
  len fs' <= MAX_DEFERRED_EXPERIMENTAL_FRAMES /\ n <= MAX_DEFERRED_EXPERIMENTAL_BYTES.
Proof.
  induction 1 as [|f fs Hf Hfs IH]; [by split; [exists []|]|]. cbn [drop_over_limit].
  destruct (_ || _) eqn:Hover; [|split; [by exists []|split; [done|lia]]].
  cbn [total_bytes foldr]. fold (total_bytes fs). unfold saturating_sub.
  pose proof (total_nonneg fs Hfs). pose proof (queued_nonneg f Hf).
  replace (Z.max 0 _) with (total_bytes fs) by lia. destruct (drop_over_limit fs (total_bytes fs)) as [fs' n].
  destruct IH as [[gone ->] ?]. split; [by exists (f :: gone)|done].
Qed.

(** The queue within its limits, with its size known exactly. *)
Record bounded (fs : list DeferredExperimentalFrame) (n : Z) : Prop := {
  bd_small : Forall frame_small fs;
  bd_bytes : n = total_bytes fs;
  bd_frames : len fs <= MAX_DEFERRED_EXPERIMENTAL_FRAMES;
  bd_limit : n <= MAX_DEFERRED_EXPERIMENTAL_BYTES;
}.

(** Queueing keeps the newest frames, in their order. *)
Lemma enqueue_ok f fs n :
  bounded fs n -> frame_small f ->
  let '(fs', n') := enqueue f fs n in bounded fs' n' /\ exists gone, fs ++ [f] = gone ++ fs'.
Proof.
  intros [Hs -> Hc Hl] Hf. unfold enqueue. pose proof (queued_nonneg f Hf).
  assert (exists fs1, (if LARGE_EXPERIMENTAL_FRAME_BYTES <=? queued_bytes f
                       then drop_older (frame_id f) fs (total_bytes fs) else (fs, total_bytes fs)) =
                      (fs1, total_bytes fs1) /\ exists gone, fs = gone ++ fs1) as (fs1 & -> & gone1 & ->).
  { destruct (_ <=? _); [|exists fs; split; [done|by exists []]].
    pose proof (drop_older_ok (frame_id f) fs Hs) as Hd. destruct (drop_older _ _ _) as [fs1 n1].
    destruct Hd as [? ->]. by exists fs1. }
  apply Forall_app in Hs as [Hg1 Hs1]. rewrite total_app in Hl. pose proof (total_nonneg _ Hg1).
  pose proof (total_nonneg _ Hs1).
  assert (Forall frame_small (fs1 ++ [f])) as Hall by (apply Forall_app; split; [done|by apply Forall_singleton]).
  replace (saturating_add usize_max (total_bytes fs1) (queued_bytes f)) with (total_bytes (fs1 ++ [f])).
  2: { rewrite total_app. cbn. unfold saturating_add, usize_max, u64_max, isize_max, u32_max in *.
       unfold MAX_DEFERRED_EXPERIMENTAL_BYTES in *. lia. }
  pose proof (drop_over_limit_ok _ Hall) as Hd. destruct (drop_over_limit _ _) as [fs' n'].
  destruct Hd as ([gone Hgone] & -> & ? & ?). rewrite Hgone in Hall. apply Forall_app in Hall as [_ ?].
  split; [by constructor|]. exists (gone1 ++ gone). by rewrite <- !app_assoc, Hgone.
Qed.

(** ** The compositor keeps its state in order *)

Section invariant.
Context {D : Type} (h264_new : Z -> Z -> Z -> res string D).
Context (h264_decode : D -> list Z -> D * res string (option (list Z))).
Context {V : Type} (present_cached : V -> CachedFrame -> list FrameDamageRect -> bool -> V * res string unit).
Context (present_atlas : V -> DeferredExperimentalFrame -> V * res string ExperimentalPresentResult).
(** The decoder and the window return. *)
Context (Hnew : forall w h fps, h264_new w h fps <> Fuel).
Context (Hdecode : forall d p, (h264_decode d p).2 <> Fuel).
Context (Hcached : forall v c dmg full, (present_cached v c dmg full).2 <> Fuel).
Context (Hatlas : forall v f, (present_atlas v f).2 <> Fuel).

Abbreviation session := (session (D:=D) (V:=V)).

Record orderly (c : ModernDisplayCompositor D) : Prop := {
  or_width : is_u32 (width c);
  or_height : is_u32 (height c);
  or_picture : frame (width c) (height c) (bgra c);
  or_size : width c * height c * 4 <= u32_max;
  or_queue : bounded (deferred_experimental_frames c) (deferred_experimental_bytes c);
  or_atlas : forall a, experimental_atlas c = Some a -> atlas_small a;
  or_moves : moves_small (experimental_moves c);
}.

Lemma wp_modify f (Q : unit -> session -> Prop) R X s :
  Q tt {| self := f (self s); viewport := viewport s |} -> wp (modify f) Q R X s.
Proof. done. Qed.

Lemma wp_get_self (Q : ModernDisplayCompositor D -> session -> Prop) R X s :
  Q (self s) s -> wp get_self Q R X s.
Proof. done. Qed.

Ltac del_step :=
  first [wp_step | match goal with
                   | |- wp (modify _) _ _ _ _ => apply wp_modify
                   | |- wp get_self _ _ _ _ => apply wp_get_self
                   end; cbv beta].

(** An operation that keeps the order, whether it succeeds, fails or panics; it does
    not run forever. *)
Definition keeps {A} (m : method session string A) : Prop :=
  forall s, orderly (self s) -> wp m (fun _ s' => orderly (self s')) (fun s' => orderly (self s')) True s.

Lemma keeps_bind {A B} (m : method session string A) (k : A -> method session string B) :
  keeps m -> (forall a, keeps (k a)) -> keeps (m ≫= k).
Proof. intros Hm Hk s Hs. apply wp_bind. eapply wp_mono; [by apply Hm|intros; by apply Hk|done|done]. Qed.

Lemma keeps_lift {A} (r : res string A) : r <> Fuel -> keeps (lift r).
Proof. intros Hr s Hs. by apply wp_lift. Qed.

Lemma keeps_ret {A} (a : A) : keeps (mret a).
Proof. intros s Hs. exact Hs. Qed.

Lemma keeps_get : keeps get_self.
Proof. intros s Hs. exact Hs. Qed.

Lemma keeps_modify f : (forall c, orderly c -> orderly (f c)) -> keeps (modify f).
Proof. intros Hf s Hs. exact (Hf _ Hs). Qed.

Lemma keeps_for_each {A} (f : A -> method session string unit) l :
  (forall a, keeps (f a)) -> keeps (for_each f l).
Proof. intros Hf. induction l as [|a l IH]; cbn [for_each]; [apply keeps_ret|by apply keeps_bind]. Qed.

Lemma keeps_viewport {A} (f : V -> V * res string A) : (forall v, (f v).2 <> Fuel) -> keeps (with_viewport f).
Proof.
  intros Hf s Hs. unfold with_viewport. do 2 wp_step. destruct (f (viewport s)) as [v r] eqn:Hfv.
  do 2 wp_step. apply wp_lift; try done. specialize (Hf (viewport s)). by rewrite Hfv in Hf.
Qed.

Lemma or_panic_no_fuel {A} (o : option A) : or_panic (E:=string) o <> Fuel.
Proof. by destruct o. Qed.

Lemma ok_or_no_fuel {A} (o : option A) (e : string) : ok_or o e <> Fuel.
Proof. by destruct o. Qed.

Lemma vec_no_fuel n : vec_zeroed (E:=string) n <> Fuel.
Proof. unfold vec_zeroed. by case_match. Qed.

Lemma foldM_no_fuel {A B} (f : B -> A -> res string B) l b :
  (forall b a, f b a <> Fuel) -> foldM f b l <> Fuel.
Proof.
  intros Hf. revert b; induction l as [|a l IH]; intros b; [done|]. cbn. specialize (Hf b a).
  destruct (f b a); cbn; done || apply IH.
Qed.

Lemma bind_no_fuel {A B} (m : res string A) (k : A -> res string B) :
  m <> Fuel -> (forall a, k a <> Fuel) -> (m ≫= k) <> Fuel.
Proof. intros Hm Hk. destruct m; cbn; [apply Hk|discriminate|discriminate|done]. Qed.

Ltac orderly_same := intros ? []; constructor; done.

(** The parts of the state that do not matter. *)
Lemma keeps_ensure_frame f : keeps (ensure_frame f).
Proof. apply keeps_bind; [apply keeps_get|]. intros c. apply keeps_lift. by case_match. Qed.

Lemma keeps_validate_rect x y w h : keeps (validate_rect x y w h).
Proof. apply keeps_bind; [apply keeps_get|]. intros c. apply keeps_lift. by case_match. Qed.

Lemma keeps_push_damage x y w h : keeps (push_damage x y w h).
Proof. apply keeps_modify. orderly_same. Qed.

Lemma keeps_write_row d row : keeps (write_row d row).
Proof.
  intros s Hs. unfold write_row. repeat del_step. apply wp_lift; [|done|done|apply or_panic_no_fuel].
  intros b Hb. apply or_panic_ok_inv in Hb. destruct Hs. constructor; cbn; try done.
  unfold frame in *. by rewrite (copy_at_len _ _ _ _ Hb).
Qed.

Lemma keeps_begin_frame f w h : is_u32 w -> is_u32 h -> keeps (begin_frame f w h).
Proof.
  intros Hw Hh s Hs. unfold begin_frame. destruct ((w =? 0) || (h =? 0)); [by apply keeps_lift|]. wp_step.
  apply wp_lift; [|done|done|apply ok_or_no_fuel]. intros n Hn. apply ok_or_ok_inv in Hn.
  assert (n = w * h * 4 /\ w * h * 4 <= u32_max) as [-> Hmax].
  { unfold checked_mul in Hn. repeat (case_match; simplify_eq/=). lia. }
  repeat del_step. destruct (_ || _) eqn:Hc; repeat del_step.
  - apply wp_lift; [|done|done|apply vec_no_fuel]. intros b Hb. repeat del_step.
    destruct Hs. constructor; cbn; try done. unfold frame. unfold vec_zeroed in Hb.
    case_match; [|done]. apply Ok_inj in Hb as <-. rewrite zeros_len; [done|]. unfold is_u32 in *. nia.
  - destruct Hs. constructor; cbn; done.
Qed.

Lemma keeps_apply_move sx sy dx dy w h : keeps (apply_move_rect sx sy dx dy w h).
Proof.
  unfold apply_move_rect. repeat (apply keeps_bind; [apply keeps_validate_rect|intros _]).
  apply keeps_bind; [apply keeps_lift, vec_no_fuel|]. intros temp.
  apply keeps_bind; [apply keeps_get|]. intros c. apply keeps_bind.
  - apply keeps_lift, foldM_no_fuel. intros t row. apply bind_no_fuel; [|intros]; apply or_panic_no_fuel.
  - intros temp'. apply keeps_bind; [|intros _; apply keeps_push_damage]. apply keeps_for_each. intros row.
    apply keeps_bind; [apply keeps_lift, or_panic_no_fuel|intros; apply keeps_write_row].
Qed.

Lemma keeps_blit a aw ah r : keeps (blit_atlas_rect a aw ah r).
Proof.
  unfold blit_atlas_rect. apply keeps_bind; [apply keeps_validate_rect|intros _]. case_match; [by apply keeps_lift|].
  apply keeps_bind; [apply keeps_get|]. intros c. apply keeps_bind; [|intros _; apply keeps_push_damage].
  apply keeps_for_each. intros row.
  apply keeps_bind; [apply keeps_lift, or_panic_no_fuel|intros; apply keeps_write_row].
Qed.

Lemma keeps_h264 aw ah rs p : keeps (apply_h264_atlas h264_new h264_decode aw ah rs p).
Proof.
  unfold apply_h264_atlas. apply keeps_bind; [apply keeps_get|]. intros c. apply keeps_bind.
  { case_match; [apply keeps_ret|]. apply keeps_bind; [by apply keeps_lift|]. intros d. apply keeps_modify. orderly_same. }
  intros _. apply keeps_bind; [apply keeps_get|]. intros c'. apply keeps_bind; [apply keeps_lift, ok_or_no_fuel|].
  intros d. pose proof (Hdecode d p) as Hd. destruct (h264_decode d p) as [d' r]; cbn in Hd.
  apply keeps_bind; [apply keeps_modify; orderly_same|]. intros _. apply keeps_bind; [by apply keeps_lift|].
  intros [a|]; [|apply keeps_ret]. apply keeps_for_each. intros; apply keeps_blit.
Qed.

Lemma keeps_validate_experimental aw ah rs : keeps (validate_experimental_atlas aw ah rs).
Proof.
  unfold validate_experimental_atlas. case_match; [by apply keeps_lift|]. apply keeps_for_each. intros r.
  apply keeps_bind; [apply keeps_validate_rect|intros _]. apply keeps_lift. by repeat case_match.
Qed.

Lemma keeps_queue f : frame_small f -> keeps (queue_deferred_experimental_frame f).
Proof.
  intros Hf. apply keeps_modify. intros c []. pose proof (enqueue_ok f _ _ or_queue0 Hf) as He.
  destruct (enqueue _ _ _) as [q n]. destruct He as [Hb _]. by constructor.
Qed.

(** The window does not touch the compositor. *)
Lemma present_wp f (s : session) :
  wp (present_deferred_experimental_frame present_atlas f) (fun _ s' => self s' = self s)
    (fun s' => self s' = self s) True s.
Proof.
  unfold present_deferred_experimental_frame, with_viewport. do 2 wp_step.
  pose proof (Hatlas (viewport s) f) as Hf. destruct (present_atlas (viewport s) f) as [v' r]; cbn in Hf.
  do 2 wp_step. apply wp_lift; try done. destruct r as [[|]|e| |]; try done. by case_match.
Qed.

(** Taking the first frame off, and putting it back. *)
Lemma bounded_pop f fs n : bounded (f :: fs) n -> bounded fs (saturating_sub n (queued_bytes f)) /\
  saturating_add usize_max (saturating_sub n (queued_bytes f)) (queued_bytes f) = n.
Proof.
  intros [Hs -> Hc Hl]. apply Forall_cons in Hs as [Hf Hs]. cbn [total_bytes foldr] in *. fold (total_bytes fs) in *.
  pose proof (queued_nonneg f Hf). pose proof (total_nonneg fs Hs). rewrite len_cons in Hc.
  unfold saturating_sub, saturating_add, usize_max, u64_max, MAX_DEFERRED_EXPERIMENTAL_BYTES in *.
  split; [constructor; unfold MAX_DEFERRED_EXPERIMENTAL_BYTES; try done; lia|lia].
Qed.

Lemma flush_loop_wp fuel : forall s : session,
  orderly (self s) -> (length (deferred_experimental_frames (self s)) < fuel)%nat ->
  wp (flush_loop present_atlas fuel) (fun _ s' => orderly (self s')) (fun s' => orderly (self s')) True s.
Proof.
  induction fuel as [|fuel IH]; intros s Hs Hfuel; [lia|]. cbn [flush_loop]. repeat del_step.
  destruct (deferred_experimental_frames (self s)) as [|f rest] eqn:Hq; [by wp_step|].
  repeat del_step. pose proof (or_queue _ Hs) as Hb. rewrite Hq in Hb.
  apply bounded_pop in Hb as [Hb Hback].
  set (bytes := saturating_sub _ _) in *.
  assert (orderly (set_queue rest bytes (self s))) as Hs1 by (destruct Hs; constructor; done).
  eapply wp_mono; [apply present_wp| | |done]; cbn [self].
  - intros [reason|] s' Hs'.
    + repeat del_step. cbn. rewrite Hs'. cbn. rewrite Hback, <- Hq.
      destruct Hs; constructor; done.
    + apply IH; rewrite Hs'; [done|]. cbn in *. lia.
  - intros s' ->. done.
Qed.

Lemma keeps_flush : keeps (flush_deferred_experimental_frames present_atlas).
Proof.
  intros s Hs. unfold flush_deferred_experimental_frames. repeat del_step. apply flush_loop_wp; [done|lia].
Qed.

Lemma keeps_end_experimental f : keeps (end_experimental_frame present_atlas f).
Proof.
  intros s Hs. unfold end_experimental_frame. repeat del_step. case_match.
  - case_match; [by apply keeps_lift|by apply keeps_flush].
  - destruct (experimental_atlas (self s)) as [a|] eqn:Ha; [|by apply keeps_lift].
    apply keeps_bind; [|intros _; apply keeps_bind; [|intros _; apply keeps_flush]|done].
    + apply keeps_modify. intros c []. by constructor.
    + apply keeps_queue. destruct Hs. split; [by apply or_atlas0|done].
Qed.

Lemma keeps_end_frame f : keeps (end_frame present_cached present_atlas f).
Proof.
  assert (forall id dmg e ch a ms c, orderly c -> a = None \/ a = experimental_atlas c ->
            ms = [] \/ ms = experimental_moves c -> orderly (set_active id dmg e ch a ms c)) as Hset.
  { intros id dmg e ch a ms c [] Ha Hm. constructor; try done; cbn; [|by destruct Hm as [->| ->]].
    destruct Ha as [->| ->]; done. }
  apply keeps_bind; [apply keeps_ensure_frame|intros _]. apply keeps_bind; [apply keeps_get|]. intros c.
  case_match; (apply keeps_bind; [|intros _; apply keeps_modify; intros c' Hc'; apply Hset; auto]).
  - apply keeps_end_experimental.
  - apply keeps_viewport. intros; apply Hcached.
Qed.

Lemma keeps_push_move m : keeps (push_move m).
Proof.
  intros s Hs. unfold push_move. repeat del_step. case_match; [by apply keeps_lift|].
  repeat del_step. destruct Hs. constructor; try done. cbn. unfold moves_small. rewrite len_app.
  change (len [m]) with 1. lia.
Qed.

(** The size of a record limits what it can carry. *)
Lemma record_small record :
  bytes_ok record -> forall r, decode_display_record record = Ok r ->
  match r with
  | FrameBegin _ w h | Keyframe _ w h _ _ => is_u32 w /\ is_u32 h
  | ExperimentalAtlasCommands _ aw ah rs tc | ExperimentalAtlasCommandsChunk _ _ _ _ aw ah rs tc =>
      atlas_small {| atlas_width := aw; atlas_height := ah; rects := rs; tile_commands := tc;
                     record_bytes := len record |}
  | _ => True
  end.
Proof.
  intros Hb r Hr. unfold decode_display_record in Hr. apply bind_ok_inv in Hr as (x & Hp & Hd).
  assert (decode_display_record record = Ok r) as Hr by (unfold decode_display_record; by rewrite Hp).
  apply decode_ok_inv in Hr as [Hwf _]; [|done]. apply parse_display_record_ok in Hp as (Hrec & _ & Hl); [|done].
  assert (len record <= u32_max + 5) as Hlen.
  { rewrite Hrec. unfold build_display_record. rewrite !len_app, le_bytes_len by lia. change (len [_]) with 1. lia. }
  pose proof (len_nonneg record).
  destruct r as [| | | | |f aw ah rs tc|f fl i n aw ah rs tc]; try done; cbn in Hwf; try tauto;
    unfold atlas_small; cbn; pose proof (len_nonneg rs); pose proof (len_nonneg tc).
  - destruct Hwf as (_ & _ & _ & _ & _ & Hsz). lia.
  - destruct Hwf as (_ & _ & _ & _ & _ & _ & _ & _ & _ & Hsz). lia.
Qed.

Abbreviation handle := (handle_record h264_new h264_decode present_cached present_atlas).

Lemma keeps_experimental e ch a ms :
  (forall x, a = Some x -> atlas_small x) -> moves_small ms ->
  forall c, orderly c -> orderly (set_experimental e ch a ms c).
Proof. intros Ha Hm c []. by constructor. Qed.

Lemma keeps_handle_record record : bytes_ok record -> keeps (handle record).
Proof.
  intros Hb s Hs. unfold handle_record. wp_step.
  apply wp_lift; [|done|done|]; last first.
  { pose proof (decode_display_record_no_panic record Hb) as Hsafe. revert Hsafe. by destruct (decode_display_record record). }
  intros r Hr. assert (decode_display_record record = Ok r) as Hd by (by apply map_err_ok_inv in Hr).
  pose proof (record_small record Hb r Hd) as Hsm.
  destruct r as [f w h|f|f w h n p|f sx sy dx dy w h|f fl aw ah rs p|f aw ah rs tc|f fl i n aw ah rs tc].
  - destruct Hsm. by apply keeps_begin_frame.
  - by apply keeps_end_frame.
  - destruct Hsm. wp_step. eapply wp_mono; [by apply keeps_begin_frame| |done|done]. intros [] s1 Hs1.
    repeat del_step. case_match eqn:Hl; [by apply keeps_lift|]. repeat del_step. destruct Hs1.
    constructor; try done. unfold frame in *. cbn. lia.
  - revert s Hs. apply keeps_bind; [apply keeps_ensure_frame|intros _]. apply keeps_bind; [apply keeps_get|]. intros c.
    case_match; [|apply keeps_apply_move].
    repeat (apply keeps_bind; [apply keeps_validate_rect|intros _]). apply keeps_push_move.
  - revert s Hs. apply keeps_bind; [apply keeps_ensure_frame|intros _]. apply keeps_h264.
  - revert s Hs. apply keeps_bind; [apply keeps_ensure_frame|intros _].
    apply keeps_bind; [apply keeps_modify; intros c Hc; apply keeps_experimental; by try apply Hc|intros _].
    apply keeps_bind; [apply keeps_validate_experimental|intros _]. apply keeps_modify. intros c Hc.
    apply keeps_experimental; [by intros x [= <-]|apply Hc|done].
  - revert s Hs. apply keeps_bind; [apply keeps_ensure_frame|intros _].
    apply keeps_bind; [apply keeps_modify; intros c Hc; apply keeps_experimental; by try apply Hc|intros _].
    apply keeps_bind; [apply keeps_validate_experimental|intros _]. intros s Hs. repeat del_step.
    eapply wp_mono; [apply keeps_queue|intros [] s1 Hs1; by apply keeps_flush|done|done].
    + split; [done|apply Hs].
    + apply keeps_experimental; [apply Hs|done|done].
Qed.

(** The states of a viewer between two calls, whether or not the calls before failed. *)
Inductive viewer_reachable : session -> Prop :=
| viewer_new v : viewer_reachable {| self := new D; viewport := v |}
| viewer_record s s' record r :
    viewer_reachable s -> bytes_ok record -> handle record s = (s', r) -> safe r -> viewer_reachable s'
| viewer_flush s s' r :
    viewer_reachable s -> flush_deferred_experimental_frames present_atlas s = (s', r) -> safe r ->
    viewer_reachable s'
| viewer_window s v : viewer_reachable s -> viewer_reachable {| self := self s; viewport := v |}.

Lemma new_orderly : orderly (new D).
Proof. by constructor. Qed.

Lemma viewer_orderly s : viewer_reachable s -> orderly (self s).
Proof.
  induction 1 as [v|s s' record r _ IH Hb Hr Hsafe|s s' r _ IH Hr Hsafe|s v _ IH]; [apply new_orderly|..|done].
  - pose proof (keeps_handle_record record Hb s IH) as Hw. unfold wp in Hw. rewrite Hr in Hw. by destruct r.
  - pose proof (keeps_flush s IH) as Hw. unfold wp in Hw. rewrite Hr in Hw. by destruct r.
Qed.
End invariant.


(** A window that is never ready. *)
Definition not_ready (v : unit) (_ : DeferredExperimentalFrame) : unit * res string ExperimentalPresentResult :=
  (v, Ok (Deferred "GPU viewport not ready"%string)).
Definition no_video (_ _ _ : Z) : res string unit := Err "no decoder"%string.
Definition no_pictures (d : unit) (_ : list Z) : unit * res string (option (list Z)) := (d, Ok None).
Definition shows_cached (v : unit) (_ : CachedFrame) (_ : list FrameDamageRect) (_ : bool)
    : unit * res string unit := (v, Ok tt).

Definition waiting_records : list (list Z) :=
  [build_display_frame_begin 1 2 2;
   build_display_experimental_atlas_commands_chunk 1 1 0 2 32 32 [] [7; 7; 7; 7]].

Definition waiting : session (D:=unit) (V:=unit) :=
  fst (for_each (handle_record no_video no_pictures shows_cached not_ready) waiting_records
         {| self := new unit; viewport := tt |}).


(** ** Coordinates that wrap *)

(** The records of a move from the last column of a 32-bit desktop. *)
Definition wrapping_records : list (list Z) :=
  [build_display_frame_begin 1 2 1; build_display_move_rect 1 4294967295 0 0 0 2 1].

(** Two records of well-formed bytes make the Windows viewer panic, whatever its
    decoder and window do: a move whose left edge and width add up past 32 bits
    passes the bounds test, and the copy then reads outside the picture.  The software
    viewer refuses the same move. *)
Theorem wrapping_move_panics :
  Forall bytes_ok wrapping_records /\
  (forall D V h264_new h264_decode present_cached present_atlas (v : V),
     (for_each (handle_record (D:=D) h264_new h264_decode present_cached present_atlas) wrapping_records
        {| self := new D; viewport := v |}).2 = Panic) /\
  (show no_zstd wrapping_records Compositor.new).2 = Err "rect exceeds bounds"%string.
Proof.
  split; [|split].
  - repeat (apply Forall_cons_2; [bytes_check|]). apply Forall_nil_2.
  - intros. vm_compute. reflexivity.
  - vm_compute. reflexivity.
Qed.
