(* ===== verification/WindowsScreen.v ===== *)
(** The picture that the Windows viewer keeps in memory (DisplayDelta.v): on the records
    that draw it directly it follows the same abstract screen as the software viewer
    (CpuDisplay.v). *)

From S2P Require Import Prelude Bytes Pixels DisplayRecord TileStream TileDecode ViewportCpu CpuDisplay DisplayDelta.

Import Delta.

Local Open Scope Z_scope.

Section picture.
Context {D V : Type}.
Implicit Type c : ModernDisplayCompositor D.

Abbreviation session := (session (D:=D) (V:=V)).

(** The picture in memory, as a screen. *)
Definition screen_in c : screen :=
  {| sw := width c; sh := height c; color := pix (width c) (bgra c); active := current_frame_id c |}.

Definition picture_ok c : Prop :=
  is_u32 (width c) /\ is_u32 (height c) /\ frame (width c) (height c) (bgra c) /\ bytes_ok (bgra c) /\
  width c * height c * 4 <= u32_max.

Lemma validate_wp (x y w h : Z) (Q : unit -> session -> Prop) (R : session -> Prop) X s :
  is_u32 (x + w) -> is_u32 (y + h) -> is_u32 w -> is_u32 h -> R s ->
  (inside x y w h (width (self s)) (height (self s)) -> Q tt s) -> wp (validate_rect x y w h) Q R X s.
Proof.
  intros Hx Hy Hw Hh Hr Hq. unfold validate_rect, get_self. repeat wp_step. apply wp_lift_post; [|done].
  rewrite !wrap_u32_small by done. destruct (_ || _) eqn:Hc; [done|]. apply Hq. unfold inside, is_u32 in *. lia.
Qed.

(** The rows of a rectangle, written one by one. *)
Lemma write_rows_run (t : list Z) (src dst : Z -> Z) n rows (s : session) b :
  foldM (fun a row => l ← or_panic (E:=string) (slice t (src row) (src row + n)); or_panic (copy_at a (dst row) l))
    (bgra (self s)) rows = Ok b ->
  for_each (fun row => line ← lift (or_panic (slice t (src row) (src row + n))); write_row (dst row) line) rows s =
    ({| self := set_bgra b (self s); viewport := viewport s |}, Ok tt).
Proof.
  revert s; induction rows as [|r rows IH]; intros s Hr; cbn [foldM for_each] in *.
  - apply Ok_inj in Hr as <-. by destruct s as [[]].
  - apply bind_ok_inv in Hr as (a & Ha & Hr). apply bind_ok_inv in Ha as (l & Hl & Ha).
    rewrite (method_run_bind _ _ s {| self := set_bgra a (self s); viewport := viewport s |} tt).
    + by rewrite (IH {| self := set_bgra a (self s); viewport := viewport s |}).
    + unfold write_row, get_self, modify, mbind, method_bind, get, lift, put, mret, method_ret. by rewrite Hl, Ha.
Qed.

(** The rectangle is taken out, then put back elsewhere. *)
Lemma move_picture c sx sy dx dy w h :
  picture_ok c -> 0 <= sx -> 0 <= sy -> 0 <= dx -> 0 <= dy ->
  inside sx sy w h (width c) (height c) -> inside dx dy w h (width c) (height c) ->
  exists t b,
    Cpu.copy_previous_rect (zeros (w * h * 4)) (w * 4) 0 0 w h (bgra c) (width c) sx sy = Ok t /\
    Cpu.copy_previous_rect (bgra c) (width c * 4) dx dy w h t w 0 0 = Ok b /\
    picture_ok (set_bgra b c) /\
    forall x y, 0 <= x < width c -> 0 <= y < height c ->
      pix (width c) b x y = blit (pix (width c) (bgra c)) sx sy dx dy w h (pix (width c) (bgra c)) x y.
Proof.
  intros ([] & [] & Hf & Hb & Hz) Hsx Hsy Hdx Hdy (Hw & Hh & ? & ?) (_ & _ & ? & ?).
  assert (w * h <= width c * height c) by nia. assert (u32_max <= isize_max) by (unfold u32_max, isize_max; lia).
  destruct (copy_previous_blit (zeros (w * h * 4)) w h (bgra c) (width c) (height c) sx sy 0 0 w h)
    as (t & Ht & Htf & Htb & Htp); try lia; try done; [unfold frame; by rewrite zeros_len by lia|apply zeros_ok|].
  destruct (copy_previous_blit (bgra c) (width c) (height c) t w h 0 0 dx dy w h)
    as (b & Hbr & Hbf & Hbb & Hbp); try lia; try done.
  exists t, b. split_and!; try done. intros x y Hx Hy. rewrite Hbp by done. unfold blit at 1 2.
  destruct (in_rect dx dy w h x y) eqn:Hin; [|done]. unfold in_rect in Hin. rewrite Htp by lia. unfold blit.
  replace (in_rect 0 0 w h _ _) with true by (unfold in_rect; lia). f_equal; lia.
Qed.

(** Inside the picture no sum wraps. *)
Lemma offset_exact c x y w h row :
  picture_ok c -> 0 <= x -> 0 <= y -> inside x y w h (width c) (height c) -> 0 <= row < h ->
  pixel_offset c x (wrap_u32 (y + row)) = (y + row) * (width c * 4) + x * 4.
Proof.
  intros ([] & [] & _ & _ & Hz) Hx Hy (? & ? & ? & ?) Hr. unfold pixel_offset.
  assert (0 <= (y + row) * width c <= (height c - 1) * width c) by nia.
  rewrite wrap_u32_small by lia. rewrite wrap_usize_small; [lia|]. unfold u32_max, usize_max, u64_max in *. lia.
Qed.

Lemma row_exact c x y w h row :
  picture_ok c -> 0 <= x -> 0 <= y -> inside x y w h (width c) (height c) -> 0 <= row <= h ->
  wrap_usize (row * (w * 4)) = (0 + row) * (w * 4) + 0 * 4.
Proof.
  intros ([] & [] & _ & _ & Hz) Hx Hy (? & ? & ? & ?) Hr.
  assert (0 <= row * w <= height c * width c) by nia.
  rewrite wrap_usize_small; [lia|]. unfold u32_max, usize_max, u64_max in *. lia.
Qed.

Lemma move_wp (s : session) sx sy dx dy w h :
  picture_ok (self s) -> is_u32 sx -> is_u32 sy -> is_u32 dx -> is_u32 dy -> is_u32 w -> is_u32 h ->
  is_u32 (sx + w) -> is_u32 (sy + h) -> is_u32 (dx + w) -> is_u32 (dy + h) ->
  wp (apply_move_rect sx sy dx dy w h) (fun _ s' =>
      let c := self s in
      picture_ok (self s') /\ viewport s' = viewport s /\ experimental_frame (self s') = experimental_frame c /\
      inside sx sy w h (width c) (height c) /\ inside dx dy w h (width c) (height c) /\
      screen_in (self s') ≡ with_color (screen_in c) (blit (color (screen_in c)) sx sy dx dy w h (color (screen_in c))))
    (fun s' => s' = s) False s.
Proof.
  intros Hok Hsx Hsy Hdx Hdy Hw Hh Hsx2 Hsy2 Hdx2 Hdy2. unfold apply_move_rect. cbv zeta.
  wp_step. apply validate_wp; [done..|intros Hs]. wp_step. apply validate_wp; [done..|intros Hd].
  destruct (move_picture (self s) sx sy dx dy w h) as (t & b & Ht & Hb & Hok' & Hpix); try (unfold is_u32 in *; lia); try done.
  assert (0 <= sx /\ 0 <= sy /\ 0 <= dx /\ 0 <= dy) as (? & ? & ? & ?) by (unfold is_u32 in *; lia).
  assert (forall row, 0 <= row <= h -> wrap_usize (row * (w * 4)) = (0 + row) * (w * 4) + 0 * 4) as Hrow
    by (intros; by eapply (row_exact (self s) sx sy w h)).
  wp_step. replace (w * 4 * h) with (h * (w * 4)) by lia. rewrite Hrow by (unfold inside in *; lia).
  replace ((0 + h) * (w * 4) + 0 * 4) with (w * h * 4) by lia.
  assert (w * h * 4 <= isize_max) as Hsz.
  { destruct Hok as ([] & [] & _ & _ & ?), Hs as (? & ? & ? & ?). unfold isize_max, u32_max in *. nia. }
  apply wp_lift_post; [|done]. unfold vec_zeroed. rewrite (proj2 (Z.leb_le _ _) Hsz). cbn [post].
  wp_step. unfold get_self at 1. repeat wp_step. cbv beta. apply wp_lift_post; [|done].
  match goal with |- post _ _ (foldM ?f ?a ?l) => assert (foldM f a l = Ok t) as -> end.
  { rewrite <- Ht. apply foldM_ext. intros a row Hin. apply elem_of_seqZ in Hin. cbv zeta.
    by rewrite (offset_exact (self s) sx sy w h), Hrow by (done || lia). }
  cbn [post]. wp_step. unfold wp at 1.
  pose proof (write_rows_run t (fun row => wrap_usize (row * (w * 4)))
    (fun row => pixel_offset (self s) dx (wrap_u32 (dy + row))) (w * 4) (seqZ 0 h) s b) as Hrun.
  cbv beta in Hrun. rewrite Hrun; [by split_and!|]. rewrite <- Hb. apply foldM_ext. intros a row Hin.
  apply elem_of_seqZ in Hin. cbv zeta. by rewrite (offset_exact (self s) dx dy w h), Hrow by (done || lia).
Qed.

Lemma begin_wp (s : session) f w h :
  picture_ok (self s) -> is_u32 w -> is_u32 h ->
  wp (begin_frame f w h)
    (fun _ s' => viewport s' = viewport s /\ experimental_frame (self s') = false /\ picture_ok (self s') /\
       frame w h (bgra (self s')) /\ screen_in (self s') ≡ start f w h (screen_in (self s)))
    (fun s' => s' = s) False s.
Proof.
  intros Hok Hw Hh. unfold begin_frame. pose proof Hok as (_ & _ & Hf & _ & Hz).
  destruct ((w =? 0) || (h =? 0)) eqn:H0; [by apply wp_lift_post|]. assert (0 < w * h) by (unfold is_u32 in *; nia).
  wp_step. apply wp_lift_post; [|done]. unfold checked_mul.
  destruct (w * h <=? u32_max) eqn:Hp; cbn [mbind option_bind ok_or post]; [|done].
  destruct (w * h * 4 <=? u32_max) eqn:Hp4; cbn [ok_or post]; [|done].
  wp_step. unfold get_self at 1. repeat wp_step. cbv beta.
  destruct (_ || negb (len _ =? _)) eqn:Hc.
  - wp_step. apply wp_lift_post; [|done]. unfold vec_zeroed. unfold u32_max, isize_max in *.
    case_match; cbn [post]; [|lia]. unfold modify. repeat wp_step. cbn.
    assert (frame w h (zeros (w * h * 4))) by (unfold frame; by rewrite zeros_len by lia).
    unfold picture_ok. split_and!; try done; [apply zeros_ok|cbn; unfold u32_max; lia|].
    split_and!; try done. cbn. intros x y Hx Hy. rewrite pix_zeros by lia.
    replace (_ && _) with false; [done|]. unfold frame in Hf. nia.
  - unfold modify. repeat wp_step. assert (width (self s) = w /\ height (self s) = h) as [<- <-] by lia.
    split_and!; try done. split_and!; try done. cbn. intros x y Hx Hy. by rewrite !Z.eqb_refl.
Qed.
End picture.

(** A window that keeps the pictures it is given. *)
Definition logged {V} (present_cached : V -> CachedFrame -> list FrameDamageRect -> bool -> V * res string unit)
    (v : V * list CachedFrame) (c : CachedFrame) (dmg : list FrameDamageRect) (full : bool)
    : (V * list CachedFrame) * res string unit :=
  let '(v', r) := present_cached v.1 c dmg full in ((v', v.2 ++ [c]), r).

(** The record draws the picture in memory, without a sum that wraps. *)
Definition plain (r : DisplayRecord) : Prop :=
  match r with
  | FrameBegin _ _ _ | FrameEnd _ | Keyframe _ _ _ _ _ => True
  | MoveRect _ sx sy dx dy w h => is_u32 (sx + w) /\ is_u32 (sy + h) /\ is_u32 (dx + w) /\ is_u32 (dy + h)
  | _ => False
  end.

Definition cached_of (f : Compositor.DecodedFrame) : CachedFrame :=
  {| cached_width := Compositor.frame_width f; cached_height := Compositor.frame_height f;
     cached_argb := Compositor.argb f |}.

(** Both viewers hand over the same words. *)
Lemma words_argb (n : nat) b : bytes_ok b -> len b = Z.of_nat n * 4 -> bgra_to_words b = Compositor.bgra_to_argb b.
Proof.
  revert b; induction n as [|n IH]; intros b Hb Hl; [by rewrite (len_0_nil b) by lia|].
  destruct b as [|b0 [|b1 [|b2 [|b3 b]]]]; try done.
  cbn [bgra_to_words Compositor.bgra_to_argb]. rewrite argb_word by (by apply (Forall_app _ [_; _; _; _] b) in Hb as [? _]).
  f_equal. apply IH; [by apply (Forall_app _ [_; _; _; _] b) in Hb as [_ ?]|]. rewrite !len_cons in Hl. lia.
Qed.

Lemma shown_frame {D} (c : ModernDisplayCompositor D) :
  picture_ok c -> exists out, frame_of (screen_in c) out /\
    cached_of out = {| cached_width := width c; cached_height := height c; cached_argb := bgra_to_words (bgra c) |}.
Proof.
  intros ([] & [] & Hf & Hb & Hz).
  set (s := {| Compositor.width := width c; Compositor.height := height c; Compositor.bgra := bgra c;
               Compositor.current_frame_id := current_frame_id c |}).
  exists (Compositor.decoded_frame s). split.
  - apply (decoded_frame_of s). split_and!; try done. cbn. unfold u32_max, isize_max in *. lia.
  - unfold cached_of. cbn. f_equal. symmetry. apply (words_argb (Z.to_nat (width c * height c))); [done|].
    unfold frame in Hf. nia.
Qed.

Section handle.
Context (decode_all : list Z -> option (list Z)).
Context {D : Type} (h264_new : Z -> Z -> Z -> res string D).
Context (h264_decode : D -> list Z -> D * res string (option (list Z))).
Context {V : Type} (present_cached : V -> CachedFrame -> list FrameDamageRect -> bool -> V * res string unit).
Context (present_atlas : V * list CachedFrame -> DeferredExperimentalFrame ->
           (V * list CachedFrame) * res string ExperimentalPresentResult).
Context (Hcached : forall v c dmg full, safe (present_cached v c dmg full).2).

Abbreviation session := (session (D:=D) (V:=V * list CachedFrame)).

(** The picture is in order and no atlas of the card is under way. *)
Definition drawable (s : session) : Prop := picture_ok (self s) /\ experimental_frame (self s) = false.

Definition stepped (r : DisplayRecord) (s s' : session) : Prop :=
  drawable s' /\ exists out, display_step decode_all (screen_in (self s)) r (screen_in (self s')) out /\
    (viewport s').2 = (viewport s).2 ++ (cached_of <$> option_list out).

Lemma ensure_wp f (Q : unit -> session -> Prop) (R : session -> Prop) X s :
  R s -> (current_frame_id (self s) = Some f -> Q tt s) -> wp (ensure_frame f) Q R X s.
Proof. intros Hr Hq. unfold ensure_frame, get_self. repeat wp_step. apply wp_lift_post; [|done]. case_decide; [by apply Hq|done]. Qed.

Lemma keyframe_wp f w h n p s :
  drawable s -> is_u32 w -> is_u32 h -> bytes_ok p ->
  wp (_ ← begin_frame f w h; c ← get_self;
      if negb (len p =? len (bgra c)) then lift (Err "display keyframe payload length mismatch"%string) else
      _ ← modify (set_bgra p); push_damage 0 0 w h)
    (fun _ => stepped (Keyframe f w h n p) s) drawable False s.
Proof.
  intros [Hok He] Hw Hh Hp. wp_step. eapply wp_mono; [by apply begin_wp| |by intros ? ->|done].
  intros ? s1 (Hv & He1 & Hok1 & Hf & Hsc). wp_step. unfold get_self. repeat wp_step. cbv beta.
  destruct (negb _) eqn:Hl; [by apply wp_lift_post|]. unfold push_damage, modify. repeat wp_step. cbv beta.
  pose proof Hsc as (Hw1 & Hh1 & Ha1 & _). cbn in Hw1, Hh1, Ha1.
  assert (len p = w * h * 4) as Hlp by (unfold frame in Hf; lia).
  split.
  - split; [|done]. destruct Hok1 as (? & ? & Hf1 & ? & ?). unfold frame in Hf1. split_and!; try done. unfold frame. cbn.
    unfold frame in *. nia.
  - exists None. split; [|by rewrite app_nil_r; cbn; rewrite Hv].
    apply (step_keyframe _ _ _ f w h n p p); [by split; [|left]|].
    split_and!; try done. cbn. intros x y Hx Hy. by rewrite Hw1.
Qed.

Lemma end_wp f s :
  drawable s -> wp (end_frame (logged present_cached) present_atlas f) (fun _ => stepped (FrameEnd f) s) drawable False s.
Proof.
  intros Hs. pose proof Hs as [Hok He]. unfold end_frame. wp_step. apply ensure_wp; [done|intros Hf].
  wp_step. unfold get_self. repeat wp_step. cbv beta. rewrite He. wp_step. unfold with_viewport. do 2 wp_step.
  unfold logged. pose proof (Hcached (viewport s).1) as Hc.
  destruct (shown_frame (self s) Hok) as (out & Hout & Hcache). rewrite <- Hcache.
  specialize (Hc (cached_of out) (damage (self s)) (len (damage (self s)) =? 0)).
  destruct (present_cached _ _ _ _) as [v' r]. do 2 wp_step. apply wp_lift_post; [|done].
  destruct r as [[]|e| |]; cbn in Hc |- *; try done. unfold modify. repeat wp_step. cbv beta.
  split; [done|]. exists (Some out). split; [|done]. constructor; [done| |done]. by split_and!.
Qed.

Lemma move_drawn f sx sy dx dy w h s :
  drawable s -> current_frame_id (self s) = Some f ->
  is_u32 sx -> is_u32 sy -> is_u32 dx -> is_u32 dy -> is_u32 w -> is_u32 h ->
  is_u32 (sx + w) -> is_u32 (sy + h) -> is_u32 (dx + w) -> is_u32 (dy + h) ->
  wp (apply_move_rect sx sy dx dy w h) (fun _ => stepped (MoveRect f sx sy dx dy w h) s) drawable False s.
Proof.
  intros [Hok He] Hf **. eapply wp_mono; [by apply move_wp| |by intros ? ->|done].
  intros ? s' (Hok' & Hv & He' & ? & ? & ?). split; [by split; [|congruence]|].
  exists None. split; [by constructor|by rewrite app_nil_r, Hv].
Qed.

Lemma plain_wp bs r s :
  drawable s -> bytes_ok bs -> decode_display_record bs = Ok r -> plain r ->
  wp (handle_record h264_new h264_decode (logged present_cached) present_atlas bs)
    (fun _ => stepped r s) drawable False s.
Proof.
  intros Hs Hbs Hr Hp. pose proof Hs as [Hok He]. pose proof (decode_ok_inv _ _ Hbs Hr) as [Hwf _].
  unfold handle_record. rewrite Hr. wp_step. apply wp_lift_post; [|done]. cbn [map_err post].
  destruct r as [f w h|f|f w h n p|f sx sy dx dy w h| | |]; try done; cbn [wf_record plain] in Hwf, Hp; destruct_and?.
  - eapply wp_mono; [by apply begin_wp| |by intros ? ->|done]. intros ? s' (Hv & He' & Hok' & _ & Hsc).
    split; [done|]. exists None. split; [by constructor|by rewrite app_nil_r, Hv].
  - by apply end_wp.
  - by apply keyframe_wp.
  - wp_step. apply ensure_wp; [done|intros Hf]. wp_step. unfold get_self. repeat wp_step. cbv beta. rewrite He.
    apply (move_drawn f); try done.
Qed.
End handle.

(** C32. On a record that draws the picture in memory directly, with coordinates whose
    sums fit in 32 bits, and while no atlas for the graphics card is under way, the
    viewer on Windows does not panic; if it accepts the record, its picture makes the
    same step of the abstract screen as the software viewer's, and the window is given
    the picture that this step shows; if it refuses the record, its picture stays in order. *)
Theorem windows_picture_refines_screen decode_all {D V} h264_new h264_decode present_cached present_atlas
    (s : session (D:=D) (V:=V * list CachedFrame)) bs r :
  (forall v c dmg full, safe (present_cached v c dmg full).2) ->
  picture_ok (self s) -> experimental_frame (self s) = false ->
  bytes_ok bs -> decode_display_record bs = Ok r -> plain r ->
  match handle_record h264_new h264_decode (logged present_cached) present_atlas bs s with
  | (s', Ok _) => picture_ok (self s') /\ experimental_frame (self s') = false /\
      exists out, display_step decode_all (screen_in (self s)) r (screen_in (self s')) out /\
        (viewport s').2 = (viewport s).2 ++ (cached_of <$> option_list out)
  | (s', Err _) => picture_ok (self s') /\ experimental_frame (self s') = false
  | (_, Panic) | (_, Fuel) => False
  end.
Proof.
  intros Hc Hok He Hbs Hr Hp.
  pose proof (plain_wp decode_all h264_new h264_decode present_cached present_atlas Hc bs r s (conj Hok He) Hbs Hr Hp) as Hw.
  unfold wp in Hw. destruct (handle_record _ _ _ _ bs s) as [s' []]; try done. destruct Hw as [[? ?] ?]. by split_and!.
Qed.

(** Two pixels, and the first of them moved onto the second. *)
Definition two_pixels (b : list Z) : ModernDisplayCompositor unit :=
  {| width := 2; height := 1; bgra := b; decoder := None; decoder_size := None;
     current_frame_id := Some 1; damage := []; experimental_frame := false;
     experimental_chunked_frame := false; experimental_atlas := None; experimental_moves := [];
     deferred_experimental_frames := []; deferred_experimental_bytes := 0 |}.

Definition before_move : session (D:=unit) (V:=unit * list CachedFrame) :=
  {| self := two_pixels [1; 2; 3; 4; 5; 6; 7; 8]; viewport := (tt, []) |}.

Definition no_card (v : unit * list CachedFrame) (_ : DeferredExperimentalFrame)
    : (unit * list CachedFrame) * res string ExperimentalPresentResult :=
  (v, Ok (Deferred "GPU viewport not ready"%string)).

Definition after_move : session (D:=unit) (V:=unit * list CachedFrame) :=
  fst (handle_record no_video no_pictures (logged shows_cached) no_card (build_display_move_rect 1 0 0 1 0 1 1)
         before_move).

Lemma windows_picture_refines_screen_witness :
  bgra (self after_move) = [1; 2; 3; 4; 1; 2; 3; 4] /\
  exists out, display_step no_zstd (screen_in (self before_move)) (MoveRect 1 0 0 1 0 1 1)
                (screen_in (self after_move)) out.
Proof.
  split; [vm_compute; reflexivity|].
  assert (handle_record no_video no_pictures (logged shows_cached) no_card (build_display_move_rect 1 0 0 1 0 1 1)
            before_move = (after_move, Ok tt)) as Hrun by (vm_compute; reflexivity).
  pose proof (windows_picture_refines_screen no_zstd no_video no_pictures shows_cached no_card before_move
    (build_display_move_rect 1 0 0 1 0 1 1) (MoveRect 1 0 0 1 0 1 1)) as Hstep.
  rewrite Hrun in Hstep. destruct Hstep as (_ & _ & out & Hout & _); [done| |done|bytes_check|vm_compute; reflexivity| |].
  - unfold picture_ok, is_u32, u32_max, frame. cbn. split_and!; try lia; try reflexivity. bytes_check.
  - unfold plain, is_u32, u32_max. lia.
  - by exists out.
Defined.
