(* ===== verification/WindowsViewer.v ===== *)
(** The Windows viewer (DisplayDelta.v) on the frames that the helper sends it
    (Transmit.v): what becomes of the moved rectangles. *)

From S2P Require Import Prelude Bytes Pixels DisplayRecord TileStream TileDecode Atlas.
From S2P Require Import ViewportCpu CpuDisplay Transmit DisplayDelta.

Import Delta.

Local Open Scope Z_scope.

(** ** The kind of a record is its first byte *)

Definition record_tag (r : DisplayRecord) : Z :=
  match r with
  | FrameBegin _ _ _ => DISPLAY_RECORD_FRAME_BEGIN
  | FrameEnd _ => DISPLAY_RECORD_FRAME_END
  | Keyframe _ _ _ _ _ => DISPLAY_RECORD_KEYFRAME
  | MoveRect _ _ _ _ _ _ _ => DISPLAY_RECORD_MOVE_RECT
  | AtlasH264 _ _ _ _ _ _ => DISPLAY_RECORD_ATLAS_H264
  | ExperimentalAtlasCommands _ _ _ _ _ => DISPLAY_RECORD_EXPERIMENTAL_ATLAS_COMMANDS
  | ExperimentalAtlasCommandsChunk _ _ _ _ _ _ _ _ => DISPLAY_RECORD_EXPERIMENTAL_ATLAS_COMMANDS_CHUNK
  end.

Ltac tag_step :=
  match goal with
  | |- ensures _ (_ ≫= _) => apply ensures_bind; intros ? _
  | |- ensures _ (if ?b then _ else _) => destruct b
  | |- ensures _ (Err _) => intros ? ?; discriminate
  | |- ensures _ (Ok _) => intros ? Htag; apply Ok_inj in Htag as <-; reflexivity
  end.

Lemma decode_tag bs : ensures (fun r => head bs = Some (record_tag r)) (decode_display_record bs).
Proof.
  unfold decode_display_record. apply ensures_bind. intros [t p] Hp. cbn [message_type payload].
  assert (head bs = Some t) as ->.
  { unfold parse_display_record in Hp. run_inv.
    match goal with H : {| message_type := _; payload := _ |} = _ |- _ => injection H as -> -> end.
    match goal with H : at_index bs 0 = Some t |- _ => revert H end. by destruct bs. }
  repeat match goal with |- ensures _ (if ?a =? ?b then _ else _) => destruct (Z.eqb_spec a b) as [->|_] end;
    unfold decode_frame_begin, decode_frame_end, decode_keyframe, decode_move_rect, decode_atlas_h264,
      decode_experimental_atlas_commands, decode_experimental_atlas_commands_chunk; repeat tag_step.
Qed.

(** ** Frames of the helper *)

(** A window that keeps the frames given to the card. *)
Definition traced {V} (present_atlas : V -> DeferredExperimentalFrame -> V * res string ExperimentalPresentResult)
    (v : V * list DeferredExperimentalFrame) (f : DeferredExperimentalFrame)
    : (V * list DeferredExperimentalFrame) * res string ExperimentalPresentResult :=
  let '(v', r) := present_atlas v.1 f in ((v', v.2 ++ [f]), r).

Definition traced_cached {V} (present_cached : V -> CachedFrame -> list FrameDamageRect -> bool -> V * res string unit)
    (v : V * list DeferredExperimentalFrame) (c : CachedFrame) (dmg : list FrameDamageRect) (full : bool)
    : (V * list DeferredExperimentalFrame) * res string unit :=
  let '(v', r) := present_cached v.1 c dmg full in ((v', v.2), r).

Definition moveless (f : DeferredExperimentalFrame) : Prop := moves f = [].

Section helper.
Context {D : Type} (h264_new : Z -> Z -> Z -> res string D).
Context (h264_decode : D -> list Z -> D * res string (option (list Z))).
Context {V : Type} (present_cached : V -> CachedFrame -> list FrameDamageRect -> bool -> V * res string unit).
Context (present_atlas : V -> DeferredExperimentalFrame -> V * res string ExperimentalPresentResult).

Abbreviation session := (session (D:=D) (V:=V * list DeferredExperimentalFrame)).
Abbreviation handle := (handle_record h264_new h264_decode (traced_cached present_cached) (traced present_atlas)).

(** No move waits for the card, and none was given to it. *)
Definition no_moves (s : session) : Prop :=
  experimental_moves (self s) = [] /\ Forall moveless (deferred_experimental_frames (self s)) /\
  Forall moveless (viewport s).2.

(** Nor is an atlas under way. *)
Definition before_atlas (s : session) : Prop := no_moves s /\ experimental_frame (self s) = false.

Definition holds {A} (I : session -> Prop) (m : method session string A) : Prop :=
  forall s, I s -> wlp m (fun _ => I) I s.

Lemma holds_bind {A B} I (m : method session string A) (k : A -> method session string B) :
  holds I m -> (forall a, holds I (k a)) -> holds I (m ≫= k).
Proof. intros Hm Hk s Hs. apply wlp_bind. eapply wlp_mono; [by apply Hm|intros; by apply Hk|done]. Qed.

Lemma holds_lift {A} I (r : res string A) : holds I (lift r).
Proof. intros s Hs. by apply wlp_lift. Qed.

Lemma holds_ret {A} I (a : A) : holds I (mret a).
Proof. intros s Hs. exact Hs. Qed.

Lemma holds_get I : holds I get_self.
Proof. intros s Hs. exact Hs. Qed.

Lemma holds_modify I f :
  (forall s, I s -> I {| self := f (self s); viewport := viewport s |}) -> holds I (modify f).
Proof. intros Hf s Hs. exact (Hf s Hs). Qed.

Lemma wlp_change f (Q : unit -> session -> Prop) R s :
  Q tt {| self := f (self s); viewport := viewport s |} -> wlp (modify f) Q R s.
Proof. done. Qed.

Lemma wlp_get_self (Q : ModernDisplayCompositor D -> session -> Prop) R s : Q (self s) s -> wlp get_self Q R s.
Proof. done. Qed.

Lemma holds_for_each {A} I (f : A -> method session string unit) l :
  (forall a, holds I (f a)) -> holds I (for_each f l).
Proof. intros Hf. induction l as [|a l IH]; cbn [for_each]; [apply holds_ret|by apply holds_bind]. Qed.

Lemma holds_viewport {A} I f :
  (forall s, I s -> I {| self := self s; viewport := (f (viewport s)).1 |}) -> holds I (with_viewport (A:=A) f).
Proof.
  intros Hf s Hs. specialize (Hf s Hs). unfold with_viewport. do 2 wlp_step.
  destruct (f (viewport s)) as [v r]. do 2 wlp_step. by apply wlp_lift.
Qed.

(** An invariant that only reads the moves, the queue and the kind of the frame. *)
Definition about_moves (I : session -> Prop) : Prop :=
  forall s s', experimental_moves (self s') = experimental_moves (self s) ->
    deferred_experimental_frames (self s') = deferred_experimental_frames (self s) ->
    experimental_frame (self s') = experimental_frame (self s) -> (viewport s').2 = (viewport s).2 -> I s -> I s'.

Lemma no_moves_about : about_moves no_moves.
Proof. intros s s' Hm Hq _ Hv. unfold no_moves. by rewrite Hm, Hq, Hv. Qed.

Lemma before_atlas_about : about_moves before_atlas.
Proof. intros s s' Hm Hq He Hv [? ?]. split; [by apply (no_moves_about s)|congruence]. Qed.

Ltac holds_step :=
  match goal with
  | |- holds _ get_self => apply holds_get
  | |- holds _ (lift _) => apply holds_lift
  | |- holds _ (mret _) => apply holds_ret
  | |- holds _ (_ ≫= _) => apply holds_bind; [|intros ?]
  | |- holds _ (for_each _ _) => apply holds_for_each; intros ?
  | |- holds _ (match ?x with _ => _ end) => destruct x
  | |- holds _ (ensure_frame _) => unfold ensure_frame
  | |- holds _ (validate_rect _ _ _ _) => unfold validate_rect
  | |- holds _ (write_row _ _) => unfold write_row
  | |- holds _ (push_damage _ _ _ _) => unfold push_damage
  end; cbv zeta.

Section about.
Context (I : session -> Prop) (HI : about_moves I).

Lemma holds_other f :
  (forall c : ModernDisplayCompositor D, experimental_moves (f c) = experimental_moves c /\
     deferred_experimental_frames (f c) = deferred_experimental_frames c /\
     experimental_frame (f c) = experimental_frame c) -> holds I (modify f).
Proof. intros Hf. apply holds_modify. intros s. destruct (Hf (self s)) as (? & ? & ?). by apply HI. Qed.

Lemma holds_move sx sy dx dy w h : holds I (apply_move_rect sx sy dx dy w h).
Proof. unfold apply_move_rect. cbv zeta. repeat holds_step; by apply holds_other. Qed.

Lemma holds_h264 aw ah rs p : holds I (apply_h264_atlas h264_new h264_decode aw ah rs p).
Proof. unfold apply_h264_atlas, blit_atlas_rect. cbv zeta. repeat holds_step; by apply holds_other. Qed.
End about.

Lemma drop_older_suffix id fs n : exists gone, fs = gone ++ (drop_older id fs n).1.
Proof.
  revert n; induction fs as [|f fs IH]; intros n; [by exists []|]. cbn [drop_older].
  case_match; [|by exists []]. destruct (IH (saturating_sub n (queued_bytes f))) as [gone Hg].
  exists (f :: gone). by rewrite Hg at 1.
Qed.

Lemma drop_over_suffix fs n : exists gone, fs = gone ++ (drop_over_limit fs n).1.
Proof.
  revert n; induction fs as [|f fs IH]; intros n; cbn [drop_over_limit]; [exists []; by case_match|].
  case_match; [|by exists []]. destruct (IH (saturating_sub n (queued_bytes f))) as [gone Hg].
  exists (f :: gone). by rewrite Hg at 1.
Qed.

Lemma enqueue_moveless f fs n :
  Forall moveless fs -> moveless f -> Forall moveless (enqueue f fs n).1.
Proof.
  intros Hfs Hf. unfold enqueue.
  set (p := if _ <=? _ then drop_older (frame_id f) fs n else (fs, n)).
  assert (Forall moveless p.1) as Hp.
  { unfold p. case_match; [|done]. destruct (drop_older_suffix (frame_id f) fs n) as [gone Hg].
    rewrite Hg in Hfs. by apply Forall_app in Hfs as [_ ?]. }
  destruct p as [fs1 n1]; cbn in Hp.
  destruct (drop_over_suffix (fs1 ++ [f]) (saturating_add usize_max n1 (queued_bytes f))) as [gone Hg].
  assert (Forall moveless (fs1 ++ [f])) as Hall by (apply Forall_app; split; [done|by apply Forall_singleton]).
  rewrite Hg in Hall. by apply Forall_app in Hall as [_ ?].
Qed.

Lemma holds_queue f : moveless f -> holds no_moves (queue_deferred_experimental_frame f).
Proof.
  intros Hf. apply holds_modify. intros s (Hm & Hq & Hv). unfold no_moves; cbn.
  pose proof (enqueue_moveless f _ (deferred_experimental_bytes (self s)) Hq Hf) as He.
  by destruct (enqueue f _ _) as [q n].
Qed.

Lemma present_traced f s :
  moveless f -> no_moves s ->
  wlp (present_deferred_experimental_frame (traced present_atlas) f)
    (fun _ s' => self s' = self s /\ no_moves s') no_moves s.
Proof.
  intros Hf (Hm & Hq & Hv). unfold present_deferred_experimental_frame, with_viewport. do 2 wlp_step.
  unfold traced. destruct (present_atlas (viewport s).1 f) as [v r]. do 2 wlp_step.
  assert (no_moves {| self := self s; viewport := (v, (viewport s).2 ++ [f]) |}) as Hn.
  { split_and!; try done. cbn. apply Forall_app. split; [done|by apply Forall_singleton]. }
  by apply wlp_lift.
Qed.

Lemma holds_flush_loop fuel : holds no_moves (flush_loop (traced present_atlas) fuel).
Proof.
  induction fuel as [|fuel IH]; [apply holds_lift|]. intros s (Hm & Hq & Hv). cbn [flush_loop]. unfold get_self.
  repeat wlp_step. destruct (deferred_experimental_frames (self s)) as [|f rest] eqn:Hfs; [wlp_step; by rewrite <- Hfs in Hq|].
  apply Forall_cons in Hq as [Hf Hrest]. wlp_step.
  apply wlp_change. wlp_step. eapply wlp_mono; [by apply present_traced| |done]. cbv beta. intros [reason|] s' [Hs' Hn].
  - revert Hn. apply holds_modify. intros s1 (? & ? & ?). split_and!; try done. by apply Forall_cons.
  - by apply IH.
Qed.

Lemma holds_flush : holds no_moves (flush_deferred_experimental_frames (traced present_atlas)).
Proof. apply holds_bind; [apply holds_get|intros ?]. apply holds_flush_loop. Qed.

(** A frame without moves goes to the queue, then to the card. *)
Lemma holds_send_to_card g f :
  (forall c : ModernDisplayCompositor D, experimental_moves (g c) = [] /\
     deferred_experimental_frames (g c) = deferred_experimental_frames c) -> moveless f ->
  holds no_moves (_ ← modify g; _ ← queue_deferred_experimental_frame f;
                  flush_deferred_experimental_frames (traced present_atlas)).
Proof.
  intros Hg Hf. apply holds_bind; [|intros _; apply holds_bind; [by apply holds_queue|intros _; apply holds_flush]].
  apply holds_modify. intros s (Hm & Hq & Hv). destruct (Hg (self s)) as [H1 H2].
  split_and!; cbn; [done|by rewrite H2|done].
Qed.

Lemma holds_end_experimental f : holds no_moves (end_experimental_frame (traced present_atlas) f).
Proof.
  intros s Hs. unfold end_experimental_frame. wlp_step. apply wlp_get_self.
  destruct (_ && _).
  - destruct (negb _); [by apply holds_lift|by apply holds_flush].
  - destruct (experimental_atlas (self s)) as [a|]; [|by apply holds_lift].
    apply holds_send_to_card; [done| |done]. apply Hs.
Qed.

Lemma holds_end f : holds no_moves (end_frame (traced_cached present_cached) (traced present_atlas) f).
Proof.
  unfold end_frame. apply holds_bind; [repeat holds_step|intros _].
  apply holds_bind; [apply holds_get|intros c]. destruct (experimental_frame c).
  - apply holds_bind; [apply holds_end_experimental|intros _]. apply holds_modify. intros s (? & ? & ?). done.
  - cbv zeta. apply holds_bind.
    + apply holds_viewport. intros s Hs. apply (no_moves_about s); try done. unfold traced_cached.
      by destruct (present_cached _ _ _ _).
    + intros _. by apply (holds_other no_moves no_moves_about).
Qed.

Lemma begin_before f w h s :
  no_moves s -> wlp (begin_frame f w h) (fun _ => before_atlas) no_moves s.
Proof.
  intros Hs. unfold begin_frame. destruct (_ || _); [by apply wlp_lift|].
  wlp_step. apply wlp_lift; [done|intros l _]. wlp_step. apply wlp_get_self. wlp_step.
  eapply wlp_mono; [|intros ? s1 Hs1; apply wlp_change; exact Hs1|intros ? Hs1; exact Hs1].
  destruct (_ || _).
  - wlp_step. apply wlp_lift; [done|intros b _]. apply wlp_change. by destruct Hs as (? & ? & ?).
  - wlp_step. by destruct Hs as (? & ? & ?).
Qed.

(** A record is handled by its kind. *)
Ltac by_kind Hbs :=
  unfold handle_record; wlp_step; apply wlp_lift; [done|];
  let r := fresh "r" in let Hr := fresh "Hr" in
  intros r Hr; apply map_err_ok_inv, decode_tag in Hr; rewrite Hr in Hbs; destruct r; try discriminate Hbs.

Lemma handle_begin bs s :
  head bs = Some DISPLAY_RECORD_FRAME_BEGIN -> no_moves s -> wlp (handle bs) (fun _ => before_atlas) no_moves s.
Proof. intros Hbs Hs. by_kind Hbs. by apply begin_before. Qed.

Lemma handle_move bs : head bs = Some DISPLAY_RECORD_MOVE_RECT -> holds before_atlas (handle bs).
Proof.
  intros Hbs s Hs. by_kind Hbs. wlp_step. unfold ensure_frame. wlp_step. apply wlp_get_self.
  apply wlp_lift; [done|intros ? _]. wlp_step. apply wlp_get_self. rewrite (proj2 Hs).
  by apply (holds_move before_atlas before_atlas_about).
Qed.

Lemma holds_validate_atlas aw ah rs : holds no_moves (validate_experimental_atlas aw ah rs).
Proof. unfold validate_experimental_atlas, validate_experimental_rect. repeat holds_step. Qed.

Lemma handle_other bs : head bs <> Some DISPLAY_RECORD_MOVE_RECT -> holds no_moves (handle bs).
Proof.
  intros Hbs s Hs. by_kind Hbs; try done.
  - eapply wlp_mono; [by apply begin_before|by intros ? ? [? _]|done].
  - by apply holds_end.
  - wlp_step. eapply wlp_mono; [by apply begin_before| |done]. intros ? s1 [Hs1 _]. revert Hs1.
    apply holds_bind; [apply holds_get|intros c]. repeat holds_step; by apply (holds_other no_moves no_moves_about).
  - revert Hs. apply holds_bind; [repeat holds_step|intros _]. apply (holds_h264 _ no_moves_about).
  - revert Hs. apply holds_bind; [repeat holds_step|intros _].
    apply holds_bind; [apply holds_modify; by intros ? (? & ? & ?)|intros _].
    apply holds_bind; [apply holds_validate_atlas|intros _]. apply holds_modify. by intros ? (? & ? & ?).
  - revert Hs. apply holds_bind; [repeat holds_step|intros _].
    apply holds_bind; [apply holds_modify; by intros ? (? & ? & ?)|intros _].
    apply holds_bind; [apply holds_validate_atlas|intros _].
    intros s1 Hs1. wlp_step. apply wlp_get_self. cbv zeta. apply holds_send_to_card; [done|apply Hs1|done].
Qed.

(** The viewer follows records whose moves come directly after the start of a frame. *)
Definition follow (first : option bool) (record : list Z) : option bool :=
  match first with
  | None => None
  | Some b =>
      if decide (head record = Some DISPLAY_RECORD_FRAME_BEGIN) then Some true
      else if decide (head record = Some DISPLAY_RECORD_MOVE_RECT) then (if b then Some true else None)
      else Some false
  end.

Definition so_far (first : bool) (s : session) : Prop := if first then before_atlas s else no_moves s.

Lemma so_far_no_moves b s : so_far b s -> no_moves s.
Proof. destruct b; [by intros []|done]. Qed.

Lemma follow_none recs : foldl follow None recs = None.
Proof. by induction recs. Qed.

Lemma handle_follows record b b' s :
  follow (Some b) record = Some b' -> so_far b s -> wlp (handle record) (fun _ => so_far b') no_moves s.
Proof.
  unfold follow. intros Hf Hs. pose proof (so_far_no_moves b s Hs) as Hn. case_decide as Hb.
  - injection Hf as <-. by apply handle_begin.
  - case_decide as Hm.
    + destruct b; [|discriminate]. injection Hf as <-.
      eapply wlp_mono; [by apply handle_move|done|by intros ? [? _]].
    + injection Hf as <-. by apply handle_other.
Qed.

Lemma records_moveless recs b s :
  is_Some (foldl follow (Some b) recs) -> so_far b s -> wlp (for_each handle recs) (fun _ => no_moves) no_moves s.
Proof.
  revert b s; induction recs as [|r recs IH]; intros b s Hr Hs; cbn [for_each]; [by apply wlp_ret, (so_far_no_moves b)|].
  cbn [foldl] in Hr. destruct (follow (Some b) r) as [b'|] eqn:Hf; [|rewrite follow_none in Hr; by destruct Hr].
  wlp_step. eapply wlp_mono; [by eapply handle_follows|intros ? s' Hs'; by apply (IH b')|done].
Qed.
End helper.

(** ** What the helper writes *)

Abbreviation sender := Sender.sender.

Definition followed (b : bool) (s : sender) : Prop := foldl follow (Some false) (Sender.records s) = Some b.
Definition some_followed (s : sender) : Prop := exists b, followed b s.

Section followed.
Context (b : bool) (s : sender) (Hs : followed b s).

Lemma wrote_followed r b' :
  follow (Some b) r = Some b' -> wlp (Sender.write_display_delta r) (fun _ => followed b') some_followed s.
Proof.
  intros Hr. change (followed b' {| Sender.records := Sender.records s ++ [r]; Sender.record_bytes := Sender.record_bytes s |}).
  unfold followed. cbn [Sender.records]. by rewrite foldl_app, Hs.
Qed.

Lemma wrote_then {A} r b' (k : method sender anyhow A) Q :
  follow (Some b) r = Some b' -> (forall s', followed b' s' -> wlp k Q some_followed s') ->
  wlp (_ ← Sender.write_display_delta r; k) Q some_followed s.
Proof. intros Hr Hk. wlp_step. eapply wlp_mono; [by apply wrote_followed|intros ?; apply Hk|done]. Qed.

Lemma counted_then {A} r (k : method sender anyhow A) Q :
  (forall s', followed b s' -> wlp k Q some_followed s') -> wlp (_ ← Sender.count_record r; k) Q some_followed s.
Proof. intros Hk. apply (Hk {| Sender.records := _; Sender.record_bytes := _ |}), Hs. Qed.

Lemma counted_saturating_then {A} r (k : method sender anyhow A) Q :
  (forall s', followed b s' -> wlp k Q some_followed s') ->
  wlp (_ ← Sender.count_record_saturating r; k) Q some_followed s.
Proof. intros Hk. apply (Hk {| Sender.records := _; Sender.record_bytes := _ |}), Hs. Qed.
End followed.

Lemma atlas_followed f aw ah rects cs allow s :
  some_followed s -> wlp (Sender.write_atx2_records f aw ah rects cs allow) (fun _ => some_followed) some_followed s.
Proof.
  intros [b Hs]. unfold Sender.write_atx2_records. destruct (_ =? 0); [wlp_step; by exists b|].
  destruct (_ <=? _).
  - apply (counted_saturating_then b s Hs). intros s1 Hs1. apply (wrote_then b s1 Hs1 _ false); [done|].
    intros s2 Hs2. wlp_step. by exists false.
  - wlp_step. apply wlp_lift; [by exists b|intros chunks _]. cbv zeta. wlp_step.
    eapply wlp_mono; [apply (wlp_for_each some_followed some_followed); [by exists b|]| |done].
    + intros [i c] s1 [b1 Hs1]. apply (counted_saturating_then b1 s1 Hs1). intros s2 Hs2.
      eapply wlp_mono; [apply (wrote_followed b1 s2 Hs2 _ false); done|intros ? ? ?; by exists false|done].
    + intros ? s1 Hs1. by wlp_step.
Qed.

Lemma frame_followed commit f W H moves atlas s :
  some_followed s -> wlp (Sender.send_frame commit f W H moves atlas) (fun _ => some_followed) some_followed s.
Proof.
  intros [b Hs]. unfold Sender.send_frame. cbv zeta. destruct (Sender.frame_unchanged _ _); [by wlp_step; exists b|].
  apply (counted_then b s Hs). intros s1 Hs1. apply (wrote_then b s1 Hs1 _ true); [done|]. intros s2 Hs2.
  wlp_step. eapply wlp_mono; [apply (wlp_for_each (followed true) some_followed); [exact Hs2|]| |done].
  { intros m s3 Hs3. apply (counted_then true s3 Hs3). intros s4 Hs4. by apply (wrote_followed true s4 Hs4). }
  intros ? s3 Hs3. wlp_step. eapply wlp_mono; [apply atlas_followed; by exists true| |done].
  intros n s4 [b4 Hs4]. wlp_step. apply wlp_lift; [by exists b4|intros _ _].
  apply (counted_then b4 s4 Hs4). intros s5 Hs5. apply (wrote_then b4 s5 Hs5 _ false); [done|].
  intros s6 Hs6. wlp_step. by exists false.
Qed.

Lemma bootstrap_followed f w h s :
  some_followed s -> wlp (Sender.send_black_bootstrap_frame f w h) (fun _ => some_followed) some_followed s.
Proof.
  intros [b Hs]. unfold Sender.send_black_bootstrap_frame. cbv zeta. wlp_step.
  apply wlp_lift; [by exists b|intros stream _].
  apply (wrote_then b s Hs _ true); [done|]. intros s1 Hs1.
  apply (wrote_then true s1 Hs1 _ false); [done|]. intros s2 Hs2.
  apply (wrote_then false s2 Hs2 _ false); [done|]. intros s3 Hs3. wlp_step. by exists false.
Qed.

(** What the helper sends: the black frame, and captured frames. *)
Inductive sending :=
  | Bootstrap (frame_id width height : Z)
  | Captured (frame_id desktop_width desktop_height : Z) (move_rects : list Sender.ClippedMoveRect)
      (atlas : Atlas.AtlasReadback).

Definition send commit_delta_reference (x : sending) : method sender anyhow unit :=
  match x with
  | Bootstrap f w h => _ ← Sender.send_black_bootstrap_frame f w h; mret tt
  | Captured f w h moves atlas => _ ← Sender.send_frame commit_delta_reference f w h moves atlas; mret tt
  end.

Lemma sending_followed commit x s :
  some_followed s -> wlp (send commit x) (fun _ => some_followed) some_followed s.
Proof.
  intros Hs. destruct x; cbn [send]; wlp_step.
  - by eapply wlp_mono; [apply bootstrap_followed|..].
  - by eapply wlp_mono; [apply frame_followed|..].
Qed.

(** C34. Whatever the helper sends, a stream of the black frame and of captured frames
    with their moved rectangles, and whatever the window answers, no frame that the
    viewer on Windows hands to the graphics card carries a move: a frame's moves
    precede its atlas on the wire, and the viewer keeps a move for the card only after
    the atlas of the frame. *)
Theorem helper_moves_never_reach_card {D V} h264_new h264_decode present_cached present_atlas
    commit_delta_reference frames n s (v : V) s' r :
  for_each (send commit_delta_reference) frames {| Sender.records := []; Sender.record_bytes := n |} = (s, Ok tt) ->
  for_each (handle_record h264_new h264_decode (traced_cached present_cached) (traced present_atlas))
    (Sender.records s) {| self := new D; viewport := (v, []) |} = (s', r) ->
  safe r ->
  Forall (fun f => moves f = []) (viewport s').2.
Proof.
  intros Hsent Hrun Hr.
  assert (some_followed s) as [b Hs].
  { pose proof (wlp_for_each some_followed some_followed (send commit_delta_reference) frames
      {| Sender.records := []; Sender.record_bytes := n |} (ex_intro _ false eq_refl)
      (fun x s => sending_followed commit_delta_reference x s)) as Hw.
    unfold wlp in Hw. by rewrite Hsent in Hw. }
  pose proof (records_moveless h264_new h264_decode present_cached present_atlas (Sender.records s) false
    {| self := new D; viewport := (v, []) |} (ex_intro _ b Hs)) as Hw.
  unfold wlp in Hw. rewrite Hrun in Hw. destruct r; try done; apply Hw; by split_and!.
Qed.

(** One pixel moved to the right, and a frame whose atlas changes the third one. *)
Definition moved_frame : sending :=
  Captured 7 4 1
    [{| Sender.src_x := 0; Sender.src_y := 0; Sender.dst_x := 1; Sender.dst_y := 0;
        Sender.width := 1; Sender.height := 1 |}]
    {| Atlas.atlas_width := 2; Atlas.atlas_height := 1; Atlas.dirty_rects := [];
       Atlas.tile_commands := xor_stream 2 3; Atlas.fallback_reason := None |}.

Definition sent_moved : sender :=
  fst (for_each (send (fun _ _ => Ok tt)) [Bootstrap 0 4 1; moved_frame]
         {| Sender.records := []; Sender.record_bytes := 0 |}).

Definition presents (v : unit) (_ : DeferredExperimentalFrame) : unit * res string ExperimentalPresentResult :=
  (v, Ok Presented).

Definition shown_moved : session (D:=unit) (V:=unit * list DeferredExperimentalFrame) :=
  fst (for_each (handle_record no_video no_pictures (traced_cached shows_cached) (traced presents))
         (Sender.records sent_moved) {| self := new unit; viewport := (tt, []) |}).

Lemma helper_moves_never_reach_card_witness :
  head <$> Sender.records sent_moved =
    [Some DISPLAY_RECORD_FRAME_BEGIN; Some DISPLAY_RECORD_EXPERIMENTAL_ATLAS_COMMANDS; Some DISPLAY_RECORD_FRAME_END;
     Some DISPLAY_RECORD_FRAME_BEGIN; Some DISPLAY_RECORD_MOVE_RECT;
     Some DISPLAY_RECORD_EXPERIMENTAL_ATLAS_COMMANDS; Some DISPLAY_RECORD_FRAME_END] /\
  frame_id <$> (viewport shown_moved).2 = [1; 7] /\
  Forall (fun f => moves f = []) (viewport shown_moved).2.
Proof.
  split; [vm_compute; reflexivity|]. split; [vm_compute; reflexivity|].
  apply (helper_moves_never_reach_card no_video no_pictures shows_cached presents (fun _ _ => Ok tt)
           [Bootstrap 0 4 1; moved_frame] 0 sent_moved tt shown_moved (Ok tt));
    [vm_compute; reflexivity|vm_compute; reflexivity|exact I].
Defined.
