(* ===== verification/Refresh.v ===== *)
(** The test whether the rectangles of a frame draw the whole desktop
    ([rects_cover_full_desktop] of apps/talos_worker_helper/src/experimental_stream.rs),
    which decides whether the frame counts as a full refresh.  The code compares the
    bounding box and the sum of the areas; the theorem is about the pixels. *)

From S2P Require Import Prelude Bytes Pixels DisplayRecord Atlas Transmit.

Import Sender.

Local Open Scope Z_scope.

(** ** Rectangles as lists of pixels *)

Definition draws_pixel (r : DisplayAtlasRect) (x y : Z) : Prop :=
  in_rect (DisplayRecord.dst_x r) (DisplayRecord.dst_y r) (DisplayRecord.width r) (DisplayRecord.height r) x y = true.

Definition rect_area (r : DisplayAtlasRect) : Z := DisplayRecord.width r * DisplayRecord.height r.

Definition pixels (x0 y0 w h : Z) : list (Z * Z) := seqZ y0 h ≫= fun y => (fun x => (x, y)) <$> seqZ x0 w.

Lemma elem_of_pixels x0 y0 w h x y :
  (x, y) ∈ pixels x0 y0 w h <-> in_rect x0 y0 w h x y = true.
Proof.
  unfold pixels, in_rect. rewrite list_elem_of_bind. split.
  - intros (y' & Hx & Hy). apply list_elem_of_fmap in Hx as (x' & [= -> ->] & Hx).
    apply elem_of_seqZ in Hx, Hy. lia.
  - intros Hin. exists y. split; [apply list_elem_of_fmap; exists x; split; [done|]|]; apply elem_of_seqZ; lia.
Qed.

Lemma pixels_length x0 y0 w h : 0 <= w -> 0 <= h -> Z.of_nat (length (pixels x0 y0 w h)) = w * h.
Proof.
  intros Hw Hh. unfold pixels.
  assert (forall l : list Z, length (l ≫= fun y => (fun x => (x, y)) <$> seqZ x0 w) = (length l * Z.to_nat w)%nat) as ->.
  { induction l as [|y l IH]; [done|]. cbn. by rewrite length_app, length_fmap, length_seqZ, IH. }
  rewrite length_seqZ. nia.
Qed.

Lemma NoDup_bind {A B} (f : A -> list B) l :
  NoDup l -> (forall a, a ∈ l -> NoDup (f a)) ->
  (forall a b c, a ∈ l -> b ∈ l -> c ∈ f a -> c ∈ f b -> a = b) -> NoDup (l ≫= f).
Proof.
  induction 1 as [|a l Ha Hl IH]; intros Hf Hinj; cbn; [constructor|]. apply NoDup_app. split_and!.
  - apply Hf. left.
  - intros c Hc Hc'. apply list_elem_of_bind in Hc' as (b & Hb & Hbl).
    rewrite (Hinj a b c) in Ha; [done|left|by right|done|done].
  - apply IH; [intros; apply Hf; by right|]. intros a' b c ? ?. apply Hinj; by right.
Qed.

Lemma NoDup_pixels x0 y0 w h : NoDup (pixels x0 y0 w h).
Proof.
  apply NoDup_bind; [apply NoDup_seqZ| |].
  - intros y _. apply NoDup_fmap_2; [by intros ? ? [=]|apply NoDup_seqZ].
  - intros y y' c _ _ Hc Hc'. apply list_elem_of_fmap in Hc as (? & -> & _).
    by apply list_elem_of_fmap in Hc' as (? & [= ? ?] & _).
Qed.

Definition rect_pixels (r : DisplayAtlasRect) : list (Z * Z) :=
  pixels (DisplayRecord.dst_x r) (DisplayRecord.dst_y r) (DisplayRecord.width r) (DisplayRecord.height r).

Definition total_area (rects : list DisplayAtlasRect) : Z := foldr (fun r n => rect_area r + n) 0 rects.

(** The fields of a rectangle are machine words. *)
Definition rect_u32 (r : DisplayAtlasRect) : Prop :=
  is_u32 (DisplayRecord.dst_x r) /\ is_u32 (DisplayRecord.dst_y r) /\
  is_u32 (DisplayRecord.width r) /\ is_u32 (DisplayRecord.height r).

Definition rects_apart (r q : DisplayAtlasRect) : Prop := forall x y, draws_pixel r x y -> ~ draws_pixel q x y.

Lemma rects_length rects :
  Forall rect_u32 rects -> Z.of_nat (length (rects ≫= rect_pixels)) = total_area rects.
Proof.
  induction 1 as [|r rects (_ & _ & [? ?] & [? ?]) _ IH]; [done|]. cbn. rewrite length_app.
  unfold rect_pixels at 1. rewrite Nat2Z.inj_add, IH, pixels_length by done. done.
Qed.

Lemma NoDup_rects rects : ForallOrdPairs rects_apart rects -> NoDup (rects ≫= rect_pixels).
Proof.
  induction 1 as [|r rects Hr _ IH]; cbn; [constructor|]. apply NoDup_app. split_and!; [apply NoDup_pixels| |done].
  intros [x y] Hin Hin'. apply list_elem_of_bind in Hin' as (q & Hq & Hql). rewrite Forall_forall in Hr.
  apply elem_of_pixels in Hin, Hq. by apply (Hr q Hql x y).
Qed.

(** ** What the loop computes *)

Definition on_desktop (W H : Z) (r : DisplayAtlasRect) : Prop :=
  DisplayRecord.dst_x r + DisplayRecord.width r <= W /\ DisplayRecord.dst_y r + DisplayRecord.height r <= H.

Definition scan (W H : Z) (e : option extent) (rects : list DisplayAtlasRect) : option extent :=
  foldl (fun e rect => e ← e; extend W H e rect) e rects.

Lemma scan_none W H rects : scan W H None rects = None.
Proof. by induction rects. Qed.

(** The extent [e] encloses the rectangle tightly enough. *)
Record encloses (e : extent) (r : DisplayAtlasRect) : Prop := {
  enc_x : min_x e <= DisplayRecord.dst_x r;
  enc_y : min_y e <= DisplayRecord.dst_y r;
  enc_right : DisplayRecord.dst_x r + DisplayRecord.width r <= max_x e;
  enc_bottom : DisplayRecord.dst_y r + DisplayRecord.height r <= max_y e;
}.

Record widens (W H : Z) (e e' : extent) : Prop := {
  wd_x : 0 <= min_x e' <= min_x e;
  wd_y : 0 <= min_y e' <= min_y e;
  wd_right : max_x e <= max_x e' <= W;
  wd_bottom : max_y e <= max_y e' <= H;
}.

Lemma extend_ok W H e r :
  W <= u32_max -> H <= u32_max -> rect_u32 r ->
  match extend W H e r with
  | None => ~ on_desktop W H r
  | Some e1 => on_desktop W H r /\
      min_x e1 = Z.min (min_x e) (DisplayRecord.dst_x r) /\ min_y e1 = Z.min (min_y e) (DisplayRecord.dst_y r) /\
      max_x e1 = Z.max (max_x e) (DisplayRecord.dst_x r + DisplayRecord.width r) /\
      max_y e1 = Z.max (max_y e) (DisplayRecord.dst_y r + DisplayRecord.height r) /\
      area e1 = Z.min u64_max (area e + rect_area r)
  end.
Proof.
  intros HW HH ([? ?] & [? ?] & [? ?] & [? ?]). unfold extend, checked_add, on_desktop.
  destruct (Z.leb_spec (DisplayRecord.dst_x r + DisplayRecord.width r) u32_max); cbn; [|lia].
  destruct (Z.leb_spec (DisplayRecord.dst_y r + DisplayRecord.height r) u32_max); cbn; [|lia].
  destruct (_ || _) eqn:Hb; cbn; [lia|]. split; [lia|]. done.
Qed.

Lemma total_area_nonneg rects : Forall rect_u32 rects -> 0 <= total_area rects.
Proof.
  induction 1 as [|q l (_ & _ & [? ?] & [? ?]) _ IHl]; [done|].
  change (total_area (q :: l)) with (rect_area q + total_area l). unfold rect_area. nia.
Qed.

Lemma scan_ok W H rects : forall e,
  W <= u32_max -> H <= u32_max -> Forall rect_u32 rects ->
  0 <= min_x e -> 0 <= min_y e -> max_x e <= W -> max_y e <= H -> 0 <= area e <= u64_max ->
  match scan W H (Some e) rects with
  | None => ~ Forall (on_desktop W H) rects
  | Some e' => Forall (on_desktop W H) rects /\ widens W H e e' /\ Forall (encloses e') rects /\
               area e' = Z.min u64_max (area e + total_area rects)
  end.
Proof.
  induction rects as [|r rects IH]; intros e HW HH Hr Hx Hy Hr' Hb Ha.
  { cbn. split; [done|]. split; [constructor; lia|]. split; [done|]. lia. }
  apply Forall_cons in Hr as [Hr Hrs]. pose proof (extend_ok W H e r HW HH Hr) as He.
  pose proof Hr as ([? ?] & [? ?] & [? ?] & [? ?]). pose proof (total_area_nonneg rects Hrs).
  assert (0 <= rect_area r) by (unfold rect_area; nia).
  change (scan W H (Some e) (r :: rects)) with (scan W H (extend W H e r) rects).
  destruct (extend W H e r) as [e1|]; [|rewrite scan_none; intros Hd; by apply Forall_cons in Hd as [? _]].
  destruct He as ([? ?] & E1 & E2 & E3 & E4 & E5). specialize (IH e1 HW HH Hrs). unfold u64_max in *.
  rewrite E1, E2, E3, E4, E5 in IH.
  specialize (IH ltac:(lia) ltac:(lia) ltac:(lia) ltac:(lia) ltac:(lia)).
  destruct (scan W H (Some e1) rects) as [e'|]; [|intros Hd; by apply Forall_cons in Hd as [_ ?]].
  destruct IH as (Hd & [] & Hin & Har). rewrite E1, E2, E3, E4 in *. split; [|split; [|split]].
  - by apply Forall_cons.
  - constructor; lia.
  - apply Forall_cons. split; [constructor; lia|done].
  - rewrite Har. change (total_area (r :: rects)) with (rect_area r + total_area rects). lia.
Qed.

(** ** The test *)

Definition draws_all (rects : list DisplayAtlasRect) (W H : Z) : Prop :=
  forall x y, 0 <= x < W -> 0 <= y < H -> exists r, r ∈ rects /\ draws_pixel r x y.

Section cover.
Context (rects : list DisplayAtlasRect) (W H : Z) (Hr : Forall rect_u32 rects).
Context (HW : is_dim W) (HH : is_dim H).

(** Rectangles that lie apart and are large enough leave nothing out. *)
Lemma area_draws_all :
  ForallOrdPairs rects_apart rects -> Forall (on_desktop W H) rects -> W * H <= total_area rects ->
  draws_all rects W H.
Proof.
  intros Hap Hd Ha x y Hx Hy. pose proof HW. pose proof HH. unfold is_dim in *.
  assert (rects ≫= rect_pixels ≡ₚ pixels 0 0 W H) as Hperm.
  { apply submseteq_length_Permutation.
    - apply NoDup_submseteq; [by apply NoDup_rects|]. intros [px py] Hp.
      apply list_elem_of_bind in Hp as (r & Hp & Hrl). apply elem_of_pixels in Hp. apply elem_of_pixels.
      rewrite Forall_forall in Hr, Hd. destruct (Hr r Hrl) as ([? ?] & [? ?] & _). destruct (Hd r Hrl).
      unfold in_rect in *. lia.
    - pose proof (rects_length rects Hr). pose proof (pixels_length 0 0 W H ltac:(lia) ltac:(lia)). lia. }
  assert ((x, y) ∈ rects ≫= rect_pixels) as Hin by (rewrite Hperm; apply elem_of_pixels; unfold in_rect; lia).
  apply list_elem_of_bind in Hin as (r & Hin & Hrl). exists r. split; [done|]. by apply elem_of_pixels.
Qed.

(** Rectangles that draw everything are large enough. *)
Lemma draws_all_area : draws_all rects W H -> W * H <= total_area rects.
Proof.
  intros Hall. unfold is_dim in *.
  assert (pixels 0 0 W H ⊆+ rects ≫= rect_pixels) as Hsub.
  { apply NoDup_submseteq; [apply NoDup_pixels|]. intros [x y] Hp%elem_of_pixels. unfold in_rect in Hp.
    destruct (Hall x y ltac:(lia) ltac:(lia)) as (r & Hrl & Hd). apply list_elem_of_bind. exists r.
    split; [by apply elem_of_pixels|done]. }
  apply submseteq_length in Hsub. rewrite <- (rects_length rects Hr).
  rewrite <- (pixels_length 0 0 W H) by lia. lia.
Qed.
End cover.

Definition no_extent (W H : Z) : extent := {| min_x := W; min_y := H; max_x := 0; max_y := 0; area := 0 |}.

(** The corners of the desktop are drawn, so the bounding box is the desktop. *)
Lemma draws_all_box rects W H e :
  is_dim W -> is_dim H -> Forall (encloses e) rects -> widens W H (no_extent W H) e -> draws_all rects W H ->
  min_x e = 0 /\ min_y e = 0 /\ max_x e = W /\ max_y e = H.
Proof.
  intros [? ?] [? ?] Hin [] Hall. cbn in *. rewrite Forall_forall in Hin.
  destruct (Hall 0 0 ltac:(lia) ltac:(lia)) as (r & Hr%Hin & Hd).
  destruct (Hall (W - 1) (H - 1) ltac:(lia) ltac:(lia)) as (q & Hq%Hin & Hd').
  destruct Hr, Hq. unfold draws_pixel, in_rect in *. lia.
Qed.

Lemma full_refresh_apart rects W H :
  Forall rect_u32 rects -> is_dim W -> is_dim H -> ForallOrdPairs rects_apart rects ->
  rects_cover_full_desktop rects W H = true <-> Forall (on_desktop W H) rects /\ draws_all rects W H.
Proof.
  intros Hr HW HH Hap. pose proof HW as [? ?]. pose proof HH as [? ?]. unfold u32_max in *.
  unfold rects_cover_full_desktop. fold (no_extent W H). fold (scan W H (Some (no_extent W H)) rects).
  pose proof (scan_ok W H rects (no_extent W H)) as Hs. cbn [min_x min_y max_x max_y area no_extent] in Hs.
  unfold u32_max, u64_max in Hs.
  specialize (Hs ltac:(lia) ltac:(lia) Hr ltac:(lia) ltac:(lia) ltac:(lia) ltac:(lia) ltac:(lia)).
  destruct (scan W H _ rects) as [e|]; [|split; [by destruct (_ || _)|by intros [? _]]].
  destruct Hs as (Hd & Hwd & Hin & Har). assert (W * H <= 18446744073709551615) by nia. split.
  - intros Ht. split; [done|]. apply area_draws_all; try done. destruct (_ || _) in Ht; [done|]. lia.
  - intros [_ Hall]. pose proof (draws_all_area rects W H Hr HW HH Hall).
    destruct (draws_all_box rects W H e HW HH Hin Hwd Hall) as (-> & -> & -> & ->).
    destruct (Hall 0 0 ltac:(lia) ltac:(lia)) as (r & Hrl & _).
    assert (0 < len rects) by (destruct rects; [by apply elem_of_nil in Hrl|rewrite len_cons; pose proof (len_nonneg rects); lia]).
    replace ((len rects =? 0) || (W =? 0) || (H =? 0)) with false by lia. rewrite Har. lia.
Qed.

(** Two opposite corners, counted twice. *)
Definition corners : list DisplayAtlasRect :=
  let corner n := {| DisplayRecord.dst_x := n; DisplayRecord.dst_y := n; DisplayRecord.width := 1;
                     DisplayRecord.height := 1; atlas_x := 0; atlas_y := 0 |} in
  [corner 0; corner 0; corner 1; corner 1].

(** For rectangles that lie apart on the desktop, the comparison of bounding box
    and areas decides exactly whether they are all on the desktop and together draw
    every pixel of it.  For rectangles that overlap it does not: the sum of the areas
    counts a pixel twice, and the test passes with pixels left out. *)
Theorem full_refresh_test :
  (forall rects W H, Forall rect_u32 rects -> is_dim W -> is_dim H -> ForallOrdPairs rects_apart rects ->
     rects_cover_full_desktop rects W H = true <->
     Forall (on_desktop W H) rects /\ draws_all rects W H) /\
  Forall rect_u32 corners /\ rects_cover_full_desktop corners 2 2 = true /\ ~ draws_all corners 2 2.
Proof.
  split; [exact full_refresh_apart|]. split; [|split; [reflexivity|]].
  - repeat (apply Forall_cons_2; [by vm_compute|]). apply Forall_nil_2.
  - intros Hall. destruct (Hall 1 0 ltac:(lia) ltac:(lia)) as (r & Hr & Hd). unfold corners in Hr.
    repeat (apply elem_of_cons in Hr as [->|Hr]; [vm_compute in Hd; discriminate|]). by apply elem_of_nil in Hr.
Qed.

(** Two halves of a desktop. *)
Definition halves : list DisplayAtlasRect :=
  let half n := {| DisplayRecord.dst_x := n; DisplayRecord.dst_y := 0; DisplayRecord.width := 2;
                   DisplayRecord.height := 3; atlas_x := 0; atlas_y := 0 |} in
  [half 0; half 2].

Lemma full_refresh_test_witness : draws_all halves 4 3.
Proof.
  apply (proj1 full_refresh_test halves 4 3); [|by vm_compute|by vm_compute| |reflexivity].
  - repeat (apply Forall_cons_2; [by vm_compute|]). apply Forall_nil_2.
  - repeat constructor. intros x y. unfold draws_pixel, in_rect; cbn. lia.
Defined.
