(* ===== verification/Capture.v ===== *)
(** From the captured desktop to the viewer's screen: the capture side (Atlas.v), the
    records (Transmit.v) and the software compositor (CpuDisplay.v) together.  The
    encoder on the graphics card is a parameter; [Encoder] states what the rest
    relies on. *)

From S2P Require Import Prelude Bytes Pixels DisplayRecord TileStream TileDecode TileMerge Atlas.
From S2P Require Import ViewportCpu CpuDisplay Transmit.

Import Sender Compositor.

Local Open Scope Z_scope.

(** ** What the encoder promises *)

(** The stream [stream] of the commands [cs] encodes the atlas [tex] of the tiles [ts]
    without loss, for a viewer that shows the buffer [prev].  It is well formed; every
    command covers tiles and leaves, where they lie, the pixels of the atlas; a pixel
    of a tile without a command is shown already. *)
Record encodes (tex : picture) (aw ah : Z) (ts : list Tile.TileCommandTile) (prev : list Z) (dw dh : Z)
    (stream : Stream.TileCommandStream) (cs : list Owned.OwnedCommand) : Prop := {
  en_bytes : bytes_ok (Stream.bytes stream);
  en_parse : parse_owned_commands (Stream.bytes stream) = Ok cs;
  en_aligned : Forall aligned_command cs;
  en_solid : Forall solid_exact cs;
  en_count : Stream.command_count stream = len cs;
  en_rects : Stream.copy_rects stream = map Owned.copy_rect cs;
  en_size : 36 + 24 * len cs + len (Stream.bytes stream) <= u32_max;
  en_apart : ForallOrdPairs disjoint_rects cs;
  en_tiles : forall c x y, c ∈ cs -> desktop_rect c x y = true ->
    exists t, t ∈ ts /\ on_tile t x y /\
      Owned.atlas_x c + (x - Owned.desktop_x c) = tile_ax t + (x - tile_dx t) /\
      Owned.atlas_y c + (y - Owned.desktop_y c) = tile_ay t + (y - tile_dy t);
  en_decodes : forall c, c ∈ cs -> exists b,
    decode_owned aw ah (Some prev) dw dh (zeros (aw * ah * 4)) c = Ok b /\
    forall u v, atlas_area c u v = true -> pix aw b u v = tex u v;
  en_skips : forall t x y, t ∈ ts -> on_tile t x y ->
    (exists c, c ∈ cs /\ desktop_rect c x y = true) \/
    pix dw prev x y = tex (tile_ax t + (x - tile_dx t)) (tile_ay t + (y - tile_dy t));
}.

(** An encoder for a viewer that shows [prev]: its answer for sound tiles is such a
    stream.  It may refuse. *)
Class Encoder (prev : list Z)
    (encode : picture -> Z -> Z -> Z -> Z -> Z -> list Tile.TileCommandTile -> bool ->
              res anyhow Stream.TileCommandStream) : Prop := {
  encoder_sound : forall frame wanted a ts delta stream,
    let tex := Atlas.copy_rects_to_texture frame (Atlas.rects a) in
    tiles_sound frame wanted a ts ->
    encode tex (Atlas.width a) (Atlas.height a) (Atlas.frame_width frame) (Atlas.frame_height frame)
      (Atlas.format frame) ts delta = Ok stream ->
    exists cs, encodes tex (Atlas.width a) (Atlas.height a) ts prev (Atlas.frame_width frame)
                 (Atlas.frame_height frame) stream cs;
}.

(** ** The picture after the commands *)

Lemma overlay_inside tile cs col x y v :
  (forall c, c ∈ cs -> desktop_rect c x y = true ->
     tile c (Owned.atlas_x c + (x - Owned.desktop_x c)) (Owned.atlas_y c + (y - Owned.desktop_y c)) = v) ->
  (exists c, c ∈ cs /\ desktop_rect c x y = true) -> overlay tile cs col x y = v.
Proof.
  intros Hv. induction cs as [|c cs IH] using rev_ind; intros (d & Hd & Hin); [by apply elem_of_nil in Hd|].
  rewrite overlay_app, overlay_cons. unfold overlay at 1; cbn [foldl]. unfold blit.
  fold (desktop_rect c x y). destruct (desktop_rect c x y) eqn:Hc.
  - apply Hv; [|done]. apply elem_of_app. right. left.
  - apply IH; [intros; apply Hv; [apply elem_of_app; by left|done]|].
    apply elem_of_app in Hd as [Hd|Hd]; [by exists d|]. apply list_elem_of_singleton in Hd as ->. by rewrite Hc in Hin.
Qed.

Section shown.
Context (frame_ : Atlas.CapturedFrame) (s : ModernDisplayCompositor) (Hwf : wf s).
Context (Hw : width s = Atlas.frame_width frame_) (Hh : height s = Atlas.frame_height frame_).
Context (wanted_ : list Atlas.DirtyRect) (a : Atlas.PackedAtlas) (ts : list Tile.TileCommandTile).
Context (Hts : tiles_sound frame_ wanted_ a ts).
Context (stream : Stream.TileCommandStream) (cs : list Owned.OwnedCommand).

Abbreviation tex := (Atlas.copy_rects_to_texture frame_ (Atlas.rects a)).
Abbreviation aw := (Atlas.width a).
Abbreviation ah := (Atlas.height a).

Context (Hen : encodes tex aw ah ts (bgra s) (width s) (height s) stream cs).

(** A pixel of a tile is the frame's pixel. *)
Lemma tile_pixel_shown t x y :
  t ∈ ts -> on_tile t x y ->
  tex (tile_ax t + (x - tile_dx t)) (tile_ay t + (y - tile_dy t)) = Atlas.texture frame_ x y.
Proof.
  intros Ht [Hx Hy]. destruct Hts. rewrite ts_shows by (done || lia). f_equal; lia.
Qed.

Lemma command_pixel c x y :
  c ∈ cs -> desktop_rect c x y = true ->
  tile s aw ah c (Owned.atlas_x c + (x - Owned.desktop_x c)) (Owned.atlas_y c + (y - Owned.desktop_y c)) =
  Atlas.texture frame_ x y.
Proof.
  intros Hc Hin. destruct Hen. destruct (en_tiles0 c x y Hc Hin) as (t & Ht & Hon & Ex & Ey).
  destruct (en_decodes0 c Hc) as (b & Hb & Hp). unfold tile. rewrite Hb, Hp.
  - rewrite Ex, Ey. by apply tile_pixel_shown.
  - unfold desktop_rect, in_rect in Hin. unfold atlas_area, in_rect. lia.
Qed.

(** What the frame wanted is shown, the rest stays or is the frame's as well. *)
Lemma overlay_shows_frame x y :
  0 <= x < width s -> 0 <= y < height s ->
  (covered wanted_ x y \/ pix (width s) (bgra s) x y = Atlas.texture frame_ x y) ->
  overlay (tile s aw ah) cs (pix (width s) (bgra s)) x y = Atlas.texture frame_ x y.
Proof.
  intros Hx Hy Hor.
  destruct (decide (Exists (fun c => desktop_rect c x y = true) cs)) as [Hex|Hno].
  - apply overlay_inside; [intros; by apply command_pixel|]. by apply Exists_exists in Hex.
  - assert (forall c, c ∈ cs -> desktop_rect c x y = false) as Hout.
    { intros c Hc. destruct (desktop_rect c x y) eqn:Hd; [|done]. destruct Hno. apply Exists_exists. eauto. }
    rewrite overlay_outside by done. destruct Hor as [Hc|Hp]; [|done].
    destruct (ts_covers _ _ _ _ Hts x y Hc) as (t & Ht & Hon).
    destruct (en_skips _ _ _ _ _ _ _ _ _ Hen t x y Ht Hon) as [(c & Hc' & Hin)|Hp].
    + by rewrite Hout in Hin.
    + rewrite Hp. by apply tile_pixel_shown.
Qed.

Lemma commands_on_screen : Forall (on_screen s) (record_rects cs).
Proof.
  unfold record_rects, display_rects_from_copy_rects. rewrite map_map. apply Forall_forall. intros r Hr.
  apply list_elem_of_In, in_map_iff in Hr as (c & <- & Hc%list_elem_of_In). destruct Hen, Hts.
  destruct (en_decodes0 c Hc) as (b & Hb & _). apply accepted_rect in Hb as (Hw0 & Hh0 & _).
  destruct (en_tiles0 c (Owned.desktop_x c + Owned.width c - 1) (Owned.desktop_y c + Owned.height c - 1) Hc)
    as (t & Ht & [Hx Hy] & _); [unfold desktop_rect, in_rect; lia|].
  rewrite Forall_forall in ts_desktop. destruct (ts_desktop t Ht) as (? & ? & ? & ?).
  unfold on_screen, inside; cbn. rewrite Hw, Hh. lia.
Qed.
End shown.

(** ** The records of a frame *)

(** When the frame goes out in chunks, no change lies over an earlier command. *)
Definition chunks_independent (stream : Stream.TileCommandStream) : Prop :=
  EXPERIMENTAL_ATLAS_CHUNK_TARGET_BYTES < len (Stream.bytes stream) ->
  forall cs, parse_owned_commands (Stream.bytes stream) = Ok cs -> ForallOrdPairs independent cs.

Lemma encodes_drawable tex aw ah ts prev dw dh stream cs :
  encodes tex aw ah ts prev dw dh stream cs -> chunks_independent stream -> drawable stream cs.
Proof. intros [] Hi. constructor; try done. intros Hbig. by apply Hi. Qed.

(** The rectangles of the readback are those of the commands. *)
Lemma readback_rects rb :
  Atlas.dirty_rects rb = Atlas.emitted_rect <$> Stream.copy_rects (Atlas.tile_commands rb) ->
  atlas_display_rects rb = display_rects_from_copy_rects (Stream.copy_rects (Atlas.tile_commands rb)).
Proof.
  intros Hr. unfold atlas_display_rects, display_rects_from_copy_rects. rewrite Hr.
  change (Atlas.emitted_rect <$> ?l) with (map Atlas.emitted_rect l). by rewrite map_map.
Qed.

Section records.
Context (decode_all : list Z -> option (list Z)) (s : ModernDisplayCompositor) (Hwf : wf s).

(** Beginning a frame of the size that is shown keeps the picture. *)
Lemma show_begin f :
  is_u64 f -> is_dim (width s) -> is_dim (height s) ->
  show decode_all [build_display_frame_begin f (width s) (height s)] s = (set_frame s (Some f), Ok tt).
Proof.
  intros Hf Hw Hh. apply show_one.
  assert (wf_record (FrameBegin f (width s) (height s))) as Hr by (destruct Hwf as (? & ? & _); done).
  apply decode_built in Hr. unfold encode_record in Hr.
  unfold handle_record. rewrite Hr. unfold mbind, method_bind, lift. cbn [map_err].
  destruct Hwf as (_ & _ & Hfr & _ & Hsz). unfold is_dim, isize_max, u32_max in *.
  assert (Cpu.frame_len (width s) (height s) = Ok (width s * height s * 4)) as Hn.
  { unfold Cpu.frame_len, checked_mul, usize_max, u64_max. rewrite (proj2 (Z.leb_le _ _)) by nia. cbn.
    by rewrite (proj2 (Z.leb_le _ _)) by nia. }
  unfold begin_frame, mbind, method_bind, lift, get, put. rewrite Hn. rewrite !Z.eqb_refl.
  unfold frame in Hfr. rewrite Hfr, Z.eqb_refl. done.
Qed.

Lemma show_end f :
  is_u64 f -> current_frame_id s = Some f ->
  show decode_all [build_display_frame_end f] s = (set_frame s None, Ok tt).
Proof.
  intros Hf Hc. assert (wf_record (FrameEnd f)) as Hr by done.
  apply decode_built in Hr. unfold encode_record in Hr. unfold show; cbn [for_each].
  unfold handle_record. rewrite Hr. unfold mbind, method_bind, lift. cbn [map_err].
  by rewrite (ensure_frame_run f s Hc).
Qed.
End records.

Section send.
Context (decode_all : list Z -> option (list Z)) (s : ModernDisplayCompositor) (Hwf : wf s).
Context (f : Z) (Hf : is_u64 f) (Hw : is_dim (width s)) (Hh : is_dim (height s)).
Context (rb : Atlas.AtlasReadback).
Abbreviation stream := (Atlas.tile_commands rb).
Abbreviation aw := (Atlas.atlas_width rb).
Abbreviation ah := (Atlas.atlas_height rb).
Context (Hrects : Atlas.dirty_rects rb = Atlas.emitted_rect <$> Stream.copy_rects stream).
Context (Haw : is_dim aw) (Hah : is_dim ah) (Hsz : aw * ah * 4 <= isize_max).
Context (cs : list Owned.OwnedCommand) (Hdr : drawable stream cs) (Hsol : Forall solid_exact cs).
Context (Hcount : Stream.command_count stream = len cs).
Context (HD : forall c, c ∈ cs -> exists b,
  decode_owned aw ah (Some (bgra s)) (width s) (height s) (zeros (aw * ah * 4)) c = Ok b).
Context (Hscreen : Forall (on_screen s) (record_rects cs)).
Context (commit : bool -> bool -> res anyhow unit) (Hcommit : forall l r, commit l r = Ok tt).

(** The viewer accepts the records of a frame without moves and draws its commands. *)
Lemma frame_drawn :
  exists recs r s',
    sends (send_frame commit f (width s) (height s) [] rb) recs r /\
    show decode_all recs s = (s', Ok tt) /\ width s' = width s /\ height s' = height s /\
    forall x y, 0 <= x < width s -> 0 <= y < height s ->
      pix (width s) (bgra s') x y = overlay (tile s aw ah) cs (pix (width s) (bgra s)) x y.
Proof.
  unfold send_frame, frame_unchanged. cbv zeta. rewrite Hcount. change (len [] =? 0) with true. rewrite andb_true_r.
  destruct (Z.eqb_spec (len cs) 0) as [H0|H0].
  { apply len_0_nil in H0. rewrite H0. exists [], None, s. split; [apply sends_ret|done]. }
  rewrite readback_rects, (dr_rects _ _ Hdr) by done. fold (record_rects cs).
  destruct (records_drawn decode_all (set_frame s (Some f)) Hwf f Hf eq_refl aw ah Haw Hah Hsz stream cs Hdr Hsol
    HD Hscreen true) as (recs & n & b & Hsend & Hshow & Hwf' & Hb).
  exists ([build_display_frame_begin f (width s) (height s)] ++ recs ++ [build_display_frame_end f]), (Some n),
    (set_frame (set_bgra (set_frame s (Some f)) b) None).
  split; [|split; [|done]].
  - change (recs ++ [?e]) with (recs ++ [] ++ [] ++ [e] ++ []).
    change (sends ?m ([?b] ++ ?l)) with (sends m ([] ++ [b] ++ [] ++ l)).
    repeat (eapply sends_bind; [first [apply sends_count|apply sends_record|exact Hsend|by apply sends_lift|apply sends_ret]|]).
    apply sends_ret.
  - rewrite (show_app decode_all _ _ _ _ (show_begin decode_all s Hwf f Hf Hw Hh)).
    rewrite (show_app decode_all _ _ _ _ Hshow). by apply show_end.
Qed.
End send.

(** What the capture side answers, when it answers. *)
Lemma readback_cases encode frame_ dirty force delta rb :
  0 < Atlas.frame_width frame_ <= u16_max -> 0 < Atlas.frame_height frame_ <= u16_max ->
  Forall (fun r => 0 <= Atlas.left r /\ 0 <= Atlas.top r) dirty ->
  Atlas.copy_dirty_rects_to_compact_atlas encode frame_ dirty force delta = Ok rb ->
  ((forall x y, ~ covered (wanted frame_ dirty force) x y) /\ nothing = Ok rb) \/
  exists a fb ts, encoded encode frame_ delta a fb ts = Ok rb /\
    tiles_sound frame_ (wanted frame_ dirty force) a ts /\
    1 <= Atlas.width a <= 16384 /\ 1 <= Atlas.height a <= 16384.
Proof.
  intros Hw Hh Hd Hrb. destruct (bgra_format_cases (Atlas.format frame_)) as [Hf|Hf].
  2: { unfold Atlas.copy_dirty_rects_to_compact_atlas in Hrb. by rewrite Hf in Hrb. }
  destruct (copy_dirty_rects_cases encode frame_ dirty force delta Hw Hh Hd Hf) as (rs & _ & _ & Hc).
  cbv zeta in Hc. rewrite Hrb in Hc. pose proof (device_limit (Atlas.feature_level frame_)) as [HL _].
  destruct Hc as [(_ & _ & ?)|[(_ & _ & ?)|[[? ?]|(a & fb & ts & ? & ? & ? & ?)]]]; [done|done|by left|].
  right. exists a, fb, ts. split_and!; try done; lia.
Qed.


(** A frame with one new pixel, and an encoder that knows it. *)
Definition new_pixel : list Z := [9; 8; 7; 255].

Definition one_pixel_frame : Atlas.CapturedFrame :=
  {| Atlas.frame_width := 4; Atlas.frame_height := 2; Atlas.format := 87; Atlas.feature_level := 0xb000;
     Atlas.texture := fun x y => if (x =? 1) && (y =? 0) then Some new_pixel else pix 4 (zeros 32) x y |}.

Definition one_pixel_rect : Atlas.DirtyRect :=
  {| Atlas.left := 1; Atlas.top := 0; Atlas.right := 2; Atlas.bottom := 1 |}.

Definition raw_pixel : Owned.OwnedCommand :=
  {| Owned.kind := TILE_COMMAND_RAW_BGRA; Owned.atlas_xy := 0; Owned.desktop_xy := 1;
     Owned.wh := pack_xy 1 1; Owned.changed_count := 1; Owned.payload := new_pixel |}.

Definition raw_pixel_stream : Stream.TileCommandStream :=
  {| Stream.atlas_width := 32; Stream.atlas_height := 32; Stream.descriptor_count := 1;
     Stream.command_count := 1; Stream.byte_len := 60; Stream.raw_equivalent_bytes := 60;
     Stream.delta_bytes_saved_estimate := 0; Stream.copy_rects := [Owned.copy_rect raw_pixel];
     Stream.bytes := stream_header 32 32 1 60 1 ++ enc_command raw_pixel;
     Stream.command_counts := Counts.default |}.

Definition one_pixel_encoder (tex : picture) (aw ah dw dh fmt : Z) (ts : list Tile.TileCommandTile)
    (delta : bool) : res anyhow Stream.TileCommandStream :=
  match ts with
  | [t] =>
      if (aw =? 32) && (ah =? 32) && (dw =? 4) && (dh =? 2) && (tile_ax t =? 0) && (tile_ay t =? 0) &&
         (tile_dx t =? 1) && (tile_dy t =? 0) && (Tile.width t =? 1) && (Tile.height t =? 1) &&
         bool_decide (tex 0 0 = Some new_pixel)
      then Ok raw_pixel_stream else Err "unknown picture"%string
  | _ => Err "unknown picture"%string
  end.

Lemma raw_pixel_decodes :
  exists b, decode_owned 32 32 (Some (zeros 32)) 4 2 (zeros 4096) raw_pixel = Ok b /\
    pix 32 b 0 0 = Some new_pixel.
Proof. eexists. split; [vm_compute; reflexivity|]. vm_compute. reflexivity. Qed.

Lemma raw_pixel_area x y :
  (desktop_rect raw_pixel x y = true <-> x = 1 /\ y = 0) /\
  (atlas_area raw_pixel x y = true <-> x = 0 /\ y = 0).
Proof.
  change (desktop_rect raw_pixel x y) with (in_rect 1 0 1 1 x y).
  change (atlas_area raw_pixel x y) with (in_rect 0 0 1 1 x y). unfold in_rect. lia.
Qed.

#[local] Instance one_pixel_encoder_sound : Encoder (zeros 32) one_pixel_encoder.
Proof.
  constructor. cbv zeta. intros fr w a ts delta stream _. unfold one_pixel_encoder.
  destruct ts as [|t [|? ?]]; [discriminate| |discriminate].
  destruct (_ && bool_decide _) eqn:Hc; [|discriminate]. intros Hs. apply Ok_inj in Hs as <-.
  repeat (apply andb_prop in Hc as [Hc ?]).
  match goal with H : bool_decide _ = true |- _ => apply bool_decide_eq_true in H as Htex end.
  assert (Atlas.width a = 32) as -> by lia. assert (Atlas.height a = 32) as -> by lia.
  assert (Atlas.frame_width fr = 4) as -> by lia. assert (Atlas.frame_height fr = 2) as -> by lia.
  assert (forall x y, on_tile t x y <-> x = 1 /\ y = 0) as Hon by (intros; unfold on_tile; lia).
  exists [raw_pixel].
  constructor; [bytes_check|vm_compute; reflexivity|by repeat constructor|by repeat constructor|reflexivity
    |reflexivity|vm_compute; discriminate|repeat constructor|..].
  - intros c x y Hc' Hin. apply list_elem_of_singleton in Hc' as ->. apply raw_pixel_area in Hin as [-> ->].
    exists t. split; [left|]. split; [by apply Hon|].
    change (Owned.atlas_x raw_pixel) with 0. change (Owned.desktop_x raw_pixel) with 1.
    change (Owned.atlas_y raw_pixel) with 0. change (Owned.desktop_y raw_pixel) with 0. lia.
  - intros c Hc'. apply list_elem_of_singleton in Hc' as ->. destruct raw_pixel_decodes as (b & Hb & Hp).
    exists b. split; [exact Hb|]. intros u v Huv. apply raw_pixel_area in Huv as [-> ->]. by rewrite Hp.
  - intros t' x y Ht' Ht. apply list_elem_of_singleton in Ht' as ->. left. exists raw_pixel.
    split; [left|]. apply raw_pixel_area. by apply Hon.
Qed.

