(* ===== verification/ApplianceConfig.v ===== *)
(** The configuration of the self-hosted server
    (apps/talos_appliance/src/config.rs, network.rs, and parts of images.rs and
    secure_fs.rs): requests, what is stored of them, the secrets, and their checks.
    Paths are those of Unix. *)

From S2P Require Import Prelude Bytes Text.

Local Open Scope Z_scope.

(** ** Strings *)

(** [s.len()], [s.bytes().all(p)], [s.chars().any(p)] *)
Definition str_len (t : text) : Z := len (utf8 t).
Definition bytes_all (p : Z -> bool) (t : text) : bool := forallb p (utf8 t).
Definition chars_any (p : Z -> bool) (t : text) : bool := existsb p t.

(** [s.rsplit_once(p)] *)
Fixpoint rsplit_once (p t : text) : option (text * text) :=
  match t with
  | [] => None
  | c :: t' =>
      match rsplit_once p t' with
      | Some (a, b) => Some (c :: a, b)
      | None => match strip_prefix p t with Some b => Some ([], b) | None => None end
      end
  end.

(** [s.split_once(p)] *)
Fixpoint split_once_str (p t : text) : option (text * text) :=
  match strip_prefix p t with
  | Some b => Some ([], b)
  | None =>
      match t with
      | [] => None
      | c :: t' => match split_once_str p t' with Some (a, b) => Some (c :: a, b) | None => None end
      end
  end.

Definition ends_with (p t : text) : bool := starts_with (reverse p) (reverse t).

Definition is_ascii_digit (b : Z) : bool := within 48 57 b.
Definition is_ascii_alphabetic (b : Z) : bool := within 65 90 b || within 97 122 b.
Definition is_ascii_alphanumeric (b : Z) : bool := is_ascii_digit b || is_ascii_alphabetic b.
Definition is_ascii_hexdigit (b : Z) : bool := is_ascii_digit b || within 65 70 b || within 97 102 b.
Definition is_control (c : Z) : bool := within 0 31 c || within 127 159 c.
Definition one_of (s : string) (c : Z) : bool := existsb (Z.eqb c) (str s).

(** [text.parse::<Ipv4Addr>()], as the number: four decimal octets without leading zeros. *)
Definition octet (t : text) : option Z :=
  if (len t =? 0) || (3 <? len t) || negb (forallb is_ascii_digit t) then None else
  match t with
  | 48 :: _ :: _ => None
  | _ => parse_digits u8_max 0 t
  end.

Definition parse_ipv4 (t : text) : option Z :=
  match split_on 46 t with
  | [a; b; c; d] =>
      a ← octet a; b ← octet b; c ← octet c; d ← octet d;
      Some (((a * 256 + b) * 256 + c) * 256 + d)
  | _ => None
  end.

(** [Ipv4Addr::from(n).to_string()], and a [u8] in decimal. *)
Definition show_u8 (n : Z) : text :=
  if n <? 10 then [48 + n]
  else if n <? 100 then [48 + n / 10; 48 + n mod 10]
  else [48 + n / 100; 48 + n / 10 mod 10; 48 + n mod 10].

Definition show_ipv4 (n : Z) : text :=
  show_u8 (n / 16777216) ++ [46] ++ show_u8 (n / 65536 mod 256) ++ [46] ++
  show_u8 (n / 256 mod 256) ++ [46] ++ show_u8 (n mod 256).

(** The components of a path after its root; empty ones and dots are left out. *)
Definition components (path : text) : list text :=
  List.filter (fun c => negb (bool_decide (c = []) || bool_decide (c = str "."))) (split_on 47 path).

Definition join (dir name : text) : text := dir ++ [47] ++ name.

(** A loop over checks. *)
Definition check_all {A} (f : A -> res anyhow unit) (l : list A) : res anyhow unit :=
  foldM (fun _ a => f a) tt l.

Definition bail_if (b : bool) (e : anyhow) : res anyhow unit := if b then Err e else Ok tt.

Module Config.
Definition CONFIG_SCHEMA_VERSION : Z := 1.
Definition DEFAULT_EDGE_SUBNET : text := str "172.31.240.0/24".
Definition DEFAULT_TRAEFIK_IPV4 : text := str "172.31.240.2".

Record ReleaseImages := { api_backend : text; frontend : text; relay : text; control_server : text }.

Inductive EdgeMode := PublicAcme | CustomCertificate | Local.

Record EdgeConfig := {
  mode : EdgeMode;
  frontend_domain : text; api_domain : text; control_domain : text; relay_domain : text;
  acme_email : option text; acme_ca_server : option text;
  certificate_path : option text; private_key_path : option text;
  http_port : Z; https_port : Z;
  subnet : text; proxy_ipv4 : text }.

Record ExternalDatabaseIdentity := { scheme : text; host : text; port : Z; database_name : text }.

Inductive DatabaseConfig :=
  | Bundled (user database : text)
  | External (identity : ExternalDatabaseIdentity).

Record InstallationConfig := {
  schema_version : Z;
  release_version : text;
  update_channel : text;
  installation_root : text;
  backup_directory : text;
  images : ReleaseImages;
  database : DatabaseConfig;
  edge : EdgeConfig }.

Inductive DatabaseRequest :=
  | BundledRequest (user database : text)
  | ExternalRequest (url : text).

Record InstallRequest := {
  request_schema_version : Z;
  request_release_version : text;
  request_update_channel : text;
  request_images : ReleaseImages;
  request_database : DatabaseRequest;
  request_edge : EdgeConfig;
  request_backup_directory : option text }.

Record SecretInput := { input_database_url : option text }.

Record SecretConfig := {
  secret_schema_version : Z;
  jwt_secret : text;
  app_encryption_key : text;
  rmm_server_api_key : text;
  postgres_password : option text;
  external_database_url : option text }.

#[export] Instance ReleaseImages_eq_dec : EqDecision ReleaseImages.
Proof. solve_decision. Defined.
#[export] Instance EdgeMode_eq_dec : EqDecision EdgeMode.
Proof. solve_decision. Defined.
#[export] Instance EdgeConfig_eq_dec : EqDecision EdgeConfig.
Proof. solve_decision. Defined.
#[export] Instance ExternalDatabaseIdentity_eq_dec : EqDecision ExternalDatabaseIdentity.
Proof. solve_decision. Defined.
#[export] Instance DatabaseConfig_eq_dec : EqDecision DatabaseConfig.
Proof. solve_decision. Defined.
#[export] Instance InstallationConfig_eq_dec : EqDecision InstallationConfig.
Proof. solve_decision. Defined.
#[export] Instance SecretConfig_eq_dec : EqDecision SecretConfig.
Proof. solve_decision. Defined.

(** ** Checks of single values *)

Definition is_repository_byte (b : Z) : bool := is_ascii_alphanumeric b || one_of "./_-:" b.

Definition validate_digest_image (image : text) : res anyhow unit :=
  if (512 <? str_len image) || chars_any is_whitespace image || chars_any (fun c => (c =? 39) || (c =? 34)) image
  then Err "image reference is malformed"%string else
  match rsplit_once (str "@sha256:") image with
  | None => Err "image must be digest-qualified with @sha256"%string
  | Some (repository, digest) =>
      _ ← bail_if (bool_decide (repository = []) || starts_with (str "-") repository ||
                   negb (bytes_all is_repository_byte repository)) "image repository is malformed";
      bail_if (negb (str_len digest =? 64) || negb (bytes_all is_ascii_hexdigit digest))
        "image digest must contain exactly 64 hexadecimal characters"
  end.

Definition values (i : ReleaseImages) : list text :=
  [api_backend i; frontend i; relay i; control_server i].

Definition validate_images (i : ReleaseImages) : res anyhow unit := check_all validate_digest_image (values i).

(** [u32::MAX << (32 - prefix)], and its complement. *)
Definition mask_of (prefix : Z) : Z := wrap_u32 (Z.shiftl u32_max (32 - prefix)).
Definition not_u32 (x : Z) : Z := Z.lxor x u32_max.

Definition validate_proxy_network (subnet proxy : text) : res anyhow unit :=
  '(network_text, prefix_text) ← ok_or (split_once 47 subnet) "edge subnet must use IPv4 CIDR notation"%string;
  network_number ← ok_or (parse_ipv4 network_text) "edge subnet address is invalid"%string;
  prefix ← ok_or (parse_uint u8_max prefix_text) "edge subnet prefix is invalid"%string;
  _ ← bail_if (negb ((16 <=? prefix) && (prefix <=? 28))) "edge subnet prefix must be between /16 and /28";
  proxy_number ← ok_or (parse_ipv4 proxy) "Traefik proxy IPv4 address is invalid"%string;
  let mask := mask_of prefix in
  _ ← bail_if (negb (Z.land network_number (not_u32 mask) =? 0))
        "edge subnet must use its canonical network address";
  bail_if (negb (Z.land proxy_number mask =? network_number) || (proxy_number =? network_number) ||
           (proxy_number =? wrap_u32 (network_number + 1)) ||
           (proxy_number =? Z.lor network_number (not_u32 mask)))
    "Traefik proxy IPv4 address must be a usable address inside the edge subnet".

Definition edge_dynamic_ip_range (subnet proxy : text) : res anyhow text :=
  _ ← validate_proxy_network subnet proxy;
  '(network, prefix) ← ok_or (split_once 47 subnet) "IPv4 CIDR required"%string;
  network ← ok_or (parse_ipv4 network) "invalid IPv4 address syntax"%string;
  prefix ← ok_or (parse_uint u8_max prefix) "invalid digit found in string"%string;
  proxy ← ok_or (parse_ipv4 proxy) "invalid IPv4 address syntax"%string;
  let half := wrap_u32 (Z.shiftl 1 (31 - prefix)) in
  let start := if proxy <? wrap_u32 (network + half) then wrap_u32 (network + half) else network in
  Ok (show_ipv4 start ++ [47] ++ show_u8 (prefix + 1)).

Definition is_label_byte (b : Z) : bool := is_ascii_alphanumeric b || (b =? 45).

Definition validate_label (part : text) : res anyhow unit :=
  bail_if (bool_decide (part = []) || (63 <? str_len part) || starts_with (str "-") part ||
           ends_with (str "-") part || negb (bytes_all is_label_byte part)) "contains an invalid DNS label".

Definition validate_domain (value : text) : res anyhow unit :=
  _ ← bail_if (bool_decide (value = []) || (253 <? str_len value) || ends_with (str ".") value ||
               negb (forallb (fun c => c <? 128) value) || bool_decide (is_Some (parse_ipv4 value)))
        "must be a DNS hostname without a trailing dot";
  check_all validate_label (split_on 46 value).

Definition validate_email (value : text) : res anyhow unit :=
  _ ← bail_if ((254 <? str_len value) || chars_any (fun c => is_control c || is_whitespace c) value ||
               negb (len (List.filter (Z.eqb 64) value) =? 1)) "acme_email is malformed";
  '(_, domain) ← ok_or (split_once 64 value) "acme_email is malformed"%string;
  validate_domain domain.

Definition validate_postgres_identifier (value : text) : res anyhow unit :=
  bail_if (bool_decide (value = []) || (63 <? str_len value) ||
           negb (bytes_all (fun b => is_ascii_alphanumeric b || (b =? 95)) value) ||
           negb (match head (utf8 value) with Some b => is_ascii_alphabetic b | None => false end))
    "must be a safe PostgreSQL identifier".

Definition validate_safe_token (value : text) (max_len : Z) : res anyhow unit :=
  bail_if (bool_decide (value = []) || (max_len <? str_len value) ||
           negb (bytes_all (fun b => is_ascii_alphanumeric b || one_of "._+-" b) value))
    "contains unsupported characters".

(** An absolute path has no leading dot, so only parent components are found. *)
Definition validate_absolute_path (path : text) : res anyhow unit :=
  _ ← bail_if (negb (starts_with (str "/") path)) "must be an absolute path";
  _ ← bail_if (existsb (fun c => bool_decide (c = str "..")) (components path))
        "must not contain traversal components";
  bail_if (chars_any (fun c => is_control c || (c =? 39)) path)
    "contains characters unsupported by the Compose environment file".

(** [random_hex], and the identifier of an installation: hexadecimal digits of random bytes. *)
Definition hex_digit (n : Z) : Z := if n <? 10 then 48 + n else 87 + n.
Definition random_hex (bytes : list Z) : text :=
  concat (map (fun b => [hex_digit (Z.shiftr b 4); hex_digit (Z.land b 15)]) bytes).

(** ** Checks that parse URLs *)

(** What the code reads of a parsed URL of the [url] crate. *)
Record Url := {
  url_scheme : text; url_username : text; url_host_str : option text; url_port : option Z;
  url_path : text; url_fragment : option text; url_query_pairs : list (text * text) }.

Section url.
Context (Url_parse : text -> option Url).

Definition identity_keys : list text :=
  map str ["database"; "dbname"; "host"; "hostaddr"; "port"; "service"; "servicefile"]%string.

(** The last value of a key, as collecting the pairs into a map keeps it. *)
Definition query_get (key : text) (pairs : list (text * text)) : option text :=
  snd <$> List.find (fun p => bool_decide (p.1 = key)) (reverse pairs).

Definition validated_external_database_url (value : text) : res anyhow Url :=
  if (4096 <? str_len value) || chars_any is_control value ||
     chars_any (fun c => (c =? 39) || (c =? 34) || (c =? 36) || (c =? 92)) value
  then Err "external PostgreSQL URL contains unsupported characters"%string else
  parsed ← ok_or (Url_parse value) "external PostgreSQL URL is malformed"%string;
  _ ← bail_if (negb (bool_decide (url_scheme parsed = str "postgres") ||
                     bool_decide (url_scheme parsed = str "postgresql")))
        "external PostgreSQL URL must use postgres or postgresql";
  _ ← bail_if (bool_decide (url_username parsed = []) || bool_decide (url_host_str parsed = None))
        "external PostgreSQL URL must identify a user and host";
  _ ← bail_if (bool_decide (trim_matches 47 (url_path parsed) = []))
        "external PostgreSQL URL must identify a database";
  _ ← bail_if (bool_decide (is_Some (url_fragment parsed))) "external PostgreSQL URL must not contain a fragment";
  let pairs := url_query_pairs parsed in
  _ ← check_all (fun p => bail_if (bool_decide (to_ascii_lowercase p.1 ∈ identity_keys))
        "external PostgreSQL URL must express database identity in its authority and path, not query parameters") pairs;
  _ ← check_all (fun required => bail_if (negb (len (List.filter (fun p => bool_decide (p.1 = required)) pairs) =? 1))
        "external PostgreSQL URL requires exactly one parameter")
        [str "sslmode"; str "connect_timeout"];
  _ ← bail_if (negb (bool_decide (query_get (str "sslmode") pairs ∈
                       (Some <$> [str "require"; str "verify-ca"; str "verify-full"]))))
        "external PostgreSQL URL requires sslmode=require, verify-ca, or verify-full";
  timeout ← ok_or (query_get (str "connect_timeout") pairs)
              "external PostgreSQL URL requires connect_timeout"%string;
  timeout ← ok_or (parse_uint u8_max timeout) "external PostgreSQL connect_timeout must be an integer"%string;
  _ ← bail_if (negb ((1 <=? timeout) && (timeout <=? 30)))
        "external PostgreSQL connect_timeout must be between 1 and 30 seconds";
  Ok parsed.

Definition validate_external_database_url (value : text) : res anyhow unit :=
  _ ← validated_external_database_url value; Ok tt.

Definition from_url (value : text) : res anyhow ExternalDatabaseIdentity :=
  parsed ← validated_external_database_url value;
  host_ ← ok_or (url_host_str parsed) "external PostgreSQL URL must identify a host"%string;
  Ok {| scheme := str "postgresql"; host := to_ascii_lowercase host_;
        port := default 5432 (url_port parsed);
        database_name := drop_while (Z.eqb 47) (url_path parsed) |}.

Definition validate_https_url (value : text) : res anyhow unit :=
  _ ← bail_if ((2048 <? str_len value) || chars_any is_control value) "is malformed";
  parsed ← ok_or (Url_parse value) "is malformed"%string;
  bail_if (negb (bool_decide (url_scheme parsed = str "https")) || bool_decide (url_host_str parsed = None) ||
           negb (bool_decide (url_username parsed = []))) "must be an HTTPS URL without credentials".

Definition domains (e : EdgeConfig) : list text :=
  [frontend_domain e; api_domain e; control_domain e; relay_domain e].

(** The set of the loop, and its insertion. *)
Definition insert_unique (seen : list text) (domain : text) : res anyhow (list text) :=
  let domain := to_ascii_lowercase domain in
  if bool_decide (domain ∈ seen) then Err "each public route must use a distinct domain"%string
  else Ok (domain :: seen).

Definition validate_mode (e : EdgeConfig) : res anyhow unit :=
  match mode e with
  | PublicAcme =>
      _ ← bail_if (negb (http_port e =? 80) || negb (https_port e =? 443))
            "public_acme mode requires host ports 80 and 443";
      email ← ok_or (acme_email e) "public_acme mode requires acme_email"%string;
      _ ← validate_email email;
      _ ← match acme_ca_server e with Some server => validate_https_url server | None => Ok tt end;
      bail_if (bool_decide (is_Some (certificate_path e)) || bool_decide (is_Some (private_key_path e)))
        "public_acme mode must not set certificate paths"
  | CustomCertificate =>
      _ ← bail_if (bool_decide (is_Some (acme_email e)) || bool_decide (is_Some (acme_ca_server e)))
            "custom_certificate mode must not set ACME fields";
      certificate ← ok_or (certificate_path e) "custom_certificate mode requires certificate_path"%string;
      _ ← validate_absolute_path certificate;
      key ← ok_or (private_key_path e) "custom_certificate mode requires private_key_path"%string;
      validate_absolute_path key
  | Local =>
      bail_if (bool_decide (is_Some (acme_email e)) || bool_decide (is_Some (acme_ca_server e)) ||
               bool_decide (is_Some (certificate_path e)) || bool_decide (is_Some (private_key_path e)))
        "local mode generates its own certificate and must not set certificate or ACME fields"
  end.

Definition validate_edge (e : EdgeConfig) : res anyhow unit :=
  _ ← check_all validate_domain (domains e);
  _ ← foldM insert_unique [] (domains e);
  _ ← bail_if ((http_port e =? 0) || (https_port e =? 0) || (http_port e =? https_port e))
        "edge HTTP and HTTPS ports must be distinct non-zero ports";
  _ ← validate_proxy_network (subnet e) (proxy_ipv4 e);
  validate_mode e.

(** ** Requests and secrets *)

Definition validate_and_split (r : InstallRequest) (state_root : text)
    : res anyhow (InstallationConfig * SecretInput) :=
  _ ← bail_if (negb (request_schema_version r =? CONFIG_SCHEMA_VERSION)) "unsupported configuration schema";
  _ ← validate_safe_token (request_release_version r) 64;
  _ ← bail_if (negb (bool_decide (request_update_channel r = str "stable")))
        "update_channel must be 'stable' in this release";
  _ ← validate_images (request_images r);
  _ ← validate_edge (request_edge r);
  _ ← validate_absolute_path state_root;
  let backups := default (join state_root (str "backups")) (request_backup_directory r) in
  _ ← validate_absolute_path backups;
  '(db, input) ← match request_database r with
                 | BundledRequest user db =>
                     _ ← validate_postgres_identifier user;
                     _ ← validate_postgres_identifier db;
                     Ok (Bundled user db, {| input_database_url := None |})
                 | ExternalRequest url =>
                     identity ← from_url url;
                     Ok (External identity, {| input_database_url := Some url |})
                 end;
  Ok ({| schema_version := CONFIG_SCHEMA_VERSION; release_version := request_release_version r;
         update_channel := request_update_channel r; installation_root := state_root;
         backup_directory := backups; images := request_images r; database := db;
         edge := request_edge r |}, input).

Definition is_bundled (d : DatabaseConfig) : bool := match d with Bundled _ _ => true | External _ => false end.

(** The random bytes that an operation draws. *)
Record Entropy := { id_bytes : list Z; jwt_bytes : list Z; key_bytes : list Z; api_bytes : list Z; password_bytes : list Z }.

Definition generate (rng : Entropy) (config : InstallationConfig) (input : SecretInput) : SecretConfig :=
  {| secret_schema_version := CONFIG_SCHEMA_VERSION;
     jwt_secret := random_hex (jwt_bytes rng); app_encryption_key := random_hex (key_bytes rng);
     rmm_server_api_key := random_hex (api_bytes rng);
     postgres_password := if is_bundled (database config) then Some (random_hex (password_bytes rng)) else None;
     external_database_url := input_database_url input |}.

Definition update_database_secret (rng : Entropy) (s : SecretConfig) (config : InstallationConfig)
    (input : SecretInput) : SecretConfig :=
  {| secret_schema_version := secret_schema_version s; jwt_secret := jwt_secret s;
     app_encryption_key := app_encryption_key s; rmm_server_api_key := rmm_server_api_key s;
     postgres_password :=
       if is_bundled (database config)
       then match postgres_password s with
            | None => Some (random_hex (password_bytes rng))
            | Some p => Some p
            end
       else None;
     external_database_url :=
       if is_bundled (database config) then None
       else match input_database_url input with Some u => Some u | None => external_database_url s end |}.

Definition validate_for (s : SecretConfig) (config : InstallationConfig) : res anyhow unit :=
  _ ← bail_if (negb (secret_schema_version s =? CONFIG_SCHEMA_VERSION)) "unsupported protected-secret schema";
  _ ← check_all (fun value => bail_if ((str_len value <? 64) || negb (bytes_all is_ascii_hexdigit value))
        "is malformed") [jwt_secret s; app_encryption_key s; rmm_server_api_key s];
  match database config with
  | Bundled _ _ =>
      password ← ok_or (postgres_password s) "bundled PostgreSQL password is missing"%string;
      bail_if ((str_len password <? 32) || negb (bytes_all is_ascii_hexdigit password))
        "bundled PostgreSQL password is malformed"
  | External identity =>
      url ← ok_or (external_database_url s) "external PostgreSQL URL is missing"%string;
      actual ← from_url url;
      bail_if (negb (bool_decide (actual = identity)))
        "external PostgreSQL URL identity does not match the protected installation configuration"
  end.
End url.

Definition redaction_values (s : SecretConfig) : list text :=
  [jwt_secret s; app_encryption_key s; rmm_server_api_key s] ++
  option_list (postgres_password s) ++ option_list (external_database_url s).
End Config.

(** ** Networks (network.rs) *)

Module Network.
Definition ipv4_range (value : text) : res anyhow (Z * Z) :=
  '(address, prefix) ← ok_or (split_once 47 value) "IPv4 network must use CIDR notation"%string;
  address ← ok_or (parse_ipv4 address) "invalid IPv4 network"%string;
  prefix ← ok_or (parse_uint u8_max prefix) "invalid IPv4 prefix"%string;
  _ ← bail_if (32 <? prefix) "invalid IPv4 prefix";
  let mask := if prefix =? 0 then 0 else Config.mask_of prefix in
  let start := Z.land address mask in
  Ok (start, Z.lor start (Config.not_u32 mask)).

Definition ranges_overlap (left right : Z * Z) : bool := (left.1 <=? right.2) && (right.1 <=? left.2).

(** What Docker reports of a network. *)
Record DockerNetwork := { network_id : text; network_name : text; network_subnets : list text }.

Definition TALOS_EDGE_NETWORK_NAME : text := str "talos-community_talos_edge".

Definition check_subnet (requested : Z * Z) (name existing_subnet : text) : res anyhow unit :=
  match ipv4_range existing_subnet with
  | Ok existing =>
      bail_if (ranges_overlap requested existing &&
               negb (bool_decide (name = TALOS_EDGE_NETWORK_NAME) && bool_decide (requested = existing)))
        "requested Talos edge subnet overlaps existing Docker network"
  | _ => Ok tt
  end.

Definition check_network (requested : Z * Z) (n : DockerNetwork) : res anyhow unit :=
  let id := network_id n in
  _ ← bail_if ((64 <? str_len id) || (str_len id <? 12) || negb (bytes_all is_ascii_hexdigit id))
        "Docker returned a malformed network identifier";
  let name := network_name n in
  _ ← bail_if ((128 <? str_len name) ||
               negb (bytes_all (fun b => is_ascii_alphanumeric b || one_of "._-" b) name))
        "Docker network metadata contains an unsafe name";
  check_all (check_subnet requested name) (network_subnets n).

(** [inventory] is what Docker lists; a failing call is an error before this. *)
Definition validate_docker_network_availability (inventory : list DockerNetwork) (requested_subnet : text)
    : res anyhow unit :=
  requested ← ipv4_range requested_subnet;
  check_all (check_network requested) inventory.
End Network.

Import Config Network.

(** ** Addresses and masks *)

(** A fact about small numbers, checked one by one. *)
Lemma small_cases (P : Z -> bool) lo n i :
  forallb P (seqZ lo n) = true -> lo <= i < lo + n -> P i = true.
Proof.
  rewrite forallb_forall. intros HP Hi. apply HP. apply list_elem_of_In, elem_of_seqZ. lia.
Qed.

Lemma split_on_nonempty c t : split_on c t <> [].
Proof. induction t as [|d t IH]; cbn; [done|]. destruct (split_on c t); [done|]. by case_match. Qed.

Lemma split_on_app c a b :
  Forall (fun x => x <> c) a -> split_on c (a ++ c :: b) = a :: split_on c b.
Proof.
  induction 1 as [|x a Hx _ IH]; cbn [app split_on].
  - rewrite Z.eqb_refl. pose proof (split_on_nonempty c b). by destruct (split_on c b).
  - rewrite IH. by rewrite (proj2 (Z.eqb_neq _ _) Hx).
Qed.

Lemma split_on_none c a : Forall (fun x => x <> c) a -> split_on c a = [a].
Proof. induction 1 as [|x a Hx _ IH]; [done|]. cbn. rewrite IH. by rewrite (proj2 (Z.eqb_neq _ _) Hx). Qed.

Lemma split_once_app c a b : Forall (fun x => x <> c) a -> split_once c (a ++ c :: b) = Some (a, b).
Proof.
  induction 1 as [|x a Hx _ IH]; cbn; [by rewrite Z.eqb_refl|].
  by rewrite (proj2 (Z.eqb_neq _ _) Hx), IH.
Qed.

Definition is_number (t : text) : Prop := Forall (fun c => 48 <= c <= 57) t.

Lemma show_u8_number n : 0 <= n <= 255 -> is_number (show_u8 n).
Proof.
  intros Hn. unfold show_u8. pose proof (Z.mod_pos_bound n 10 ltac:(lia)).
  pose proof (Z.mod_pos_bound (n / 10) 10 ltac:(lia)). pose proof (Z.div_mod n 10 ltac:(lia)).
  pose proof (Z.div_mod n 100 ltac:(lia)). pose proof (Z.mod_pos_bound n 100 ltac:(lia)).
  repeat case_match; repeat constructor; lia.
Qed.

Lemma octet_show n : 0 <= n <= 255 -> octet (show_u8 n) = Some n.
Proof.
  intros Hn. pose proof (small_cases (fun n => bool_decide (octet (show_u8 n) = Some n)) 0 256 n) as Hc.
  cbv beta in Hc. rewrite bool_decide_eq_true in Hc. apply Hc; [vm_compute; reflexivity|lia].
Qed.

Lemma parse_show_u8 n : 0 <= n <= 255 -> parse_uint u8_max (show_u8 n) = Some n.
Proof.
  intros Hn. pose proof (small_cases (fun n => bool_decide (parse_uint u8_max (show_u8 n) = Some n)) 0 256 n) as Hc.
  cbv beta in Hc. rewrite bool_decide_eq_true in Hc. apply Hc; [vm_compute; reflexivity|lia].
Qed.

Lemma number_apart c t : is_number t -> (c < 48 \/ 57 < c) -> Forall (fun x => x <> c) t.
Proof. intros Ht Hc. eapply Forall_impl; [exact Ht|]. cbv beta. lia. Qed.

Lemma parse_show_ipv4 n : is_u32 n -> parse_ipv4 (show_ipv4 n) = Some n.
Proof.
  intros [Hn Hm]. unfold u32_max in Hm. unfold parse_ipv4, show_ipv4.
  pose proof (Z.div_mod n 256 ltac:(lia)). pose proof (Z.mod_pos_bound n 256 ltac:(lia)).
  pose proof (Z.div_mod (n / 256) 256 ltac:(lia)). pose proof (Z.mod_pos_bound (n / 256) 256 ltac:(lia)).
  assert (n / 65536 = n / 256 / 256) as -> by (by rewrite Z.div_div by lia).
  assert (n / 16777216 = n / 256 / 256 / 256) as -> by (by rewrite !Z.div_div by lia).
  pose proof (Z.div_mod (n / 256 / 256) 256 ltac:(lia)). pose proof (Z.mod_pos_bound (n / 256 / 256) 256 ltac:(lia)).
  cbn [app].
  rewrite !split_on_app by (apply number_apart; [apply show_u8_number|]; lia).
  rewrite split_on_none by (apply number_apart; [apply show_u8_number|]; lia).
  rewrite !octet_show by lia. cbn. f_equal. lia.
Qed.

Lemma parse_digits_bound max acc t n : 0 <= acc <= max -> parse_digits max acc t = Some n -> 0 <= n <= max.
Proof.
  revert acc; induction t as [|c t IH]; intros acc Hacc; cbn; [congruence|].
  intros Hn. repeat (apply bind_Some in Hn as (? & ? & Hn)).
  unfold digit, within, checked_mul, checked_add in *. repeat case_match; simplify_eq. apply IH in Hn; lia.
Qed.

Lemma octet_bound t n : octet t = Some n -> 0 <= n <= 255.
Proof.
  unfold octet. intros Hn. assert (parse_digits u8_max 0 t = Some n) as Hp by (repeat case_match; simplify_eq; done).
  by apply parse_digits_bound in Hp.
Qed.

Lemma parse_ipv4_bound t n : parse_ipv4 t = Some n -> is_u32 n.
Proof.
  unfold parse_ipv4. repeat case_match; try discriminate. intros Hn.
  repeat match goal with H : _ ≫= _ = Some _ |- _ => apply bind_Some in H as (? & ?%octet_bound & H) end.
  simplify_eq. unfold is_u32, u32_max. lia.
Qed.

(** A mask leaves the multiples of a power of two. *)
Lemma mask_ones p : 1 <= p <= 32 ->
  mask_of p = Z.ldiff (Z.ones 32) (Z.ones (32 - p)) /\ not_u32 (mask_of p) = Z.ones (32 - p).
Proof.
  intros Hp. pose proof (small_cases (fun p => (mask_of p =? Z.ldiff (Z.ones 32) (Z.ones (32 - p))) &&
    (not_u32 (mask_of p) =? Z.ones (32 - p))) 1 32 p ltac:(vm_compute; reflexivity) ltac:(lia)). lia.
Qed.

Lemma land_mask p n : 1 <= p <= 32 -> is_u32 n -> Z.land n (mask_of p) = n - n mod 2 ^ (32 - p).
Proof.
  intros Hp [Hn Hm]. destruct (mask_ones p Hp) as [-> _]. unfold u32_max in Hm.
  rewrite (Z.ldiff_land (Z.ones 32)), Z.land_assoc, Z.land_ones by lia.
  rewrite Z.mod_small by lia. rewrite <- Z.ldiff_land, Z.ldiff_ones_r by lia.
  rewrite Z.shiftl_mul_pow2, Z.shiftr_div_pow2 by lia. rewrite (Z.div_mod n (2 ^ (32 - p))) at 2; lia.
Qed.

Lemma lor_not_mask p n : 1 <= p <= 32 -> n mod 2 ^ (32 - p) = 0 ->
  Z.lor n (not_u32 (mask_of p)) = n + 2 ^ (32 - p) - 1.
Proof.
  intros Hp Hn. destruct (mask_ones p Hp) as [_ ->].
  assert (Z.land n (Z.ones (32 - p)) = 0) as H0 by (by rewrite Z.land_ones by lia).
  pose proof (Z.add_lor_land n (Z.ones (32 - p))) as Ha. rewrite Z.ones_equiv in *. lia.
Qed.

(** The addresses of a network given by a multiple of its size. *)
Lemma ipv4_range_spec network prefix p n :
  parse_ipv4 network = Some n -> parse_uint u8_max prefix = Some p -> 1 <= p <= 32 ->
  n mod 2 ^ (32 - p) = 0 -> Forall (fun x => x <> 47) network ->
  ipv4_range (network ++ [47] ++ prefix) = Ok (n, n + 2 ^ (32 - p) - 1).
Proof.
  intros Hn Hp Hr Hm H47. unfold ipv4_range. cbn [app]. rewrite split_once_app by done. cbn [ok_or].
  rewrite bind_Ok, Hn. cbn [ok_or]. rewrite bind_Ok, Hp. cbn [ok_or]. rewrite bind_Ok.
  unfold bail_if. rewrite (proj2 (Z.ltb_ge _ _)) by lia. rewrite bind_Ok.
  rewrite (proj2 (Z.eqb_neq _ _)) by lia. cbv zeta.
  rewrite land_mask by (done || by eapply parse_ipv4_bound). rewrite Hm, Z.sub_0_r, lor_not_mask by done. done.
Qed.

Lemma split_once_inv c t a b : split_once c t = Some (a, b) -> t = a ++ c :: b /\ Forall (fun x => x <> c) a.
Proof.
  revert a; induction t as [|d t IH]; intros a; cbn; [done|]. destruct (Z.eqb_spec d c) as [->|Hd].
  - intros [= <- <-]. done.
  - destruct (split_once c t) as [[a' b']|]; [|done]. intros [= <- <-].
    destruct (IH a' eq_refl) as [-> ?]. split; [done|by constructor].
Qed.

(** What [validate_proxy_network] accepts, in numbers. *)
Lemma proxy_network_inv subnet proxy :
  validate_proxy_network subnet proxy = Ok tt ->
  exists network prefix n p x,
    subnet = network ++ [47] ++ prefix /\ Forall (fun c => c <> 47) network /\
    parse_ipv4 network = Some n /\ parse_uint u8_max prefix = Some p /\ parse_ipv4 proxy = Some x /\
    16 <= p <= 28 /\ n mod 2 ^ (32 - p) = 0 /\ n + 1 < x < n + 2 ^ (32 - p) - 1 /\
    is_u32 n /\ n + 2 ^ (32 - p) <= 2 ^ 32.
Proof.
  unfold validate_proxy_network, bail_if. intros Hv.
  destruct (split_once 47 subnet) as [[network prefix]|] eqn:Hs; [|done]. cbn [ok_or] in Hv. rewrite bind_Ok in Hv.
  destruct (parse_ipv4 network) as [n|] eqn:Hn; [|done]. cbn [ok_or] in Hv. rewrite bind_Ok in Hv.
  destruct (parse_uint u8_max prefix) as [p|] eqn:Hp; [|done]. cbn [ok_or] in Hv. rewrite bind_Ok in Hv.
  destruct ((16 <=? p) && (p <=? 28)) eqn:Hr; cbn [negb] in Hv; [|done]. rewrite bind_Ok in Hv.
  destruct (parse_ipv4 proxy) as [x|] eqn:Hx; [|done]. cbn [ok_or] in Hv. rewrite bind_Ok in Hv.
  pose proof (parse_ipv4_bound _ _ Hn) as Hnb. pose proof (parse_ipv4_bound _ _ Hx) as Hxb.
  rewrite land_mask, (proj2 (mask_ones p ltac:(lia))), Z.land_ones in Hv by (done || lia).
  destruct (negb (n mod _ =? 0)) eqn:Hm; [done|]. rewrite bind_Ok in Hv.
  rewrite <- (proj2 (mask_ones p ltac:(lia))), lor_not_mask in Hv by lia.
  destruct (_ || (x =? n + _ - 1)) eqn:Hc; [done|].
  apply split_once_inv in Hs as [-> Hnt]. exists network, prefix, n, p, x.
  assert (0 < 2 ^ (32 - p)) by (apply Z.pow_pos_nonneg; lia).
  pose proof (Z.mod_pos_bound x (2 ^ (32 - p)) ltac:(lia)). pose proof (Z.div_mod n (2 ^ (32 - p)) ltac:(lia)) as Hdm.
  assert (2 ^ 32 = 2 ^ p * 2 ^ (32 - p)) as Hpow by (rewrite <- Z.pow_add_r by lia; f_equal; lia).
  assert (n / 2 ^ (32 - p) < 2 ^ p).
  { apply Z.div_lt_upper_bound; [lia|]. unfold is_u32, u32_max in *. change (2 ^ 32) with 4294967296 in Hpow. lia. }
  assert (n + 2 ^ (32 - p) <= 2 ^ 32) as Hfit by nia.
  assert (2 ^ 4 <= 2 ^ (32 - p)) by (apply Z.pow_le_mono_r; lia).
  rewrite wrap_u32_small in Hc by (unfold is_u32, u32_max in *; change (2 ^ 32) with 4294967296 in Hfit; lia).
  split_and!; try done; lia.
Qed.

Lemma multiple_half n half : 0 < half -> n mod (2 * half) = 0 -> n mod half = 0.
Proof.
  intros Hh Hm. pose proof (Z.div_mod n (2 * half) ltac:(lia)) as Hd. rewrite Hm in Hd.
  replace n with (2 * (n / (2 * half)) * half) by lia. by apply Z.mod_mul; lia.
Qed.

Lemma show_ipv4_apart n : is_u32 n -> Forall (fun c => c <> 47) (show_ipv4 n).
Proof.
  intros [Hn Hm]. unfold show_ipv4, u32_max in *.
  assert (forall k, 0 <= k <= 255 -> Forall (fun c => c <> 47) (show_u8 k)) as Hk
    by (intros k Hk; apply number_apart; [by apply show_u8_number|lia]).
  assert (forall v, 0 <= v mod 256 <= 255) as Hb by (intros v; pose proof (Z.mod_pos_bound v 256 ltac:(lia)); lia).
  assert (0 <= n / 16777216 <= 255).
  { split; [apply Z.div_pos; lia|]. assert (n / 16777216 < 256); [apply Z.div_lt_upper_bound; lia|lia]. }
  repeat (apply Forall_app; split); try (apply Hk; auto); repeat constructor; lia.
Qed.

(** C31. The range from which Docker assigns addresses never contains the address of
    the reverse proxy: it is one half of the network, the one without the proxy, for
    every network and proxy address that the configuration accepts. *)
Theorem dynamic_range_avoids_proxy subnet proxy :
  validate_proxy_network subnet proxy = Ok tt ->
  exists first last x range lo hi,
    ipv4_range subnet = Ok (first, last) /\ parse_ipv4 proxy = Some x /\ first < x < last /\
    edge_dynamic_ip_range subnet proxy = Ok range /\ ipv4_range range = Ok (lo, hi) /\
    first <= lo /\ hi <= last /\ 2 * (hi - lo + 1) = last - first + 1 /\ (x < lo \/ hi < x).
Proof.
  intros Hv. destruct (proxy_network_inv _ _ Hv) as
    (network & prefix & n & p & x & -> & H47 & Hn & Hp & Hx & Hr & Hm & Hin & Hnb & Hfit).
  assert (2 ^ (32 - p) = 2 * 2 ^ (31 - p)) as Hhalf by (rewrite <- Z.pow_succ_r by lia; f_equal; lia).
  assert (0 < 2 ^ (31 - p)) by (apply Z.pow_pos_nonneg; lia). change (2 ^ 32) with 4294967296 in Hfit.
  set (half := 2 ^ (31 - p)) in *. set (start := if x <? n + half then n + half else n).
  exists n, (n + 2 ^ (32 - p) - 1), x, (show_ipv4 start ++ [47] ++ show_u8 (p + 1)), start, (start + half - 1).
  assert (is_u32 start) as Hs by (unfold start, is_u32, u32_max in *; case_match; lia).
  split_and!; try done; try lia; try (unfold start; case_match; lia).
  - apply ipv4_range_spec; try done; lia.
  - unfold edge_dynamic_ip_range. rewrite Hv, bind_Ok. cbn [app]. rewrite split_once_app by done. cbn [ok_or].
    rewrite bind_Ok, Hn. cbn [ok_or]. rewrite bind_Ok, Hp. cbn [ok_or]. rewrite bind_Ok, Hx. cbn [ok_or]. rewrite bind_Ok.
    rewrite Z.shiftl_1_l, (wrap_u32_small (2 ^ _)), wrap_u32_small by (fold half; unfold is_u32, u32_max in *; lia).
    done.
  - replace (start + half - 1) with (start + 2 ^ (32 - (p + 1)) - 1) by (unfold half; f_equal; f_equal; f_equal; lia).
    apply ipv4_range_spec; [by apply parse_show_ipv4|apply parse_show_u8; lia|lia| |].
    + replace (32 - (p + 1)) with (31 - p) by lia. fold half. rewrite Hhalf in Hm. apply multiple_half in Hm; [|lia].
      unfold start. case_match; [|done]. rewrite Z.add_mod, Hm, Z.mod_same by lia. done.
    + by apply show_ipv4_apart.
Qed.

Lemma dynamic_range_avoids_proxy_witness :
  exists first last x range lo hi,
    ipv4_range DEFAULT_EDGE_SUBNET = Ok (first, last) /\ parse_ipv4 DEFAULT_TRAEFIK_IPV4 = Some x /\ first < x < last /\
    edge_dynamic_ip_range DEFAULT_EDGE_SUBNET DEFAULT_TRAEFIK_IPV4 = Ok range /\ ipv4_range range = Ok (lo, hi) /\
    first <= lo /\ hi <= last /\ 2 * (hi - lo + 1) = last - first + 1 /\ (x < lo \/ hi < x).
Proof. apply dynamic_range_avoids_proxy. vm_compute. reflexivity. Defined.

(** ** A sample configuration *)

Module SampleConfig.
Definition sha (c : Z) : text := str "@sha256:" ++ replicate 64 c.

(** A release, told from others by one hexadecimal digit. *)
Definition release (c : Z) : ReleaseImages :=
  {| api_backend := str "api" ++ sha c; frontend := str "frontend" ++ sha c;
     relay := str "relay" ++ sha c; control_server := str "server" ++ sha c |}.

Definition edge : EdgeConfig :=
  {| mode := Local; frontend_domain := str "talos.localhost"; api_domain := str "api.localhost";
     control_domain := str "control.localhost"; relay_domain := str "relay.localhost";
     acme_email := None; acme_ca_server := None; certificate_path := None; private_key_path := None;
     http_port := 8080; https_port := 8443; subnet := DEFAULT_EDGE_SUBNET; proxy_ipv4 := DEFAULT_TRAEFIK_IPV4 |}.

Definition root : text := str "/var/lib/talos-server".

Definition request (c : Z) : InstallRequest :=
  {| request_schema_version := 1; request_release_version := str "0.1." ++ [c]; request_update_channel := str "stable";
     request_images := release c; request_database := BundledRequest (str "talos") (str "talos");
     request_edge := edge; request_backup_directory := None |}.

Definition configured (c : Z) : InstallationConfig :=
  {| Config.schema_version := 1; release_version := str "0.1." ++ [c]; update_channel := str "stable";
     installation_root := root; backup_directory := join root (str "backups"); images := release c;
     database := Bundled (str "talos") (str "talos"); Config.edge := edge |}.

Definition random : Entropy :=
  {| id_bytes := replicate 16 7; jwt_bytes := replicate 32 1; key_bytes := replicate 32 2; api_bytes := replicate 32 3;
     password_bytes := replicate 24 4 |}.
End SampleConfig.
