(* ===== verification/ApplianceEnvironment.v ===== *)
(** The environment file that Docker Compose reads
    (apps/talos_appliance/src/compose.rs, [materialize_environment]). *)

From S2P Require Import Prelude Bytes Text ApplianceConfig.

Import Config.

Local Open Scope Z_scope.

(** [n.to_string()] *)
Fixpoint show_digits (fuel : nat) (n : Z) (rest : text) : text :=
  match fuel with
  | O => rest
  | S fuel => let rest := (48 + n mod 10) :: rest in if n <? 10 then rest else show_digits fuel (n / 10) rest
  end.
Definition show_u64 (n : Z) : text := show_digits 20 n [].

(** [t.replacen(from, to, 1)] *)
Definition replace_first (from to t : text) : text :=
  match split_once_str from t with Some (a, b) => a ++ to ++ b | None => t end.

Module Environment.
Definition public_https_url (domain : text) (port : Z) : text :=
  if port =? 443 then str "https://" ++ domain else str "https://" ++ domain ++ str ":" ++ show_u64 port.

Definition dotenv_quote (value : text) : res anyhow text :=
  _ ← bail_if (chars_any is_control value || existsb (Z.eqb 39) value)
        "configuration value cannot be represented safely in the Compose environment file";
  Ok (str "'" ++ value ++ str "'").

Section environment.
Context (Url_parse : text -> option Url) (root : text).

(** The variables, in the order of the file. *)
Definition fixed_variables (c : InstallationConfig) (s : SecretConfig) (traefik_digest : text) : list (text * text) :=
  [ (str "TALOS_API_BACKEND_IMAGE", api_backend (images c)); (str "TALOS_FRONTEND_IMAGE", frontend (images c));
    (str "TALOS_RELAY_IMAGE", relay (images c)); (str "TALOS_SERVER_IMAGE", control_server (images c));
    (str "TALOS_JWT_SECRET", jwt_secret s); (str "TALOS_APP_ENCRYPTION_KEY", app_encryption_key s);
    (str "TALOS_RMM_SERVER_API_KEY", rmm_server_api_key s);
    (str "TALOS_FRONTEND_DOMAIN", frontend_domain (edge c)); (str "TALOS_API_DOMAIN", api_domain (edge c));
    (str "TALOS_CONTROL_DOMAIN", control_domain (edge c)); (str "TALOS_RELAY_DOMAIN", relay_domain (edge c));
    (str "TALOS_EDGE_SUBNET", subnet (edge c)); (str "TALOS_TRAEFIK_IPV4", proxy_ipv4 (edge c));
    (str "TALOS_TRAEFIK_IMAGE", traefik_digest) ].

Definition derived_variables (c : InstallationConfig) (dynamic_ip_range : text) : list (text * text) :=
  let port := https_port (edge c) in
  let control_url := public_https_url (control_domain (edge c)) port in
  [ (str "TALOS_EDGE_DYNAMIC_RANGE", dynamic_ip_range);
    (str "TALOS_PUBLIC_FRONTEND_URL", public_https_url (frontend_domain (edge c)) port);
    (str "TALOS_PUBLIC_API_URL", public_https_url (api_domain (edge c)) port);
    (str "TALOS_PUBLIC_RMM_API_URL", control_url);
    (str "TALOS_AGENT_SERVER_URL", replace_first (str "https://") (str "wss://") control_url ++ str "/agent/ws");
    (str "TALOS_PUBLIC_RELAY_ADDRESS", relay_domain (edge c) ++ str ":" ++ show_u64 port);
    (str "TALOS_EDGE_HTTP_PORT", show_u64 (http_port (edge c))); (str "TALOS_EDGE_HTTPS_PORT", show_u64 port) ].

Definition database_variables (c : InstallationConfig) (s : SecretConfig) : res anyhow (list (text * text)) :=
  match database c with
  | Bundled user db =>
      password ← ok_or (postgres_password s) "bundled PostgreSQL password is missing"%string;
      Ok [(str "TALOS_POSTGRES_USER", user); (str "TALOS_POSTGRES_DATABASE", db); (str "TALOS_POSTGRES_PASSWORD", password)]
  | External _ =>
      url ← ok_or (external_database_url s) "external PostgreSQL URL is missing"%string;
      Ok [(str "TALOS_DATABASE_URL", url)]
  end.

Definition edge_variables (c : InstallationConfig) : res anyhow (list (text * text)) :=
  match mode (edge c) with
  | PublicAcme =>
      email ← ok_or (acme_email (edge c)) "ACME email is missing"%string;
      Ok ((str "TALOS_ACME_EMAIL", email) ::
          match acme_ca_server (edge c) with Some server => [(str "TALOS_ACME_CA_SERVER", server)] | None => [] end)
  | CustomCertificate =>
      certificate ← ok_or (certificate_path (edge c)) "custom certificate path is missing"%string;
      key ← ok_or (private_key_path (edge c)) "custom private-key path is missing"%string;
      Ok [(str "TALOS_CUSTOM_TLS_CERT_PATH", certificate); (str "TALOS_CUSTOM_TLS_KEY_PATH", key)]
  | Local =>
      let directory := join root (str "local-tls") in
      Ok [(str "TALOS_LOCAL_TLS_CERT_PATH", join directory (str "certificate.pem"));
          (str "TALOS_LOCAL_TLS_KEY_PATH", join directory (str "private-key.pem"))]
  end.

Definition environment_variables (c : InstallationConfig) (s : SecretConfig) (traefik_digest : text)
    : res anyhow (list (text * text)) :=
  _ ← validate_images (images c);
  _ ← validate_for Url_parse s c;
  _ ← validate_digest_image traefik_digest;
  dynamic_ip_range ← edge_dynamic_ip_range (subnet (edge c)) (proxy_ipv4 (edge c));
  db ← database_variables c s;
  tls ← edge_variables c;
  Ok (fixed_variables c s traefik_digest ++ derived_variables c dynamic_ip_range ++ db ++ tls).

Definition push_variable (output : text) (kv : text * text) : res anyhow text :=
  q ← dotenv_quote kv.2; Ok (output ++ kv.1 ++ str "=" ++ q ++ [10]).

Definition file_heading : text := str "# Generated by talos-server. Contains secrets; do not share." ++ [10].

Definition environment_file (c : InstallationConfig) (s : SecretConfig) (traefik_digest : text) : res anyhow text :=
  variables ← environment_variables c s traefik_digest;
  foldM push_variable file_heading variables.
End environment.
End Environment.

Import Environment.

(** ** Reading the file back *)

(** A line of such a file: a comment, or an assignment of a value in single quotes, which
    stand for themselves up to the closing one. *)
Definition read_line (line : text) : option (text * text) :=
  if starts_with (str "#") line then None else
  match split_once 61 line with
  | Some (key, q) => v ← strip_prefix (str "'") q; '(v, rest) ← split_once 39 v; if bool_decide (rest = []) then Some (key, v) else None
  | None => None
  end.
Definition read_environment (file : text) : list (text * text) := omap read_line (split_on 10 file).

(** A name of a variable. *)
Definition is_name (key : text) : bool := forallb (fun c => within 48 57 c || within 65 90 c || (c =? 95)) key.

Definition assignment (kv : text * text) : text := kv.1 ++ [61; 39] ++ kv.2 ++ [39].

(** A value that keeps within its quotes and its line. *)
Definition contained (v : text) : Prop := Forall (fun c => is_control c = false /\ c <> 39) v.

Lemma dotenv_quote_inv v q : dotenv_quote v = Ok q -> q = [39] ++ v ++ [39] /\ contained v.
Proof.
  unfold dotenv_quote, bail_if. destruct (_ || _) eqn:H; [done|]. intros [= <-]. split; [done|].
  apply orb_false_iff in H as [Hc Hq]. unfold chars_any in Hc. apply Forall_forall. intros c Hin. split.
  - destruct (is_control c) eqn:E; [|done]. exfalso. revert Hc. apply eq_true_false_abs, existsb_exists.
    exists c. by rewrite <- list_elem_of_In.
  - intros ->. revert Hq. apply eq_true_false_abs, existsb_exists. exists 39. by rewrite <- list_elem_of_In.
Qed.

Lemma push_variables_inv variables output file :
  foldM push_variable output variables = Ok file ->
  file = output ++ concat (map (fun kv => assignment kv ++ [10]) variables) /\ Forall (fun kv => contained kv.2) variables.
Proof.
  revert output. induction variables as [|[k v] variables IH]; intros output H; cbn [foldM] in H.
  { injection H as <-. by rewrite app_nil_r. }
  res_inv. match goal with H : push_variable _ _ = _ |- _ => unfold push_variable in H end. res_inv.
  match goal with H : dotenv_quote _ = _ |- _ => apply dotenv_quote_inv in H as [-> ?] end.
  destruct (IH _ Hk) as [-> ?]. split; [|by constructor]. cbn [map concat]. unfold assignment. cbn [fst snd].
  by rewrite <- !app_assoc.
Qed.

Lemma name_apart c key : is_name key = true -> (within 48 57 c || within 65 90 c || (c =? 95)) = false -> Forall (fun x => x <> c) key.
Proof.
  unfold is_name. rewrite forallb_forall. intros H Hc. apply Forall_forall. intros x Hx%list_elem_of_In ->.
  rewrite H in Hc; done.
Qed.

Lemma contained_apart v : contained v -> Forall (fun x => x <> 10) v /\ Forall (fun x => x <> 39) v.
Proof. intros H. split; eapply Forall_impl; [exact H| |exact H|]; cbn; [|by intros x []]. by intros x [Hx _] ->. Qed.

Lemma assignment_line key v :
  is_name key = true -> contained v ->
  Forall (fun x => x <> 10) (assignment (key, v)) /\ read_line (assignment (key, v)) = Some (key, v).
Proof.
  intros Hk [Hn Hq]%contained_apart. unfold assignment. cbn [fst snd].
  pose proof (name_apart 10 key Hk ltac:(done)). pose proof (name_apart 61 key Hk ltac:(done)).
  pose proof (name_apart 35 key Hk ltac:(done)) as H35. split.
  - repeat (apply Forall_app; split); try done; repeat constructor; lia.
  - unfold read_line.
    assert (starts_with (str "#") (key ++ [61; 39] ++ v ++ [39]) = false) as ->.
    { destruct key as [|x key]; [done|]. apply Forall_cons in H35 as [Hx _]. unfold starts_with. change (str "#") with [35].
      cbn [app strip_prefix]. by rewrite (proj2 (Z.eqb_neq 35 x)). }
    cbn [app]. rewrite split_once_app by done. change (str "'") with [39]. cbn [strip_prefix].
    change (39 =? 39) with true. cbn [mbind option_bind]. by rewrite split_once_app.
Qed.

Lemma read_assignments variables :
  Forall (fun kv => is_name kv.1 = true) variables -> Forall (fun kv => contained kv.2) variables ->
  read_environment (concat (map (fun kv => assignment kv ++ [10]) variables)) = variables.
Proof.
  unfold read_environment. induction variables as [|[k v] variables IH]; intros Hk Hv; [done|].
  apply Forall_cons in Hk as [Hk Hks], Hv as [Hv Hvs]. destruct (assignment_line k v Hk Hv) as [H10 Hr].
  cbn [map concat]. rewrite <- app_assoc. cbn [app]. rewrite split_on_app by done. cbn [omap list_omap]. by rewrite Hr, IH.
Qed.

Section names.
Context (Url_parse : text -> option Url) (root : text).

Lemma environment_names c s d variables :
  environment_variables Url_parse root c s d = Ok variables -> Forall (fun kv => is_name kv.1 = true) variables.
Proof.
  unfold environment_variables. intros H. res_inv. repeat (apply Forall_app; split).
  - by repeat constructor.
  - by repeat constructor.
  - unfold database_variables in *. destruct (database c); res_inv; by repeat constructor.
  - unfold edge_variables in *. destruct (mode (edge c)); res_inv; try (by repeat constructor).
    destruct (acme_ca_server (edge c)); by repeat constructor.
Qed.

End names.

Module SampleEnvironment.
Import SampleConfig.
Definition secrets : SecretConfig := generate random (configured 49) {| input_database_url := None |}.
Definition traefik : text := str "traefik" ++ sha 48.
Definition made : res anyhow text := environment_file (fun _ => None) root (configured 49) secrets traefik.
Definition file : text := match made with Ok t => t | _ => [] end.
End SampleEnvironment.

