(* ===== verification/ApplianceCli.v ===== *)
(** The command line of the launcher of the self-hosted server
    (apps/talos_appliance/src/cli.rs). *)

From S2P Require Import Prelude Bytes Text ApplianceConfig.

Local Open Scope Z_scope.

(** An [OsString] is a list of bytes, and [to_str] wants UTF-8. *)
Definition OsString : Type := list Z.

(** secure_fs.rs *)
Definition validate_backup_name (n : text) : res anyhow unit :=
  bail_if (bool_decide (n = []) || (96 <? str_len n) || bool_decide (n = str ".") || bool_decide (n = str "..") ||
           negb (bytes_all (fun b => is_ascii_alphanumeric b || one_of "._-" b) n))
    "backup name must contain only letters, numbers, dot, underscore, and hyphen".

Module Cli.
Inductive CliCommand :=
  | Quickstart (config : OsString)
  | Install (config : OsString) (external_database_backup : option OsString)
  | Start
  | Stop
  | Status
  | Update (config : OsString) (external_database_backup : option OsString)
  | Backup (name : option text) (external_database_backup : option OsString)
  | Restore (backup_name confirmation : text) (external_database_restored : bool)
  | Diagnostics (name : option text)
  | Uninstall (remove_data : bool) (confirmation : option text)
  | Help.

Record Cli := { state_dir : OsString; docker_path : option OsString; command : CliCommand }.

Definition required_option_value (value : option OsString) : res anyhow OsString :=
  ok_or value "requires a value"%string.

Definition set_once_path (target : option OsString) (value : OsString) : res anyhow (option OsString) :=
  match target with Some _ => Err "may be specified only once"%string | None => Ok (Some value) end.

Definition set_once_string (target : option text) (value : OsString) : res anyhow (option text) :=
  v ← ok_or (from_utf8 value) "value must be valid Unicode"%string;
  match target with Some _ => Err "may be specified only once"%string | None => Ok (Some v) end.

Definition require_no_arguments (arguments : list OsString) : res anyhow unit :=
  bail_if (negb (bool_decide (arguments = []))) "this command does not accept arguments".

Definition takes_no_value (key : text) : bool :=
  bool_decide (key = str "--remove-data") || bool_decide (key = str "--external-database-restored").

(** The variables that the visitor captures are a state that it returns. *)
Fixpoint parse_options {S} (visitor : text -> option OsString -> S -> res anyhow S) (arguments : list OsString) (s : S)
    : res anyhow S :=
  match arguments with
  | [] => Ok s
  | argument :: rest =>
      key ← ok_or (from_utf8 argument) "option names must be valid Unicode"%string;
      _ ← bail_if (negb (starts_with (str "--") key)) "unexpected positional argument";
      if takes_no_value key then s ← visitor key None s; parse_options visitor rest s
      else match rest with
           | [] => Err "requires a value"%string
           | value :: rest => s ← visitor key (Some value) s; parse_options visitor rest s
           end
  end.

(** The visitors of the commands with options. *)
Definition config_visitor (with_backup : bool) (key : text) (value : option OsString) (s : option OsString * option OsString)
    : res anyhow (option OsString * option OsString) :=
  if bool_decide (key = str "--config")
  then v ← required_option_value value; c ← set_once_path s.1 v; Ok (c, s.2)
  else if with_backup && bool_decide (key = str "--external-database-backup")
  then v ← required_option_value value; b ← set_once_path s.2 v; Ok (s.1, b)
  else Err "unknown option"%string.

Definition name_visitor (with_backup : bool) (key : text) (value : option OsString) (s : option text * option OsString)
    : res anyhow (option text * option OsString) :=
  if bool_decide (key = str "--name")
  then v ← required_option_value value;
       n ← set_once_string s.1 v;
       _ ← validate_backup_name (default [] n);
       Ok (n, s.2)
  else if with_backup && bool_decide (key = str "--external-database-backup")
  then v ← required_option_value value; b ← set_once_path s.2 v; Ok (s.1, b)
  else Err "unknown option"%string.

Definition confirm_visitor (flag : text) (key : text) (value : option OsString) (s : option text * bool)
    : res anyhow (option text * bool) :=
  if bool_decide (key = str "--confirm")
  then v ← required_option_value value; c ← set_once_string s.1 v; Ok (c, s.2)
  else if bool_decide (key = flag)
  then _ ← bail_if (bool_decide (is_Some value) || s.2) "may be specified only once without a value"; Ok (s.1, true)
  else Err "unknown option"%string.

Definition parse_command (name : text) (arguments : list OsString) : res anyhow CliCommand :=
  if bool_decide (name = str "help") then _ ← require_no_arguments arguments; Ok Help
  else if bool_decide (name = str "install") then
    '(c, b) ← parse_options (config_visitor true) arguments (None, None);
    c ← ok_or c "--config is required"%string; Ok (Install c b)
  else if bool_decide (name = str "quickstart") then
    '(c, _) ← parse_options (config_visitor false) arguments (None, None);
    c ← ok_or c "--config is required"%string; Ok (Quickstart c)
  else if bool_decide (name = str "start") then _ ← require_no_arguments arguments; Ok Start
  else if bool_decide (name = str "stop") then _ ← require_no_arguments arguments; Ok Stop
  else if bool_decide (name = str "status") then _ ← require_no_arguments arguments; Ok Status
  else if bool_decide (name = str "update") then
    '(c, b) ← parse_options (config_visitor true) arguments (None, None);
    c ← ok_or c "--config is required"%string; Ok (Update c b)
  else if bool_decide (name = str "backup") then
    '(n, b) ← parse_options (name_visitor true) arguments (None, None); Ok (Backup n b)
  else if bool_decide (name = str "restore") then
    n ← ok_or (head arguments ≫= from_utf8) "restore requires one backup name"%string;
    _ ← validate_backup_name n;
    '(confirmation, restored) ←
      parse_options (confirm_visitor (str "--external-database-restored")) (tail arguments) (None, false);
    confirmation ← ok_or confirmation "restore requires --confirm <installation-id>"%string;
    Ok (Restore n confirmation restored)
  else if bool_decide (name = str "diagnostics") then
    '(n, _) ← parse_options (name_visitor false) arguments (None, None); Ok (Diagnostics n)
  else if bool_decide (name = str "uninstall") then
    '(confirmation, remove) ← parse_options (confirm_visitor (str "--remove-data")) arguments (None, false);
    _ ← bail_if (remove && negb (bool_decide (is_Some confirmation))) "--remove-data requires --confirm <installation-id>";
    _ ← bail_if (negb remove && bool_decide (is_Some confirmation)) "--confirm is valid only with --remove-data";
    Ok (Uninstall remove confirmation)
  else Err "unknown command; run talos-server help"%string.

(** The loop over the global options: the two paths, the command and what follows it. *)
Fixpoint parse_globals (arguments : list OsString) (dir docker : option OsString)
    : res anyhow (option OsString * option OsString * text * list OsString) :=
  match arguments with
  | [] => Ok (dir, docker, str "help", [])
  | argument :: rest =>
      t ← ok_or (from_utf8 argument) "command and option names must be valid Unicode"%string;
      if bool_decide (t = str "--state-dir") then
        match rest with
        | [] => Err "--state-dir requires a value"%string
        | v :: rest => dir ← set_once_path dir v; parse_globals rest dir docker
        end
      else if bool_decide (t = str "--docker") then
        match rest with
        | [] => Err "--docker requires a value"%string
        | v :: rest => docker ← set_once_path docker v; parse_globals rest dir docker
        end
      else if bool_decide (t = str "-h") || bool_decide (t = str "--help") || bool_decide (t = str "help")
      then Ok (dir, docker, str "help", rest)
      else if starts_with (str "-") t then Err "unknown global option"%string
      else Ok (dir, docker, t, rest)
  end.

(** [default_state_root] is a constant on Unix, and comes from the environment on Windows;
    it is evaluated in every case. *)
Definition parse (default_state_root : res anyhow OsString) (arguments : list OsString) : res anyhow Cli :=
  '(dir, docker, name, remaining) ← parse_globals arguments None None;
  root ← default_state_root;
  c ← parse_command name remaining;
  Ok {| state_dir := default root dir; docker_path := docker; command := c |}.
End Cli.
