(* ===== verification/Appliance.v ===== *)
(** The launcher of the self-hosted server (apps/talos_appliance/src): the deployment
    journal (state.rs), backups (backup.rs) and the operations that install, start,
    stop, update, back up, restore and remove an installation (orchestrator.rs,
    quickstart.rs).

    An operation is a sequence of steps on protected files, on Docker and on the
    database.  Each step can succeed, fail, or be the last one of the process, with
    its effect done or not; see [effect]. *)

From S2P Require Import Prelude Bytes Text ApplianceConfig ApplianceEnvironment ApplianceCli.

Import Config.

Local Open Scope Z_scope.

(** ** The deployment journal (state.rs) *)

Module Journal.
Definition STATE_SCHEMA_VERSION : Z := 1.

Record ResolvedImage := { digest : text; version : text; resolved_at_unix : Z }.

Record DeploymentVersion := { config : InstallationConfig; traefik : ResolvedImage }.

Inductive Lifecycle :=
  | Installing | Running | Stopped | FailedRecoverable | RestoreRequired | UninstalledDataPreserved.

Inductive OperationKind := Install | Update | Restore.

Inductive Checkpoint :=
  | ConfigurationStored | AssetsMaterialized | PrerequisitesReady | ImagesResolved | DatabaseReady
  | PreflightPassed | BackupVerified | MigrationStarted | MigrationCompleted | ServicesStarted
  | EdgeReady | Healthy.

Record OperationJournal := {
  kind : OperationKind;
  op_checkpoint : Checkpoint;
  started_at_unix : Z;
  backup_name : option text;
  application_images_changed : bool }.

Record DeploymentState := {
  schema_version : Z;
  installation_id : text;
  lifecycle : Lifecycle;
  current : option DeploymentVersion;
  previous_good : option DeploymentVersion;
  operation : option OperationJournal;
  last_verified_backup : option text;
  last_transition_unix : Z }.

Inductive RollbackDecision :=
  | RestorePreviousConfigurationAndRestart | RollBackTraefikOnly | StopAndRestoreVerifiedBackup.

#[export] Instance Lifecycle_eq_dec : EqDecision Lifecycle.
Proof. solve_decision. Defined.
#[export] Instance OperationKind_eq_dec : EqDecision OperationKind.
Proof. solve_decision. Defined.

(** The derived order of the checkpoints. *)
Definition checkpoint_index (c : Checkpoint) : Z :=
  match c with
  | ConfigurationStored => 0 | AssetsMaterialized => 1 | PrerequisitesReady => 2 | ImagesResolved => 3
  | DatabaseReady => 4 | PreflightPassed => 5 | BackupVerified => 6 | MigrationStarted => 7
  | MigrationCompleted => 8 | ServicesStarted => 9 | EdgeReady => 10 | Healthy => 11
  end.
Definition checkpoint_lt (a b : Checkpoint) : bool := checkpoint_index a <? checkpoint_index b.

(** Changing single fields. *)
Definition set_version v p st : DeploymentState :=
  {| schema_version := schema_version st; installation_id := installation_id st; lifecycle := lifecycle st;
     current := v; previous_good := p; operation := operation st;
     last_verified_backup := last_verified_backup st; last_transition_unix := last_transition_unix st |}.
Definition set_operation l o st : DeploymentState :=
  {| schema_version := schema_version st; installation_id := installation_id st; lifecycle := l;
     current := current st; previous_good := previous_good st; operation := o;
     last_verified_backup := last_verified_backup st; last_transition_unix := last_transition_unix st |}.
Definition set_backup b st : DeploymentState :=
  {| schema_version := schema_version st; installation_id := installation_id st; lifecycle := lifecycle st;
     current := current st; previous_good := previous_good st; operation := operation st;
     last_verified_backup := b; last_transition_unix := last_transition_unix st |}.
Definition set_transition t st : DeploymentState :=
  {| schema_version := schema_version st; installation_id := installation_id st; lifecycle := lifecycle st;
     current := current st; previous_good := previous_good st; operation := operation st;
     last_verified_backup := last_verified_backup st; last_transition_unix := t |}.

Definition with_pending_config (c : InstallationConfig) (st : DeploymentState) : DeploymentState :=
  set_version (Some {| config := c; traefik := {| digest := []; version := []; resolved_at_unix := 0 |} |})
    (previous_good st) st.

Definition new_install (rng : Entropy) (now : Z) (c : InstallationConfig) : DeploymentState :=
  with_pending_config c
    {| schema_version := STATE_SCHEMA_VERSION; installation_id := random_hex (id_bytes rng);
       lifecycle := Installing; current := None; previous_good := None;
       operation := Some {| kind := Install; op_checkpoint := ConfigurationStored; started_at_unix := now;
                            backup_name := None; application_images_changed := true |};
       last_verified_backup := None; last_transition_unix := now |}.

Definition validate (st : DeploymentState) (expected_root : text) : res anyhow unit :=
  _ ← bail_if (negb (schema_version st =? STATE_SCHEMA_VERSION)) "unsupported deployment-state schema";
  _ ← bail_if (negb (str_len (installation_id st) =? 32) || negb (bytes_all is_ascii_hexdigit (installation_id st)))
        "deployment state contains an invalid installation identifier";
  _ ← match current st with
      | Some v =>
          _ ← bail_if (negb (bool_decide (installation_root (config v) = expected_root)))
                "deployment state belongs to a different installation root";
          _ ← validate_images (images (config v));
          if bool_decide (digest (traefik v) = []) then Ok tt else validate_digest_image (digest (traefik v))
      | None => Ok tt
      end;
  match previous_good st with
  | Some p => _ ← validate_images (images (config p)); validate_digest_image (digest (traefik p))
  | None => Ok tt
  end.

Definition pending_version (st : DeploymentState) : res anyhow DeploymentVersion :=
  ok_or (current st) "deployment state has no configured version"%string.

Definition checkpoint (next : Checkpoint) (st : DeploymentState) : res anyhow DeploymentState :=
  op ← ok_or (operation st) "cannot checkpoint without an active operation"%string;
  if checkpoint_lt next (op_checkpoint op) then Err "operation checkpoint cannot move backwards"%string else
  Ok (set_operation (lifecycle st)
        (Some {| kind := kind op; op_checkpoint := next; started_at_unix := started_at_unix op;
                 backup_name := backup_name op; application_images_changed := application_images_changed op |}) st).

Definition begin_update (candidate : DeploymentVersion) (name : text) (application_change : bool) (now : Z)
    (st : DeploymentState) : res anyhow DeploymentState :=
  if bool_decide (is_Some (operation st))
  then Err "cannot begin update while another operation is incomplete"%string else
  previous ← ok_or (current st) "cannot update an installation without a current version"%string;
  Ok (set_operation Installing
        (Some {| kind := Update; op_checkpoint := BackupVerified; started_at_unix := now;
                 backup_name := Some name; application_images_changed := application_change |})
        (set_version (Some candidate) (Some previous) st)).

Definition begin_restore (name : text) (now : Z) (st : DeploymentState) : res anyhow DeploymentState :=
  if bool_decide (is_Some (operation st))
  then Err "cannot begin restore while another operation is incomplete"%string else
  Ok (set_operation Installing
        (Some {| kind := Restore; op_checkpoint := BackupVerified; started_at_unix := now;
                 backup_name := Some name; application_images_changed := true |}) st).

Definition promote_healthy (st : DeploymentState) : res anyhow DeploymentState :=
  st ← checkpoint Healthy st;
  Ok (set_operation Running None st).

Definition mark_stopped (st : DeploymentState) : DeploymentState := set_operation Stopped None st.
Definition mark_recoverable_failure (st : DeploymentState) : DeploymentState :=
  set_operation FailedRecoverable None st.
Definition mark_restore_required (st : DeploymentState) : DeploymentState :=
  set_operation RestoreRequired (operation st) st.

Definition rollback_decision (c : Checkpoint) (application_images_changed : bool) : RollbackDecision :=
  if negb application_images_changed then RollBackTraefikOnly
  else if checkpoint_lt c MigrationStarted then RestorePreviousConfigurationAndRestart
  else StopAndRestoreVerifiedBackup.

Definition state_rollback_decision (st : DeploymentState) : res anyhow RollbackDecision :=
  op ← ok_or (operation st) "no active operation requires rollback"%string;
  Ok (rollback_decision (op_checkpoint op) (application_images_changed op)).

Definition restore_previous_version (st : DeploymentState) : res anyhow DeploymentState :=
  previous ← ok_or (previous_good st) "no previous known-good deployment is recorded"%string;
  Ok (set_operation FailedRecoverable None (set_version (Some previous) None st)).
End Journal.

Import Journal.

(** ** Backups (backup.rs) *)

Module Backup.
Definition BACKUP_SCHEMA_VERSION : Z := 1.

Inductive BackupDatabase := BundledPostgres (major_version : Z) | ExternalOperatorSupplied.

Record BackupFile := { path : text; sha256 : text; bytes : Z }.

Record BackupManifest := {
  manifest_schema_version : Z;
  name : text;
  created_at_unix : Z;
  manifest_installation_id : text;
  config_schema_version : Z;
  state_schema_version : Z;
  manifest_release_version : text;
  manifest_database : BackupDatabase;
  edge_state_included : bool;
  manifest_files : list BackupFile }.

#[export] Instance BackupDatabase_eq_dec : EqDecision BackupDatabase.
Proof. solve_decision. Defined.
End Backup.

(** The application that a configuration runs, as far as the database is concerned:
    its images, its database and its release. *)
Definition Application : Type := ReleaseImages * DatabaseConfig * text.
Definition application (c : InstallationConfig) : Application := (images c, database c, release_version c).

(** The contents of a file of a backup; [DumpFile] is a dump of the database after the
    migrations of the given application. *)
Inductive Content :=
  | ConfigFile (c : InstallationConfig)
  | SecretsFile (s : SecretConfig)
  | StateFile (st : DeploymentState)
  | DumpFile (schema : option Application)
  | OtherFile.

Record BackupDirectory := { files : gmap text Content; manifest : option Backup.BackupManifest }.

(** ** The machine

    [mem] is the [state] variable of the process.  Then follow the protected files under
    the installation root, the backups by directory and name, and the environment file
    that Docker Compose reads.  [schema] is the application whose migrations last ran,
    perhaps in part, on the database ([None] for an empty one), [running] what the
    application services run, and [started] every start of the services by Compose, with
    the schema that it met. *)

Record Core := {
  mem : DeploymentState;
  locked : bool;
  state_json : option DeploymentState;
  config_json : option InstallationConfig;
  secrets_json : option SecretConfig;
  rollback_config : option InstallationConfig;
  rollback_secrets : option SecretConfig;
  talos_env : option DeploymentVersion;
  backups : gmap (text * text) BackupDirectory;
  schema : option Application;
  running : option InstallationConfig;
  started : list (InstallationConfig * option Application) }.

(** What happens to a step: it succeeds, it fails, or the process ends in it; [done]
    says whether its effect took place all the same. *)
Inductive Fate := Succeeds | Fails (done : bool) | Killed (done : bool).

(** diagnostics.rs *)
Record ServiceStatus := { service : text; service_state : text; health : option text; exit_code : option Z }.

(** An entry of [docker compose ps]: the fields of the JSON object that the launcher reads. *)
Record ComposeEntry := {
  entry_service : option text; entry_state : option text; entry_health : option text; entry_exit_code : option Z }.

(** What Docker answers during a command: the networks, the digests and the version
    label of the Traefik image, the versions of Compose and of the engine, its operating
    system, and which images it has ([None] for malformed output). *)
Record DockerAnswers := {
  inventory : list Network.DockerNetwork;
  repo_digests : option (list text);
  version_label : option text;
  compose_version : text;
  engine_version : option text;
  os_type : option text;
  present : text -> bool }.

(** The fates of the next steps (later ones succeed), the answers of [docker compose ps]
    ([None] for malformed output) and of other commands, and the time. *)
Record Input := {
  fates : list Fate; reports : list (option (list ComposeEntry)); answers : DockerAnswers; clock : Z }.

Record World := { core : Core; input : Input }.

Abbreviation M := (method World anyhow).

Definition after (c : Core) (i : Input) : World := {| core := c; input := i |}.
Definition set_fates (l : list Fate) (i : Input) : Input :=
  {| fates := l; reports := reports i; answers := answers i; clock := clock i |}.
Definition set_reports (l : list (option (list ComposeEntry))) (i : Input) : Input :=
  {| fates := fates i; reports := l; answers := answers i; clock := clock i |}.

Definition effect (f : Core -> Core) : M unit := fun w =>
  match fates (input w) with
  | [] => (after (f (core w)) (input w), Ok tt)
  | Succeeds :: l => (after (f (core w)) (set_fates l (input w)), Ok tt)
  | Fails d :: l => (after (if d then f (core w) else core w) (set_fates l (input w)), Err "the step failed"%string)
  | Killed d :: l => (after (if d then f (core w) else core w) (set_fates l (input w)), Panic)
  end.

(** A step without an effect on what the model keeps. *)
Definition external : M unit := effect id.

Definition get_core : M Core := fun w => (w, Ok (core w)).
Definition now_unix : M Z := fun w => (w, Ok (clock (input w))).
Definition get_answers : M DockerAnswers := fun w => (w, Ok (answers (input w))).

(** [match m { Ok(..) .. Err(..) .. }], and [let _ = m;]. *)
Definition catch {A} (m : M A) : M (res anyhow A) := fun w =>
  match m w with
  | (w, Ok a) => (w, Ok (Ok a))
  | (w, Err e) => (w, Ok (Err e))
  | (w, Panic) => (w, Panic)
  | (w, Fuel) => (w, Fuel)
  end.

Definition ignore {A} (m : M A) : M unit := _ ← catch m; mret tt.

(** ** Changing single fields *)

Section set.
Implicit Type c : Core.

Definition set_mem v c : Core :=
  {| mem := v; locked := locked c; state_json := state_json c; config_json := config_json c;
     secrets_json := secrets_json c; rollback_config := rollback_config c; rollback_secrets := rollback_secrets c;
     talos_env := talos_env c; backups := backups c; schema := schema c; running := running c; started := started c |}.
Definition set_locked v c : Core :=
  {| mem := mem c; locked := v; state_json := state_json c; config_json := config_json c;
     secrets_json := secrets_json c; rollback_config := rollback_config c; rollback_secrets := rollback_secrets c;
     talos_env := talos_env c; backups := backups c; schema := schema c; running := running c; started := started c |}.
Definition set_state_json v c : Core :=
  {| mem := mem c; locked := locked c; state_json := v; config_json := config_json c;
     secrets_json := secrets_json c; rollback_config := rollback_config c; rollback_secrets := rollback_secrets c;
     talos_env := talos_env c; backups := backups c; schema := schema c; running := running c; started := started c |}.
Definition set_config_json v c : Core :=
  {| mem := mem c; locked := locked c; state_json := state_json c; config_json := v;
     secrets_json := secrets_json c; rollback_config := rollback_config c; rollback_secrets := rollback_secrets c;
     talos_env := talos_env c; backups := backups c; schema := schema c; running := running c; started := started c |}.
Definition set_secrets_json v c : Core :=
  {| mem := mem c; locked := locked c; state_json := state_json c; config_json := config_json c;
     secrets_json := v; rollback_config := rollback_config c; rollback_secrets := rollback_secrets c;
     talos_env := talos_env c; backups := backups c; schema := schema c; running := running c; started := started c |}.
Definition set_rollback_config v c : Core :=
  {| mem := mem c; locked := locked c; state_json := state_json c; config_json := config_json c;
     secrets_json := secrets_json c; rollback_config := v; rollback_secrets := rollback_secrets c;
     talos_env := talos_env c; backups := backups c; schema := schema c; running := running c; started := started c |}.
Definition set_rollback_secrets v c : Core :=
  {| mem := mem c; locked := locked c; state_json := state_json c; config_json := config_json c;
     secrets_json := secrets_json c; rollback_config := rollback_config c; rollback_secrets := v;
     talos_env := talos_env c; backups := backups c; schema := schema c; running := running c; started := started c |}.
Definition set_env v c : Core :=
  {| mem := mem c; locked := locked c; state_json := state_json c; config_json := config_json c;
     secrets_json := secrets_json c; rollback_config := rollback_config c; rollback_secrets := rollback_secrets c;
     talos_env := v; backups := backups c; schema := schema c; running := running c; started := started c |}.
Definition set_backups v c : Core :=
  {| mem := mem c; locked := locked c; state_json := state_json c; config_json := config_json c;
     secrets_json := secrets_json c; rollback_config := rollback_config c; rollback_secrets := rollback_secrets c;
     talos_env := talos_env c; backups := v; schema := schema c; running := running c; started := started c |}.
Definition set_schema v c : Core :=
  {| mem := mem c; locked := locked c; state_json := state_json c; config_json := config_json c;
     secrets_json := secrets_json c; rollback_config := rollback_config c; rollback_secrets := rollback_secrets c;
     talos_env := talos_env c; backups := backups c; schema := v; running := running c; started := started c |}.
Definition set_running v c : Core :=
  {| mem := mem c; locked := locked c; state_json := state_json c; config_json := config_json c;
     secrets_json := secrets_json c; rollback_config := rollback_config c; rollback_secrets := rollback_secrets c;
     talos_env := talos_env c; backups := backups c; schema := schema c; running := v; started := started c |}.
Definition log_start v c : Core :=
  {| mem := mem c; locked := locked c; state_json := state_json c; config_json := config_json c;
     secrets_json := secrets_json c; rollback_config := rollback_config c; rollback_secrets := rollback_secrets c;
     talos_env := talos_env c; backups := backups c; schema := Some (application v); running := running c;
     started := started c ++ [(v, schema c)] |}.
End set.

Module Launcher.
(** ** Images (images.rs) *)

Definition official_traefik (candidate : text) : bool :=
  match split_once_str (str "@sha256:") candidate with
  | Some (repository, _) =>
      bool_decide (repository ∈ map str ["traefik"; "docker.io/library/traefik"; "index.docker.io/library/traefik"]%string)
  | None => false
  end.

Definition parse_traefik_repo_digests (digests : option (list text)) : res anyhow text :=
  digests ← ok_or digests "Traefik image did not expose repository digests"%string;
  found ← ok_or (List.find official_traefik digests)
            "Traefik image did not expose an official repository digest"%string;
  _ ← validate_digest_image found;
  Ok found.

Definition parse_optional_json_string (value : option text) : option text :=
  v ← value;
  let v := trim v in
  if bool_decide (v = []) || (128 <? str_len v) then None else Some v.

Definition pull_release_images (i : ReleaseImages) : M unit :=
  _ ← lift (validate_images i);
  for_each (fun _ => external) (values i).

Definition resolve_traefik_latest : M ResolvedImage :=
  docker ← get_answers;
  _ ← external;
  _ ← external;
  found ← lift (parse_traefik_repo_digests (repo_digests docker));
  _ ← external;
  let v := default (str "unknown") (parse_optional_json_string (version_label docker)) in
  now ← now_unix;
  mret {| digest := found; version := v; resolved_at_unix := now |}.

Definition ensure_recorded_images (i : ReleaseImages) (t : ResolvedImage) : M unit :=
  _ ← lift (validate_images i);
  _ ← lift (validate_digest_image (digest t));
  docker ← get_answers;
  for_each (fun image => _ ← external; if present docker image then mret tt else external) (values i ++ [digest t]).

(** [trim_start_matches('v')] *)
Definition check_compose_version (v : text) : res anyhow unit :=
  let first := default [] (head (split_on 46 (drop_while (Z.eqb 118) v))) in
  major ← ok_or (parse_uint u32_max first) "Docker Compose returned an unrecognized version"%string;
  bail_if (major <? 2) "Docker Compose v2 or newer is required".

Definition check_engine_version (v : option text) : res anyhow unit :=
  v ← ok_or v "Docker Engine returned an unrecognized version"%string;
  bail_if (bool_decide (trim v = [])) "Docker Engine returned an empty version".

Definition validate_engine_os (os : option text) : res anyhow unit :=
  os ← ok_or os "Docker Engine returned an unrecognized container operating system"%string;
  bail_if (negb (bool_decide (os = str "linux"))) "Talos requires Linux containers".

(** The executable is located; a command follows for each of the checks. *)
Definition detect_docker : M unit :=
  _ ← external;
  docker ← get_answers;
  _ ← external;
  _ ← lift (check_compose_version (compose_version docker));
  _ ← external;
  _ ← lift (check_engine_version (engine_version docker));
  _ ← external;
  lift (validate_engine_os (os_type docker)).

(** ** Docker Compose (compose.rs) *)

Definition materialize_assets : M unit := external.
Definition ensure_local_certificate : M unit := external.

(** Compose reads the environment file. *)
Definition compose_env : M InstallationConfig :=
  c ← get_core;
  v ← lift (ok_or (talos_env c) "the Compose environment file is missing"%string);
  mret (config v).

Definition project_validate : M unit := external.
Definition up_database : M unit := external.
Definition database_preflight : M unit := external.
Definition database_migrate : M unit :=
  c ← compose_env; effect (set_schema (Some (application c))).
(** [docker compose up]: the services depend on the migration job, which runs first. *)
Definition up_all : M unit := c ← compose_env; _ ← effect (log_start c); effect (set_running (Some c)).
Definition project_stop : M unit := effect (set_running None).
Definition stop_application_services : M unit := effect (set_running None).
Definition stop_database : M unit := external.
Definition stop_traefik : M unit := external.
Definition restart_traefik : M unit := external.

(** The volumes hold a bundled database. *)
Definition remove_with_volumes (c : InstallationConfig) : M unit :=
  effect (fun x => set_running None (if is_bundled (database c) then set_schema None x else x)).

(** [dropdb], [createdb], [pg_restore] *)
Definition restore_postgres_dump (dump : option Application) : M unit :=
  _ ← effect (set_schema None);
  _ ← external;
  effect (set_schema dump).

(** ** Services (diagnostics.rs) *)

Definition next_report : M (option (list ComposeEntry)) := fun w =>
  (after (core w) (set_reports (tail (reports (input w))) (input w)), Ok (default None (head (reports (input w))))).

Definition parse_entry (e : ComposeEntry) : res anyhow ServiceStatus :=
  n ← ok_or (entry_service e) "Docker Compose ps entry is missing Service"%string;
  st ← ok_or (entry_state e) "Docker Compose ps entry is missing State"%string;
  _ ← bail_if (negb (bytes_all (fun b => is_ascii_alphanumeric b || one_of "_-" b) n) || (64 <? str_len st))
        "Docker Compose ps returned an unsafe status value";
  Ok {| service := n; service_state := st;
        health := match entry_health e with Some h => if bool_decide (h = []) then None else Some h | None => None end;
        exit_code := entry_exit_code e |}.

(** The order of strings is that of their bytes. *)
Fixpoint bytes_le (a b : list Z) : bool :=
  match a, b with
  | [], _ => true
  | _ :: _, [] => false
  | x :: a, y :: b => (x <? y) || ((x =? y) && bytes_le a b)
  end.

(** A stable sort. *)
Fixpoint insert_status (s : ServiceStatus) (l : list ServiceStatus) : list ServiceStatus :=
  match l with
  | [] => [s]
  | x :: l => if bytes_le (utf8 (service s)) (utf8 (service x)) then s :: x :: l else x :: insert_status s l
  end.

Definition parse_compose_ps (entries : option (list ComposeEntry)) : res anyhow (list ServiceStatus) :=
  entries ← ok_or entries "Docker Compose ps returned malformed JSON"%string;
  statuses ← foldM (fun l e => s ← parse_entry e; Ok (l ++ [s])) [] entries;
  Ok (foldr insert_status [] statuses).

Definition collect_service_status : M (list ServiceStatus) := _ ← external; r ← next_report; lift (parse_compose_ps r).

Definition required_services (c : InstallationConfig) : list text :=
  map str ["api_backend"; "frontend"; "talos_relay"; "talos_server"; "traefik"]%string ++
  (if is_bundled (database c) then [str "postgres"] else []).

Definition check_service (statuses : list ServiceStatus) (name : text) : res anyhow unit :=
  status ← ok_or (List.find (fun s => bool_decide (service s = name)) statuses)
             "required service is absent from Compose status"%string;
  bail_if (negb (bool_decide (service_state status = str "running")) ||
           match health status with Some h => negb (bool_decide (h = str "healthy")) | None => false end)
    "required service is not ready".

Definition start_and_verify (c : InstallationConfig) : M unit :=
  _ ← up_all;
  statuses ← collect_service_status;
  lift (check_all (check_service statuses) (required_services c)).

(** ** Protected files (secure_fs.rs) *)

Definition read_file {A} (f : Core -> option A) : M A :=
  _ ← external; c ← get_core; lift (ok_or (f c) "could not read the protected file"%string).

(** [OperationLock::acquire], and its release when the operation returns. *)
Definition with_lock {A} (m : M A) : M A :=
  c ← get_core;
  _ ← lift (bail_if (locked c) "another operation may be active");
  _ ← effect (set_locked true);
  r ← catch m;
  _ ← ignore (effect (set_locked false));
  lift r.

Definition set_state (st : DeploymentState) : M unit :=
  fun w => (after (set_mem st (core w)) (input w), Ok tt).
Definition get_state : M DeploymentState := c ← get_core; mret (mem c).

(** [state.save(..)] *)
Definition save : M unit :=
  now ← now_unix;
  st ← get_state;
  let st := set_transition now st in
  _ ← set_state st;
  effect (set_state_json (Some st)).

(** A method of the journal, on the [state] variable. *)
Definition on_state (f : DeploymentState -> res anyhow DeploymentState) : M unit :=
  st ← get_state; st ← lift (f st); set_state st.

Definition advance_checkpoint (next : Checkpoint) : M unit :=
  st ← get_state;
  op ← lift (ok_or (operation st) "operation journal is missing"%string);
  if checkpoint_lt (op_checkpoint op) next
  then _ ← on_state (checkpoint next); save
  else mret tt.

Definition persist_active_configuration (c : InstallationConfig) (s : SecretConfig) : M unit :=
  _ ← effect (set_config_json (Some c)); effect (set_secrets_json (Some s)).

Definition persist_rollback_snapshot (c : InstallationConfig) (s : SecretConfig) : M unit :=
  _ ← external;
  _ ← effect (set_rollback_config (Some c));
  effect (set_rollback_secrets (Some s)).

Definition require_no_incomplete_operation (st : DeploymentState) : res anyhow unit :=
  bail_if (bool_decide (is_Some (operation st))) "an incomplete operation is recorded".

Definition ensure_database_identity_unchanged (a b : DatabaseConfig) : res anyhow unit :=
  bail_if (negb (bool_decide (a = b))) "update cannot change database mode or identity".

Definition validate_custom_certificate_files (c : InstallationConfig) : M unit :=
  match mode (edge c) with
  | CustomCertificate =>
      _ ← lift (ok_or (certificate_path (edge c)) "custom certificate path is missing"%string);
      _ ← lift (ok_or (private_key_path (edge c)) "custom private-key path is missing"%string);
      _ ← external;
      external
  | _ => mret tt
  end.

(** The two errors are kept in the order of the message. *)
Definition combine_operation_and_cleanup {A} (op : res anyhow A) (cleanup : res anyhow unit) : res anyhow A :=
  match op, cleanup with
  | Ok a, Ok _ => Ok a
  | Ok _, Err e => Err e
  | Err e, _ => Err e
  | Panic, _ | _, Panic => Panic
  | Fuel, _ | _, Fuel => Fuel
  end.

Definition run_with_guaranteed_cleanup {A} (op : M A) (cleanup : M unit) : M A :=
  r ← catch op; q ← catch cleanup; lift (combine_operation_and_cleanup r q).

(** [&id[..8]] *)
Definition short_id (id : text) : res anyhow text := or_panic (slice id 0 8).

Section launcher.
Context (Url_parse : text -> option Url).
(** The hash and the length of a file of a backup. *)
Context (sha256_of : Content -> text) (length_of : Content -> Z).
Context (root : text).

(** The text of the file is a function of what is kept of it, and of the secrets. *)
Definition materialize_environment (c : InstallationConfig) (s : SecretConfig) (t : ResolvedImage) : M unit :=
  _ ← lift (Environment.environment_file Url_parse root c s (digest t));
  effect (set_env (Some {| config := c; traefik := t |})).

(** ** Backups (backup.rs) *)

Definition backup_file (key : text * text) (n : text) (c : Core) : option Content :=
  d ← backups c !! key; files d !! n.

Definition add_file (key : text * text) (n : text) (x : Content) : M unit :=
  effect (fun c => set_backups (alter (fun d => {| files := <[n := x]> (files d); manifest := manifest d |}) key (backups c)) c).

(** [copy_protected_file] into the backup. *)
Definition copy_file (key : text * text) (n : text) (f : Core -> option Content) : M unit :=
  x ← read_file f; add_file key n x.

Definition validate_relative_backup_path (p : text) : res anyhow unit :=
  bail_if (starts_with (str "/") p || starts_with (str "./") p || bool_decide (p = str ".") ||
           existsb (fun c => bool_decide (c = str "..")) (components p))
    "backup manifest contains an unsafe file path".

Definition file_record (key : text * text) (n : text) : M Backup.BackupFile :=
  x ← read_file (backup_file key n);
  mret {| Backup.path := n; Backup.sha256 := sha256_of x; Backup.bytes := length_of x |}.

Definition verify_file (key : text * text) (record : Backup.BackupFile) : M unit :=
  _ ← lift (validate_relative_backup_path (Backup.path record));
  actual ← file_record key (Backup.path record);
  lift (bail_if (negb (bool_decide (Backup.sha256 actual = Backup.sha256 record)) ||
                 negb (Backup.bytes actual =? Backup.bytes record)) "backup integrity verification failed").

Definition required_files : list text := map str ["config.json"; "secrets.json"; "state.json"; "database.dump"]%string.

Definition verify_backup (key : text * text) (expected_installation_id : text) : M Backup.BackupManifest :=
  m ← read_file (fun c => d ← backups c !! key; manifest d);
  _ ← lift (bail_if (negb (Backup.manifest_schema_version m =? Backup.BACKUP_SCHEMA_VERSION) ||
                     negb (Backup.config_schema_version m =? CONFIG_SCHEMA_VERSION) ||
                     negb (Backup.state_schema_version m =? STATE_SCHEMA_VERSION))
              "backup uses an unsupported schema version");
  _ ← lift (bail_if (negb (bool_decide (key.2 = Backup.name m))) "backup directory name does not match its manifest");
  _ ← lift (bail_if (negb (bool_decide (Backup.manifest_installation_id m = expected_installation_id)))
              "backup belongs to a different Talos installation");
  _ ← lift (bail_if (len (Backup.manifest_files m) =? 0) "backup manifest contains no files");
  _ ← for_each (verify_file key) (Backup.manifest_files m);
  _ ← lift (check_all (fun required =>
         bail_if (negb (existsb (fun f => bool_decide (Backup.path f = required)) (Backup.manifest_files m)))
           "backup manifest is missing a file") required_files);
  mret m.

(** The part of [create_backup] that copies the database. *)
Definition backup_database (key : text * text) (external_database_backup : option text) (c : InstallationConfig)
    : M Backup.BackupDatabase :=
  match database c with
  | Bundled _ _ =>
      x ← get_core;
      let dump := DumpFile (schema x) in
      _ ← add_file key (str "database.dump") dump;
      _ ← external;
      _ ← lift (bail_if (length_of dump =? 0) "PostgreSQL produced an empty logical backup");
      _ ← external;
      mret (Backup.BundledPostgres 16)
  | External _ =>
      source ← lift (ok_or external_database_backup
                 "external PostgreSQL mode requires --external-database-backup"%string);
      _ ← lift (bail_if (negb (starts_with (str "/") source)) "external database backup path must be absolute");
      _ ← add_file key (str "database.dump") OtherFile;
      _ ← lift (bail_if (length_of OtherFile =? 0) "external database backup is empty");
      mret Backup.ExternalOperatorSupplied
  end.

(** The part that copies the state of the edge. *)
Definition backup_edge (key : text * text) (c : InstallationConfig) (was_running include_edge_state : bool) : M unit :=
  match mode (edge c) with
  | PublicAcme =>
      if include_edge_state then
        _ ← (if was_running then stop_traefik else mret tt);
        copy_result ← catch (add_file key (str "acme.json") OtherFile);
        restart_result ← catch (if was_running then restart_traefik else mret tt);
        _ ← lift (combine_operation_and_cleanup copy_result restart_result);
        external
      else mret tt
  | Local =>
      _ ← external;
      _ ← add_file key (str "local-certificate.pem") OtherFile;
      _ ← external;
      _ ← add_file key (str "local-private-key.pem") OtherFile;
      _ ← external;
      add_file key (str "local-certificate-metadata.json") OtherFile
  | CustomCertificate => mret tt
  end.

Definition recorded_names : list text :=
  map str ["config.json"; "secrets.json"; "state.json"; "database.dump"; "acme.json"; "local-certificate.pem";
           "local-private-key.pem"; "local-certificate-metadata.json"]%string.

Fixpoint file_records (key : text * text) (names : list text) : M (list Backup.BackupFile) :=
  match names with
  | [] => mret []
  | n :: names =>
      c ← get_core;
      match backup_file key n c with
      | Some _ => r ← file_record key n; rs ← file_records key names; mret (r :: rs)
      | None => file_records key names
      end
  end.

Definition backup_contents (key : text * text) (external_database_backup : option text) (c : InstallationConfig)
    (include_edge_state : bool) : M Backup.BackupManifest :=
  _ ← copy_file key (str "config.json") (fun x => ConfigFile <$> config_json x);
  _ ← copy_file key (str "secrets.json") (fun x => SecretsFile <$> secrets_json x);
  _ ← copy_file key (str "state.json") (fun x => StateFile <$> state_json x);
  db ← backup_database key external_database_backup c;
  st ← get_state;
  _ ← backup_edge key c (bool_decide (lifecycle st = Running)) include_edge_state;
  fs ← file_records key recorded_names;
  now ← now_unix;
  mret {| Backup.manifest_schema_version := Backup.BACKUP_SCHEMA_VERSION; Backup.name := key.2;
          Backup.created_at_unix := now; Backup.manifest_installation_id := installation_id st;
          Backup.config_schema_version := Config.schema_version c;
          Backup.state_schema_version := Journal.schema_version st;
          Backup.manifest_release_version := release_version c; Backup.manifest_database := db;
          Backup.edge_state_included := negb (bool_decide (mode (edge c) = PublicAcme)) || include_edge_state;
          Backup.manifest_files := fs |}.

(** [fs::rename], which does not replace a directory that has files. *)
Definition rename_directory (source target : text * text) (b : gmap (text * text) BackupDirectory) :=
  match b !! source, b !! target with
  | Some d, None => <[target := d]> (delete source b)
  | Some d, Some e =>
      if bool_decide (files e = ∅) && bool_decide (manifest e = None) then <[target := d]> (delete source b) else b
  | None, _ => b
  end.

Definition create_backup (name : option text) (external_database_backup : option text) (c : InstallationConfig)
    (include_edge_state : bool) : M text :=
  now ← now_unix;
  let n := default (str "backup-" ++ show_u64 now) name in
  _ ← lift (validate_backup_name n);
  _ ← external;
  let key := (backup_directory c, n) in
  x ← get_core;
  _ ← lift (bail_if (bool_decide (is_Some (backups x !! key))) "protected output already exists");
  _ ← effect (fun x => set_backups (<[key := {| files := ∅; manifest := None |}]> (backups x)) x);
  result ← catch (backup_contents key external_database_backup c include_edge_state);
  match result with
  | Ok m =>
      _ ← effect (fun x => set_backups (alter (fun d => {| files := files d; manifest := Some m |}) key (backups x)) x);
      st ← get_state;
      _ ← verify_backup key (installation_id st);
      mret n
  | Err e =>
      now ← now_unix;
      let failed := (backup_directory c, n ++ str ".incomplete-" ++ show_u64 now) in
      _ ← ignore (effect (fun x => set_backups (rename_directory key failed (backups x)) x));
      lift (Err e)
  | Panic => lift Panic
  | Fuel => lift Fuel
  end.

(** ** Operations (orchestrator.rs) *)

(** [DeploymentState::load] *)
Definition load : M unit :=
  st ← read_file state_json; _ ← lift (validate st root); set_state st.

(** [InstallRequest::load]; [None] is a file that does not parse. *)
Definition load_request (request : option InstallRequest) : M (InstallationConfig * SecretInput) :=
  _ ← external;
  r ← lift (ok_or request "installation request is not valid schema-versioned JSON"%string);
  lift (validate_and_split Url_parse r root).

Definition load_installation : M (InstallationConfig * SecretConfig) :=
  _ ← external;
  _ ← load;
  c ← read_file config_json;
  s ← read_file secrets_json;
  _ ← lift (validate_for Url_parse s c);
  st ← get_state;
  recorded ← lift (pending_version st);
  _ ← lift (bail_if (negb (bool_decide (c = config recorded)))
              "active configuration does not match the durable deployment journal");
  mret (c, s).

(** What [install] resumes: the recorded installation, or a new one. *)
Definition resume_install (requested : InstallationConfig) : M (InstallationConfig * SecretConfig) :=
  _ ← load;
  st ← get_state;
  op ← lift (ok_or (operation st) "installation already exists; use update, start, or status"%string);
  _ ← lift (bail_if (negb (bool_decide (kind op = Install)))
              "another incomplete operation must be recovered before install can continue");
  _ ← lift (bail_if (negb (checkpoint_lt (op_checkpoint op) MigrationStarted) && checkpoint_lt (op_checkpoint op) Healthy)
              "an interrupted install may have changed the database schema");
  c ← read_file config_json;
  _ ← lift (bail_if (negb (bool_decide (c = requested)))
              "install retry configuration does not match the recorded incomplete installation");
  s ← read_file secrets_json;
  _ ← lift (validate_for Url_parse s c);
  mret (c, s).

Definition begin_install (rng : Entropy) (requested : InstallationConfig) (input : SecretInput)
    : M (InstallationConfig * SecretConfig) :=
  let s := generate rng requested input in
  _ ← lift (validate_for Url_parse s requested);
  now ← now_unix;
  _ ← set_state (new_install rng now requested);
  _ ← effect (set_config_json (Some requested));
  _ ← effect (set_secrets_json (Some s));
  _ ← save;
  mret (requested, s).

(** The images of an install, and the resolved Traefik image in the journal. *)
Definition install_images (c : InstallationConfig) : M ResolvedImage :=
  st ← get_state;
  existing ← lift (pending_version st);
  t ← (if bool_decide (digest (traefik existing) = [])
       then _ ← pull_release_images (images c); resolve_traefik_latest
       else _ ← ensure_recorded_images (images c) (traefik existing); mret (traefik existing));
  _ ← on_state (fun st => v ← ok_or (current st) "install state lost its candidate version"%string;
                          Ok (set_version (Some {| config := config v; traefik := t |}) (previous_good st) st));
  _ ← save;
  mret t.

(** The backup before the first migration: an existing one is verified. *)
Definition install_backup (external_database_backup : option text) (c : InstallationConfig) : M unit :=
  st ← get_state;
  match operation st with
  | Some op =>
      if checkpoint_lt (op_checkpoint op) BackupVerified then
        id8 ← lift (short_id (installation_id st));
        let n := str "pre-install-migration-" ++ id8 in
        x ← get_core;
        _ ← (if bool_decide (is_Some (backups x !! (backup_directory c, n)))
             then _ ← verify_backup (backup_directory c, n) (installation_id st); mret tt
             else _ ← create_backup (Some n) external_database_backup c false; mret tt);
        _ ← on_state (fun st => Ok (set_backup (Some n) st));
        advance_checkpoint BackupVerified
      else mret tt
  | None => mret tt
  end.

(** [if let Err(error) = m { state.mark_restore_required(); state.save(..)?; return Err(error) }] *)
Definition or_restore_required (m : M unit) : M unit :=
  r ← catch m;
  match r with
  | Err e => _ ← on_state (fun st => Ok (mark_restore_required st)); _ ← save; lift (Err e)
  | r => lift r
  end.

Definition install (rng : Entropy) (request : option InstallRequest)
    (external_database_backup : option text) : M unit :=
  _ ← external;
  with_lock (
    '(requested, input) ← load_request request;
    _ ← validate_custom_certificate_files requested;
    x ← get_core;
    '(c, s) ← (if bool_decide (is_Some (state_json x)) then resume_install requested
               else begin_install rng requested input);
    _ ← materialize_assets;
    _ ← ensure_local_certificate;
    _ ← advance_checkpoint AssetsMaterialized;
    _ ← detect_docker;
    _ ← external;
    docker ← get_answers;
    _ ← lift (Network.validate_docker_network_availability (inventory docker) (subnet (edge c)));
    _ ← advance_checkpoint PrerequisitesReady;
    t ← install_images c;
    _ ← materialize_environment c s t;
    _ ← advance_checkpoint ImagesResolved;
    _ ← project_validate;
    _ ← (if is_bundled (database c) then up_database else mret tt);
    _ ← advance_checkpoint DatabaseReady;
    _ ← database_preflight;
    _ ← advance_checkpoint PreflightPassed;
    _ ← install_backup external_database_backup c;
    _ ← advance_checkpoint MigrationStarted;
    _ ← or_restore_required database_migrate;
    _ ← advance_checkpoint MigrationCompleted;
    _ ← or_restore_required (start_and_verify c);
    _ ← advance_checkpoint ServicesStarted;
    _ ← advance_checkpoint EdgeReady;
    _ ← on_state promote_healthy;
    save).

Definition start : M unit :=
  with_lock (
    '(c, s) ← load_installation;
    st ← get_state;
    _ ← lift (require_no_incomplete_operation st);
    _ ← lift (bail_if (bool_decide (lifecycle st = RestoreRequired)) "installation requires a verified backup restore");
    _ ← detect_docker;
    v ← lift (pending_version st);
    _ ← ensure_recorded_images (images c) (traefik v);
    _ ← materialize_assets;
    _ ← ensure_local_certificate;
    _ ← materialize_environment c s (traefik v);
    _ ← project_validate;
    _ ← start_and_verify c;
    _ ← on_state (fun st => Ok (set_operation Running (operation st) st));
    save).

Definition stop : M unit :=
  with_lock (
    _ ← load_installation;
    st ← get_state;
    _ ← lift (require_no_incomplete_operation st);
    _ ← detect_docker;
    _ ← project_stop;
    _ ← on_state (fun st => Ok (mark_stopped st));
    save).

(** The report that [status] prints. *)
Definition frontend_url (c : InstallationConfig) : text :=
  if https_port (edge c) =? 443 then str "https://" ++ frontend_domain (edge c)
  else str "https://" ++ frontend_domain (edge c) ++ str ":" ++ show_u64 (https_port (edge c)).

Record Status := {
  status_lifecycle : Lifecycle; status_release : text; status_frontend : text;
  status_operation : option OperationJournal; status_services : list ServiceStatus; status_backup : option text }.

Definition status : M Status :=
  '(c, _) ← load_installation;
  _ ← detect_docker;
  services ← collect_service_status;
  st ← get_state;
  mret {| status_lifecycle := lifecycle st; status_release := release_version c; status_frontend := frontend_url c;
          status_operation := operation st; status_services := services; status_backup := last_verified_backup st |}.

Definition backup_command (name : option text) (external_database_backup : option text) : M unit :=
  with_lock (
    '(c, s) ← load_installation;
    st ← get_state;
    _ ← lift (require_no_incomplete_operation st);
    _ ← detect_docker;
    let bundled_database := is_bundled (database c) in
    let restore_stopped_database :=
      bundled_database && (bool_decide (lifecycle st = Stopped) || bool_decide (lifecycle st = UninstalledDataPreserved)) in
    let create := (_ ← (if bundled_database then up_database else mret tt);
                   create_backup name external_database_backup c true) in
    n ← (if restore_stopped_database then run_with_guaranteed_cleanup create stop_database else create);
    _ ← on_state (fun st => Ok (set_backup (Some n) st));
    save).

(** The snapshot under [rollback/], checked against the journal, becomes active again. *)
Definition restart_previous (previous : DeploymentVersion) : M unit :=
  c ← read_file rollback_config;
  _ ← lift (bail_if (negb (bool_decide (c = config previous)))
              "rollback snapshot does not match the previous known-good configuration");
  s ← read_file rollback_secrets;
  _ ← lift (validate_for Url_parse s c);
  _ ← persist_active_configuration c s;
  _ ← materialize_assets;
  _ ← ensure_local_certificate;
  _ ← materialize_environment c s (traefik previous);
  start_and_verify c.

Definition recover_failed_update : M unit :=
  st ← get_state;
  decision ← lift (state_rollback_decision st);
  match decision with
  | RestorePreviousConfigurationAndRestart | RollBackTraefikOnly =>
      previous ← lift (ok_or (previous_good st) "update recovery has no previous known-good version"%string);
      _ ← restart_previous previous;
      _ ← on_state restore_previous_version;
      save
  | StopAndRestoreVerifiedBackup =>
      _ ← lift (pending_version st);
      _ ← ignore stop_application_services;
      _ ← on_state (fun st => Ok (mark_restore_required st));
      save
  end.

Definition recover_interrupted_update : M unit :=
  st ← get_state;
  op ← lift (ok_or (operation st) "incomplete operation has no journal"%string);
  _ ← lift (bail_if (negb (bool_decide (kind op = Update)))
              "an incomplete non-update operation requires explicit recovery");
  _ ← detect_docker;
  recover_failed_update.

(** The guards of an update, and the candidate's configuration and secrets. *)
Definition update_candidate (rng : Entropy) (request : option InstallRequest)
    (current_config : InstallationConfig) (current_secrets : SecretConfig) : M (InstallationConfig * SecretConfig) :=
  '(candidate, input) ← load_request request;
  _ ← validate_custom_certificate_files candidate;
  _ ← lift (ensure_database_identity_unchanged (database current_config) (database candidate));
  _ ← lift (bail_if (negb (bool_decide (subnet (edge candidate) = subnet (edge current_config))) ||
                     negb (bool_decide (proxy_ipv4 (edge candidate) = proxy_ipv4 (edge current_config))))
              "update cannot change the active edge subnet or proxy address");
  let candidate_secrets := update_database_secret rng current_secrets candidate input in
  _ ← lift (validate_for Url_parse candidate_secrets candidate);
  mret (candidate, candidate_secrets).

(** The closure of [update] whose failure is recovered from. *)
Definition update_steps (candidate : InstallationConfig) : M unit :=
  _ ← project_validate;
  _ ← (if is_bundled (database candidate) then up_database else mret tt);
  _ ← advance_checkpoint DatabaseReady;
  _ ← database_preflight;
  _ ← advance_checkpoint PreflightPassed;
  _ ← advance_checkpoint MigrationStarted;
  _ ← database_migrate;
  _ ← advance_checkpoint MigrationCompleted;
  _ ← start_and_verify candidate;
  _ ← advance_checkpoint ServicesStarted;
  advance_checkpoint EdgeReady.

Definition update (rng : Entropy) (request : option InstallRequest)
    (external_database_backup : option text) : M unit :=
  with_lock (
    '(current_config, current_secrets) ← load_installation;
    st ← get_state;
    if bool_decide (is_Some (operation st)) then
      _ ← recover_interrupted_update;
      lift (Err "the interrupted update was recovered; review status, then run update again"%string)
    else
    _ ← lift (bail_if (negb (bool_decide (lifecycle st = Running))) "update requires a healthy running installation");
    '(candidate, candidate_secrets) ← update_candidate rng request current_config current_secrets;
    _ ← detect_docker;
    now ← now_unix;
    id8 ← lift (short_id (installation_id st));
    n ← create_backup (Some (str "pre-update-" ++ show_u64 now ++ str "-" ++ id8))
          external_database_backup current_config true;
    _ ← on_state (fun st => Ok (set_backup (Some n) st));
    _ ← persist_rollback_snapshot current_config current_secrets;
    _ ← pull_release_images (images candidate);
    t ← resolve_traefik_latest;
    let application_change :=
      negb (bool_decide (images current_config = images candidate)) ||
      negb (bool_decide (database current_config = database candidate)) ||
      negb (bool_decide (release_version current_config = release_version candidate)) in
    now ← now_unix;
    _ ← on_state (begin_update {| config := candidate; traefik := t |} n application_change now);
    _ ← save;
    _ ← persist_active_configuration candidate candidate_secrets;
    _ ← materialize_assets;
    _ ← ensure_local_certificate;
    _ ← materialize_environment candidate candidate_secrets t;
    _ ← advance_checkpoint ImagesResolved;
    r ← catch (update_steps candidate);
    match r with
    | Ok _ => _ ← on_state promote_healthy; save
    | Err e => _ ← ignore recover_failed_update; lift (Err e)
    | r => lift r
    end).

(** What [restore] takes from the backup, with its checks. *)
Definition backup_config (x : option Content) : option InstallationConfig :=
  match x with Some (ConfigFile c) => Some c | _ => None end.
Definition backup_secrets (x : option Content) : option SecretConfig :=
  match x with Some (SecretsFile s) => Some s | _ => None end.
Definition backup_state (x : option Content) : option DeploymentState :=
  match x with Some (StateFile st) => Some st | _ => None end.
Definition backup_dump (x : option Content) : option Application :=
  match x with Some (DumpFile a) => a | _ => None end.

Definition restore_source (key : text * text) (external_database_restored : bool) (live_id : text)
    : M (Backup.BackupManifest * InstallationConfig * SecretConfig * DeploymentState) :=
  m ← verify_backup key live_id;
  c ← read_file (fun x => backup_config (backup_file key (str "config.json") x));
  _ ← lift (bail_if (negb (bool_decide (installation_root c = root)))
              "backup was created for a different installation root");
  s ← read_file (fun x => backup_secrets (backup_file key (str "secrets.json") x));
  _ ← lift (validate_for Url_parse s c);
  st ← read_file (fun x => backup_state (backup_file key (str "state.json") x));
  _ ← lift (validate st root);
  _ ← lift (bail_if (negb (bool_decide (installation_id st = live_id)))
              "backup state belongs to a different installation");
  _ ← lift (match database c, Backup.manifest_database m with
            | Bundled _ _, Backup.BundledPostgres 16 => Ok tt
            | External _, Backup.ExternalOperatorSupplied =>
                bail_if (negb external_database_restored)
                  "external database restore must be completed by its operator first"
            | _, _ => Err "backup database mode is incompatible with its saved configuration"%string
            end);
  mret (m, c, s, st).

Definition restore_local_certificate_if_present (key : text * text) (c : InstallationConfig) : M unit :=
  if negb (bool_decide (mode (edge c) = Local)) then mret tt else
  _ ← external;
  _ ← read_file (backup_file key (str "local-certificate.pem"));
  _ ← external;
  _ ← read_file (backup_file key (str "local-private-key.pem"));
  _ ← external;
  _ ← read_file (backup_file key (str "local-certificate-metadata.json"));
  external.

(** The copy of the active files under [recovery/]. *)
Definition save_recovery_copy : M unit :=
  _ ← external; _ ← read_file config_json; _ ← external; _ ← read_file secrets_json; external.

(** The closure of [restore]. *)
Definition restore_steps (key : text * text) (m : Backup.BackupManifest) (c : InstallationConfig) : M unit :=
  _ ← (if is_bundled (database c) then
         _ ← up_database;
         dump ← read_file (backup_file key (str "database.dump"));
         restore_postgres_dump (backup_dump (Some dump))
       else mret tt);
  let edge_restored := bool_decide (mode (edge c) = PublicAcme) && Backup.edge_state_included m in
  _ ← (if edge_restored then
         x ← get_core;
         _ ← lift (bail_if (negb (bool_decide (is_Some (backup_file key (str "acme.json") x))))
                     "public ACME backup is missing acme.json");
         external
       else mret tt);
  _ ← database_preflight;
  _ ← on_state (checkpoint MigrationStarted);
  _ ← save;
  _ ← database_migrate;
  _ ← on_state (checkpoint MigrationCompleted);
  _ ← save;
  _ ← start_and_verify c;
  if edge_restored then restart_traefik else mret tt.

Definition restore (name confirmation : text) (external_database_restored : bool) : M unit :=
  with_lock (
    '(current_config, _) ← load_installation;
    live ← get_state;
    _ ← lift (bail_if (negb (bool_decide (confirmation = installation_id live)))
                "restore confirmation does not match this installation ID");
    _ ← lift (bail_if (bool_decide (is_Some (operation live)) && negb (bool_decide (lifecycle live = RestoreRequired)))
                "another incomplete operation must be resolved before restore");
    _ ← lift (validate_backup_name name);
    let key := (backup_directory current_config, name) in
    '(m, c, s, restored) ← restore_source key external_database_restored (installation_id live);
    _ ← validate_custom_certificate_files c;
    _ ← detect_docker;
    _ ← stop_application_services;
    _ ← save_recovery_copy;
    now ← now_unix;
    _ ← on_state (fun st =>
          begin_restore name now
            (if bool_decide (lifecycle st = RestoreRequired) then set_operation (lifecycle st) None st else st));
    _ ← save;
    _ ← persist_active_configuration c s;
    _ ← materialize_assets;
    _ ← restore_local_certificate_if_present key c;
    _ ← ensure_local_certificate;
    v ← lift (ok_or (current restored) "backup state has no deployed version"%string);
    _ ← materialize_environment c s (traefik v);
    now ← now_unix;
    _ ← set_state (set_operation (lifecycle restored) None restored);
    _ ← on_state (begin_restore name now);
    _ ← save;
    _ ← or_restore_required (restore_steps key m c);
    _ ← on_state promote_healthy;
    _ ← on_state (fun st => Ok (set_backup (Some name) st));
    save).

Definition validate_removal_root (executable : option text) (id : text) : M unit :=
  let normal := List.filter (fun c => negb (bool_decide (c = str ".."))) (components root) in
  _ ← lift (bail_if (negb (starts_with (str "/") root) || (len normal <? 2))
              "refusing to remove an unsafe or overly broad state directory");
  on_disk ← read_file state_json;
  _ ← lift (validate on_disk root);
  _ ← lift (bail_if (negb (bool_decide (installation_id on_disk = id)))
              "state-directory marker does not match the confirmed installation");
  _ ← lift (match executable with
            | Some e => bail_if (bool_decide (components root `prefix_of` components e))
                          "refusing to remove a state directory containing the running launcher binary"
            | None => Ok tt
            end);
  external.

(** The protected files under the root, for [remove_dir_all], which takes them in an
    order of its own; backups under the root go with them. *)
Inductive Entry := StateEntry | ConfigEntry | SecretsEntry | RollbackConfigEntry | RollbackSecretsEntry | EnvEntry | BackupsEntry.

Definition remove_entry (e : Entry) : Core -> Core :=
  match e with
  | StateEntry => set_state_json None
  | ConfigEntry => set_config_json None
  | SecretsEntry => set_secrets_json None
  | RollbackConfigEntry => set_rollback_config None
  | RollbackSecretsEntry => set_rollback_secrets None
  | EnvEntry => set_env None
  | BackupsEntry => fun c =>
      set_backups (filter (fun kd => ~ components root `prefix_of` components kd.1.1) (backups c)) c
  end.
Definition entries : list Entry :=
  [StateEntry; ConfigEntry; SecretsEntry; RollbackConfigEntry; RollbackSecretsEntry; EnvEntry; BackupsEntry].

Definition remove_dir_all (order : list Entry) : M unit :=
  _ ← for_each (fun e => effect (remove_entry e)) order;
  effect (fun c => foldr remove_entry c entries).

(** The lock is dropped before the directory is removed. *)
Definition uninstall (executable : option text) (order : list Entry) (remove_data : bool) (confirmation : option text)
    : M unit :=
  remove ← with_lock (
    '(c, _) ← load_installation;
    st ← get_state;
    _ ← lift (require_no_incomplete_operation st);
    _ ← detect_docker;
    if remove_data then
      _ ← lift (bail_if (negb (bool_decide (confirmation = Some (installation_id st))))
                  "data-removal confirmation does not match this installation ID");
      _ ← validate_removal_root executable (installation_id st);
      _ ← remove_with_volumes c;
      mret true
    else
      _ ← project_stop;
      _ ← on_state (fun st => Ok (set_operation UninstalledDataPreserved (operation st) st));
      _ ← save;
      mret false);
  if (remove : bool) then remove_dir_all order else mret tt.

(** ** Downloaded bundles (quickstart.rs) *)

Inductive Action := InstallAction | StartAction.

Definition select_action (c : InstallationConfig) (st : option DeploymentState) : res anyhow Action :=
  _ ← bail_if (negb (bool_decide (mode (edge c) = Local)) || negb (is_bundled (database c)) ||
               existsb (fun d => negb (ends_with (str ".localhost") d))
                 [frontend_domain (edge c); api_domain (edge c); control_domain (edge c); relay_domain (edge c)])
        "quickstart requires the bundled database and local .localhost routes";
  match st with
  | None => Ok InstallAction
  | Some st =>
      _ ← bail_if (bool_decide (lifecycle st = RestoreRequired)) "Talos requires backup recovery";
      v ← pending_version st;
      _ ← bail_if (negb (bool_decide (config v = c))) "this download differs from the installed configuration";
      match operation st with
      | Some op =>
          if bool_decide (kind op = Install) && checkpoint_lt (op_checkpoint op) MigrationStarted
          then Ok InstallAction
          else Err "an interrupted operation may have changed the database"%string
      | None => Ok StartAction
      end
  end.

Definition quickstart (rng : Entropy) (request : option InstallRequest) : M unit :=
  _ ← detect_docker;
  '(c, _) ← load_request request;
  x ← get_core;
  st ← (if bool_decide (is_Some (state_json x)) then _ ← load; st ← get_state; mret (Some st) else mret None);
  action ← lift (select_action c st);
  match action with
  | InstallAction => install rng request None
  | StartAction => start
  end.

(** The report of [diagnostics] goes to a file of its own. *)
Definition diagnostics_command : M unit := _ ← load_installation; _ ← detect_docker; external.

(** ** The dispatch of [run] *)

(** What a command meets besides Docker: randomness, the request files by path, the path of the
    launcher, and the order in which a directory is removed. *)
Record Host := {
  entropy : Entropy;
  requests : OsString -> option InstallRequest;
  executable : option text;
  removal_order : list Entry }.

Definition perform (h : Host) (command : Cli.CliCommand) : M unit :=
  match command with
  | Cli.Quickstart p => quickstart (entropy h) (requests h p)
  | Cli.Install p b => install (entropy h) (requests h p) b
  | Cli.Start => start
  | Cli.Stop => stop
  | Cli.Status => _ ← status; mret tt
  | Cli.Update p b => update (entropy h) (requests h p) b
  | Cli.Backup n b => backup_command n b
  | Cli.Restore n confirmation restored => restore n confirmation restored
  | Cli.Diagnostics _ => diagnostics_command
  | Cli.Uninstall remove confirmation => uninstall (executable h) (removal_order h) remove confirmation
  | Cli.Help => mret tt
  end.
End launcher.
End Launcher.
