(* ===== verification/ApplianceLogic.v ===== *)
(** A logic for the launcher's operations in the presence of failures and crashes.

    [cwp m Q E K v]: whatever the fates of its steps, [m] run from [v] either returns a
    value that satisfies [Q], or fails in a state that satisfies [E], or is killed in one
    that satisfies [K].  It is [pwp] for states seen through [View]: the [state] variable, the
    journal, the active configuration, the environment of Compose, the schema of the
    database and the starts.  A step is [neutral] if it changes none of these. *)

From S2P Require Import Prelude Bytes Text ApplianceConfig ApplianceEnvironment ApplianceCli Appliance.

Import Config Journal Launcher.

Local Open Scope Z_scope.

Record View := {
  v_mem : DeploymentState;
  v_state : option DeploymentState;
  v_config : option InstallationConfig;
  v_env : option DeploymentVersion;
  v_schema : option Application;
  v_started : list (InstallationConfig * option Application) }.

Definition view (c : Core) : View :=
  {| v_mem := mem c; v_state := state_json c; v_config := config_json c; v_env := talos_env c;
     v_schema := schema c; v_started := started c |}.

Definition with_mem st v : View :=
  {| v_mem := st; v_state := v_state v; v_config := v_config v; v_env := v_env v; v_schema := v_schema v;
     v_started := v_started v |}.
Definition with_state st v : View :=
  {| v_mem := v_mem v; v_state := st; v_config := v_config v; v_env := v_env v; v_schema := v_schema v;
     v_started := v_started v |}.
Definition with_config c v : View :=
  {| v_mem := v_mem v; v_state := v_state v; v_config := c; v_env := v_env v; v_schema := v_schema v;
     v_started := v_started v |}.
Definition with_env e v : View :=
  {| v_mem := v_mem v; v_state := v_state v; v_config := v_config v; v_env := e; v_schema := v_schema v;
     v_started := v_started v |}.
Definition with_schema s v : View :=
  {| v_mem := v_mem v; v_state := v_state v; v_config := v_config v; v_env := v_env v; v_schema := s;
     v_started := v_started v |}.
Definition with_start c v : View :=
  {| v_mem := v_mem v; v_state := v_state v; v_config := v_config v; v_env := v_env v;
     v_schema := Some (application c); v_started := v_started v ++ [(c, v_schema v)] |}.

Definition pwp {V A} (seen : Core -> V) (m : M A) (Q : A -> V -> Prop) (E K : V -> Prop) (v : V) : Prop :=
  forall w, seen (core w) = v ->
  match m w with
  | (w', Ok a) => Q a (seen (core w'))
  | (w', Err _) => E (seen (core w'))
  | (w', Panic) | (w', Fuel) => K (seen (core w'))
  end.

Abbreviation cwp := (pwp view).

(** ** Frames

    [framed R m]: the machine before [m] and after it, however it ends, are related. *)

Definition framed {A} (R : relation Core) (m : M A) : Prop := forall w, R (core w) (core (m w).1).

Definition only_backups (c c' : Core) : Prop := exists b, c' = set_backups b c.
Definition same_view (c c' : Core) : Prop := view c' = view c.
Abbreviation neutral := (framed same_view).

#[export] Instance only_backups_preorder : PreOrder only_backups.
Proof.
  split; [intros c; exists (backups c); by destruct c|]. intros c1 c2 c3 [b ->] [b' ->]. by exists b'.
Qed.

#[export] Instance same_view_preorder : PreOrder same_view.
Proof. split; [done|]. unfold same_view. intros c1 c2 c3 H12 H23. by rewrite H23. Qed.

Lemma only_backups_same_view c c' : only_backups c c' -> same_view c c'.
Proof. by intros [b ->]. Qed.

Section framed.
Context {A B : Type} (R : relation Core) `{!PreOrder R}.

Lemma framed_ret (a : A) : framed R (mret a).
Proof. by intros w. Qed.

Lemma framed_lift (r : res anyhow A) : framed R (lift r).
Proof. by intros w. Qed.

Lemma framed_bind (m : M A) (k : A -> M B) : framed R m -> (forall a, framed R (k a)) -> framed R (m ≫= k).
Proof.
  intros Hm Hk w. unfold mbind, method_bind. specialize (Hm w).
  destruct (m w) as [w' [a|e| |]]; cbn in *; [etrans; [done|apply Hk]|done..].
Qed.

Lemma framed_effect f : (forall c, R c (f c)) -> framed R (effect f).
Proof.
  intros Hf w. unfold effect. destruct (fates (input w)) as [|[|d|d] l]; cbn; try apply Hf; destruct d; by try apply Hf.
Qed.

Lemma framed_catch (m : M A) : framed R m -> framed R (catch m).
Proof. intros Hm w. unfold catch. specialize (Hm w). by destruct (m w) as [w' [a|e| |]]. Qed.

Lemma framed_unchanged (m : M A) : framed eq m -> framed R m.
Proof. intros Hm w. by rewrite <- Hm. Qed.
End framed.

Lemma framed_for_each {A} (R : relation Core) `{!PreOrder R} (f : A -> M unit) l :
  (forall a, framed R (f a)) -> framed R (for_each f l).
Proof. intros Hf. induction l as [|a l IH]; [by intros w|]. cbn. apply framed_bind; [done|apply Hf|done]. Qed.

Lemma neutral_backups {A} (m : M A) : framed only_backups m -> neutral m.
Proof. intros Hm w. apply only_backups_same_view, Hm. Qed.

Lemma unchanged_external : framed eq external.
Proof. by apply framed_effect; [apply _|]. Qed.

Lemma unchanged_get_core : framed eq get_core.
Proof. by intros w. Qed.

Lemma unchanged_now_unix : framed eq now_unix.
Proof. by intros w. Qed.

Lemma unchanged_get_answers : framed eq get_answers.
Proof. by intros w. Qed.

Lemma unchanged_next_report : framed eq next_report.
Proof. by intros w. Qed.

Create HintDb neutral.
#[export] Hint Resolve framed_ret framed_lift unchanged_external unchanged_get_core unchanged_now_unix
  unchanged_get_answers unchanged_next_report : neutral.
#[export] Hint Extern 0 (PreOrder _) => apply _ : neutral.
#[export] Hint Extern 2 (framed ?R _) =>
  lazymatch R with eq => fail | _ => apply framed_unchanged; [apply _|] end : neutral.
#[export] Hint Extern 3 (neutral _) => apply neutral_backups : neutral.

(** Go through an operation step by step. *)
Ltac neutral_step :=
  match goal with
  | |- framed _ _ => solve [eauto with neutral]
  | |- framed _ (_ ≫= _) => apply framed_bind; [apply _| |intros ?]
  | |- framed _ (mbind _ _) => apply framed_bind; [apply _| |intros ?]
  | |- framed _ (catch _) => apply framed_catch
  | |- framed _ (for_each _ _) => apply framed_for_each; [apply _|intros ?]
  | |- framed _ (effect _) => apply framed_effect; [apply _|intros ?; try done; try by eexists]
  | |- framed _ (match ?x with _ => _ end) => destruct x
  | |- framed _ (let '(_, _) := ?x in _) => destruct x
  end.
Ltac neutral := repeat neutral_step.

Section operations.
Context (Url_parse : text -> option Url) (sha256_of : Content -> text) (length_of : Content -> Z) (root : text).

Lemma unchanged_read_file {A} (f : Core -> option A) : framed eq (read_file f).
Proof. unfold read_file. neutral. Qed.
#[local] Hint Resolve unchanged_read_file : neutral.

Lemma unchanged_pull_release_images i : framed eq (pull_release_images i).
Proof. unfold pull_release_images. neutral. Qed.

Lemma unchanged_resolve_traefik_latest : framed eq resolve_traefik_latest.
Proof. unfold resolve_traefik_latest. neutral. Qed.

Lemma unchanged_ensure_recorded_images i t : framed eq (ensure_recorded_images i t).
Proof. unfold ensure_recorded_images. neutral. Qed.

Lemma unchanged_detect_docker : framed eq detect_docker.
Proof. unfold detect_docker. neutral. Qed.

Lemma unchanged_get_state : framed eq get_state.
Proof. unfold get_state. neutral. Qed.

Lemma unchanged_verify_file key f : framed eq (verify_file sha256_of length_of key f).
Proof. unfold verify_file, file_record. neutral. Qed.
#[local] Hint Resolve unchanged_get_state unchanged_verify_file : neutral.

Lemma unchanged_verify_backup key id : framed eq (verify_backup sha256_of length_of key id).
Proof. unfold verify_backup. neutral. Qed.

Lemma unchanged_file_records key l : framed eq (file_records sha256_of length_of key l).
Proof. induction l; cbn; unfold file_record; neutral. Qed.
#[local] Hint Resolve unchanged_verify_backup unchanged_file_records : neutral.

Lemma backups_add_file key n x : framed only_backups (add_file key n x).
Proof. unfold add_file. neutral. Qed.
#[local] Hint Resolve backups_add_file : neutral.

Lemma backups_backup_database key b c : framed only_backups (backup_database length_of key b c).
Proof. unfold backup_database. neutral. Qed.

Lemma backups_backup_edge key c r i : framed only_backups (backup_edge key c r i).
Proof. unfold backup_edge, stop_traefik, restart_traefik. neutral. Qed.
#[local] Hint Resolve backups_backup_database backups_backup_edge : neutral.

Lemma backups_backup_contents key b c i : framed only_backups (backup_contents sha256_of length_of key b c i).
Proof. unfold backup_contents, copy_file. neutral. Qed.
#[local] Hint Resolve backups_backup_contents : neutral.

Lemma backups_create_backup n b c i : framed only_backups (create_backup sha256_of length_of n b c i).
Proof. unfold create_backup, ignore. neutral. Qed.

Lemma unchanged_validate_custom_certificate_files c : framed eq (validate_custom_certificate_files c).
Proof. unfold validate_custom_certificate_files. neutral. Qed.

Lemma unchanged_load_request r : framed eq (load_request Url_parse root r).
Proof. unfold load_request. neutral. Qed.

Lemma neutral_persist_rollback_snapshot c s : neutral (persist_rollback_snapshot c s).
Proof. unfold persist_rollback_snapshot. neutral. Qed.

Lemma neutral_running r : neutral (effect (set_running r)).
Proof. neutral. Qed.

Lemma neutral_set_locked b : neutral (effect (set_locked b)).
Proof. neutral. Qed.

Lemma neutral_secrets s : neutral (effect (set_secrets_json s)).
Proof. neutral. Qed.
End operations.

#[export] Hint Resolve unchanged_detect_docker unchanged_read_file unchanged_pull_release_images unchanged_resolve_traefik_latest
  unchanged_ensure_recorded_images unchanged_verify_backup backups_create_backup unchanged_get_state
  unchanged_validate_custom_certificate_files unchanged_load_request neutral_persist_rollback_snapshot neutral_running
  neutral_set_locked neutral_secrets : neutral.

(** ** Rules *)

Section rules.
Context {V A B : Type} (seen : Core -> V).
Implicit Types (Q : A -> V -> Prop) (E K : V -> Prop) (v : V).

Lemma cwp_ret (a : A) Q E K v : Q a v -> pwp seen (mret a) Q E K v.
Proof. by intros ? w <-. Qed.

Lemma cwp_bind (m : M A) (k : A -> M B) (Q : B -> V -> Prop) E K v :
  pwp seen m (fun a => pwp seen (k a) Q E K) E K v -> pwp seen (m ≫= k) Q E K v.
Proof.
  intros Hm w Hw. specialize (Hm w Hw). unfold mbind, method_bind.
  destruct (m w) as [w' [a|e| |]]; [by apply Hm|done..].
Qed.

Lemma cwp_mono (m : M A) Q Q' E E' K K' v :
  pwp seen m Q E K v -> (forall a v, Q a v -> Q' a v) -> (forall v, E v -> E' v) -> (forall v, K v -> K' v) ->
  pwp seen m Q' E' K' v.
Proof. intros Hm HQ HE HK w Hw. specialize (Hm w Hw). destruct (m w) as [w' [a|e| |]]; eauto. Qed.

Lemma cwp_lift (r : res anyhow A) Q E K v :
  (forall a, r = Ok a -> Q a v) -> E v -> K v -> pwp seen (lift r) Q E K v.
Proof. intros HQ HE HK w <-. unfold lift. destruct r; auto. Qed.

Lemma cwp_err e Q E K v : E v -> pwp seen (lift (Err e) : M A) Q E K v.
Proof. by intros ? w <-. Qed.

Lemma cwp_framed (R : relation Core) (m : M A) Q E K v :
  framed R m -> (forall c c', R c c' -> seen c = v -> (forall a, Q a (seen c')) /\ E (seen c') /\ K (seen c')) ->
  pwp seen m Q E K v.
Proof.
  intros Hm H w Hw. specialize (Hm w). destruct (H _ _ Hm Hw) as (HQ & HE & HK). by destruct (m w) as [w' [a|e| |]].
Qed.

Lemma cwp_catch (m : M A) (Q : res anyhow A -> V -> Prop) E K v :
  pwp seen m (fun a => Q (Ok a)) (fun v => forall e, Q (Err e) v) K v -> pwp seen (catch m) Q E K v.
Proof. intros Hm w Hw. specialize (Hm w Hw). unfold catch. destruct (m w) as [w' [a|e| |]]; auto. Qed.
End rules.

Lemma cwp_ignore {V A} (seen : Core -> V) (m : M A) Q E K v :
  pwp seen m (fun _ => Q tt) (Q tt) K v -> pwp seen (ignore m) Q E K v.
Proof.
  intros Hm. unfold ignore. apply cwp_bind, cwp_catch. eapply cwp_mono; [exact Hm|..]; cbn; auto using cwp_ret.
Qed.

Lemma cwp_effect {V} (seen : Core -> V) f g Q E K v :
  (forall c, seen (f c) = g (seen c)) -> Q tt (g v) -> E v -> E (g v) -> K v -> K (g v) -> pwp seen (effect f) Q E K v.
Proof.
  intros Hf HQ HE HE' HK HK' w <-. unfold effect.
  destruct (fates (input w)) as [|[|d|d] l]; cbn; rewrite ?Hf; auto; destruct d; cbn; rewrite ?Hf; auto.
Qed.

Section rules.
Implicit Types (E K : View -> Prop) (v : View).

Lemma cwp_neutral {A} (m : M A) (Q : A -> View -> Prop) E K v :
  neutral m -> (forall a, Q a v) -> E v -> K v -> cwp m Q E K v.
Proof. intros Hm HQ HE HK. eapply cwp_framed; [exact Hm|]. intros c c' Hc <-. rewrite Hc. auto. Qed.

Lemma cwp_get_core Q E K v : (forall c, view c = v -> Q c v) -> cwp get_core Q E K v.
Proof. intros HQ w <-. cbn. auto. Qed.

Lemma cwp_get_state Q E K v : Q (v_mem v) v -> cwp get_state Q E K v.
Proof. by intros HQ w <-. Qed.

Lemma cwp_set_state st Q E K v : Q tt (with_mem st v) -> cwp (set_state st) Q E K v.
Proof. by intros HQ w <-. Qed.

Lemma cwp_on_state f Q E K v :
  (forall st, f (v_mem v) = Ok st -> Q tt (with_mem st v)) -> E v -> K v -> cwp (on_state f) Q E K v.
Proof.
  intros HQ HE HK. unfold on_state. apply cwp_bind, cwp_get_state, cwp_bind, cwp_lift; auto.
  intros st Hst. apply cwp_set_state; auto.
Qed.

Lemma cwp_now_unix Q E K v : (forall t, Q t v) -> cwp now_unix Q E K v.
Proof. intros HQ w <-. cbn. auto. Qed.

(** The written state is the variable with a new time. *)
Lemma cwp_save (Q : unit -> View -> Prop) E K v :
  (forall t, let st := set_transition t (v_mem v) in
     Q tt (with_state (Some st) (with_mem st v)) /\
     (E (with_mem st v) /\ E (with_state (Some st) (with_mem st v))) /\
     K (with_mem st v) /\ K (with_state (Some st) (with_mem st v))) ->
  cwp save Q E K v.
Proof.
  intros H. unfold save. apply cwp_bind, cwp_now_unix. intros t. destruct (H t) as (HQ & [] & []).
  apply cwp_bind, cwp_get_state, cwp_bind, cwp_set_state.
  by eapply (cwp_effect _ _ (with_state (Some (set_transition t (v_mem v))))).
Qed.

Lemma cwp_read_file {A} (f : Core -> option A) (g : View -> option A) Q E K v :
  (forall c, f c = g (view c)) -> (forall a, g v = Some a -> Q a v) -> E v -> K v -> cwp (read_file f) Q E K v.
Proof.
  intros Hf HQ HE HK. unfold read_file. apply cwp_bind, cwp_neutral; [auto with neutral|intros _|done..].
  apply cwp_bind, cwp_get_core. intros c <-. apply cwp_lift; auto.
  rewrite Hf. intros a Ha%ok_or_ok_inv. auto.
Qed.

Lemma cwp_compose_env Q E K v :
  (forall e, v_env v = Some e -> Q (config e) v) -> E v -> K v -> cwp compose_env Q E K v.
Proof.
  intros HQ HE HK. unfold compose_env. apply cwp_bind, cwp_get_core. intros c <-.
  apply cwp_bind, cwp_lift; auto. intros e He%ok_or_ok_inv. apply cwp_ret; auto.
Qed.

Lemma cwp_database_migrate (Q : unit -> View -> Prop) E K v e :
  v_env v = Some e -> (let v' := with_schema (Some (application (config e))) v in Q tt v' /\ (E v /\ E v') /\ K v /\ K v') ->
  cwp database_migrate Q E K v.
Proof.
  intros He (HQ & [] & []). unfold database_migrate. apply cwp_bind, cwp_compose_env; auto.
  intros ? [= <-]%(eq_trans (eq_sym He)).
  by eapply (cwp_effect _ _ (with_schema (Some (application (config e))))).
Qed.

Lemma cwp_start_and_verify c (Q : unit -> View -> Prop) E K v e :
  v_env v = Some e ->
  (let v' := with_start (config e) v in Q tt v' /\ (E v /\ E v') /\ K v /\ K v') -> cwp (start_and_verify c) Q E K v.
Proof.
  intros He (HQ & [] & []). unfold start_and_verify, up_all.
  apply cwp_bind, cwp_bind, cwp_compose_env; auto. intros ? [= <-]%(eq_trans (eq_sym He)).
  apply cwp_bind. eapply (cwp_effect _ _ (with_start (config e))); auto.
  apply cwp_neutral; [auto with neutral|intros _|done..].
  apply cwp_bind, cwp_neutral; [unfold collect_service_status; neutral|intros ?|done..].
  by apply cwp_lift; [intros []|..].
Qed.

Lemma cwp_materialize_environment Url_parse root c s t (Q : unit -> View -> Prop) E K v :
  (let v' := with_env (Some {| config := c; traefik := t |}) v in Q tt v' /\ (E v /\ E v') /\ K v /\ K v') ->
  cwp (materialize_environment Url_parse root c s t) Q E K v.
Proof.
  intros (HQ & [] & []). apply cwp_bind, cwp_lift; auto. intros _ _.
  by eapply (cwp_effect _ _ (with_env (Some {| config := c; traefik := t |}))).
Qed.

Lemma cwp_persist_active_configuration c s (Q : unit -> View -> Prop) E K v :
  (let v' := with_config (Some c) v in Q tt v' /\ (E v /\ E v') /\ K v /\ K v') ->
  cwp (persist_active_configuration c s) Q E K v.
Proof.
  intros (HQ & [] & []). unfold persist_active_configuration. apply cwp_bind.
  eapply (cwp_effect _ _ (with_config (Some c))); auto. apply cwp_neutral; [auto with neutral|by intros []|done..].
Qed.

Lemma cwp_with_lock {A} (m : M A) (Q : A -> View -> Prop) E K v :
  E v -> K v -> cwp m (fun a v => Q a v /\ K v) (fun v => E v /\ K v) K v -> cwp (with_lock m) Q E K v.
Proof.
  intros HE HK Hm. unfold with_lock. apply cwp_bind, cwp_get_core. intros c Hc.
  apply cwp_bind, cwp_lift; [intros _ _|done..]. apply cwp_bind, cwp_neutral; [auto with neutral|intros _|done..].
  apply cwp_bind, cwp_catch. eapply cwp_mono; [exact Hm|..]; [intros a v' []|intros v' [] e|done].
  all: apply cwp_bind, cwp_ignore, cwp_neutral; [auto with neutral|intros _| |done].
  1,2: by apply cwp_ret. all: by apply cwp_err.
Qed.
End rules.

(** ** The checkpoints *)

Definition at_checkpoint (next : Checkpoint) (op : OperationJournal) (st : DeploymentState) : DeploymentState :=
  set_operation (lifecycle st)
    (Some {| kind := kind op; op_checkpoint := next; started_at_unix := started_at_unix op;
             backup_name := backup_name op; application_images_changed := application_images_changed op |}) st.

Lemma cwp_advance_checkpoint next (Q : unit -> View -> Prop) (E K : View -> Prop) v :
  E v -> K v ->
  (forall op, operation (v_mem v) = Some op ->
     if checkpoint_lt (op_checkpoint op) next
     then forall t, let st := set_transition t (at_checkpoint next op (v_mem v)) in
       Q tt (with_state (Some st) (with_mem st v)) /\
       (E (with_mem st v) /\ E (with_state (Some st) (with_mem st v))) /\
       K (with_mem st v) /\ K (with_state (Some st) (with_mem st v))
     else Q tt v) ->
  cwp (advance_checkpoint next) Q E K v.
Proof.
  intros HE HK H. unfold advance_checkpoint. apply cwp_bind, cwp_get_state, cwp_bind, cwp_lift; auto.
  intros op Hop%ok_or_ok_inv. specialize (H op Hop). destruct (checkpoint_lt _ _); [|by apply cwp_ret].
  apply cwp_bind, cwp_on_state; auto. intros st Hst. apply cwp_save. intros t.
  replace st with (at_checkpoint next op (v_mem v)); [apply (H t)|].
  unfold checkpoint in Hst. rewrite Hop in Hst. cbn in Hst. case_match; by simplify_eq.
Qed.

Section operations.
Context (Url_parse : text -> option Url) (sha256_of : Content -> text) (length_of : Content -> Z) (root : text).

Lemma cwp_load (Q : unit -> View -> Prop) (E K : View -> Prop) v :
  E v -> K v -> (forall st, v_state v = Some st -> Q tt (with_mem st v)) -> cwp (load root) Q E K v.
Proof.
  intros HE HK HQ. unfold load. apply cwp_bind, (cwp_read_file _ v_state); auto. intros st Hst.
  apply cwp_bind, cwp_lift; auto. intros [] _. apply cwp_set_state; auto.
Qed.

Lemma cwp_load_installation (Q : InstallationConfig * SecretConfig -> View -> Prop) (E K : View -> Prop) v :
  E v -> K v -> (forall st, E (with_mem st v) /\ K (with_mem st v)) ->
  (forall st cur s, v_state v = Some st -> current st = Some cur -> v_config v = Some (config cur) ->
     Q (config cur, s) (with_mem st v)) ->
  cwp (load_installation Url_parse root) Q E K v.
Proof.
  intros HE HK Hm HQ. unfold load_installation. apply cwp_bind, cwp_neutral; [auto with neutral|intros _|done..]. apply cwp_bind, cwp_load; auto. intros st Hst.
  destruct (Hm st). apply cwp_bind, (cwp_read_file _ v_config); auto. intros c Hc.
  apply cwp_bind, cwp_neutral; [auto with neutral|intros s|done..].
  apply cwp_bind, cwp_lift; auto. intros _ _. apply cwp_bind, cwp_get_state.
  apply cwp_bind, cwp_lift; auto. intros cur Hcur%ok_or_ok_inv.
  apply cwp_bind, cwp_lift; auto. unfold bail_if. intros ? Heq. case_bool_decide; [|done].
  apply cwp_ret. subst c. by apply HQ.
Qed.
End operations.
