(* ===== verification/ApplianceSafety.v ===== *)
(** The launcher never starts the services of one application on a database that another
    one migrated, however its operations fail or are interrupted. *)

From S2P Require Import Prelude Bytes Text ApplianceConfig ApplianceEnvironment ApplianceCli Appliance ApplianceLogic.

Import Config Journal Launcher.

Local Open Scope Z_scope.

(** ** The invariant *)

(** An application may meet a database that it has migrated itself, or an empty one. *)
Definition fits (s : option Application) (a : Application) : Prop := s = None \/ s = Some a.

Definition start_ok (x : InstallationConfig * option Application) : Prop := fits x.2 (application x.1).

(** From here on, only a restore can bring the previous version back. *)
Definition migrating (op : OperationJournal) : Prop :=
  application_images_changed op = true /\ checkpoint_lt (op_checkpoint op) MigrationStarted = false.

Definition update_ok (s : option Application) (st : DeploymentState) : Prop :=
  exists op p cur, operation st = Some op /\ kind op = Update /\ previous_good st = Some p /\ current st = Some cur /\
    (application_images_changed op = false -> application (config p) = application (config cur)) /\
    (migrating op \/ (fits s (application (config p)) /\ lifecycle st <> RestoreRequired)).

Definition journal_ok (active : option InstallationConfig) (s : option Application) (st : DeploymentState) : Prop :=
  match operation st with
  | None =>
      lifecycle st <> RestoreRequired /\
      forall cur, current st = Some cur -> active = Some (config cur) -> fits s (application (config cur))
  | Some op => kind op = Update -> update_ok s st
  end.

Definition sound (v : View) : Prop :=
  Forall start_ok (v_started v) /\ forall st, v_state v = Some st -> journal_ok (v_config v) (v_schema v) st.

Lemma fits_refl a : fits (Some a) a.
Proof. by right. Qed.

Lemma fits_some a b : a = b -> fits (Some a) b.
Proof. intros ->. apply fits_refl. Qed.

Lemma update_ok_journal_ok active s st : update_ok s st -> journal_ok active s st.
Proof.
  intros Hst. unfold journal_ok. destruct (operation st) eqn:Hop; [done|]. destruct Hst as (? & ? & ? & ? & _). congruence.
Qed.

Lemma other_journal_ok active s st op : operation st = Some op -> kind op <> Update -> journal_ok active s st.
Proof. intros Hop Hk. unfold journal_ok. rewrite Hop. done. Qed.

Lemma sound_state v st : sound v -> journal_ok (v_config v) (v_schema v) st -> sound (with_state (Some st) v).
Proof. intros [Hs _] Hst. split; [done|]. cbn. by intros ? [= <-]. Qed.

Lemma sound_start v c :
  sound v -> fits (v_schema v) (application c) ->
  (forall st, v_state v = Some st -> journal_ok (v_config v) (Some (application c)) st) -> sound (with_start c v).
Proof. intros [Hs _] Hf Hst. split; cbn; [|done]. apply Forall_app. by rewrite Forall_singleton. Qed.

(** ** Updates *)

Lemma update_ok_checkpoint s st op next t :
  operation st = Some op -> checkpoint_lt (op_checkpoint op) next = true -> update_ok s st ->
  update_ok s (set_transition t (at_checkpoint next op st)).
Proof.
  intros Hop Hlt (op' & p & cur & Hop' & Hk & Hp & Hc & Ha & Hm). simplify_eq.
  eexists _, p, cur. cbn. split_and!; try done. destruct Hm as [[Hch Hm]|Hm]; [left|by right].
  split; [done|]. cbn. unfold checkpoint_lt in *. lia.
Qed.

(** In the middle of an update to [c]. *)
Definition staged (c : InstallationConfig) (v : View) : Prop :=
  sound v /\ update_ok (v_schema v) (v_mem v) /\ v_state v = Some (v_mem v) /\ v_config v = Some c /\
  (exists e, v_env v = Some e /\ config e = c) /\ (exists cur, current (v_mem v) = Some cur /\ config cur = c).

(** What a failure leaves to the recovery. *)
Definition recoverable (v : View) : Prop :=
  sound v /\ update_ok (v_schema v) (v_mem v) /\
  exists st, v_state v = Some st /\ update_ok (v_schema v) st /\ previous_good st = previous_good (v_mem v).

Definition reached (next : Checkpoint) (st : DeploymentState) : Prop :=
  forall op, operation st = Some op -> checkpoint_lt (op_checkpoint op) next = false.

Lemma staged_recoverable c v : staged c v -> recoverable v.
Proof. intros (? & ? & ? & _). split_and!; eauto. Qed.

Lemma recoverable_sound v : recoverable v -> sound v.
Proof. by intros []. Qed.

Lemma staged_advance c next v :
  staged c v ->
  cwp (advance_checkpoint next)
    (fun _ v' => staged c v' /\ reached next (v_mem v') /\ v_schema v' = v_schema v) recoverable sound v.
Proof.
  intros Hv. pose proof (staged_recoverable _ _ Hv) as Hr. pose proof (recoverable_sound _ Hr).
  apply cwp_advance_checkpoint; auto. intros op Hop. destruct (checkpoint_lt _ _) eqn:Hlt.
  - intros t st. destruct Hv as (Hs & Hu & Hst & Hc & He & Hcur).
    pose proof (update_ok_checkpoint _ _ _ _ t Hop Hlt Hu) as Hu'.
    assert (sound (with_state (Some st) (with_mem st v))) as Hs'.
    { apply (sound_state (with_mem st v)); [done|]. by apply update_ok_journal_ok. }
    assert (recoverable (with_mem st v)) by (split_and!; eauto).
    assert (recoverable (with_state (Some st) (with_mem st v))) by (split_and!; eauto).
    split_and!; try done. intros op' [= <-]. unfold checkpoint_lt. cbn. lia.
  - split_and!; try done. by intros ? [= <-]%(eq_trans (eq_sym Hop)).
Qed.

(** Once the migration is on record, it may run. *)
Lemma update_ok_migrated c v :
  staged c v -> reached MigrationStarted (v_mem v) -> update_ok (Some (application c)) (v_mem v).
Proof.
  intros (_ & (op & p & cur & Hop & Hk & Hp & Hc & Ha & Hm) & _ & _ & _ & (cur' & Hcur' & <-)) Hreached.
  simplify_eq. exists op, p, cur. split_and!; try done.
  destruct Hm as [|[_ Hl]]; [by left|]. destruct (application_images_changed op) eqn:Hch.
  - left. split; [done|]. by apply Hreached.
  - right. split; [|done]. by apply fits_some; rewrite Ha.
Qed.

Lemma staged_schema c v :
  staged c v -> reached MigrationStarted (v_mem v) -> staged c (with_schema (Some (application c)) v).
Proof.
  intros Hv Hm. pose proof (update_ok_migrated _ _ Hv Hm) as Hu.
  destruct Hv as ((Hs & _) & _ & Hst & Hr). split_and!; try apply Hr; try done.
  split; [done|]. cbn. rewrite Hst. intros ? [= <-]. by apply update_ok_journal_ok.
Qed.

Lemma staged_start c v :
  staged c v -> v_schema v = Some (application c) -> staged c (with_start c v).
Proof.
  intros Hv Hsch. destruct Hv as (Hs & Hu & Hst & Hr). rewrite Hsch in Hu. split_and!; try apply Hr; try done.
  apply sound_start; [done|rewrite Hsch; apply fits_refl|]. rewrite Hst. intros ? [= <-]. by apply update_ok_journal_ok.
Qed.

(** One step of an operation that changes nothing of the view. *)
Ltac skip := apply cwp_bind, cwp_neutral; [solve [eauto with neutral | neutral]|intros ?|by eauto..].

Section safety.
Context (Url_parse : text -> option Url) (sha256_of : Content -> text) (length_of : Content -> Z) (root : text).

Lemma update_steps_spec c v :
  staged c v ->
  cwp (update_steps c) (fun _ v' => staged c v' /\ v_schema v' = Some (application c)) recoverable sound v.
Proof.
  intros Hv. unfold update_steps.
  assert (forall v, staged c v -> recoverable v /\ sound v) as Hall
    by (intros v' Hv'; split; [by eapply staged_recoverable|by destruct Hv']).
  destruct (Hall v Hv). skip. skip.
  apply cwp_bind. eapply cwp_mono; [by apply staged_advance| |done..]. intros _ v1 (Hv1 & _ & _).
  destruct (Hall v1 Hv1). skip.
  apply cwp_bind. eapply cwp_mono; [by apply staged_advance| |done..]. intros _ v2 (Hv2 & _ & _).
  apply cwp_bind. eapply cwp_mono; [by apply staged_advance| |done..]. intros _ v3 (Hv3 & Hm & _).
  pose proof (staged_schema _ _ Hv3 Hm) as Hv3'. destruct (Hall _ Hv3), (Hall _ Hv3').
  destruct Hv3 as (_ & _ & _ & _ & (e & He & <-) & _).
  apply cwp_bind. eapply cwp_database_migrate; [done|]. split_and!; auto.
  apply cwp_bind. eapply cwp_mono; [by apply staged_advance| |done..]. intros _ v4 (Hv4 & _ & Hsch4).
  pose proof (staged_start _ _ Hv4 Hsch4) as Hv4'. destruct (Hall _ Hv4), (Hall _ Hv4').
  destruct Hv4 as (_ & _ & _ & _ & (e' & He' & Hee') & _). rewrite <-Hee' in *.
  apply cwp_bind. eapply cwp_start_and_verify; [done|]. split_and!; auto.
  apply cwp_bind. eapply cwp_mono; [by apply staged_advance| |done..]. intros _ v5 (Hv5 & _ & Hsch5).
  eapply cwp_mono; [by apply staged_advance| |done..]. intros _ v6 (Hv6 & _ & Hsch6).
  split; [done|]. by rewrite Hsch6, Hsch5.
Qed.

Lemma update_ok_previous s st p :
  update_ok s st -> previous_good st = Some p -> update_ok (Some (application (config p))) st.
Proof.
  intros (op & p' & cur & Hop & Hk & Hp & Hc & Ha & Hm) Hp'. simplify_eq. exists op, p', cur. split_and!; try done.
  destruct Hm as [|[_ Hl]]; [by left|right]. split; [apply fits_refl|done].
Qed.

Lemma restart_previous_spec p v :
  recoverable v -> previous_good (v_mem v) = Some p -> fits (v_schema v) (application (config p)) ->
  cwp (restart_previous Url_parse root p)
    (fun _ v' => sound v' /\ v_mem v' = v_mem v /\ v_config v' = Some (config p) /\
       v_schema v' = Some (application (config p))) sound sound v.
Proof.
  intros (Hs & _ & st & Hst & Hu & Hp') Hp Hf. rewrite Hp in Hp'. unfold restart_previous. skip. rename a into c.
  apply cwp_bind, cwp_lift; auto. unfold bail_if. intros ? Hc. case_bool_decide; [subst c|done]. clear Hc.
  skip. skip.
  assert (sound (with_config (Some (config p)) v)) as Hs'.
  { split; [apply Hs|]. cbn. rewrite Hst. intros ? [= <-]. by apply update_ok_journal_ok. }
  apply cwp_bind, cwp_persist_active_configuration. split_and!; auto. skip. skip.
  apply cwp_bind, cwp_materialize_environment. split_and!; auto.
  eapply cwp_start_and_verify; [done|]. cbn.
  match goal with |- context [with_start ?c ?v] => assert (sound (with_start c v)) end.
  { apply sound_start; [done..|]. cbn. rewrite Hst. intros ? [= <-].
    apply update_ok_journal_ok. by eapply update_ok_previous. }
  split_and!; auto.
Qed.

Lemma recover_failed_update_spec v :
  recoverable v -> cwp (recover_failed_update Url_parse root) (fun _ => sound) sound sound v.
Proof.
  intros Hv. pose proof Hv as (Hs & (op & p & cur & Hop & Hk & Hp & Hc & Ha & Hm) & _). unfold recover_failed_update.
  apply cwp_bind, cwp_get_state. unfold state_rollback_decision. rewrite Hop. cbn.
  apply cwp_bind, cwp_lift; auto. intros ? [= <-]. unfold rollback_decision.
  assert (fits (v_schema v) (application (config p)) ->
    cwp (_ ← restart_previous Url_parse root p; _ ← on_state restore_previous_version; save)
      (fun _ => sound) sound sound v) as Hrestart.
  { intros Hf. apply cwp_bind. eapply cwp_mono; [by apply restart_previous_spec| |done..].
    intros _ v1 (Hs1 & Hm1 & Hc1 & Hsch1). apply cwp_bind, cwp_on_state; auto.
    unfold restore_previous_version. rewrite Hm1, Hp. intros ? [= <-]. apply cwp_save. intros t st.
    assert (sound (with_state (Some st) (with_mem st (with_mem (v_mem v1) v1)))) as Hs2.
    { apply (sound_state (with_mem st v1)); [done|]. split; [done|]. cbn. rewrite Hsch1.
      intros ? [= <-] _. apply fits_refl. }
    split_and!; auto. }
  destruct (application_images_changed op) eqn:Hch; [destruct (checkpoint_lt _ _) eqn:Hlt|]; cbn.
  1,3: rewrite Hp; cbn; apply cwp_bind, cwp_lift; auto; intros ? [= <-]; apply Hrestart;
    destruct Hm as [[]|[]]; congruence.
  apply cwp_bind, cwp_lift; auto. intros _ _. apply cwp_bind, cwp_ignore, cwp_neutral; [apply neutral_running|intros _| |done].
  all: apply cwp_bind, cwp_on_state; auto; intros ? [= <-]; apply cwp_save; intros t st.
  all: assert (sound (with_state (Some st) (with_mem st v))) by
    (apply (sound_state (with_mem st v)); [done|]; apply update_ok_journal_ok; exists op, p, cur; split_and!; try (done || congruence); left; by split).
  all: split_and!; auto.
Qed.

(** ** The operations *)

Lemma load_spec v (Q : InstallationConfig * SecretConfig -> View -> Prop) :
  sound v ->
  (forall st cur s, v_state v = Some st -> current st = Some cur -> v_config v = Some (config cur) ->
     Q (config cur, s) (with_mem st v)) ->
  cwp (load_installation Url_parse root) Q sound sound v.
Proof. intros Hs HQ. apply cwp_load_installation; auto. Qed.

Lemma with_lock_spec {A} (m : M A) v :
  sound v -> cwp m (fun _ => sound) sound sound v -> cwp (with_lock m) (fun _ => sound) sound sound v.
Proof. intros Hs Hm. apply cwp_with_lock; auto. eapply cwp_mono; [exact Hm|..]; auto. Qed.

Lemma no_operation st a (Q : Prop) :
  (operation st = None -> Q) -> require_no_incomplete_operation st = Ok a -> Q.
Proof.
  unfold require_no_incomplete_operation, bail_if. intros HQ H. apply HQ.
  case_bool_decide as Ho; [done|]. by apply eq_None_not_Some.
Qed.

(** A journal without operation is about the active configuration. *)
Lemma idle_fits v st cur :
  sound v -> v_state v = Some st -> operation st = None -> current st = Some cur -> v_config v = Some (config cur) ->
  fits (v_schema v) (application (config cur)).
Proof. intros [_ Hs] Hst Hop Hcur Hc. specialize (Hs st Hst). unfold journal_ok in Hs. rewrite Hop in Hs. by apply Hs. Qed.

(** Saving a state without operation, for the same version. *)
Lemma save_idle_spec v cur :
  sound v -> operation (v_mem v) = None -> lifecycle (v_mem v) <> RestoreRequired -> current (v_mem v) = Some cur ->
  fits (v_schema v) (application (config cur)) ->
  cwp save (fun _ => sound) sound sound v.
Proof.
  intros Hs Hop Hl Hcur Hf. apply cwp_save. intros t st.
  assert (sound (with_state (Some st) (with_mem st v))).
  { apply (sound_state (with_mem st v)); [done|]. unfold journal_ok. cbn. rewrite Hop, Hcur. split; [done|]. by intros ? [= <-]. }
  split_and!; auto.
Qed.

Lemma start_spec v : sound v -> cwp (start Url_parse root) (fun _ => sound) sound sound v.
Proof.
  intros Hs. apply with_lock_spec; auto. apply cwp_bind, load_spec; [done|]. intros st cur s Hst Hcur Hc.
  apply cwp_bind, cwp_get_state, cwp_bind, cwp_lift; auto. intros a. apply no_operation. intros Hop. change (operation st = None) in Hop.
  pose proof (idle_fits _ _ _ Hs Hst Hop Hcur Hc) as Hf.
  skip. skip. apply cwp_bind, cwp_lift; auto. intros ? [= <-]%ok_or_ok_inv%(eq_trans (eq_sym Hcur)). skip. skip. skip.
  apply cwp_bind, cwp_materialize_environment. split_and!; auto. skip.
  apply cwp_bind. eapply cwp_start_and_verify; [done|].
  match goal with |- context [with_start ?c ?v] => assert (sound (with_start c v)) as Hs' end.
  { apply sound_start; [done..|]. cbn. rewrite Hst. intros ? [= <-]. unfold journal_ok. rewrite Hop.
    destruct Hs as [_ Hs]. specialize (Hs st Hst). unfold journal_ok in Hs. rewrite Hop in Hs.
    split; [apply Hs|]. intros ? [= <-]%(eq_trans (eq_sym Hcur)) _. apply fits_refl. }
  split_and!; auto. apply cwp_bind, cwp_on_state; auto. intros ? [= <-].
  eapply save_idle_spec; cbn; eauto. apply fits_refl.
Qed.

Lemma stop_spec v : sound v -> cwp (stop Url_parse root) (fun _ => sound) sound sound v.
Proof.
  intros Hs. apply with_lock_spec; auto. apply cwp_bind, load_spec; [done|]. intros st cur s Hst Hcur Hc.
  apply cwp_bind, cwp_get_state, cwp_bind, cwp_lift; auto. intros a. apply no_operation. intros Hop. change (operation st = None) in Hop.
  pose proof (idle_fits _ _ _ Hs Hst Hop Hcur Hc) as Hf.
  skip. skip. apply cwp_bind, cwp_on_state; auto. intros ? [= <-]. by eapply save_idle_spec.
Qed.

Lemma status_spec v : sound v -> cwp (status Url_parse root) (fun _ => sound) sound sound v.
Proof.
  intros Hs. apply cwp_bind, cwp_load_installation; auto. intros st cur s Hst Hcur Hc.
  apply cwp_neutral; auto. unfold collect_service_status. neutral.
Qed.

Lemma backup_command_spec n b v :
  sound v -> cwp (backup_command Url_parse sha256_of length_of root n b) (fun _ => sound) sound sound v.
Proof.
  intros Hs. apply with_lock_spec; auto. apply cwp_bind, load_spec; [done|]. intros st cur s Hst Hcur Hc.
  apply cwp_bind, cwp_get_state, cwp_bind, cwp_lift; auto. intros a. apply no_operation. intros Hop. change (operation st = None) in Hop.
  pose proof (idle_fits _ _ _ Hs Hst Hop Hcur Hc) as Hf. skip.
  apply cwp_bind, cwp_neutral; [unfold run_with_guaranteed_cleanup, stop_database; neutral|intros ?|by auto..].
  apply cwp_bind, cwp_on_state; auto. intros ? [= <-]. eapply save_idle_spec; cbn; eauto.
  destruct Hs as [_ Hs]. specialize (Hs st Hst). unfold journal_ok in Hs. rewrite Hop in Hs. apply Hs.
Qed.

(** ** Installing and restoring

    While the journal holds an operation other than an update, nothing is started but
    what has just been migrated. *)

Definition not_update (st : DeploymentState) : Prop := exists op, operation st = Some op /\ kind op <> Update.

Definition busy (v : View) : Prop :=
  Forall start_ok (v_started v) /\ not_update (v_mem v) /\ forall st, v_state v = Some st -> not_update st.

Definition same (v v' : View) : Prop :=
  v_config v' = v_config v /\ v_env v' = v_env v /\ v_schema v' = v_schema v.

Lemma busy_sound v : busy v -> sound v.
Proof.
  intros (Hs & _ & Hst). split; [done|]. intros st H. destruct (Hst st H) as (op & Hop & Hk).
  by eapply other_journal_ok.
Qed.

Lemma busy_save v : busy v -> cwp save (fun _ v' => busy v' /\ same v v') busy sound v.
Proof.
  intros (Hs & Hm & Hst). apply cwp_save. intros t st.
  assert (busy (with_mem st v)) by (split_and!; auto).
  assert (busy (with_state (Some st) (with_mem st v))) by (split_and!; auto; cbn; by intros ? [= <-]).
  by split_and!; auto using busy_sound.
Qed.

Lemma busy_advance next v : busy v -> cwp (advance_checkpoint next) (fun _ v' => busy v' /\ same v v') busy sound v.
Proof.
  intros Hv. pose proof Hv as (Hs & Hm & Hst). apply cwp_advance_checkpoint; auto using busy_sound.
  intros op Hop. destruct (checkpoint_lt _ _); [|done]. intros t st.
  assert (not_update st) by (destruct Hm as (? & ? & ?); simplify_eq; by eexists).
  assert (busy (with_mem st v)) by (split_and!; auto).
  assert (busy (with_state (Some st) (with_mem st v))) by (split_and!; auto; cbn; by intros ? [= <-]).
  by split_and!; auto using busy_sound.
Qed.

Lemma busy_change f v (Q : unit -> View -> Prop) :
  busy v -> (forall st st', f st = Ok st' -> not_update st -> not_update st') ->
  (forall v', busy v' -> same v v' -> Q tt v') -> cwp (on_state f) Q busy sound v.
Proof.
  intros Hv Hf HQ. apply cwp_on_state; auto using busy_sound. destruct Hv as (Hs & Hm & Hst).
  intros st Hst'. apply HQ; [|done]. split_and!; eauto.
Qed.

Lemma or_restore_required_spec m (Q : unit -> View -> Prop) v :
  cwp m Q busy sound v -> cwp (or_restore_required m) Q busy sound v.
Proof.
  intros Hm. unfold or_restore_required. apply cwp_bind, cwp_catch. eapply cwp_mono; [exact Hm|..]; auto.
  - intros a v' Hv. by apply cwp_ret.
  - intros v' Hv e. apply cwp_bind, busy_change; [done| |].
    { intros st ? [= <-] (op & ? & ?). by exists op. }
    intros v1 Hv1 _. apply cwp_bind. eapply cwp_mono; [by apply busy_save| |done..].
    intros _ v2 [Hv2 _]. by apply cwp_err.
Qed.

Lemma busy_migrate v e (Q : unit -> View -> Prop) :
  busy v -> v_env v = Some e ->
  (forall v', busy v' -> v_config v' = v_config v -> v_env v' = Some e -> v_schema v' = Some (application (config e)) -> Q tt v') ->
  cwp database_migrate Q busy sound v.
Proof.
  intros Hv He HQ. eapply cwp_database_migrate; [done|]. set (v' := with_schema _ v). cbn zeta.
  assert (busy v') by apply Hv. split_and!; auto using busy_sound.
Qed.

Lemma busy_start c v e (Q : unit -> View -> Prop) :
  busy v -> v_env v = Some e -> v_schema v = Some (application (config e)) ->
  (forall v', busy v' -> v_config v' = v_config v -> v_schema v' = Some (application (config e)) -> Q tt v') ->
  cwp (start_and_verify c) Q busy sound v.
Proof.
  intros Hv He Hsch HQ. eapply cwp_start_and_verify; [done|]. set (v' := with_start _ v). cbn zeta.
  assert (busy v').
  { destruct Hv as (Hs & Hm & Hst). split_and!; auto. apply Forall_app. split; [done|]. apply Forall_singleton.
    unfold start_ok. cbn. rewrite Hsch. apply fits_refl. }
  split_and!; auto using busy_sound.
Qed.

(** The operation ends with the version that was started. *)
Lemma save_ended_spec v c :
  sound v -> operation (v_mem v) = None -> lifecycle (v_mem v) <> RestoreRequired -> v_config v = Some c ->
  v_schema v = Some (application c) -> cwp save (fun _ => sound) sound sound v.
Proof.
  intros Hs Hop Hl Hc Hsch. apply cwp_save. intros t st.
  assert (sound (with_state (Some st) (with_mem st v))).
  { apply (sound_state (with_mem st v)); [done|]. unfold journal_ok. cbn. rewrite Hop, Hc, Hsch. split; [done|].
    intros cur _ [= ->]. apply fits_refl. }
  split_and!; auto.
Qed.

Lemma promote_healthy_inv st st' : promote_healthy st = Ok st' -> operation st' = None /\ lifecycle st' <> RestoreRequired.
Proof. unfold promote_healthy. destruct (checkpoint _ _); cbn; [|done..]. by intros [= <-]. Qed.

(** What an install begins with. *)
Lemma resume_install_spec requested v :
  sound v ->
  cwp (resume_install Url_parse root requested)
    (fun '(c, _) v' => busy v' /\ v_config v' = Some c) sound sound v.
Proof.
  intros Hs. unfold resume_install. apply cwp_bind, cwp_load; auto. intros st Hst.
  apply cwp_bind, cwp_get_state, cwp_bind, cwp_lift; auto. intros op Hop%ok_or_ok_inv.
  apply cwp_bind, cwp_lift; auto. unfold bail_if. intros ? Hk. case_bool_decide as Hkind; [|done]. clear Hk.
  skip. apply cwp_bind, (cwp_read_file _ v_config); auto. intros c Hc. skip. skip. skip.
  apply cwp_ret. split; [|done]. assert (not_update st) by (exists op; split; [done|congruence]).
  split_and!; [apply Hs|done|]. cbn. rewrite Hst. by intros ? [= <-].
Qed.

Lemma begin_install_spec rng requested input v :
  sound v -> v_state v = None ->
  cwp (begin_install Url_parse rng requested input)
    (fun '(c, _) v' => busy v' /\ v_config v' = Some c) sound sound v.
Proof.
  intros Hs Hst. unfold begin_install. skip. apply cwp_bind, cwp_now_unix. intros t.
  apply cwp_bind, cwp_set_state. set (st := new_install rng t requested).
  assert (busy (with_config (Some requested) (with_mem st v))) as Hb.
  { split_and!; [apply Hs|by eexists|]. cbn. by rewrite Hst. }
  pose proof (busy_sound _ Hb).
  apply cwp_bind, (cwp_effect _ _ (with_config (Some requested))); auto. skip.
  apply cwp_bind. eapply cwp_mono; [by apply busy_save|..]; auto using busy_sound.
  intros _ v' [Hv' (Hc & _)]. by apply cwp_ret.
Qed.

Lemma busy_set_version c t v (Q : unit -> View -> Prop) :
  busy v -> (forall v', busy v' -> same v v' -> Q tt v') ->
  cwp (on_state (fun st => v ← ok_or (current st) "install state lost its candidate version"%string;
         Ok (set_version (Some {| config := c v; traefik := t |}) (previous_good st) st))) Q busy sound v.
Proof.
  intros Hv HQ. apply busy_change; auto. intros st st' Hf (op & ? & ?).
  destruct (current st); cbn in Hf; [|done]. injection Hf as <-. by exists op.
Qed.

Lemma install_images_spec c v :
  busy v -> cwp (install_images c) (fun _ v' => busy v' /\ same v v') busy sound v.
Proof.
  intros Hv. pose proof (busy_sound _ Hv). unfold install_images. apply cwp_bind, cwp_get_state. skip. skip.
  apply cwp_bind, busy_set_version; auto. intros v1 Hv1 (? & ? & ?).
  apply cwp_bind. eapply cwp_mono; [by apply busy_save| |done..]. intros _ v2 [Hv2 (? & ? & ?)].
  apply cwp_ret. split; [done|]. by split_and!; etrans.
Qed.

Lemma install_backup_spec b c v :
  busy v -> cwp (install_backup sha256_of length_of b c) (fun _ v' => busy v' /\ same v v') busy sound v.
Proof.
  intros Hv. pose proof (busy_sound _ Hv). unfold install_backup. apply cwp_bind, cwp_get_state.
  destruct (operation (v_mem v)) as [op|]; [|by apply cwp_ret].
  destruct (checkpoint_lt _ _); [|by apply cwp_ret]. skip. skip. skip.
  apply cwp_bind, busy_change; [done| |].
  { intros st ? [= <-] (op' & ? & ?). by exists op'. }
  intros v1 Hv1 (? & ? & ?). eapply cwp_mono; [by apply busy_advance| |done..].
  intros _ v2 [Hv2 (? & ? & ?)]. split; [done|]. by split_and!; etrans.
Qed.

(** The values that count, along the steps of such an operation. *)
Definition along (c : InstallationConfig) e s (v : View) : Prop :=
  busy v /\ v_config v = Some c /\ v_env v = e /\ v_schema v = s.

Abbreviation safely := (fun m => cwp m (fun _ => sound) sound sound).

Lemma along_sound c e s v : along c e s v -> sound v.
Proof. intros [? _]. by apply busy_sound. Qed.

Lemma along_busy c e s v : along c e s v -> busy v.
Proof. by intros [? _]. Qed.

Lemma along_step {A B} (m : M A) (k : A -> M B) c e s v :
  along c e s v -> (busy v -> cwp m (fun _ v' => busy v' /\ same v v') busy sound v) ->
  (forall a v', along c e s v' -> safely (k a) v') -> safely (m ≫= k) v.
Proof.
  intros (Hv & Hc & He & Hs) Hm Hk. apply cwp_bind. eapply cwp_mono; [by apply Hm|..]; auto using busy_sound.
  intros a v' [Hv' (Hc' & He' & Hs')]. apply Hk. split_and!; congruence.
Qed.

Lemma along_neutral {A B} (m : M A) (k : A -> M B) c e s v :
  neutral m -> along c e s v -> (forall a, safely (k a) v) -> safely (m ≫= k) v.
Proof. intros Hm Hv Hk. apply cwp_bind, cwp_neutral; auto; by eapply along_sound. Qed.

Lemma along_environment {B} (k : unit -> M B) c secrets t e s v :
  along c e s v -> (forall v', along c (Some {| config := c; traefik := t |}) s v' -> safely (k tt) v') ->
  safely (materialize_environment Url_parse root c secrets t ≫= k) v.
Proof.
  intros Hv Hk. pose proof (along_sound _ _ _ _ Hv). apply cwp_bind, cwp_materialize_environment.
  destruct Hv as (Hv & Hc & He & Hs). split_and!; auto. apply Hk. by split_and!.
Qed.

Lemma along_guarded {B} (m : M unit) (k : unit -> M B) c e s v :
  (busy v -> cwp m (fun _ => along c e s) busy sound v) -> busy v ->
  (forall v', along c e s v' -> safely (k tt) v') -> safely (or_restore_required m ≫= k) v.
Proof.
  intros Hm Hv Hk. apply cwp_bind. eapply cwp_mono; [by apply or_restore_required_spec, Hm|..]; auto using busy_sound.
  by intros [].
Qed.

Lemma along_migrate c t s v :
  along c (Some {| config := c; traefik := t |}) s v ->
  cwp database_migrate (fun _ => along c (Some {| config := c; traefik := t |}) (Some (application c))) busy sound v.
Proof. intros (Hv & Hc & He & Hs). eapply busy_migrate; [done..|]. intros v' ? ? ? ?. split; [done|]. by split_and!; [congruence|..]. Qed.

Lemma along_start c t v :
  along c (Some {| config := c; traefik := t |}) (Some (application c)) v ->
  cwp (start_and_verify c) (fun _ v' => exists e, along c e (Some (application c)) v') busy sound v.
Proof.
  intros (Hv & Hc & He & Hs). eapply busy_start; [done..|]. intros v' ? ? ?. exists (v_env v'). split; [done|].
  by split_and!; [congruence|..].
Qed.

Lemma along_promote c e v :
  along c e (Some (application c)) v -> safely (_ ← on_state promote_healthy; save) v.
Proof.
  intros Hv. pose proof (along_sound _ _ _ _ Hv). destruct Hv as (Hv & Hc & He & Hs). apply cwp_bind, cwp_on_state; auto.
  intros st [Hop Hl]%promote_healthy_inv. by eapply save_ended_spec.
Qed.

Ltac advance := eapply along_step; [eassumption|by auto using busy_advance, busy_save|]; intros ? ? ?.
Ltac along_skip := eapply along_neutral; [solve [eauto with neutral|neutral]|eassumption|intros ?].

Lemma install_spec rng request b v :
  sound v -> safely (install Url_parse sha256_of length_of root rng request b) v.
Proof.
  intros Hs. unfold install. skip. apply with_lock_spec; [done|]. apply cwp_bind, cwp_neutral; [auto with neutral| |done..].
  intros [requested secret_input]. skip. apply cwp_bind, cwp_get_core. intros x <-.
  apply cwp_bind. apply (cwp_mono _ _ (fun '(c, _) v' => busy v' /\ v_config v' = Some c) _ sound _ sound); [| |done..].
  { case_bool_decide as Hst; [by apply resume_install_spec|]. apply begin_install_spec; [done|]. by apply eq_None_not_Some. }
  clear Hs. intros [c secrets] v [Hv Hc].
  assert (along c (v_env v) (v_schema v) v) by done. clear Hv Hc. generalize dependent (v_schema v). generalize dependent (v_env v).
  intros e s Hv.
  along_skip. along_skip. advance. along_skip. along_skip. along_skip. along_skip. advance.
  eapply along_step; [eassumption|apply install_images_spec|]. intros t ? ?.
  eapply along_environment; [eassumption|]. intros ? ?.
  advance. along_skip. along_skip. advance. along_skip. advance.
  eapply along_step; [eassumption|apply install_backup_spec|]. intros ? ? ?.
  advance.
  eapply along_guarded; [intros _; by eapply along_migrate|by eapply along_busy|]. intros ? ?. advance.
  apply cwp_bind. eapply cwp_mono; [by eapply or_restore_required_spec, along_start|..]; auto using busy_sound.
  intros _ ? [? ?]. advance. advance. by eapply along_promote.
Qed.

(** ** Updating *)

Lemma recover_interrupted_update_spec v st :
  sound v -> v_state v = Some st -> safely (recover_interrupted_update Url_parse root) (with_mem st v).
Proof.
  intros Hs Hst. unfold recover_interrupted_update. apply cwp_bind, cwp_get_state, cwp_bind, cwp_lift; auto.
  intros op Hop%ok_or_ok_inv. change (operation st = Some op) in Hop.
  apply cwp_bind, cwp_lift; auto. unfold bail_if. intros ? Hk. case_bool_decide as Hkind; [|done]. clear Hk. skip.
  apply recover_failed_update_spec.
  assert (update_ok (v_schema v) st).
  { destruct Hs as [_ Hs]. specialize (Hs st Hst). unfold journal_ok in Hs. rewrite Hop in Hs. auto. }
  split_and!; [done..|]. by exists st.
Qed.

(** The journal right after [begin_update]. *)
Lemma begin_update_ok s cur t n change now st st' :
  fits s (application (config cur)) -> current st = Some cur ->
  (change = false -> application (config cur) = application (config t)) ->
  begin_update t n change now st = Ok st' -> update_ok s st' /\ current st' = Some t.
Proof.
  intros Hf Hcur Hch. unfold begin_update. case_bool_decide; [done|]. rewrite Hcur. cbn. intros [= <-].
  split; [|done]. eexists _, cur, t. split_and!; cbn; try done. right. done.
Qed.

Lemma update_journaled_spec c secrets t v :
  sound v -> update_ok (v_schema v) (v_mem v) -> (exists x, current (v_mem v) = Some x /\ config x = c) ->
  safely (_ ← save; _ ← persist_active_configuration c secrets; _ ← materialize_assets; _ ← ensure_local_certificate;
          _ ← materialize_environment Url_parse root c secrets t; _ ← advance_checkpoint ImagesResolved;
          r ← catch (update_steps c);
          match r with
          | Ok _ => _ ← on_state promote_healthy; save
          | Err e => _ ← ignore (recover_failed_update Url_parse root); lift (Err e)
          | r => lift r
          end) v.
Proof.
  intros Hs Hu Hcur. apply cwp_bind, cwp_save. intros now st.
  assert (sound (with_state (Some st) (with_mem st v))) as Hs1
    by (apply (sound_state (with_mem st v)); [done|]; by apply update_ok_journal_ok).
  split_and!; auto. set (v1 := with_state _ _) in *.
  assert (sound (with_config (Some c) v1)) as Hs2.
  { split; [apply Hs1|]. intros ? [= <-]. by apply update_ok_journal_ok. }
  apply cwp_bind, cwp_persist_active_configuration. split_and!; auto. skip. skip.
  apply cwp_bind, cwp_materialize_environment. split_and!; auto. set (v2 := with_env _ _).
  assert (staged c v2) as Hv2 by (split_and!; [done..|by eexists|done]).
  apply cwp_bind. eapply cwp_mono; [by apply staged_advance|..]; auto using recoverable_sound.
  intros _ v3 (Hv3 & _ & _). apply cwp_bind, cwp_catch. eapply cwp_mono; [by apply update_steps_spec|..]; auto.
  - intros _ v4 [(Hs4 & _ & _ & Hc4 & _ & cur & Hcur4 & <-) Hsch4]. apply cwp_bind, cwp_on_state; auto.
    intros st4 [Hop4 Hl4]%promote_healthy_inv. by eapply save_ended_spec.
  - intros v4 Hv4 e. apply cwp_bind, cwp_ignore. eapply cwp_mono; [by apply recover_failed_update_spec|..]; auto.
    all: intros; by apply cwp_err.
Qed.

Lemma update_spec rng request b v :
  sound v -> safely (update Url_parse sha256_of length_of root rng request b) v.
Proof.
  intros Hs. apply with_lock_spec; [done|]. apply cwp_bind, load_spec; [done|]. intros st cur s Hst Hcur Hc.
  apply cwp_bind, cwp_get_state. case_bool_decide as Hop.
  { apply cwp_bind. eapply cwp_mono; [by apply recover_interrupted_update_spec|..]; auto. intros. by apply cwp_err. }
  apply eq_None_not_Some in Hop. pose proof (idle_fits _ _ _ Hs Hst Hop Hcur Hc) as Hf. skip.
  apply cwp_bind, cwp_neutral; [unfold update_candidate; neutral|intros [c secrets]|done..].
  skip. skip. skip. skip. apply cwp_bind, cwp_on_state; [intros ? [= <-]|done..]. skip. skip. skip.
  apply cwp_bind, cwp_now_unix. intros now. apply cwp_bind, cwp_on_state; [|done..].
  intros st' [Hu Hcur']%(begin_update_ok (v_schema v) cur); [|done..|].
  - apply update_journaled_spec; [done..|]. by eexists.
  - cbn. intros Hch. apply orb_false_iff in Hch as [[Hi Hd]%orb_false_iff Hr].
    apply negb_false_iff, bool_decide_eq_true in Hi, Hd, Hr. unfold application. congruence.
Qed.

(** ** Restoring *)

Lemma along_change f c e s v (Q : unit -> View -> Prop) :
  along c e s v -> (forall st st', f st = Ok st' -> not_update st -> not_update st') ->
  (forall v', along c e s v' -> Q tt v') -> cwp (on_state f) Q busy sound v.
Proof.
  intros (Hv & Hc & He & Hs) Hf HQ. apply busy_change; auto. intros v' Hv' (Hc' & He' & Hs'). apply HQ.
  split; [done|]. split_and!; congruence.
Qed.

Lemma checkpoint_not_update next st st' : checkpoint next st = Ok st' -> not_update st -> not_update st'.
Proof.
  unfold checkpoint. intros H (op & Hop & Hk). rewrite Hop in H. cbn in H. case_match; simplify_eq. by eexists.
Qed.

Lemma along_save c e s v : along c e s v -> cwp save (fun _ => along c e s) busy sound v.
Proof.
  intros (Hv & Hc & He & Hs). eapply cwp_mono; [by apply busy_save| |done..].
  intros _ v' [Hv' (Hc' & He' & Hs')]. split; [done|]. split_and!; congruence.
Qed.

Lemma restore_dump_spec dump c e s v :
  along c e s v -> cwp (restore_postgres_dump dump) (fun _ v' => exists s', along c e s' v') busy sound v.
Proof.
  intros (Hv & Hc & He & Hs). unfold restore_postgres_dump.
  assert (forall s', busy (with_schema s' v)) as Hb by (intros s'; apply Hv).
  apply cwp_bind, (cwp_effect _ _ (with_schema None)); auto using busy_sound.
  apply cwp_bind, cwp_neutral; [auto with neutral|intros _|auto using busy_sound..].
  apply (cwp_effect _ _ (with_schema dump)); auto using busy_sound; try apply (busy_sound (with_schema dump v)); auto.
  exists dump. split; [apply Hb|done].
Qed.

Lemma restore_steps_spec key m c t s v :
  along c (Some {| config := c; traefik := t |}) s v ->
  cwp (restore_steps key m c) (fun _ v' => exists e, along c e (Some (application c)) v') busy sound v.
Proof.
  intros Hv. unfold restore_steps. apply cwp_bind.
  apply (cwp_mono _ _ (fun _ v' => exists s', along c (Some {| config := c; traefik := t |}) s' v') _ busy _ sound); [| |done..].
  { pose proof (along_busy _ _ _ _ Hv). pose proof (along_sound _ _ _ _ Hv).
    destruct (is_bundled _); [|apply cwp_ret; by eexists]. skip. skip. by eapply restore_dump_spec. }
  clear v s Hv. intros ? v (s & Hv). pose proof (along_busy _ _ _ _ Hv). pose proof (along_sound _ _ _ _ Hv). skip. skip.
  apply cwp_bind. eapply along_change; [exact Hv|apply checkpoint_not_update|]. intros v1 Hv1.
  apply cwp_bind. eapply cwp_mono; [exact (along_save _ _ _ _ Hv1)| |done..]. intros ? v2 Hv2.
  apply cwp_bind. eapply cwp_mono; [exact (along_migrate _ _ _ _ Hv2)| |done..]. intros ? v3 Hv3.
  apply cwp_bind. eapply along_change; [exact Hv3|apply checkpoint_not_update|]. intros v4 Hv4.
  apply cwp_bind. eapply cwp_mono; [exact (along_save _ _ _ _ Hv4)| |done..]. intros ? v5 Hv5.
  apply cwp_bind. eapply cwp_mono; [exact (along_start _ _ _ Hv5)| |done..]. intros ? v6 [e Hv6].
  apply cwp_neutral; [neutral|eauto|by eapply along_busy|by eapply along_sound].
Qed.

Lemma begin_restore_not_update n t st st' : begin_restore n t st = Ok st' -> not_update st'.
Proof. unfold begin_restore. case_bool_decide; [done|]. intros [= <-]. by eexists. Qed.

(** [begin_restore] and the save that follows it. *)
Lemma begin_restore_spec {B} f (k : M B) v :
  sound v -> (forall st st', f st = Ok st' -> not_update st') ->
  (forall v', busy v' -> same v v' -> safely k v') -> safely (_ ← on_state f; _ ← save; k) v.
Proof.
  intros Hs Hf Hk. apply cwp_bind, cwp_on_state; auto.
  intros st Hst%Hf. apply cwp_bind, cwp_save. intros t st'. set (v' := with_state _ _).
  assert (busy v') as Hb by (split_and!; [apply Hs|done|]; cbn; by intros ? [= <-]).
  pose proof (busy_sound _ Hb). split_and!; auto. by apply Hk.
Qed.

Lemma restore_spec n confirmation external v :
  sound v -> safely (restore Url_parse sha256_of length_of root n confirmation external) v.
Proof.
  intros Hs. apply with_lock_spec; [done|]. apply cwp_bind, load_spec; [done|]. intros live cur s0 Hst Hcur Hc.
  apply cwp_bind, cwp_get_state. skip. skip. skip.
  apply cwp_bind, cwp_neutral; [unfold restore_source; neutral|intros [[[m c] s] restored]|done..].
  skip. skip. skip. apply cwp_bind, cwp_neutral; [unfold save_recovery_copy; neutral|intros _|done..]. skip.
  apply begin_restore_spec; [done|intros ? ?; apply begin_restore_not_update|]. intros v1 Hv1 _.
  pose proof (busy_sound _ Hv1) as Hs1.
  assert (along c (v_env v1) (v_schema v1) (with_config (Some c) v1)) as Hv2 by (split; [apply Hv1|done]).
  pose proof (along_sound _ _ _ _ Hv2) as Hs2. apply cwp_bind, cwp_persist_active_configuration. split_and!; auto.
  revert Hv2. generalize (v_env v1), (v_schema v1), (with_config (Some c) v1). clear. intros e sch v Hv.
  along_skip. eapply along_neutral; [unfold restore_local_certificate_if_present; neutral|done|intros _].
  along_skip. eapply along_neutral; [auto with neutral|done|intros version].
  eapply along_environment; [done|]. clear v Hv. intros v Hv. along_skip.
  apply cwp_bind, cwp_set_state.
  apply begin_restore_spec; [exact (along_sound _ _ _ _ Hv)|intros ? ?; apply begin_restore_not_update|].
  intros v1 Hv1 (Hc1 & He1 & Hsch1). destruct Hv as (_ & Hc & He & Hsch).
  assert (along c (Some {| config := c; traefik := traefik version |}) sch v1) as Hal
    by (split; [done|]; split_and!; etrans; done).
  apply cwp_bind. eapply cwp_mono; [eapply or_restore_required_spec, restore_steps_spec, Hal| |by apply busy_sound|done].
  intros _ v2 [e2 Hv2]. pose proof (along_sound _ _ _ _ Hv2). destruct Hv2 as (_ & Hc2 & _ & Hsch2).
  apply cwp_bind, cwp_on_state; auto. intros st [Hop Hl]%promote_healthy_inv.
  apply cwp_bind, cwp_on_state; auto. intros ? [= <-]. by eapply save_ended_spec.
Qed.

(** ** Removing *)

Lemma sound_no_state v : Forall start_ok (v_started v) -> sound (with_state None v).
Proof. by split. Qed.

Lemma sound_no_config v : sound v -> sound (with_config None v).
Proof.
  intros [Hs Hst]. split; [done|]. intros st H. specialize (Hst st H). revert Hst. unfold journal_ok.
  destruct (operation st); [done|]. intros [? _]. done.
Qed.

Definition view_without (e : Entry) (v : View) : View :=
  match e with
  | StateEntry => with_state None v
  | ConfigEntry => with_config None v
  | EnvEntry => with_env None v
  | _ => v
  end.

Lemma view_remove_entry e c : view (remove_entry root e c) = view_without e (view c).
Proof. by destruct e. Qed.

Lemma sound_without e v : sound v -> sound (view_without e v).
Proof. intros Hv. destruct e; [by apply sound_no_state, Hv|by apply sound_no_config|done..]. Qed.

Lemma remove_dir_all_spec order v : sound v -> safely (remove_dir_all root order) v.
Proof.
  intros Hv. unfold remove_dir_all. revert v Hv. induction order as [|e order IH]; intros v Hv.
  - assert (forall l, sound (foldr view_without v l)) by (intros l; induction l; [done|by apply sound_without]).
    by apply (cwp_effect _ _ (fun v => foldr view_without v entries)).
  - pose proof (sound_without e _ Hv). intros w Hw. cbn. unfold mbind, method_bind. cbn. specialize (IH (view_without e v)).
    pose proof (cwp_effect _ _ _ (fun _ v' => v' = view_without e v) sound sound v (view_remove_entry e)) as Heff.
    specialize (Heff eq_refl Hv H Hv H w Hw). destruct (effect _ w) as [w' [[]|e'| |]]; [|done..].
    by apply (IH H).
Qed.

Lemma uninstall_spec executable order remove confirmation v :
  sound v -> safely (uninstall Url_parse root executable order remove confirmation) v.
Proof.
  intros Hs. unfold uninstall. apply cwp_bind.
  eapply cwp_mono; [apply with_lock_spec; [done|]| |auto..].
  2: { intros [] v' Hv'; [by apply remove_dir_all_spec|by apply cwp_ret]. }
  apply cwp_bind, load_spec; [done|]. intros st cur s Hst Hcur Hc.
  apply cwp_bind, cwp_get_state, cwp_bind, cwp_lift; auto. intros a. apply no_operation. intros Hop.
  change (operation st = None) in Hop. pose proof (idle_fits _ _ _ Hs Hst Hop Hcur Hc) as Hf. skip. destruct remove.
  - skip. apply cwp_bind, cwp_neutral; [unfold validate_removal_root; neutral|intros _|done..].
    set (g := fun v => if is_bundled (database (config cur)) then with_schema None v else v).
    assert (sound (g (with_mem st v))).
    { subst g. cbn. destruct (is_bundled _); [|done]. split; [apply Hs|]. cbn. rewrite Hst. intros ? [= <-].
      destruct Hs as [_ Hs]. specialize (Hs st Hst). revert Hs. unfold journal_ok. rewrite Hop.
      intros [? _]. split; [done|]. by left. }
    apply cwp_bind, (cwp_effect _ _ g); auto; [|by apply cwp_ret].
    intros c. subst g. cbn. by destruct (is_bundled _).
  - skip. apply cwp_bind, cwp_on_state; auto. intros ? [= <-].
    apply cwp_bind. eapply cwp_mono; [by eapply save_idle_spec|..]; auto. intros. by apply cwp_ret.
Qed.

(** ** Every command *)

Lemma quickstart_spec rng request v :
  sound v -> safely (quickstart Url_parse sha256_of length_of root rng request) v.
Proof.
  intros Hs. unfold quickstart. skip. apply cwp_bind, cwp_neutral; [auto with neutral|intros [c s]|done..]. skip.
  apply cwp_bind. apply (cwp_mono _ _ (fun _ => sound) _ sound _ sound); [| |done..].
  { case_bool_decide; [|by apply cwp_ret]. apply cwp_bind, cwp_load; auto. intros st Hst.
    apply cwp_bind, cwp_get_state. by apply cwp_ret. }
  clear v Hs. intros st v Hs. apply cwp_bind, cwp_lift; auto. intros [] _; [by apply install_spec|by apply start_spec].
Qed.

Lemma perform_spec h command v : sound v -> safely (perform Url_parse sha256_of length_of root h command) v.
Proof.
  intros Hs. destruct command; cbn [perform];
    auto using quickstart_spec, install_spec, start_spec, stop_spec, update_spec, backup_command_spec, restore_spec, uninstall_spec.
  - apply cwp_bind. eapply cwp_mono; [by apply status_spec|..]; auto. intros. by apply cwp_ret.
  - unfold diagnostics_command. apply cwp_bind, cwp_load_installation; auto. intros. apply cwp_neutral; auto. neutral.
  - by apply cwp_ret.
Qed.

(** ** Histories of an installation *)

(** A command, with any request, answers of Docker, fates of its steps and time; removing
    the lock of a process that ended; and restoring a database by other means, which is
    asked for when a restore is required. *)
Inductive step : Core -> Core -> Prop :=
  | step_command h command i c : step c (core (perform Url_parse sha256_of length_of root h command (after c i)).1)
  | step_unlock c : step c (set_locked false c)
  | step_database c st s : state_json c = Some st -> lifecycle st = RestoreRequired -> step c (set_schema s c).

Lemma sound_restore_required v st s :
  sound v -> v_state v = Some st -> lifecycle st = RestoreRequired -> sound (with_schema s v).
Proof.
  intros [Hs Hst] H Hl. split; [done|]. cbn. rewrite H. intros ? [= <-]. specialize (Hst st H). revert Hst.
  unfold journal_ok. destruct (operation st) as [op|]; [|by intros []].
  intros Hu Hk. destruct (Hu Hk) as (op' & p & cur & ? & ? & ? & ? & Ha & Hm).
  exists op', p, cur. split_and!; try done. left. by destruct Hm as [|[]].
Qed.

Lemma step_sound c c' : step c c' -> sound (view c) -> sound (view c').
Proof.
  intros [h command i c1|c1|c1 st s Hst Hl] Hs; [|done|by eapply (sound_restore_required (view c1))].
  pose proof (perform_spec h command _ Hs (after c1 i) eq_refl) as H. by destruct (perform _ _ _ _ _ _ _) as [w [a|e| |]].
Qed.

Lemma steps_sound c c' : rtc step c c' -> sound (view c) -> sound (view c').
Proof. induction 1; [done|]. eauto using step_sound. Qed.

(** C2. Through every sequence of commands on a machine that had no installation, with
    every step of every command succeeding, failing or being the last one of its
    process, the services of an application are only started on a database that is
    empty or whose last migrations are those of this application. *)
Theorem services_meet_own_schema c0 c :
  state_json c0 = None -> started c0 = [] -> rtc step c0 c -> Forall start_ok (started c).
Proof.
  intros Hst Hs Hsteps. assert (sound (view c0)) as H0.
  { split; cbn; [by rewrite Hs|by rewrite Hst]. }
  apply (steps_sound _ _ Hsteps H0).
Qed.
End safety.

(** ** A sample installation *)

Module Sample.
Include SampleConfig.

(** Request files are named by the digit of their release. *)
Definition host : Host :=
  {| entropy := random; requests := fun p => request <$> head p; executable := None; removal_order := [] |}.

(** Every service runs, after every start. *)
Definition healthy : list ComposeEntry :=
  map (fun n => {| entry_service := Some (str n); entry_state := Some (str "running"); entry_health := None;
                   entry_exit_code := None |})
    ["api_backend"; "frontend"; "talos_relay"; "talos_server"; "traefik"; "postgres"]%string.
Definition docker : DockerAnswers :=
  {| inventory := []; repo_digests := Some [str "traefik" ++ sha 48]; version_label := Some (str "v3");
     compose_version := str "v2.29.1"; engine_version := Some (str "27.1"); os_type := Some (str "linux");
     present := fun _ => true |}.
Definition given (l : list Fate) : Input :=
  {| fates := l; reports := [Some healthy; Some healthy]; answers := docker; clock := 1000 |}.

Definition no_url (t : text) : option Url := None.
Definition hash (x : Content) : text := [].
Definition size (x : Content) : Z := 1.

Definition fresh : Core :=
  {| mem := new_install random 0 (configured 49); locked := false; state_json := None; config_json := None;
     secrets_json := None; rollback_config := None; rollback_secrets := None; talos_env := None; backups := ∅;
     schema := None; running := None; started := [] |}.

Definition run (command : Cli.CliCommand) (l : list Fate) (c : Core) : Core :=
  core (perform no_url hash size root host command (after c (given l))).1.

Definition installed : Core := run (Cli.Install [49] None) [] fresh.

Lemma run_step command l c : step no_url hash size root c (run command l c).
Proof. apply step_command. Qed.
End Sample.

(** An install, an update that is killed while it migrates, its lock removed, an update
    that finds this out, and a restore. *)
Module History.
Import Sample.
Definition killed : Core := run (Cli.Update [50] None) (replicate 63 Succeeds ++ [Killed true]) installed.
Definition unlocked : Core := set_locked false killed.
Definition recovered : Core := run (Cli.Update [50] None) [] unlocked.
Definition backup : text := default [] (st ← state_json recovered; last_verified_backup st).
Definition restored : Core := run (Cli.Restore backup (random_hex (id_bytes random)) false) [] recovered.

Lemma restored_reachable : rtc (step no_url hash size root) fresh restored.
Proof.
  refine (rtc_l _ _ _ _ (run_step (Cli.Install [49] None) [] _) _).
  refine (rtc_l _ _ _ _ (run_step (Cli.Update [50] None) _ _) _).
  refine (rtc_l _ _ _ _ (step_unlock _ _ _ _ _) _).
  refine (rtc_l _ _ _ _ (run_step (Cli.Update [50] None) [] _) _).
  exact (rtc_once _ _ (run_step _ _ _)).
Qed.
End History.

Lemma services_meet_own_schema_witness :
  Forall start_ok (started History.restored) /\ length (started History.restored) = 2%nat /\
  (lifecycle <$> state_json History.recovered) = Some RestoreRequired /\
  (lifecycle <$> state_json History.restored) = Some Running.
Proof.
  split.
  - apply (services_meet_own_schema Sample.no_url Sample.hash Sample.size Sample.root Sample.fresh);
      [reflexivity|reflexivity|exact History.restored_reachable].
  - vm_compute. auto.
Defined.
