(* ===== verification/ApplianceRecovery.v ===== *)
(** After an interruption: which states the launcher recovers from, and which ones no
    command of it leaves. *)

From S2P Require Import Prelude Bytes Text ApplianceConfig ApplianceEnvironment ApplianceCli Appliance ApplianceLogic ApplianceSafety.

Import Config Journal Launcher.

Local Open Scope Z_scope.

(** ** States that no command leaves *)

(** The journal of an interrupted operation that every command refuses: the active
    configuration is not the recorded one, or a restore or an install past the start
    of its migrations was interrupted before it could ask for a restore. *)
Definition stranded_journal (active : option InstallationConfig) (st : DeploymentState) : Prop :=
  exists op, operation st = Some op /\
    match kind op with
    | Update => active <> (config <$> current st)
    | Restore => lifecycle st <> RestoreRequired
    | Install =>
        lifecycle st <> RestoreRequired /\
        checkpoint_lt (op_checkpoint op) MigrationStarted = false /\ checkpoint_lt (op_checkpoint op) Healthy = true
    end.

Definition stranded (c : Core) : Prop := exists st, state_json c = Some st /\ stranded_journal (config_json c) st.

(** Commands that only report. *)
Definition reports_only (command : Cli.CliCommand) : bool :=
  match command with Cli.Status | Cli.Diagnostics _ | Cli.Help => true | _ => false end.

(** Nothing but the variables of the process. *)
Definition frozen (v v' : View) : Prop := exists st, v' = with_mem st v.

Lemma frozen_refl v : frozen v v.
Proof. exists (v_mem v). by destruct v. Qed.

Lemma frozen_mem v st : frozen v (with_mem st v).
Proof. by exists st. Qed.
#[local] Hint Resolve frozen_refl frozen_mem : core.

Section stranded.
Context (Url_parse : text -> option Url) (sha256_of : Content -> text) (length_of : Content -> Z) (root : text).

(** The command returns no value. *)
Abbreviation refuses := (fun m v => cwp m (fun _ _ => False) (frozen v) (frozen v) v).

Lemma refuses_lock (m : M unit) v : refuses m v -> refuses (with_lock m) v.
Proof. intros Hm. apply cwp_with_lock; auto. eapply cwp_mono; [exact Hm|..]; [done|auto..]. Qed.

(** Loading succeeds only if the configuration is the recorded one. *)
Lemma load_stranded {B} (k : InstallationConfig * SecretConfig -> M B) v :
  (forall st cur s, v_state v = Some st -> current st = Some cur -> v_config v = Some (config cur) ->
     cwp (k (config cur, s)) (fun _ _ => False) (frozen v) (frozen v) (with_mem st v)) ->
  refuses (load_installation Url_parse root ≫= k) v.
Proof. intros Hk. apply cwp_bind, cwp_load_installation; auto. Qed.

(** The check of the commands that want no operation in the journal. *)
Lemma require_stranded {B} (k : unit -> M B) v st :
  is_Some (operation st) ->
  cwp (st ← get_state; lift (require_no_incomplete_operation st) ≫= k) (fun _ _ => False) (frozen v) (frozen v) (with_mem st v).
Proof.
  intros Hop. apply cwp_bind, cwp_get_state, cwp_bind, cwp_lift; auto. intros a.
  unfold require_no_incomplete_operation, bail_if. cbn. by case_bool_decide.
Qed.

Lemma select_action_operation c st op action :
  select_action c (Some st) = Ok action -> operation st = Some op ->
  kind op = Install /\ checkpoint_lt (op_checkpoint op) MigrationStarted = true.
Proof.
  unfold select_action. intros H Hop. rewrite Hop in H. res_inv.
  destruct (bool_decide (kind op = Install)) eqn:Hk; cbn in *; [|done]. apply bool_decide_eq_true in Hk.
  by destruct (checkpoint_lt _ _).
Qed.

Section commands.
Context (v : View) (st : DeploymentState) (Hst : v_state v = Some st) (Hstranded : stranded_journal (v_config v) st).

Lemma stranded_operation : is_Some (operation st).
Proof. destruct Hstranded as (op & -> & _). by eexists. Qed.

(** Loading leaves the two kinds of operations without a way back. *)
Lemma load_not_update cur : current st = Some cur -> v_config v = Some (config cur) ->
  exists op, operation st = Some op /\ kind op <> Update /\ lifecycle st <> RestoreRequired.
Proof.
  intros Hcur Hc. destruct Hstranded as (op & Hop & Hk). exists op. split; [done|].
  destruct (kind op); [by destruct Hk|by rewrite Hcur in Hk|done].
Qed.

Ltac idle := apply load_stranded; intros st' cur s Hst' Hcur Hc; simplify_eq; apply require_stranded, stranded_operation.

Lemma start_stranded : refuses (start Url_parse root) v.
Proof. apply refuses_lock. idle. Qed.

Lemma stop_stranded : refuses (stop Url_parse root) v.
Proof. apply refuses_lock. idle. Qed.

Lemma backup_stranded n b : refuses (backup_command Url_parse sha256_of length_of root n b) v.
Proof. apply refuses_lock. idle. Qed.

Lemma uninstall_stranded e o r i : refuses (uninstall Url_parse root e o r i) v.
Proof.
  apply cwp_bind. apply (cwp_mono _ _ (fun _ _ => False) _ (frozen v) _ (frozen v)); [|done..].
  apply cwp_with_lock; auto. eapply cwp_mono; [idle|done|auto..].
Qed.

Lemma update_stranded rng request b : refuses (update Url_parse sha256_of length_of root rng request b) v.
Proof.
  apply refuses_lock, load_stranded. intros st' cur s Hst' Hcur Hc. simplify_eq.
  destruct (load_not_update cur Hcur Hc) as (op & Hop & Hk & _).
  apply cwp_bind, cwp_get_state. cbn. rewrite Hop. rewrite bool_decide_eq_true_2 by done.
  apply cwp_bind. unfold recover_interrupted_update. apply cwp_bind, cwp_get_state, cwp_bind, cwp_lift; auto.
  intros ? [= <-]%ok_or_ok_inv%(eq_trans (eq_sym Hop)). apply cwp_bind, cwp_lift; auto.
  unfold bail_if. intros ?. by case_bool_decide.
Qed.

Lemma restore_stranded n i e : refuses (restore Url_parse sha256_of length_of root n i e) v.
Proof.
  apply refuses_lock, load_stranded. intros st' cur s Hst' Hcur Hc. simplify_eq.
  destruct (load_not_update cur Hcur Hc) as (op & Hop & _ & Hl).
  apply cwp_bind, cwp_get_state. skip. apply cwp_bind, cwp_lift; auto. cbn. rewrite Hop. unfold bail_if.
  intros ?. rewrite bool_decide_eq_true_2, bool_decide_eq_false_2 by done. done.
Qed.

Lemma install_stranded rng request b : refuses (install Url_parse sha256_of length_of root rng request b) v.
Proof.
  unfold install. skip. apply refuses_lock. apply cwp_bind, cwp_neutral; [auto with neutral|intros [requested input]|auto..].
  skip. apply cwp_bind, cwp_get_core. intros x Hx. apply cwp_bind.
  rewrite bool_decide_eq_true_2 by (change (state_json x) with (v_state (view x)); rewrite Hx, Hst; done).
  unfold resume_install. apply cwp_bind, cwp_load; auto. intros st' Hst'. simplify_eq.
  apply cwp_bind, cwp_get_state, cwp_bind, cwp_lift; auto. cbn. intros op Hop%ok_or_ok_inv.
  apply cwp_bind, cwp_lift; auto. unfold bail_if. intros ? Hk. case_bool_decide as Hkind; [|done]. clear Hk.
  destruct Hstranded as (op' & Hop' & Hk). simplify_eq. rewrite Hkind in Hk. destruct Hk as (_ & Hm & Hh).
  apply cwp_bind, cwp_lift; auto. by rewrite Hm, Hh.
Qed.

Lemma quickstart_stranded rng request : refuses (quickstart Url_parse sha256_of length_of root rng request) v.
Proof.
  unfold quickstart. skip. apply cwp_bind, cwp_neutral; [auto with neutral|intros [c s]|auto..].
  apply cwp_bind, cwp_get_core. intros x Hx.
  rewrite bool_decide_eq_true_2 by (change (state_json x) with (v_state (view x)); rewrite Hx, Hst; done).
  apply cwp_bind, cwp_bind, cwp_load; auto. intros st' Hst'. simplify_eq. apply cwp_bind, cwp_get_state, cwp_ret.
  apply cwp_bind, cwp_lift; auto. intros action Ha. destruct Hstranded as (op & Hop & Hk).
  destruct (select_action_operation _ _ _ _ Ha Hop) as [Hkind Hlt]. rewrite Hkind in Hk. destruct Hk as (_ & Hm & _). congruence.
Qed.

Lemma perform_stranded h command :
  cwp (perform Url_parse sha256_of length_of root h command) (fun _ v' => reports_only command = true /\ frozen v v')
    (frozen v) (frozen v) v.
Proof.
  assert (forall m : M unit, refuses m v ->
    cwp m (fun _ v' => reports_only command = true /\ frozen v v') (frozen v) (frozen v) v) as Hrefuse
    by (intros m Hm; by eapply cwp_mono).
  destruct command; cbn [perform];
    [apply Hrefuse, quickstart_stranded|apply Hrefuse, install_stranded|apply Hrefuse, start_stranded
    |apply Hrefuse, stop_stranded| |apply Hrefuse, update_stranded|apply Hrefuse, backup_stranded
    |apply Hrefuse, restore_stranded| |apply Hrefuse, uninstall_stranded|].
  - unfold status. apply cwp_bind, cwp_bind, cwp_load_installation; auto. intros.
    apply cwp_neutral; [unfold collect_service_status; neutral|intros; by apply cwp_ret; auto|auto..].
  - unfold diagnostics_command. apply cwp_bind, cwp_load_installation; auto. intros. apply cwp_neutral; [neutral|auto..].
  - by apply cwp_ret; auto.
Qed.
End commands.

(** What stays as it is. *)
Definition same_files (c c' : Core) : Prop :=
  state_json c' = state_json c /\ config_json c' = config_json c /\ started c' = started c.

Lemma same_files_stranded c c' : same_files c c' -> stranded c -> stranded c'.
Proof. unfold stranded. by intros (-> & -> & _). Qed.

Lemma same_files_frozen c c' : frozen (view c) (view c') -> same_files c c'.
Proof. intros [st Hst]. by injection Hst. Qed.

Lemma step_stranded c c' : step Url_parse sha256_of length_of root c c' -> stranded c -> same_files c c'.
Proof.
  intros [h command i c1|c1|c1 st s _ _]; [|done..]. intros (st & Hst & Hj). apply same_files_frozen.
  pose proof (perform_stranded (view c1) st Hst Hj h command (after c1 i) eq_refl) as H.
  by destruct (perform _ _ _ _ _ _ _) as [w [a|e| |]]; [destruct H|..].
Qed.

Lemma steps_stranded c c' : rtc (step Url_parse sha256_of length_of root) c c' -> stranded c -> same_files c c'.
Proof.
  induction 1 as [|c1 c2 c3 H12 _ IH]; [done|]. intros Hs. pose proof (step_stranded _ _ H12 Hs) as H1.
  specialize (IH (same_files_stranded _ _ H1 Hs)). destruct H1 as (? & ? & ?), IH as (? & ? & ?). split_and!; congruence.
Qed.

(** C16. Three kinds of interruptions leave an installation that no command leads out of: an
    update whose journal and active configuration were not both written, a restore that
    stopped before it could ask to be repeated, and an install that stopped between the
    start of its migrations and its end.  From then on the journal and the configuration
    stay as they are through every sequence of commands, and every command but those
    that report is refused. *)
Theorem stranded_for_good c c' h command i :
  stranded c -> rtc (step Url_parse sha256_of length_of root) c c' ->
  same_files c c' /\
  ((perform Url_parse sha256_of length_of root h command (after c' i)).2 = Ok tt -> reports_only command = true).
Proof.
  intros Hs Hsteps. pose proof (steps_stranded _ _ Hsteps Hs) as Hsame. split; [done|].
  destruct (same_files_stranded _ _ Hsame Hs) as (st & Hst & Hj).
  pose proof (perform_stranded (view c') st Hst Hj h command (after c' i) eq_refl) as H.
  destruct (perform _ _ _ _ _ _ _) as [w [a|e| |]]; [|done..]. by destruct H.
Qed.
End stranded.

(** One failed step each: the write of the new configuration of an update, that of the
    assets of a restore, that of the journal after the migrations of an install. *)
Module Interrupted.
Import Sample.
Definition after_steps (n : nat) : list Fate := replicate n Succeeds ++ [Fails false].
Definition updating : Core := run (Cli.Update [50] None) (after_steps 54) installed.
Definition restoring : Core :=
  run (Cli.Restore (str "pre-install-migration-07070707") (random_hex (id_bytes random)) false) (after_steps 29) installed.
Definition installing : Core := run (Cli.Install [49] None) (after_steps 66) fresh.

Definition strandedb (c : Core) : bool :=
  match state_json c with
  | Some st =>
      match operation st with
      | Some op =>
          match kind op with
          | Update => negb (bool_decide (config_json c = config <$> current st))
          | Restore => negb (bool_decide (lifecycle st = RestoreRequired))
          | Install =>
              negb (bool_decide (lifecycle st = RestoreRequired)) &&
              negb (checkpoint_lt (op_checkpoint op) MigrationStarted) && checkpoint_lt (op_checkpoint op) Healthy
          end
      | None => false
      end
  | None => false
  end.

Lemma strandedb_true c : strandedb c = true -> stranded c.
Proof.
  unfold strandedb, stranded, stranded_journal. destruct (state_json c) as [st|]; [|done].
  destruct (operation st) as [op|] eqn:Hop; [|done]. intros H. exists st. split; [done|]. exists op. split; [done|].
  destruct (kind op).
  - apply andb_true_iff in H as [[Hl Hm]%andb_true_iff Hh]. rewrite negb_true_iff in Hl, Hm.
    by apply bool_decide_eq_false in Hl.
  - rewrite negb_true_iff in H. by apply bool_decide_eq_false in H.
  - rewrite negb_true_iff in H. by apply bool_decide_eq_false in H.
Qed.

Lemma reached_stranded :
  Forall (fun c => rtc (step no_url hash size root) fresh c /\ stranded c) [updating; restoring; installing].
Proof.
  assert (rtc (step no_url hash size root) fresh installed) as Hi
    by exact (rtc_once _ _ (run_step (Cli.Install [49] None) [] fresh)).
  refine (Forall_cons_2 _ _ _ (conj _ _) (Forall_cons_2 _ _ _ (conj _ _) (Forall_cons_2 _ _ _ (conj _ _) (Forall_nil_2 _)))).
  - exact (rtc_r _ _ _ Hi (run_step _ _ _)).
  - apply strandedb_true. vm_compute. reflexivity.
  - exact (rtc_r _ _ _ Hi (run_step _ _ _)).
  - apply strandedb_true. vm_compute. reflexivity.
  - exact (rtc_once _ _ (run_step _ _ _)).
  - apply strandedb_true. vm_compute. reflexivity.
Qed.
End Interrupted.

Lemma stranded_for_good_witness :
  Forall (fun c => rtc (step Sample.no_url Sample.hash Sample.size Sample.root) Sample.fresh c /\ same_files c c /\
      ((perform Sample.no_url Sample.hash Sample.size Sample.root Sample.host (Cli.Update [50] None)
          (after c (Sample.given []))).2 = Ok tt -> reports_only (Cli.Update [50] None) = true))
    [Interrupted.updating; Interrupted.restoring; Interrupted.installing].
Proof.
  apply Forall_forall. intros c Hc.
  refine ((fun H => conj (proj1 H) (stranded_for_good _ _ _ _ c c Sample.host (Cli.Update [50] None) (Sample.given [])
    (proj2 H) (rtc_refl _ _))) _). revert c Hc. apply Forall_forall, Interrupted.reached_stranded.
Defined.
