(* ===== verification/ApplianceResume.v ===== *)
(** An update that is interrupted at any step: what it leaves on disk, and how the next
    command goes on from there when nothing fails. *)

From S2P Require Import Prelude Bytes Text ApplianceConfig ApplianceEnvironment ApplianceCli Appliance ApplianceLogic ApplianceSafety ApplianceRecovery.

Import Config Journal Launcher.

Local Open Scope Z_scope.

(** ** Rules for whole machines *)

(** A predicate that stays true. *)
Definition keeps (P : Core -> Prop) : relation Core := fun c c' => P c -> P c'.

#[export] Instance keeps_preorder P : PreOrder (keeps P).
Proof. split; unfold keeps; intros c; auto. Qed.

Abbreviation kwp := (pwp (fun c : Core => c)).

Section kwp.
Implicit Types (E K : Core -> Prop) (c : Core).

Lemma kwp_unchanged {A} (m : M A) (Q : A -> Core -> Prop) E K c :
  framed eq m -> (forall a, Q a c) -> E c -> K c -> kwp m Q E K c.
Proof. intros Hm HQ HE HK. eapply cwp_framed; [exact Hm|]. intros ? ? -> ->. auto. Qed.

Lemma kwp_keeps {A} (P : Core -> Prop) (m : M A) (Q : A -> Core -> Prop) E K c :
  framed (keeps P) m -> P c -> (forall c, P c -> (forall a, Q a c) /\ E c /\ K c) -> kwp m Q E K c.
Proof. intros Hm Hc H. eapply cwp_framed; [exact Hm|]. intros ? ? HP ->. auto. Qed.

Lemma kwp_effect f Q E K c :
  Q tt (f c) -> (E c /\ E (f c)) -> (K c /\ K (f c)) -> kwp (effect f) Q E K c.
Proof. intros ? [] []. by apply (cwp_effect _ _ f). Qed.

Lemma kwp_get_core Q E K c : Q c c -> kwp get_core Q E K c.
Proof. by intros ? w <-. Qed.

Lemma kwp_get_state Q E K c : Q (mem c) c -> kwp get_state Q E K c.
Proof. by intros ? w <-. Qed.

Lemma kwp_now_unix Q E K c : (forall t, Q t c) -> kwp now_unix Q E K c.
Proof. intros ? w <-. cbn. auto. Qed.

Lemma kwp_set_state st Q E K c : Q tt (set_mem st c) -> kwp (set_state st) Q E K c.
Proof. by intros ? w <-. Qed.

Lemma kwp_on_state f Q E K c :
  (forall st, f (mem c) = Ok st -> Q tt (set_mem st c)) -> E c -> K c -> kwp (on_state f) Q E K c.
Proof.
  intros HQ HE HK. unfold on_state. apply cwp_bind, kwp_get_state, cwp_bind, cwp_lift; auto.
  intros st Hst. apply kwp_set_state; auto.
Qed.

Lemma kwp_save (Q : unit -> Core -> Prop) E K c :
  (forall t, let st := set_transition t (mem c) in
     Q tt (set_state_json (Some st) (set_mem st c)) /\
     (E (set_mem st c) /\ E (set_state_json (Some st) (set_mem st c))) /\
     K (set_mem st c) /\ K (set_state_json (Some st) (set_mem st c))) ->
  kwp save Q E K c.
Proof.
  intros H. unfold save. apply cwp_bind, kwp_now_unix. intros t. destruct (H t) as (HQ & HE & HK).
  by apply cwp_bind, kwp_get_state, cwp_bind, kwp_set_state, kwp_effect.
Qed.

Lemma kwp_read_file {A} (f : Core -> option A) Q E K c :
  (forall a, f c = Some a -> Q a c) -> E c -> K c -> kwp (read_file f) Q E K c.
Proof.
  intros HQ HE HK. unfold read_file. apply cwp_bind, kwp_unchanged; [auto with neutral|intros _|done..].
  apply cwp_bind, kwp_get_core, cwp_lift; auto. intros a Ha%ok_or_ok_inv. auto.
Qed.

Lemma kwp_with_lock_post {A} (m : M A) (Q : A -> Core -> Prop) (P : Core -> Prop) c :
  (forall b c, P c -> P (set_locked b c)) -> (forall a b c, Q a c -> Q a (set_locked b c)) ->
  (forall a c, Q a c -> P c) -> P c ->
  kwp m Q P P (set_locked true c) -> kwp (with_lock m) Q P P c.
Proof.
  intros HP HQ HQP Hc Hm. unfold with_lock. apply cwp_bind, kwp_get_core, cwp_bind, cwp_lift; auto. intros _ _.
  apply cwp_bind, kwp_effect; auto. apply cwp_bind, cwp_catch. eapply cwp_mono; [exact Hm|..]; auto.
  - intros a c' Hc'. pose proof (HQP _ _ Hc').
    apply cwp_bind, cwp_ignore, kwp_effect; auto; try split; apply cwp_ret; auto.
  - intros c' Hc' e. apply cwp_bind, cwp_ignore, kwp_effect; auto; try split; apply cwp_err; auto.
Qed.

Lemma kwp_with_lock {A} (m : M A) (P : Core -> Prop) c :
  (forall b c, P c -> P (set_locked b c)) -> P c ->
  kwp m (fun _ => P) P P (set_locked true c) -> kwp (with_lock m) (fun _ => P) P P c.
Proof. intros HP Hc Hm. by apply kwp_with_lock_post; [auto..|]. Qed.
End kwp.

(** ** The journal *)

Section resume.
Context (Url_parse : text -> option Url) (sha256_of : Content -> text) (length_of : Content -> Z) (root : text).

(** What loading an installation asks for. *)
Definition loadable (c : Core) (st : DeploymentState) (v : DeploymentVersion) : Prop :=
  state_json c = Some st /\ validate st root = Ok tt /\ current st = Some v /\ config_json c = Some (config v) /\
  exists s, secrets_json c = Some s /\ validate_for Url_parse s (config v) = Ok tt.

(** The environment of Compose can be written for this version. *)
Definition env_ok (v : DeploymentVersion) (s : SecretConfig) : Prop :=
  exists file, Environment.environment_file Url_parse root (config v) s (digest (traefik v)) = Ok file.

(** No operation is recorded, and the version can be started. *)
Definition startable (v : DeploymentVersion) (c : Core) : Prop :=
  exists st, loadable c st v /\ operation st = None /\ lifecycle st <> RestoreRequired /\
    exists s, secrets_json c = Some s /\ env_ok v s.

(** An update is recorded whose previous version [p] can be put back. *)
Definition resumable (p : DeploymentVersion) (c : Core) : Prop :=
  exists st v op s, loadable c st v /\ operation st = Some op /\ kind op = Update /\ previous_good st = Some p /\
    rollback_config c = Some (config p) /\ rollback_secrets c = Some s /\ validate_for Url_parse s (config p) = Ok tt /\
    env_ok p s /\ installation_root (config p) = root.

Definition outcome (p : DeploymentVersion) (c : Core) : Prop :=
  (exists v, startable v c) \/ resumable p c \/ stranded c.

Lemma env_ok_digest v s : env_ok v s -> validate_digest_image (digest (traefik v)) = Ok tt.
Proof.
  intros [file H]. unfold Environment.environment_file, Environment.environment_variables in H. res_inv.
  by repeat match goal with u : () |- _ => destruct u end.
Qed.

(** ** The journal of an update from [p] to [v] *)

Context (p v : DeploymentVersion) (s : SecretConfig).

Definition journaled (st : DeploymentState) : Prop :=
  validate st root = Ok tt /\ current st = Some v /\ previous_good st = Some p /\
  exists op, operation st = Some op /\ kind op = Update.

(** In the middle of the update; [active] is the configuration on disk, with secrets that
    satisfy [U]. *)
Record updating (U : SecretConfig -> Prop) (active : InstallationConfig) (c : Core) : Prop := {
  updating_state : exists st, state_json c = Some st /\ journaled st;
  updating_mem : journaled (mem c);
  updating_config : config_json c = Some active;
  updating_secrets : exists s, secrets_json c = Some s /\ validate_for Url_parse s active = Ok tt /\ U s;
  updating_rollback_config : rollback_config c = Some (config p);
  updating_rollback_secrets : rollback_secrets c = Some s;
  updating_rollback_valid : validate_for Url_parse s (config p) = Ok tt;
  updating_rollback_env : env_ok p s;
  updating_root : installation_root (config p) = root }.

Lemma journaled_checkpoint next st st' : checkpoint next st = Ok st' -> journaled st -> journaled st'.
Proof.
  unfold checkpoint. intros H (Hv & Hc & Hp & op & Hop & Hk). rewrite Hop in H. cbn in H.
  case_match; simplify_eq. split_and!; try done. by eexists.
Qed.

Lemma journaled_mem U st active c : journaled st -> updating U active c -> updating U active (set_mem st c).
Proof. intros Hst []. by constructor. Qed.

Lemma journaled_saved U st active c :
  journaled st -> updating U active c -> updating U active (set_state_json (Some st) (set_mem st c)).
Proof. intros Hst []. constructor; try done. by eexists. Qed.

(** Either the recorded configuration is the active one, or nothing helps. *)
Lemma updating_outcome U active c : updating U active c -> outcome p c.
Proof.
  intros [(st & Hst & Hv & Hcur & Hp & op & Hop & Hk) _ Hc (s' & Hs & Hfor & _) Hrc Hrs Hrv Henv Hroot]. right.
  destruct (decide (active = config v)) as [->|Hne].
  - left. exists st, v, op, s. split_and!; try done. unfold loadable. by split_and!; try exists s'.
  - right. exists st. split; [done|]. exists op. rewrite Hk, Hcur, Hc. split; [done|]. cbn. congruence.
Qed.

(** ** Steps during the update *)

Lemma keeps_effect U active f :
  (forall c, updating U active c -> updating U active (f c)) -> framed (keeps (updating U active)) (effect f).
Proof. intros Hf. apply framed_effect; [apply _|exact Hf]. Qed.

Lemma keeps_migrate U active : framed (keeps (updating U active)) database_migrate.
Proof. unfold database_migrate, compose_env. neutral. by intros []. Qed.

Lemma keeps_environment U active x y t : framed (keeps (updating U active)) (materialize_environment Url_parse root x y t).
Proof. unfold materialize_environment. neutral. by intros []. Qed.

Lemma keeps_running U active r : framed (keeps (updating U active)) (effect (set_running r)).
Proof. by apply keeps_effect; intros c []. Qed.

Lemma keeps_start U active x : framed (keeps (updating U active)) (start_and_verify x).
Proof.
  unfold start_and_verify, up_all, compose_env, collect_service_status. neutral; by intros [].
Qed.

Lemma keeps_on_state U active f :
  (forall st st', f st = Ok st' -> journaled st -> journaled st') -> framed (keeps (updating U active)) (on_state f).
Proof.
  intros Hf w Hc. unfold on_state, get_state, get_core, lift, set_state, mbind, method_bind. cbn.
  destruct (f (mem (core w))) as [st|e| |] eqn:Hst; [|done..]. cbn.
  apply journaled_mem; [|done]. eapply Hf; [done|by apply updating_mem in Hc].
Qed.

Lemma keeps_save U active : framed (keeps (updating U active)) save.
Proof.
  intros w Hc. assert (kwp save (fun _ => updating U active) (updating U active) (updating U active) (core w)) as H.
  { apply kwp_save. intros t st. assert (journaled st) by exact (updating_mem _ _ _ Hc).
    split_and!; by (apply journaled_mem || apply journaled_saved). }
  specialize (H w eq_refl). by destruct (save w) as [w' [a|e| |]].
Qed.
#[local] Hint Resolve keeps_save : neutral.

Lemma keeps_advance U active next : framed (keeps (updating U active)) (advance_checkpoint next).
Proof.
  unfold advance_checkpoint. neutral. apply keeps_on_state. intros st st'. apply journaled_checkpoint.
Qed.
#[local] Hint Resolve keeps_migrate keeps_environment keeps_running keeps_start keeps_advance : neutral.

Lemma keeps_update_steps U active x : framed (keeps (updating U active)) (update_steps x).
Proof. unfold update_steps. neutral. Qed.

(** ** Putting the previous version back *)

Hypothesis same_database : database (config v) = database (config p).

Lemma validate_for_database x (a b : InstallationConfig) :
  database a = database b -> validate_for Url_parse x a = validate_for Url_parse x b.
Proof. unfold validate_for. by intros ->. Qed.

Lemma bail_if_ok b e u : bail_if b e = Ok u -> b = false.
Proof. by destruct b. Qed.

Lemma validate_current st : validate st root = Ok tt ->
  schema_version st = STATE_SCHEMA_VERSION /\
  (negb (str_len (installation_id st) =? 32) || negb (bytes_all is_ascii_hexdigit (installation_id st))) = false /\
  (forall x, current st = Some x -> installation_root (config x) = root /\ validate_images (images (config x)) = Ok tt) /\
  (forall x, previous_good st = Some x ->
     validate_images (images (config x)) = Ok tt /\ validate_digest_image (digest (traefik x)) = Ok tt).
Proof.
  unfold validate. intros H. res_inv. repeat match goal with H : bail_if _ _ = Ok _ |- _ => apply bail_if_ok in H end.
  repeat match goal with u : () |- _ => destruct u end.
  split_and!; [lia|done|intros y Hy; rewrite Hy in *..]; res_inv; repeat match goal with u : () |- _ => destruct u end; [|done].
  match goal with H : bail_if _ _ = Ok _ |- _ => apply bail_if_ok in H; by rewrite negb_false_iff, bool_decide_eq_true in H end.
Qed.

Lemma validate_intro st :
  schema_version st = STATE_SCHEMA_VERSION ->
  (negb (str_len (installation_id st) =? 32) || negb (bytes_all is_ascii_hexdigit (installation_id st))) = false ->
  (forall x, current st = Some x -> installation_root (config x) = root /\ validate_images (images (config x)) = Ok tt /\
     validate_digest_image (digest (traefik x)) = Ok tt) ->
  (forall x, previous_good st = Some x ->
     validate_images (images (config x)) = Ok tt /\ validate_digest_image (digest (traefik x)) = Ok tt) ->
  validate st root = Ok tt.
Proof.
  intros Hs Hid Hc Hp. unfold validate, bail_if. rewrite Hs, Hid, !bind_Ok.
  transitivity (match previous_good st with
    | Some p => _ ← validate_images (images (config p)); validate_digest_image (digest (traefik p))
    | None => Ok tt end).
  - destruct (current st) as [x|]; [|done]. destruct (Hc x eq_refl) as (Hr & Hi & Hd).
    rewrite (bool_decide_eq_true_2 (installation_root _ = _)) by done. cbn [negb]. rewrite bind_Ok, Hi, bind_Ok, Hd.
    by destruct (bool_decide _).
  - destruct (previous_good st) as [y|]; [|done]. destruct (Hp y eq_refl) as [-> Hd]. by rewrite bind_Ok.
Qed.

Lemma validate_version st x o :
  validate st root = Ok tt -> installation_root (config x) = root -> validate_images (images (config x)) = Ok tt ->
  validate_digest_image (digest (traefik x)) = Ok tt ->
  (forall y, o = Some y -> validate_images (images (config y)) = Ok tt /\ validate_digest_image (digest (traefik y)) = Ok tt) ->
  validate (set_version (Some x) o st) root = Ok tt.
Proof.
  intros (Hs & Hid & _ & _)%validate_current Hr Hi Hd Ho. apply validate_intro; [done|done| |done]. by intros ? [= <-].
Qed.

Lemma updating_secrets_json U active x c :
  validate_for Url_parse x active = Ok tt -> updating U active c -> updating (eq x) active (set_secrets_json (Some x) c).
Proof. intros Hx []. constructor; try done. by exists x. Qed.

Lemma updating_config_json U a b c :
  database a = database b -> updating U a c -> updating U b (set_config_json (Some b) c).
Proof.
  intros Hd [? ? ? (x & Hx & Hv & HU) ? ? ? ? ?]. constructor; try done. exists x. split_and!; [done| |done].
  by rewrite <- (validate_for_database x a b Hd).
Qed.

(** Both writes of [persist_active_configuration]. *)
Lemma persist_spec U a b x (Q : unit -> Core -> Prop) c :
  database a = database b -> validate_for Url_parse x b = Ok tt -> updating U a c ->
  (forall c, updating (eq x) b c -> Q tt c) -> kwp (persist_active_configuration b x) Q (outcome p) (outcome p) c.
Proof.
  intros Hd Hx Hc HQ. unfold persist_active_configuration. pose proof (updating_config_json _ _ _ _ Hd Hc) as Hc1.
  pose proof (updating_secrets_json _ _ _ _ Hx Hc1) as Hc2.
  apply cwp_bind, kwp_effect; [|split; by eapply updating_outcome..]. apply kwp_effect; [auto|split; by eapply updating_outcome..].
Qed.

Lemma restart_previous_outcome U c :
  updating U (config v) c ->
  kwp (restart_previous Url_parse root p) (fun _ => updating (eq s) (config p)) (outcome p) (outcome p) c.
Proof.
  intros Hc. pose proof (updating_outcome _ _ _ Hc). unfold restart_previous.
  apply cwp_bind, kwp_read_file; auto. rewrite (updating_rollback_config _ _ _ Hc). intros ? [= <-].
  apply cwp_bind, cwp_lift; auto. intros _ _.
  apply cwp_bind, kwp_read_file; auto. rewrite (updating_rollback_secrets _ _ _ Hc). intros ? [= <-].
  apply cwp_bind, cwp_lift; auto. intros [] Hs. apply cwp_bind, (persist_spec U (config v)); auto.
  clear c Hc H. intros c Hc. eapply kwp_keeps; [|exact Hc|].
  - neutral.
  - intros c' Hc'. split; [done|]. split; by eapply updating_outcome.
Qed.

(** The journal goes back to the previous version. *)
Lemma back_to_previous st : journaled st ->
  restore_previous_version st = Ok (set_operation FailedRecoverable None (set_version (Some p) None st)).
Proof. intros (_ & _ & Hp & _). unfold restore_previous_version. by rewrite Hp. Qed.

Lemma back_startable st c :
  journaled st -> updating (eq s) (config p) c ->
  startable p (set_state_json (Some (set_operation FailedRecoverable None (set_version (Some p) None st))) c).
Proof.
  intros (Hv & _ & Hp & _) Hc. eexists. split; [split_and!; [done| |done|..]|].
  - destruct (validate_current _ Hv) as (_ & _ & _ & Hprev). destruct (Hprev _ Hp).
    by apply (validate_version st p None); [done|by destruct Hc|done..|].
  - by destruct Hc.
  - destruct (updating_secrets _ _ _ Hc) as (x & ? & ? & _). by exists x.
  - split_and!; [done|done|]. exists s. destruct (updating_secrets _ _ _ Hc) as (x & ? & ? & <-).
    split; [done|]. by destruct Hc.
Qed.

Lemma recover_outcome U c :
  updating U (config v) c -> kwp (recover_failed_update Url_parse root) (fun _ => outcome p) (outcome p) (outcome p) c.
Proof.
  intros Hc. pose proof (updating_outcome _ _ _ Hc). unfold recover_failed_update. apply cwp_bind, kwp_get_state, cwp_bind, cwp_lift; auto.
  intros decision _. pose proof (updating_mem _ _ _ Hc) as (_ & _ & Hp & _).
  assert (kwp (previous ← lift (ok_or (previous_good (mem c)) "update recovery has no previous known-good version"%string);
               _ ← restart_previous Url_parse root previous; _ ← on_state restore_previous_version; save)
            (fun _ => outcome p) (outcome p) (outcome p) c) as Hback.
  { apply cwp_bind, cwp_lift; auto. intros ? [= <-]%ok_or_ok_inv%(eq_trans (eq_sym Hp)).
    apply cwp_bind. eapply cwp_mono; [by eapply restart_previous_outcome| |done..]. intros ? c1 Hc1.
    pose proof (updating_outcome _ _ _ Hc1). apply cwp_bind, kwp_on_state; auto. intros st Hst.
    rewrite back_to_previous in Hst by exact (updating_mem _ _ _ Hc1). injection Hst as <-. apply kwp_save. intros t st.
    assert (startable p (set_state_json (Some st) (set_mem st c1))) as Hst
      by exact (back_startable (set_transition t (mem c1)) _ (updating_mem _ _ _ Hc1) Hc1).
    assert (outcome p (set_state_json (Some st) (set_mem st c1))) by (left; by eexists).
    by split_and!. }
  destruct decision; [done|done|]. apply cwp_bind, cwp_lift; auto. intros ? _.
  apply (kwp_keeps (updating U (config v))); [|done|].
  - unfold ignore, stop_application_services. neutral. apply keeps_on_state. intros st ? [= <-] Hj. exact Hj.
  - intros c' Hc'. by split_and!; [intros _|..]; eapply updating_outcome.
Qed.
End resume.

Section update.
Context (Url_parse : text -> option Url) (sha256_of : Content -> text) (length_of : Content -> Z) (root : text).
Implicit Types (E K : Core -> Prop).

Abbreviation loadable := (loadable Url_parse root).
Abbreviation startable := (startable Url_parse root).
Abbreviation outcome := (outcome Url_parse root).
Abbreviation updating := (updating Url_parse root).

Lemma kwp_load_installation (Q : InstallationConfig * SecretConfig -> Core -> Prop) E K c :
  E c -> K c -> (forall st, E (set_mem st c) /\ K (set_mem st c)) ->
  (forall st v s, loadable c st v -> secrets_json c = Some s -> validate_for Url_parse s (config v) = Ok tt ->
     Q (config v, s) (set_mem st c)) ->
  kwp (load_installation Url_parse root) Q E K c.
Proof.
  intros HE HK Hm HQ. unfold load_installation, load. apply cwp_bind, kwp_unchanged; [auto with neutral|intros _|done..].
  apply cwp_bind, cwp_bind, kwp_read_file; auto. intros st Hst.
  apply cwp_bind, cwp_lift; auto. intros [] Hvalid. apply kwp_set_state. destruct (Hm st).
  apply cwp_bind, kwp_read_file; auto. intros x Hx. apply cwp_bind, kwp_read_file; auto. intros s Hs.
  apply cwp_bind, cwp_lift; auto. intros [] Hfor. apply cwp_bind, kwp_get_state, cwp_bind, cwp_lift; auto.
  intros v Hv%ok_or_ok_inv. apply cwp_bind, cwp_lift; auto. intros u Hu%bail_if_ok.
  rewrite negb_false_iff, bool_decide_eq_true in Hu. subst x. apply cwp_ret, HQ; auto. split_and!; eauto.
Qed.

(** What is known of the version to which an update leads. *)
Record acceptable (p : DeploymentVersion) (x : InstallationConfig) : Prop := {
  acceptable_database : database x = database (config p);
  acceptable_root : installation_root x = root;
  acceptable_images : validate_images (images x) = Ok tt }.

Lemma validate_and_split_inv r x input :
  validate_and_split Url_parse r root = Ok (x, input) ->
  installation_root x = root /\ validate_images (images x) = Ok tt.
Proof.
  unfold validate_and_split. intros H. res_inv. case_match; res_inv; simplify_eq; cbn;
    by repeat match goal with u : () |- _ => destruct u end.
Qed.

Lemma update_candidate_spec rng request p s E K c :
  E c -> K c ->
  kwp (update_candidate Url_parse root rng request (config p) s)
    (fun '(x, s') c' => c' = c /\ acceptable p x /\ validate_for Url_parse s' x = Ok tt) E K c.
Proof.
  intros HE HK. unfold update_candidate, load_request.
  apply cwp_bind, cwp_bind, kwp_unchanged; [auto with neutral|intros _|done..]. apply cwp_bind, cwp_lift; auto. intros r _.
  apply cwp_lift; auto. intros [x input] [Hr Hi]%validate_and_split_inv.
  apply cwp_bind, kwp_unchanged; [auto with neutral|intros _|done..].
  apply cwp_bind, cwp_lift; auto. intros _ Hd%bail_if_ok. rewrite negb_false_iff, bool_decide_eq_true in Hd.
  apply cwp_bind, cwp_lift; auto. intros _ _. apply cwp_bind, cwp_lift; auto. intros [] Hs.
  apply cwp_ret. by split_and!.
Qed.

Lemma resolve_traefik_latest_spec E K c :
  E c -> K c ->
  kwp resolve_traefik_latest (fun t c' => c' = c /\ validate_digest_image (digest t) = Ok tt) E K c.
Proof.
  intros HE HK. unfold resolve_traefik_latest.
  apply cwp_bind, kwp_unchanged; [auto with neutral|intros docker|done..].
  apply cwp_bind, kwp_unchanged; [auto with neutral|intros _|done..].
  apply cwp_bind, kwp_unchanged; [auto with neutral|intros _|done..].
  apply cwp_bind, cwp_lift; auto. intros found Hfound.
  apply cwp_bind, kwp_unchanged; [auto with neutral|intros _|done..].
  apply cwp_bind, kwp_now_unix. intros t. apply cwp_ret. split; [done|]. cbn.
  unfold parse_traefik_repo_digests in Hfound. res_inv. by match goal with u : () |- _ => destruct u end.
Qed.

(** The update has begun, but the journal does not say so yet. *)
Record beginning (p v : DeploymentVersion) (s : SecretConfig) (c : Core) : Prop := {
  beginning_disk : exists st, loadable c st p /\ operation st = None /\ lifecycle st <> RestoreRequired;
  beginning_env : env_ok Url_parse root p s;
  beginning_mem : journaled root p v (mem c);
  beginning_secrets : secrets_json c = Some s /\ validate_for Url_parse s (config p) = Ok tt;
  beginning_rollback : rollback_config c = Some (config p) /\ rollback_secrets c = Some s;
  beginning_root : installation_root (config p) = root }.

Lemma beginning_outcome p v s c : beginning p v s c -> outcome p c.
Proof. intros [(st & Hl & Hop & Hlc) ? ? [] ? ?]. left. exists p, st. split_and!; [done..|]. by exists s. Qed.

Lemma beginning_saved p v s c st :
  journaled root p v st -> beginning p v s c -> updating p v s (fun _ => True) (config p) (set_state_json (Some st) (set_mem st c)).
Proof.
  intros Hst [(st0 & (_ & _ & _ & Hc & _) & _) He _ [Hs Hv] [] Hr]. constructor; try done; [by exists st|by exists s].
Qed.

Lemma promoted_startable p v s cs c st t :
  updating p v s (eq cs) (config v) c -> env_ok Url_parse root v cs ->
  promote_healthy (mem c) = Ok st -> startable v (set_state_json (Some (set_transition t st)) c).
Proof.
  intros Hc Henv Hst. pose proof (updating_mem _ _ _ _ _ _ _ _ Hc) as (Hv & Hcur & _).
  destruct (updating_secrets _ _ _ _ _ _ _ _ Hc) as (x & Hx & Hfor & <-). unfold promote_healthy in Hst.
  unfold checkpoint in Hst. res_inv. case_match; [done|]. simplify_eq.
  eexists. split; [split_and!; [done|exact Hv|exact Hcur|by destruct Hc|by exists cs]|]. split_and!; [done..|]. by exists cs.
Qed.

Lemma update_written_outcome p v s cs c :
  beginning p v s c -> acceptable p (config v) ->
  validate_for Url_parse cs (config v) = Ok tt ->
  kwp (_ ← save; _ ← persist_active_configuration (config v) cs; _ ← materialize_assets; _ ← ensure_local_certificate;
       _ ← materialize_environment Url_parse root (config v) cs (traefik v); _ ← advance_checkpoint ImagesResolved;
       r ← catch (update_steps (config v));
       match r with
       | Ok _ => _ ← on_state promote_healthy; save
       | Err e => _ ← ignore (recover_failed_update Url_parse root); lift (Err e)
       | r => lift r
       end) (fun _ => outcome p) (outcome p) (outcome p) c.
Proof.
  intros Hc [Hdb Hroot Himages] Hcs. pose proof (beginning_outcome _ _ _ _ Hc).
  apply cwp_bind, kwp_save. intros t st. pose proof (beginning_saved _ _ _ _ st (beginning_mem _ _ _ _ Hc) Hc) as Hc1.
  pose proof (updating_outcome _ _ _ _ _ _ _ _ Hc1). split_and!; [|done..].
  apply cwp_bind, (persist_spec _ _ _ v s (fun _ => True) (config p)); [done..|]. clear c Hc H t st Hc1 H0. intros c Hc.
  assert (forall c, updating p v s (eq cs) (config v) c -> outcome p c) as Hout by (intros; by eapply updating_outcome).
  apply cwp_bind, (kwp_keeps (updating p v s (eq cs) (config v))); [neutral|done|]. clear c Hc. intros c Hc.
  split_and!; [intros _|by apply Hout..].
  apply cwp_bind, (kwp_keeps (updating p v s (eq cs) (config v))); [neutral|done|]. clear c Hc. intros c Hc.
  split_and!; [intros _|by apply Hout..].
  apply cwp_bind, cwp_bind, cwp_lift; [intros file Hfile|by apply Hout..]. assert (env_ok Url_parse root v cs) as Henv by (by exists file).
  assert (updating p v s (eq cs) (config v) (set_env (Some {| config := config v; traefik := traefik v |}) c)) by (by destruct Hc).
  apply kwp_effect; [|split; by apply Hout..]. clear Hc. generalize dependent (set_env (Some {| config := config v; traefik := traefik v |}) c).
  clear c. intros c Hc.
  apply cwp_bind, (kwp_keeps (updating p v s (eq cs) (config v))); [apply keeps_advance|done|]. clear c Hc. intros c Hc.
  split_and!; [intros _|by apply Hout..].
  apply cwp_bind, cwp_catch, (kwp_keeps (updating p v s (eq cs) (config v))); [apply keeps_update_steps|done|]. clear c Hc. intros c Hc.
  pose proof (Hout _ Hc). split_and!; [intros _|intros e|done].
  - apply cwp_bind, kwp_on_state; auto. intros st Hst. apply kwp_save. intros t st'.
    pose proof (promoted_startable _ _ _ _ _ _ t Hc Henv Hst) as Hs.
    assert (outcome p (set_state_json (Some st') (set_mem st' (set_mem st c)))) by (left; exists v; exact Hs).
    by split_and!.
  - apply cwp_bind, cwp_ignore. eapply cwp_mono; [by apply (recover_outcome _ root p v s Hdb (eq cs))|..]; auto; intros; by apply cwp_err.
Qed.

Lemma kwp_persist_rollback x y (Q : unit -> Core -> Prop) E K c :
  let c1 := set_rollback_config (Some x) c in
  let c2 := set_rollback_secrets (Some y) c1 in
  Q tt c2 -> E c /\ E c1 /\ E c2 -> K c /\ K c1 /\ K c2 -> kwp (persist_rollback_snapshot x y) Q E K c.
Proof.
  intros c1 c2 HQ (? & ? & ?) (? & ? & ?). unfold persist_rollback_snapshot.
  apply cwp_bind, kwp_unchanged; [auto with neutral|intros _|done..].
  apply cwp_bind, kwp_effect; [|done..]. by apply kwp_effect.
Qed.

Lemma begin_update_journaled p x t n change now st st' :
  validate st root = Ok tt -> current st = Some p -> validate_digest_image (digest (traefik p)) = Ok tt ->
  acceptable p x -> validate_digest_image (digest t) = Ok tt ->
  begin_update {| config := x; traefik := t |} n change now st = Ok st' ->
  journaled root p {| config := x; traefik := t |} st'.
Proof.
  intros Hv Hcur Hd [Hdb Hr Hi] Ht. unfold begin_update. case_bool_decide; [done|]. rewrite Hcur. cbn. intros [= <-].
  split_and!; [|done|done|by eexists]. destruct (validate_current _ _ Hv) as (_ & _ & Hc & _). destruct (Hc _ Hcur).
  by apply (validate_version root st _ (Some p)); [..|intros ? [= <-]].
Qed.

Lemma update_outcome rng request b p c :
  startable p c ->
  kwp (update Url_parse sha256_of length_of root rng request b) (fun _ => outcome p) (outcome p) (outcome p) c.
Proof.
  intros Hp. assert (outcome p c) as Ho by (left; by eexists).
  apply kwp_with_lock; [intros ? ? H; exact H|done|]. apply cwp_bind, kwp_load_installation; try done.
  destruct Hp as (st0 & (Hst0 & Hvalid & Hcur & Hcfg & Hsec) & Hop & Hlc & s0 & Hs0 & Henv).
  intros st v s (Hst & _ & Hv & _) Hs Hfor. cbn in Hst, Hs. rewrite Hst0 in Hst. injection Hst as <-.
  rewrite Hcur in Hv. injection Hv as <-.
  assert (forall c', state_json c' = Some st0 -> config_json c' = config_json c -> secrets_json c' = secrets_json c -> outcome p c') as Hdisk.
  { intros c' H1 H2 H3. left. exists p, st0. rewrite <- H2 in Hcfg. rewrite <- H3 in Hsec, Hs0.
    split; [by split_and!|]. split_and!; [done..|]. by exists s0. }
  apply cwp_bind, kwp_get_state. rewrite bool_decide_eq_false_2 by (cbn; rewrite Hop; by intros []).
  apply cwp_bind, cwp_lift; auto. intros _ _.
  apply cwp_bind. eapply cwp_mono; [by apply (update_candidate_spec _ _ p s (outcome p) (outcome p))| |done..].
  intros [x cs] c' (-> & Hx & Hcs). apply cwp_bind, kwp_unchanged; [auto with neutral|intros _|done..].
  apply cwp_bind, kwp_now_unix. intros now. apply cwp_bind, cwp_lift; auto. intros id8 _.
  apply cwp_bind. eapply cwp_framed; [apply backups_create_backup|]. intros ? c1 [bs ->] ->.
  split_and!; [intros n|by apply Hdisk..].
  apply cwp_bind, kwp_on_state; [intros ? [= <-]|by apply Hdisk..].
  apply cwp_bind, kwp_persist_rollback; [|split_and!; by apply Hdisk..].
  apply cwp_bind, kwp_unchanged; [auto with neutral|intros _|by apply Hdisk..].
  apply cwp_bind. eapply cwp_mono; [apply (resolve_traefik_latest_spec (outcome p) (outcome p)); by apply Hdisk| |done..].
  intros t c1 [-> Ht]. apply cwp_bind, kwp_now_unix. intros now'.
  apply cwp_bind, kwp_on_state; [intros st' Hst'|by apply Hdisk..].
  apply (update_written_outcome p {| config := x; traefik := t |} s); try done.
  assert (s0 = s) as -> by congruence.
  apply (begin_update_journaled p) in Hst'; [|done|done|by eapply env_ok_digest|done..].
  destruct (validate_current _ _ Hvalid) as (_ & _ & Hc & _). destruct (Hc _ Hcur).
  constructor; try done. exists st0. by split_and!.
Qed.
End update.

(** ** Commands whose steps all succeed *)

Section calm.
Context (Url_parse : text -> option Url) (sha256_of : Content -> text) (length_of : Content -> Z) (root : text).
Implicit Types (R : World -> Prop) (X : Prop) (c : Core) (i : Input).

Abbreviation loadable := (loadable Url_parse root).

Lemma wp_effect f (Q : unit -> World -> Prop) R X c i :
  fates i = [] -> Q tt (after (f c) i) -> wp (effect f) Q R X (after c i).
Proof. intros Hi HQ. unfold wp, effect. cbn. by rewrite Hi. Qed.

Lemma wp_ignore_effect f (Q : unit -> World -> Prop) R X c i :
  fates i = [] -> Q tt (after (f c) i) -> wp (ignore (effect f)) Q R X (after c i).
Proof. intros Hi HQ. unfold wp, ignore, catch, effect, mbind, method_bind. cbn. by rewrite Hi. Qed.

Lemma wp_external (Q : unit -> World -> Prop) R X c i :
  fates i = [] -> Q tt (after c i) -> wp external Q R X (after c i).
Proof. intros Hi HQ. by apply wp_effect. Qed.

Lemma wp_images (f : text -> bool) l (Q : unit -> World -> Prop) R X c i :
  fates i = [] -> Q tt (after c i) ->
  wp (for_each (fun image => _ ← external; if f image then mret tt else external) l) Q R X (after c i).
Proof.
  intros Hi HQ. induction l as [|a l IH]; [done|]. cbn [for_each]. apply wp_bind, wp_bind, wp_external; [done|].
  destruct (f a); [by apply wp_ret|by apply wp_external].
Qed.

Lemma wp_ok {A} (r : res anyhow A) a (Q : A -> World -> Prop) R X w : r = Ok a -> Q a w -> wp (lift r) Q R X w.
Proof. by intros ->. Qed.

Lemma wp_read_file {A} (f : Core -> option A) a (Q : A -> World -> Prop) R X c i :
  fates i = [] -> f c = Some a -> Q a (after c i) -> wp (read_file f) Q R X (after c i).
Proof.
  intros Hi Ha HQ. unfold read_file. apply wp_bind, wp_external; [done|]. unfold wp, mbind, method_bind, get_core, lift. cbn.
  by rewrite Ha.
Qed.

Lemma wp_get_core (Q : Core -> World -> Prop) R X c i : Q c (after c i) -> wp get_core Q R X (after c i).
Proof. done. Qed.

Lemma wp_get_state (Q : DeploymentState -> World -> Prop) R X c i : Q (mem c) (after c i) -> wp get_state Q R X (after c i).
Proof. done. Qed.

Lemma wp_on_state f st (Q : unit -> World -> Prop) R X c i :
  f (mem c) = Ok st -> Q tt (after (set_mem st c) i) -> wp (on_state f) Q R X (after c i).
Proof. intros Hf HQ. unfold on_state. apply wp_bind, wp_get_state, wp_bind. by eapply wp_ok. Qed.

Lemma wp_save (Q : unit -> World -> Prop) R X c i :
  fates i = [] -> (let st := set_transition (clock i) (mem c) in Q tt (after (set_state_json (Some st) (set_mem st c)) i)) ->
  wp save Q R X (after c i).
Proof. intros Hi HQ. unfold save. do 3 apply wp_bind. by apply (wp_effect _ _ _ _ (set_mem _ c)). Qed.

Lemma wp_with_lock {A} (m : M A) (Q : A -> World -> Prop) R X c i :
  fates i = [] -> locked c = false ->
  wp m (fun a w => fates (input w) = [] /\ Q a (after (set_locked false (core w)) (input w)))
    (fun w => fates (input w) = [] /\ R (after (set_locked false (core w)) (input w))) X (after (set_locked true c) i) ->
  wp (with_lock m) Q R X (after c i).
Proof.
  intros Hi Hl Hm. unfold with_lock. apply wp_bind, wp_get_core, wp_bind, (wp_ok _ tt); [by rewrite Hl|].
  apply wp_bind, (wp_effect (set_locked true)); [done|]. apply wp_bind. revert Hm. unfold wp, catch.
  destruct (m _) as [[c' i'] [a|e| |]]; [intros [Hi' HQ]|intros [Hi' HR]|done|done].
  all: unfold ignore, catch, effect, mbind, method_bind; cbn in *; by rewrite Hi'.
Qed.

Lemma wp_load_installation st v s (Q : InstallationConfig * SecretConfig -> World -> Prop) R X c i :
  fates i = [] -> loadable c st v -> secrets_json c = Some s -> Q (config v, s) (after (set_mem st c) i) ->
  wp (load_installation Url_parse root) Q R X (after c i).
Proof.
  intros Hi (Hst & Hv & Hcur & Hc & s' & Hs' & Hfor) Hs HQ. rewrite Hs in Hs'. injection Hs' as <-.
  unfold load_installation, load. apply wp_bind, wp_external; [done|]. apply wp_bind, wp_bind. eapply wp_read_file; [done..|].
  apply wp_bind. eapply wp_ok; [done|]. cbn. apply wp_bind.
  apply (wp_read_file _ (config v) _ _ _ (set_mem st c)); [done..|].
  apply wp_bind, (wp_read_file _ s _ _ _ (set_mem st c)); [done..|]. apply wp_bind. eapply wp_ok; [done|].
  apply wp_bind, wp_get_state, wp_bind, (wp_ok _ v); [by unfold pending_version; cbn; rewrite Hcur|]. apply wp_bind, (wp_ok _ tt); [|done].
  unfold bail_if. by rewrite bool_decide_eq_true_2.
Qed.

(** The services report that they are up. *)
Definition all_up (x : InstallationConfig) (i : Input) : Prop :=
  exists r, parse_compose_ps (default None (head (reports i))) = Ok r /\
    check_all (check_service r) (required_services x) = Ok tt.

(** Nothing fails, and Docker is there. *)
Definition calm (i : Input) : Prop :=
  fates i = [] /\ check_compose_version (compose_version (answers i)) = Ok tt /\
  check_engine_version (engine_version (answers i)) = Ok tt /\ validate_engine_os (os_type (answers i)) = Ok tt.

Lemma wp_detect_docker (Q : unit -> World -> Prop) R X c i :
  calm i -> Q tt (after c i) -> wp detect_docker Q R X (after c i).
Proof.
  intros (Hi & Hc & He & Ho) HQ. unfold detect_docker. apply wp_bind, wp_external; [done|]. apply wp_bind.
  unfold wp at 1, get_answers. cbn [input after]. apply wp_bind, wp_external; [done|]. apply wp_bind, (wp_ok _ tt); [done|].
  apply wp_bind, wp_external; [done|]. apply wp_bind, (wp_ok _ tt); [done|].
  apply wp_bind, wp_external; [done|]. by apply (wp_ok _ tt).
Qed.

Lemma wp_start_and_verify x e (Q : unit -> World -> Prop) R X c i :
  fates i = [] -> all_up x i -> talos_env c = Some e ->
  (forall i', fates i' = [] -> Q tt (after (set_running (Some (config e)) (log_start (config e) c)) i')) ->
  wp (start_and_verify x) Q R X (after c i).
Proof.
  intros Hi (r & Hr & Hup) He HQ. unfold start_and_verify, up_all, compose_env, collect_service_status.
  apply wp_bind, wp_bind, wp_bind, wp_get_core, wp_bind, (wp_ok _ e); [by rewrite He|]. apply wp_ret.
  apply wp_bind, (wp_effect (log_start (config e))); [done|]. apply (wp_effect (set_running _)); [done|].
  apply wp_bind, wp_bind, wp_external; [done|]. apply wp_bind. unfold wp at 1, next_report. cbn [input after core].
  apply (wp_ok _ r); [done|]. apply (wp_ok _ tt); [done|by apply HQ].
Qed.

(** ** Going on *)

(** The services of [v] run, and the journal says so. *)
Definition serving (l : Lifecycle) (v : DeploymentVersion) (c : Core) : Prop :=
  exists st, state_json c = Some st /\ lifecycle st = l /\ operation st = None /\ current st = Some v /\
    config_json c = Some (config v) /\ running c = Some (config v) /\ locked c = false.

(** The services are stopped, and the journal asks for a restore. *)
Definition awaiting_restore (c : Core) : Prop :=
  exists st, state_json c = Some st /\ lifecycle st = RestoreRequired /\ is_Some (operation st) /\
    running c = None /\ locked c = false.

Lemma start_runs v c i :
  startable Url_parse root v c -> locked c = false -> calm i -> all_up (config v) i ->
  wp (start Url_parse root) (fun _ w => serving Running v (core w)) (fun _ => False) False (after c i).
Proof.
  intros (st & Hl & Hop & Hlc & s & Hs & Henv) Hlock Hi Hup. pose proof Hl as (Hst & Hv & Hcur & Hc & _).
  pose proof (env_ok_digest _ _ _ _ Henv) as Hd.
  pose proof Hi as [Hf _].
  apply wp_with_lock; [done..|]. apply wp_bind. eapply (wp_load_installation st v s); [done|exact Hl|done|].
  apply wp_bind, wp_get_state, wp_bind, (wp_ok _ tt).
  { unfold require_no_incomplete_operation, bail_if. cbn. rewrite Hop. by case_bool_decide as H; [destruct H|]. }
  apply wp_bind, (wp_ok _ tt). { unfold bail_if. by case_bool_decide. }
  apply wp_bind, wp_detect_docker; [done|]. apply wp_bind, (wp_ok _ v). { unfold pending_version. cbn. by rewrite Hcur. }
  destruct (validate_current _ _ Hv) as (_ & _ & Himg & _). destruct (Himg v Hcur) as [_ Hi2].
  apply wp_bind. unfold ensure_recorded_images. apply wp_bind, (wp_ok _ tt); [done|]. apply wp_bind, (wp_ok _ tt); [done|].
  apply wp_bind. unfold wp at 1, get_answers. cbn [input after]. apply wp_images; [done|].
  do 2 (apply wp_bind, wp_external; [done|]). destruct Henv as [file Hfile].
  apply wp_bind, wp_bind, (wp_ok _ file); [done|]. apply wp_effect; [done|]. apply wp_bind, wp_external; [done|].
  apply wp_bind. eapply wp_start_and_verify; [done..|]. intros i' Hi'.
  apply wp_bind. eapply wp_on_state; [done|]. apply wp_save; [done|]. split; [done|].
  eexists. split; [done|]. by split_and!.
Qed.

(** Putting the previous version back. *)
Lemma restart_runs p s st c i (Q : unit -> World -> Prop) R X :
  fates i = [] -> env_ok Url_parse root p s -> all_up (config p) i -> rollback_config c = Some (config p) -> rollback_secrets c = Some s ->
  validate_for Url_parse s (config p) = Ok tt -> mem c = st -> previous_good st = Some p ->
  (forall i' c', fates i' = [] -> mem c' = st -> config_json c' = Some (config p) -> running c' = Some (config p) ->
     Q tt (after c' i')) ->
  wp (restart_previous Url_parse root p) Q R X (after c i).
Proof.
  intros Hi [file Hfile] Hup Hrc Hrs Hfor Hm Hp HQ. unfold restart_previous.
  apply wp_bind, (wp_read_file _ (config p)); [done..|]. apply wp_bind, (wp_ok _ tt).
  { unfold bail_if. by rewrite bool_decide_eq_true_2. }
  apply wp_bind, (wp_read_file _ s); [done..|]. apply wp_bind, (wp_ok _ tt); [done|].
  apply wp_bind. unfold persist_active_configuration. apply wp_bind, wp_effect; [done|]. apply wp_effect; [done|].
  do 2 (apply wp_bind, wp_external; [done|]). apply wp_bind, wp_bind, (wp_ok _ file); [done|]. apply wp_effect; [done|].
  eapply wp_start_and_verify; [done..|]. intros i' Hi'. by apply HQ.
Qed.

Lemma recover_runs p s st op c i :
  fates i = [] -> env_ok Url_parse root p s -> all_up (config p) i -> rollback_config c = Some (config p) -> rollback_secrets c = Some s ->
  validate_for Url_parse s (config p) = Ok tt -> mem c = st -> previous_good st = Some p -> is_Some (current st) ->
  operation st = Some op ->
  wp (recover_failed_update Url_parse root)
    (fun _ w => fates (input w) = [] /\
       let c' := set_locked false (core w) in serving FailedRecoverable p c' \/ awaiting_restore c')
    (fun _ => False) False (after c i).
Proof.
  intros Hi Henv Hup Hrc Hrs Hfor Hm Hp [v Hcur] Hop. unfold recover_failed_update. apply wp_bind, wp_get_state. rewrite Hm.
  apply wp_bind, (wp_ok _ (rollback_decision (op_checkpoint op) (application_images_changed op))).
  { unfold state_rollback_decision. by rewrite Hop. }
  destruct (rollback_decision _ _).
  1, 2: rewrite Hp; apply wp_bind, (wp_ok _ p); [done|]; apply wp_bind; eapply restart_runs; try done;
    intros i' c' Hi' Hm' Hc' Hr'; apply wp_bind; eapply wp_on_state;
    [unfold restore_previous_version; by rewrite Hm', Hp|]; apply wp_save; [done|];
    split; [done|]; left; eexists; split; [done|]; by split_and!.
  apply wp_bind, (wp_ok _ v). { unfold pending_version. by rewrite Hcur. }
  apply wp_bind, wp_ignore_effect; [done|]. apply wp_bind. eapply wp_on_state; [done|]. apply wp_save; [done|]. split; [done|]. right.
  eexists. split; [done|]. cbn. rewrite Hm. by split_and!.
Qed.

Lemma update_resumes rng request b p c i :
  resumable Url_parse root p c -> locked c = false -> calm i -> all_up (config p) i ->
  wp (update Url_parse sha256_of length_of root rng request b) (fun _ _ => False)
    (fun w => serving FailedRecoverable p (core w) \/ awaiting_restore (core w)) False (after c i).
Proof.
  intros (st & v & op & s & Hl & Hop & Hk & Hp & Hrc & Hrs & Hfor & Henv & Hr) Hlock Hi Hup. pose proof Hi as [Hf _].
  pose proof Hl as (Hst & Hv & Hcur & Hc & s' & Hs' & _).
  apply wp_with_lock; [done..|]. apply wp_bind. eapply (wp_load_installation st v s'); [done|exact Hl|done|].
  apply wp_bind, wp_get_state. cbn [mem set_mem]. rewrite bool_decide_eq_true_2 by (rewrite Hop; by eexists).
  apply wp_bind. unfold recover_interrupted_update. apply wp_bind, wp_get_state. cbn [mem set_mem].
  apply wp_bind, (wp_ok _ op); [by rewrite Hop|]. apply wp_bind, (wp_ok _ tt).
  { unfold bail_if. by rewrite bool_decide_eq_true_2. }
  apply wp_bind, wp_detect_docker; [done|].
  eapply wp_mono; [eapply (recover_runs p s st op); try done; by rewrite Hcur| |done..].
  intros _ [c' i'] [Hi' H]. done.
Qed.

(** C4. An update of an installation that can be started, interrupted at any step: unless
    its journal and its active configuration were not both written, the next command
    goes on from there.  If the journal has no operation, [start] brings the recorded
    version up; otherwise [update] either puts the previous version back and runs it,
    or stops the services and asks for a restore. *)
Theorem interrupted_update_recovers rng request b p c i :
  startable Url_parse root p c ->
  let c1 := set_locked false (core (update Url_parse sha256_of length_of root rng request b (after c i)).1) in
  stranded c1 \/
  (exists v, startable Url_parse root v c1 /\
     forall i', calm i' -> all_up (config v) i' ->
     wp (start Url_parse root) (fun _ w => serving Running v (core w)) (fun _ => False) False (after c1 i')) \/
  (forall rng' request' b' i', calm i' -> all_up (config p) i' ->
     wp (update Url_parse sha256_of length_of root rng' request' b') (fun _ _ => False)
       (fun w => serving FailedRecoverable p (core w) \/ awaiting_restore (core w)) False (after c1 i')).
Proof.
  intros Hp c1. assert (outcome Url_parse root p c1) as [[v Hv]|[Hr|Hs]].
  - pose proof (update_outcome _ sha256_of length_of _ rng request b _ _ Hp (after c i) eq_refl) as H.
    subst c1. by destruct (update _ _ _ _ _ _ _ _) as [w [a|e| |]].
  - right. left. exists v. split; [done|]. intros i' Hi' Hup. by apply start_runs.
  - right. right. intros. by apply update_resumes.
  - by left.
Qed.
End calm.

Module Installed.
Import Sample.
Definition version : DeploymentVersion :=
  {| config := configured 49; traefik := {| digest := str "traefik" ++ sha 48; version := str "v3"; resolved_at_unix := 1000 |} |}.
Definition secrets : SecretConfig := generate random (configured 49) {| input_database_url := None |}.
Definition killed : Input := given (replicate 63 Succeeds ++ [Killed true]).

Lemma installed_startable : startable no_url root version installed.
Proof.
  exists (mem installed).
  split; [split; [|split; [|split; [|split; [|exists secrets; split]]]]|split; [|split; [|exists secrets; split; [|eexists]]]].
  all: try (vm_compute; reflexivity). all: vm_compute; discriminate.
Qed.
End Installed.

Lemma interrupted_update_recovers_witness :
  let p := Installed.version in
  let c1 := set_locked false (core (update Sample.no_url Sample.hash Sample.size Sample.root
    Sample.random (Some (Sample.request 50)) None (after Sample.installed Installed.killed)).1) in
  stranded c1 \/
  (exists v, startable Sample.no_url Sample.root v c1 /\
     forall i', calm i' -> all_up (config v) i' ->
     wp (start Sample.no_url Sample.root) (fun _ w => serving Running v (core w)) (fun _ => False) False (after c1 i')) \/
  (forall rng' request' b' i', calm i' -> all_up (config p) i' ->
     wp (update Sample.no_url Sample.hash Sample.size Sample.root rng' request' b') (fun _ _ => False)
       (fun w => serving FailedRecoverable p (core w) \/ awaiting_restore (core w)) False (after c1 i')).
Proof.
  exact (interrupted_update_recovers Sample.no_url Sample.hash Sample.size Sample.root
    Sample.random (Some (Sample.request 50)) None Installed.version Sample.installed Installed.killed Installed.installed_startable).
Defined.
