(* ===== verification/ApplianceTypes.v ===== *)
(** What the launcher writes is well-formed: it loads every journal that it has written,
    after any sequence of commands, failures and interruptions. *)

From S2P Require Import Prelude Bytes Text ApplianceConfig ApplianceEnvironment ApplianceCli Appliance ApplianceLogic ApplianceSafety ApplianceRecovery ApplianceResume.

Import Config Journal Launcher.

Local Open Scope Z_scope.

(** ** Fresh values *)

Lemma hex_digit_hex n : 0 <= n < 16 -> is_ascii_hexdigit (hex_digit n) = true.
Proof.
  intros Hn. unfold hex_digit, is_ascii_hexdigit, is_ascii_digit, within. destruct (Z.ltb_spec n 10); lia.
Qed.

Lemma random_hex_spec bytes :
  bytes_ok bytes -> len (random_hex bytes) = 2 * len bytes /\ Forall (fun c => is_ascii_hexdigit c = true) (random_hex bytes).
Proof.
  unfold random_hex, len. induction 1 as [|b bytes Hb _ [IHl IHf]]; [done|]. unfold is_u8, u8_max in Hb.
  cbn [map concat app length]. split; [lia|].
  repeat constructor; [apply hex_digit_hex..|done].
  - rewrite Z.shiftr_div_pow2 by lia. change (2 ^ 4) with 16. split; [apply Z.div_pos; lia|apply Z.div_lt_upper_bound; lia].
  - change 15 with (Z.ones 4); rewrite Z.land_ones by lia. apply Z.mod_pos_bound. lia.
Qed.

Lemma hexdigit_ascii c : is_ascii_hexdigit c = true -> 0 <= c < 128.
Proof. unfold is_ascii_hexdigit, is_ascii_digit, within. lia. Qed.

Lemma hex_text t : Forall (fun c => is_ascii_hexdigit c = true) t -> str_len t = len t /\ bytes_all is_ascii_hexdigit t = true.
Proof.
  intros Ht. assert (is_ascii t) as Ha by (eapply Forall_impl; [exact Ht|apply hexdigit_ascii]).
  unfold str_len, bytes_all. rewrite utf8_ascii by done. split; [done|]. apply forallb_forall. intros x Hx.
  rewrite Forall_forall in Ht. by apply Ht, list_elem_of_In.
Qed.

Section types.
Context (Url_parse : text -> option Url) (sha256_of : Content -> text) (length_of : Content -> Z) (root : text).

(** ** Well-formed journals *)

(** All versions of the journal have resolved images, and belong to this installation. *)
Definition settled (st : DeploymentState) : Prop :=
  validate st root = Ok tt /\
  (forall v, current st = Some v -> validate_digest_image (digest (traefik v)) = Ok tt) /\
  (forall p, previous_good st = Some p -> installation_root (config p) = root).

(** An install that has yet to resolve the image of the proxy. *)
Definition unresolved (st : DeploymentState) : Prop :=
  validate st root = Ok tt /\ previous_good st = None /\ lifecycle st <> RestoreRequired /\
  exists op, operation st = Some op /\ kind op = Install /\ checkpoint_lt (op_checkpoint op) ImagesResolved = true.

Definition typed (st : DeploymentState) : Prop := settled st \/ unresolved st.

(** The states kept in backups. *)
Definition states_settled (b : gmap (text * text) BackupDirectory) : Prop :=
  forall key d n st, b !! key = Some d -> files d !! n = Some (StateFile st) -> settled st.

(** On disk; in an operation, with the journal typed or settled. *)
Definition wellformed (c : Core) : Prop := states_settled (backups c) /\ forall st, state_json c = Some st -> typed st.
Definition during (P : DeploymentState -> Prop) (c : Core) : Prop :=
  states_settled (backups c) /\ P (mem c) /\ forall st, state_json c = Some st -> P st.

Lemma during_wellformed P c : (forall st, P st -> typed st) -> during P c -> wellformed c.
Proof. intros HP (Hb & _ & Hst). split; [done|]. auto. Qed.

Lemma settled_wellformed c : during settled c -> wellformed c.
Proof. apply during_wellformed. by left. Qed.

Lemma typed_valid st : typed st -> validate st root = Ok tt.
Proof. by intros [[? _]|[? _]]. Qed.

Lemma typed_idle st : typed st -> operation st = None \/ lifecycle st = RestoreRequired -> settled st.
Proof. intros [|(_ & _ & Hl & op & Hop & _)]; [done|]. intros []; congruence. Qed.

(** What the methods of the journal keep. *)
Definition kept (f : DeploymentState -> res anyhow DeploymentState) : Prop :=
  forall st st', f st = Ok st' -> settled st -> settled st'.

Lemma settled_operation l o st : settled st -> settled (set_operation l o st).
Proof. done. Qed.

Lemma kept_checkpoint next : kept (checkpoint next).
Proof.
  intros st st' H Hst. unfold checkpoint in H. destruct (operation st) as [op|]; [|done]. cbn in H. by case_match; simplify_eq.
Qed.

Lemma kept_promote : kept promote_healthy.
Proof.
  intros st st' H Hst. unfold promote_healthy in H. destruct (checkpoint Healthy st) as [st1|e| |] eqn:H1; [|done..].
  cbn in H. injection H as <-. by apply settled_operation, (kept_checkpoint _ _ _ H1).
Qed.

Lemma kept_begin_restore n t : kept (begin_restore n t).
Proof. intros st st' H Hst. unfold begin_restore in H. case_bool_decide; simplify_eq. done. Qed.

Lemma kept_previous : kept restore_previous_version.
Proof.
  intros st st' H (Hv & Hc & Hp). unfold restore_previous_version in H. destruct (previous_good st) as [p|] eqn:E; [|done].
  cbn in H. injection H as <-. destruct (validate_current _ _ Hv) as (_ & _ & _ & Hprev). destruct (Hprev p E).
  apply settled_operation. split_and!; [by apply validate_version; auto|by intros ? [= <-]|done].
Qed.

Lemma kept_begin_update v n change t :
  installation_root (config v) = root -> validate_images (images (config v)) = Ok tt ->
  validate_digest_image (digest (traefik v)) = Ok tt -> kept (begin_update v n change t).
Proof.
  intros Hr Hi Hd st st' H (Hv & Hc & Hp). unfold begin_update in H. case_bool_decide; [done|].
  destruct (current st) as [p|] eqn:E; [|done]. cbn in H. injection H as <-.
  destruct (validate_current _ _ Hv) as (_ & _ & Hcur & _). destruct (Hcur p E). specialize (Hc p eq_refl).
  apply settled_operation. split_and!; [|by intros ? [= <-]|by intros ? [= <-]].
  apply validate_version; auto. by intros ? [= <-].
Qed.

(** ** Steps with a settled journal *)

Abbreviation steady := (framed (keeps (during settled))).

(** A step that leaves the journal and the backups alone. *)
Lemma steady_effect f :
  (forall c, mem (f c) = mem c /\ state_json (f c) = state_json c /\ backups (f c) = backups c) -> steady (effect f).
Proof.
  intros Hf. apply framed_effect; [apply _|]. intros c (Hb & Hm & Hs). destruct (Hf c) as (H1 & H2 & H3).
  unfold during. by rewrite H1, H2, H3.
Qed.

Lemma steady_on_state f : kept f -> steady (on_state f).
Proof.
  intros Hf w (Hb & Hm & Hs). unfold on_state, get_state, get_core, lift, set_state, mbind, method_bind. cbn.
  destruct (f (mem (core w))) as [st|e| |] eqn:Hst; [|done..]. split_and!; [done|by eapply Hf|done].
Qed.

Lemma steady_kwp {A} (m : M A) :
  (forall c, during settled c -> kwp m (fun _ => during settled) (during settled) (during settled) c) -> steady m.
Proof. intros Hm w Hc. specialize (Hm (core w) Hc w eq_refl). by destruct (m w) as [w' [a|e| |]]. Qed.

Lemma steady_save : steady save.
Proof.
  apply steady_kwp. intros c (Hb & Hm & Hs). apply kwp_save. intros t st. assert (settled st) by exact Hm.
  split_and!; (split_and!; [done..|]); cbn; try done; by intros ? [= <-].
Qed.

Lemma steady_advance next : steady (advance_checkpoint next).
Proof. unfold advance_checkpoint. neutral; [|apply steady_save]. apply steady_on_state, kept_checkpoint. Qed.

Lemma during_backups b P c : states_settled b -> during P c -> during P (set_backups b c).
Proof. intros Hb (_ & Hm & Hs). by split_and!. Qed.

Lemma states_alter b key (f : BackupDirectory -> BackupDirectory) :
  (forall d n st, files (f d) !! n = Some (StateFile st) -> files d !! n = Some (StateFile st) \/ settled st) ->
  states_settled b -> states_settled (alter f key b).
Proof.
  intros Hf Hb k d n st Hk Hn. destruct (decide (k = key)) as [->|Hne].
  - rewrite lookup_alter_eq in Hk. destruct (b !! key) as [d0|] eqn:E; [|done]. injection Hk as <-.
    destruct (Hf _ _ _ Hn); [by eapply Hb|done].
  - rewrite lookup_alter_ne in Hk by done. by eapply Hb.
Qed.

Lemma states_insert b key d :
  (forall n st, files d !! n = Some (StateFile st) -> settled st) -> states_settled b -> states_settled (<[key := d]> b).
Proof. intros Hd Hb k d' n st [[<- <-]|[_ Hk]]%lookup_insert_Some Hn; [by eapply Hd|by eapply Hb]. Qed.

Lemma states_delete b key : states_settled b -> states_settled (delete key b).
Proof. intros Hb k d n st [_ Hk]%lookup_delete_Some. by eapply Hb. Qed.

Lemma states_rename b x y : states_settled b -> states_settled (rename_directory x y b).
Proof.
  intros Hb. unfold rename_directory. destruct (b !! x) as [d|] eqn:Hd; [|done].
  assert (states_settled (<[y := d]> (delete x b))).
  { apply states_insert; [|by apply states_delete]. intros n st. by apply (Hb x d n st). }
  destruct (b !! y); [|done]. by case_match.
Qed.

Lemma steady_add_file key n x : (forall st, x = StateFile st -> settled st) -> steady (add_file key n x).
Proof.
  intros Hx. apply framed_effect; [apply _|]. intros c Hc. apply during_backups; [|done]. apply states_alter; [|apply Hc].
  intros d n' st. cbn. intros [[_ ->]|[_ H]]%lookup_insert_Some; auto.
Qed.

Lemma steady_copy_file key n f :
  (forall c x st, during settled c -> f c = Some x -> x = StateFile st -> settled st) -> steady (copy_file key n f).
Proof.
  intros Hf. apply steady_kwp. intros c Hc. unfold copy_file. apply cwp_bind, kwp_read_file; auto. intros x Hx.
  eapply kwp_keeps; [apply steady_add_file; eauto|exact Hc|done].
Qed.

Lemma steady_backup_contents key b c i : steady (backup_contents sha256_of length_of key b c i).
Proof.
  assert (forall key n x, (forall st, x <> StateFile st) -> steady (add_file key n x)) as Hadd
    by (intros ? ? ? Hx; apply steady_add_file; intros ? ->; by destruct (Hx st)).
  assert (steady (backup_database length_of key b c)) by (unfold backup_database; neutral; by apply Hadd).
  assert (forall r, steady (backup_edge key c r i))
    by (intros r; unfold backup_edge, stop_traefik, restart_traefik; neutral; by apply Hadd).
  pose proof (unchanged_file_records sha256_of length_of).
  unfold backup_contents. neutral; apply steady_copy_file.
  - intros c' x st _. by destruct (config_json c'); intros [= <-].
  - intros c' x st _. by destruct (secrets_json c'); intros [= <-].
  - intros c' x st (_ & _ & Hs). destruct (state_json c') as [st'|]; [|done]. intros [= <-] [= <-]. auto.
Qed.

Lemma steady_create_backup n b c i : steady (create_backup sha256_of length_of n b c i).
Proof.
  unfold create_backup, ignore. pose proof steady_backup_contents. neutral; intros Hc.
  - apply during_backups; [|done]. apply states_insert; [|apply Hc]. intros ? ?. cbn. by rewrite lookup_empty.
  - apply during_backups; [|done]. apply states_alter; [|apply Hc]. by left.
  - apply during_backups; [|done]. apply states_rename, Hc.
Qed.
#[local] Hint Resolve steady_save steady_advance steady_create_backup : neutral.


(** Go through an operation whose own steps leave the journal and the backups alone. *)
Ltac steady := neutral; try (intros Hsteady; exact Hsteady).

Lemma steady_running r : steady (effect (set_running r)).
Proof. steady. Qed.

Lemma steady_migrate : steady database_migrate.
Proof. unfold database_migrate, compose_env. steady. Qed.

Lemma steady_start c : steady (start_and_verify c).
Proof. unfold start_and_verify, up_all, compose_env, collect_service_status. steady. Qed.

Lemma steady_environment c s t : steady (materialize_environment Url_parse root c s t).
Proof. unfold materialize_environment. steady. Qed.

Lemma steady_persist c s : steady (persist_active_configuration c s).
Proof. unfold persist_active_configuration. steady. Qed.

Lemma steady_persist_rollback c s : steady (persist_rollback_snapshot c s).
Proof. unfold persist_rollback_snapshot. steady. Qed.
#[local] Hint Resolve steady_running steady_migrate steady_start steady_environment steady_persist steady_persist_rollback : neutral.

Lemma steady_set_lifecycle l : steady (on_state (fun st => Ok (set_operation l (operation st) st))).
Proof. apply steady_on_state. intros st ? [= <-] Hst. exact Hst. Qed.

Lemma steady_mark_restore : steady (on_state (fun st => Ok (mark_restore_required st))).
Proof. apply steady_on_state. intros st ? [= <-] Hst. exact Hst. Qed.

Lemma steady_mark_stopped : steady (on_state (fun st => Ok (mark_stopped st))).
Proof. apply steady_on_state. intros st ? [= <-] Hst. exact Hst. Qed.

Lemma steady_set_backup n : steady (on_state (fun st => Ok (set_backup n st))).
Proof. apply steady_on_state. intros st ? [= <-] Hst. exact Hst. Qed.

Lemma steady_promote : steady (on_state promote_healthy).
Proof. apply steady_on_state, kept_promote. Qed.

Lemma steady_checkpoint next : steady (on_state (checkpoint next)).
Proof. apply steady_on_state, kept_checkpoint. Qed.

Lemma steady_previous : steady (on_state restore_previous_version).
Proof. apply steady_on_state, kept_previous. Qed.

#[local] Hint Resolve steady_set_lifecycle steady_mark_restore steady_mark_stopped steady_set_backup steady_promote
  steady_checkpoint steady_previous : neutral.

Lemma steady_or_restore_required m : steady m -> steady (or_restore_required m).
Proof. intros Hm. unfold or_restore_required. steady. Qed.

Lemma steady_recover : steady (recover_failed_update Url_parse root).
Proof. unfold recover_failed_update, restart_previous, ignore, stop_application_services. steady. Qed.

Lemma steady_update_steps c : steady (update_steps c).
Proof. unfold update_steps. steady. Qed.

Lemma steady_restore_steps key m c : steady (restore_steps key m c).
Proof. unfold restore_steps, restore_postgres_dump, restart_traefik. steady. Qed.

Lemma steady_install_backup b c : steady (install_backup sha256_of length_of b c).
Proof. unfold install_backup. steady. Qed.
#[local] Hint Resolve steady_recover steady_update_steps steady_restore_steps steady_install_backup steady_or_restore_required : neutral.

(** ** The commands *)

Abbreviation fine := (fun m c => kwp m (fun _ => wellformed) wellformed wellformed c).

Lemma fine_lock {A} (m : M A) c : wellformed c -> (forall c, wellformed c -> fine m c) -> fine (with_lock m) c.
Proof. intros Hc Hm. apply kwp_with_lock; [by intros|done|]. by apply Hm. Qed.

Lemma fine_steady {A} (m : M A) c : steady m -> during settled c -> fine m c.
Proof. intros Hm Hc. eapply kwp_keeps; [exact Hm|exact Hc|]. intros c' H%settled_wellformed. auto. Qed.

Lemma fine_unchanged {A B} (m : M A) (k : A -> M B) c :
  framed eq m -> wellformed c -> (forall a, fine (k a) c) -> fine (m ≫= k) c.
Proof. intros. by apply cwp_bind, kwp_unchanged. Qed.

Lemma loaded c st : wellformed c -> state_json c = Some st -> operation st = None \/ lifecycle st = RestoreRequired ->
  during settled (set_mem st c).
Proof.
  intros [Hb Hs] Hst Ho. pose proof (typed_idle _ (Hs st Hst) Ho). split_and!; [done..|]. cbn. rewrite Hst. by intros ? [= <-].
Qed.

Lemma fine_load {B} (k : InstallationConfig * SecretConfig -> M B) c :
  wellformed c ->
  (forall st v s, state_json c = Some st -> current st = Some v -> fine (k (config v, s)) (set_mem st c)) ->
  fine (load_installation Url_parse root ≫= k) c.
Proof.
  intros Hc Hk. apply cwp_bind, kwp_load_installation; try done. intros st v s (Hst & _ & Hv & _) _ _. auto.
Qed.

(** The commands that want no operation. *)
Ltac idle :=
  apply fine_load; [done|]; intros st v s Hst Hv;
  apply cwp_bind, kwp_get_state, cwp_bind, cwp_lift; try done; intros u; apply no_operation; intros Hop;
  apply fine_steady; [|by apply loaded; auto].

Lemma start_fine c : wellformed c -> fine (start Url_parse root) c.
Proof. intros Hc. apply fine_lock; [done|]. clear c Hc. intros c Hc. idle. steady. Qed.

Lemma stop_fine c : wellformed c -> fine (stop Url_parse root) c.
Proof. intros Hc. apply fine_lock; [done|]. clear c Hc. intros c Hc. idle. unfold project_stop. steady. Qed.

Lemma backup_command_fine n b c : wellformed c -> fine (backup_command Url_parse sha256_of length_of root n b) c.
Proof.
  intros Hc. apply fine_lock; [done|]. clear c Hc. intros c Hc. idle.
  unfold run_with_guaranteed_cleanup, stop_database. steady.
Qed.

Lemma status_fine c : wellformed c -> fine (status Url_parse root) c.
Proof.
  intros Hc. apply fine_load; [done|]. intros st v s _ _. apply kwp_unchanged; try done.
  unfold collect_service_status. neutral.
Qed.

Lemma diagnostics_fine c : wellformed c -> fine (diagnostics_command Url_parse root) c.
Proof. intros Hc. apply fine_load; [done|]. intros st v s _ _. apply kwp_unchanged; try done. neutral. Qed.

(** An update that is recorded has settled versions. *)
Lemma typed_update st op : typed st -> operation st = Some op -> kind op = Update -> settled st.
Proof. intros [|(_ & _ & _ & op' & Hop & Hk & _)]; [done|]. congruence. Qed.

Lemma update_fine rng request b c : wellformed c -> fine (update Url_parse sha256_of length_of root rng request b) c.
Proof.
  intros Hc. apply fine_lock; [done|]. clear c Hc. intros c Hc. apply fine_load; [done|]. intros st v s Hst Hv.
  apply cwp_bind, kwp_get_state. case_bool_decide as Hop.
  { apply cwp_bind. unfold recover_interrupted_update. apply cwp_bind, kwp_get_state, cwp_bind, cwp_lift; try done.
    cbn. intros op Hop'%ok_or_ok_inv. apply cwp_bind, cwp_lift; try done. intros u Hk%bail_if_ok.
    rewrite negb_false_iff, bool_decide_eq_true in Hk. pose proof (typed_update _ _ (proj2 Hc st Hst) Hop' Hk).
    assert (during settled (set_mem st c)) by (split_and!; [apply Hc|done|]; cbn; rewrite Hst; by intros ? [= <-]).
    eapply cwp_mono; [apply fine_steady; [steady|done]|..]; auto. intros. by apply cwp_err. }
  apply eq_None_not_Some in Hop. apply cwp_bind, cwp_lift; try done. intros _ _.
  apply cwp_bind. eapply cwp_mono; [by apply (update_candidate_spec _ _ _ _ v s wellformed wellformed)| |done..].
  intros [x cs] c' (-> & [Hdb Hr Hi] & Hcs). apply cwp_bind, kwp_unchanged; [neutral|intros _|done..].
  apply fine_unchanged; [neutral|done|]. intros now. apply fine_unchanged; [neutral|done|]. intros id8.
  assert (during settled (set_mem st c)) as Hd by (apply loaded; auto). clear Hst Hv Hop Hc.
  revert Hd. generalize (set_mem st c). clear c. intros c Hc.
  apply cwp_bind, (kwp_keeps (during settled)); [neutral|done|]. clear c Hc. intros c Hc.
  pose proof (settled_wellformed _ Hc). split_and!; [intros n|done..].
  apply cwp_bind, (kwp_keeps (during settled)); [neutral|done|]. clear c Hc H. intros c Hc.
  pose proof (settled_wellformed _ Hc). split_and!; [intros _|done..].
  apply cwp_bind, (kwp_keeps (during settled)); [neutral|done|]. clear c Hc H. intros c Hc.
  pose proof (settled_wellformed _ Hc). split_and!; [intros _|done..].
  apply fine_unchanged; [neutral|done|]. intros _.
  apply cwp_bind. eapply cwp_mono; [by apply (resolve_traefik_latest_spec wellformed wellformed)| |done..].
  intros t c' [-> Ht]. apply fine_steady; [|done].
  unfold ignore. steady. by apply steady_on_state, kept_begin_update.
Qed.

Ltac pass := apply cwp_bind, kwp_unchanged; [neutral|intros ?|done..].

(** A backup holds a settled journal. *)
Lemma restore_source_spec key external id c :
  during settled c ->
  kwp (restore_source Url_parse sha256_of length_of root key external id)
    (fun '(_, st) c' => c' = c /\ settled st) wellformed wellformed c.
Proof.
  intros Hc. pose proof (settled_wellformed _ Hc). unfold restore_source.
  pass. pass. pass. pass. pass. apply cwp_bind, kwp_read_file; [|done..]. intros st Hst. pass. pass. pass.
  apply cwp_ret. split; [done|]. unfold backup_state, backup_file in Hst.
  destruct (backups c !! key) as [d|] eqn:Hd; [|done]. cbn [mbind option_bind] in Hst.
  destruct (files d !! str "state.json") as [[]|] eqn:Hf; try done. injection Hst as <-. by apply (proj1 Hc key d (str "state.json")).
Qed.

Lemma restore_fine n id external c :
  wellformed c -> fine (restore Url_parse sha256_of length_of root n id external) c.
Proof.
  intros Hc. apply fine_lock; [done|]. clear c Hc. intros c Hc. apply fine_load; [done|]. intros st v s Hst Hv.
  apply cwp_bind, kwp_get_state. apply fine_unchanged; [neutral|done|]. intros _.
  apply cwp_bind, cwp_lift; try done. intros u Ho%bail_if_ok. cbn in Ho.
  assert (during settled (set_mem st c)) as Hd.
  { apply loaded; [done..|]. destruct (operation st) as [op|]; [|by left]. right.
    rewrite bool_decide_eq_true_2, andb_true_l, negb_false_iff, bool_decide_eq_true in Ho by done. done. }
  apply fine_unchanged; [neutral|done|]. intros _. cbn [mem set_mem].
  apply cwp_bind. eapply cwp_mono; [by apply restore_source_spec| |done..]. intros [[[m x] s'] restored] c' [-> Hr].
  assert (forall c, during settled c -> during settled (set_mem (set_operation (lifecycle restored) None restored) c)) as Hset
    by (intros c' (? & ? & ?); by split_and!).
  apply fine_steady; [|done]. unfold stop_application_services, save_recovery_copy, restore_local_certificate_if_present. steady.
  2: intros w Hw; by apply Hset.
  all: apply steady_on_state; intros st1 st2 H12 Hst1; eapply kept_begin_restore; [exact H12|]; try case_bool_decide; exact Hst1.
Qed.

Lemma remove_fine order c : wellformed c -> fine (remove_dir_all root order) c.
Proof.
  intros Hc. assert (forall e c, wellformed c -> wellformed (remove_entry root e c)) as Hone.
  { intros e c' [Hb Hs]. destruct e; split; cbn; try done.
    intros key d n st [Hk _]%map_lookup_filter_Some Hn. exact (Hb key d n st Hk Hn). }
  assert (forall l c, wellformed c -> wellformed (foldr (remove_entry root) c l)) as Hall by (induction l; cbn; auto).
  unfold remove_dir_all. eapply (kwp_keeps wellformed); [|done|done].
  neutral; intros Hw; [by apply Hone|by apply Hall].
Qed.

Lemma uninstall_fine e order remove id c : wellformed c -> fine (uninstall Url_parse root e order remove id) c.
Proof.
  intros Hc. apply cwp_bind. eapply cwp_mono; [apply fine_lock; [done|]| |done..].
  2: { intros [] c' Hc'; [by apply remove_fine|by apply cwp_ret]. }
  clear c Hc. intros c Hc. idle. unfold validate_removal_root, remove_with_volumes, project_stop. steady.
  intros (? & ? & ?). cbn. by destruct (is_bundled _).
Qed.

(** ** The install *)

(** The checkpoints before the image of the proxy is resolved. *)
Lemma typed_checkpoint next st st' :
  checkpoint_lt next ImagesResolved = true -> checkpoint next st = Ok st' -> typed st -> typed st'.
Proof.
  intros Hnext H [Hst|(Hv & Hp & Hl & op & Hop & Hk & Hlt)]; [left; by eapply kept_checkpoint|right].
  unfold checkpoint in H. rewrite Hop in H. cbn in H. case_match; [done|]. injection H as <-.
  split_and!; try done. by eexists.
Qed.

(** The image of the proxy is resolved. *)
Lemma typed_resolved st v t :
  typed st -> current st = Some v -> validate_digest_image (digest t) = Ok tt ->
  settled (set_version (Some {| config := config v; traefik := t |}) (previous_good st) st).
Proof.
  intros Hst Hcur Ht. pose proof (typed_valid _ Hst) as Hv. destruct (validate_current _ _ Hv) as (_ & _ & Hc & Hp).
  destruct (Hc v Hcur). split_and!; [by apply validate_version|by intros ? [= <-]|].
  cbn. destruct Hst as [(_ & _ & ?)|(_ & -> & _)]; done.
Qed.

Lemma typed_wellformed c : during typed c -> wellformed c.
Proof. by apply during_wellformed. Qed.

Abbreviation begun := (framed (keeps (during typed))).

Lemma begun_save : begun save.
Proof.
  intros w (Hb & Hm & Hs). assert (kwp save (fun _ => during typed) (during typed) (during typed) (core w)) as H.
  { apply kwp_save. intros t st. assert (typed st) by exact Hm.
    split_and!; (split_and!; [done..|]); cbn; try done; by intros ? [= <-]. }
  specialize (H w eq_refl). by destruct (save w) as [w' [a|e| |]].
Qed.

Lemma begun_advance next : checkpoint_lt next ImagesResolved = true -> begun (advance_checkpoint next).
Proof.
  intros Hnext. unfold advance_checkpoint. neutral; [|apply begun_save].
  intros w (Hb & Hm & Hs). unfold on_state, get_state, get_core, lift, set_state, mbind, method_bind. cbn.
  destruct (checkpoint next (mem (core w))) as [st|e| |] eqn:Hst; [|done..]. split_and!; [done|by eapply typed_checkpoint|done].
Qed.

Lemma fine_begun {A B} (m : M A) (k : A -> M B) c :
  begun m -> during typed c -> (forall a c, during typed c -> fine (k a) c) -> fine (m ≫= k) c.
Proof.
  intros Hm Hc Hk. apply cwp_bind, (kwp_keeps (during typed)); [done..|]. intros c' Hc'.
  pose proof (typed_wellformed _ Hc'). auto.
Qed.

Lemma install_images_fine x c :
  during typed c -> kwp (install_images x) (fun _ => during settled) wellformed wellformed c.
Proof.
  intros Hc. pose proof (typed_wellformed _ Hc). unfold install_images. apply cwp_bind, kwp_get_state, cwp_bind, cwp_lift; auto.
  intros v Hv%ok_or_ok_inv. apply cwp_bind.
  eapply cwp_mono with (Q := fun t c' => c' = c /\ validate_digest_image (digest t) = Ok tt); [| |done..].
  { case_bool_decide as Hd; pass; [by apply resolve_traefik_latest_spec|]. apply cwp_ret. split; [done|].
    pose proof (typed_valid _ (proj1 (proj2 Hc))) as Hvalid. unfold validate in Hvalid. rewrite Hv in Hvalid. res_inv.
    rewrite bool_decide_eq_false_2 in * by done. by repeat match goal with u : () |- _ => destruct u end. }
  intros t c' [-> Ht]. apply cwp_bind, kwp_on_state; auto. rewrite Hv. intros st [= <-].
  pose proof (typed_resolved _ _ _ (proj1 (proj2 Hc)) Hv Ht) as Hset.
  apply cwp_bind, kwp_save. intros now st. assert (settled st) by exact Hset.
  assert (during settled (set_state_json (Some st) (set_mem st c))) by (split_and!; [apply Hc|done|by intros ? [= <-]]).
  pose proof (settled_wellformed _ H1). split_and!; try done. by apply cwp_ret.
Qed.

(** The randomness from which an identifier is made. *)
Definition drawn (rng : Entropy) : Prop := length (id_bytes rng) = 16%nat /\ bytes_ok (id_bytes rng).

Lemma new_install_unresolved rng now x :
  drawn rng -> installation_root x = root -> validate_images (images x) = Ok tt -> unresolved (new_install rng now x).
Proof.
  intros [Hl Hb] Hr Hi. destruct (random_hex_spec _ Hb) as [Hlen Hhex]. destruct (hex_text _ Hhex) as [Hstr Hall].
  split_and!; [|done|done|by eexists]. unfold validate, new_install, with_pending_config, set_version.
  cbn [schema_version installation_id current previous_good config traefik digest].
  rewrite Hstr, Hlen, Hall, Hr, Hi. unfold len. rewrite Hl.
  by rewrite (bool_decide_eq_true_2 (root = root)).
Qed.

Lemma begin_install_fine rng x input c :
  drawn rng -> installation_root x = root -> validate_images (images x) = Ok tt ->
  wellformed c -> state_json c = None ->
  kwp (begin_install Url_parse rng x input) (fun _ => during typed) wellformed wellformed c.
Proof.
  intros Hrng Hr Hi Hc Hnone. unfold begin_install. pass. apply cwp_bind, kwp_now_unix. intros now.
  apply cwp_bind, kwp_set_state. pose proof (new_install_unresolved rng now x Hrng Hr Hi) as Hst.
  assert (during typed (set_mem (new_install rng now x) c)) as Hd
    by (split_and!; [apply Hc|by right|cbn; by rewrite Hnone]).
  eapply kwp_keeps; [|exact Hd|intros c' Hc'; pose proof (typed_wellformed _ Hc'); auto].
  pose proof begun_save. steady.
Qed.

Lemma resume_install_fine x c :
  wellformed c -> kwp (resume_install Url_parse root x) (fun _ => during typed) wellformed wellformed c.
Proof.
  intros Hc. unfold resume_install, load. apply cwp_bind, cwp_bind, kwp_read_file; auto. intros st Hst.
  apply cwp_bind, cwp_lift; auto. intros [] _. apply kwp_set_state.
  assert (during typed (set_mem st c)) as Hd
    by (split_and!; [apply Hc|by apply Hc|cbn; rewrite Hst; intros ? [= <-]; by apply Hc]).
  apply kwp_unchanged; [neutral|done|by apply typed_wellformed..].
Qed.

Lemma install_fine rng request b c :
  drawn rng -> wellformed c -> fine (install Url_parse sha256_of length_of root rng request b) c.
Proof.
  intros Hrng Hc. unfold install. apply fine_unchanged; [neutral|done|]. intros _. apply fine_lock; [done|].
  clear c Hc. intros c Hc. unfold load_request. apply cwp_bind. pass. pass. apply cwp_lift; auto.
  intros [x input] [Hr Hi]%validate_and_split_inv. pass. apply cwp_bind, kwp_get_core, cwp_bind.
  eapply cwp_mono with (Q := fun _ => during typed); [| |done..].
  { case_bool_decide as Hsome; [by apply resume_install_fine|].
    apply begin_install_fine; auto. by apply eq_None_not_Some in Hsome. }
  clear c Hc. intros [y s] c Hc.
  do 8 (apply fine_begun; [first [by apply begun_advance|by steady]|done|]; clear c Hc; intros ? c Hc).
  apply cwp_bind. eapply cwp_mono; [by apply install_images_fine| |done..].
  intros t c' Hc'. apply fine_steady; [steady|done].
Qed.

Lemma quickstart_fine rng request c :
  drawn rng -> wellformed c -> fine (quickstart Url_parse sha256_of length_of root rng request) c.
Proof.
  intros Hrng Hc. unfold quickstart. pass. apply cwp_bind, kwp_unchanged; [neutral| |done..]. intros [x _].
  apply cwp_bind, kwp_get_core, cwp_bind. eapply cwp_mono with (Q := fun _ => wellformed); [| |done..].
  { case_bool_decide; [|by apply cwp_ret]. unfold load. apply cwp_bind, cwp_bind, kwp_read_file; auto. intros st Hst. pass.
    by apply kwp_set_state, cwp_bind, kwp_get_state, cwp_ret. }
  clear c Hc. intros st c Hc. apply cwp_bind, cwp_lift; auto. intros [] _; [by apply install_fine|by apply start_fine].
Qed.

Lemma perform_fine h command c :
  drawn (entropy h) -> wellformed c -> fine (perform Url_parse sha256_of length_of root h command) c.
Proof.
  intros Hrng Hc. destruct command; cbn [perform].
  - by apply quickstart_fine.
  - by apply install_fine.
  - by apply start_fine.
  - by apply stop_fine.
  - apply cwp_bind. eapply cwp_mono; [by apply status_fine| |done..]. intros. by apply cwp_ret.
  - by apply update_fine.
  - by apply backup_command_fine.
  - by apply restore_fine.
  - by apply diagnostics_fine.
  - by apply uninstall_fine.
  - by apply cwp_ret.
Qed.

(** ** Histories *)

(** A command with an identifier drawn in full, a lock removed, or a database restored by hand. *)
Inductive drawn_step : Core -> Core -> Prop :=
  | drawn_command h command i c : drawn (entropy h) ->
      drawn_step c (core (perform Url_parse sha256_of length_of root h command (after c i)).1)
  | drawn_unlock c : drawn_step c (set_locked false c)
  | drawn_database c s : drawn_step c (set_schema s c).

Lemma drawn_step_wellformed c c' : drawn_step c c' -> wellformed c -> wellformed c'.
Proof.
  intros [h command i c0 Hrng| |] Hc; [|done..]. pose proof (perform_fine h command c0 Hrng Hc (after c0 i) eq_refl) as H.
  by destruct (perform _ _ _ _ _ _ _) as [w [a|e| |]].
Qed.

(** C15. The launcher accepts every journal that it has written. Start from a machine with no
    installation and run any commands, each step of which may succeed, fail or be the last
    one of its process. The journal on disk, and the journal in every backup, then passes
    the validation that every command does first; and where the launcher finds no operation
    in progress, the journal names a proxy image by a valid digest. *)
Theorem written_journal_loads c0 c :
  state_json c0 = None -> backups c0 = ∅ -> rtc drawn_step c0 c ->
  (forall st, state_json c = Some st ->
     validate st root = Ok tt /\
     (operation st = None -> forall v, current st = Some v -> validate_digest_image (digest (traefik v)) = Ok tt)) /\
  (forall key d n st, backups c !! key = Some d -> files d !! n = Some (StateFile st) -> validate st root = Ok tt).
Proof.
  intros Hnone Hempty Hsteps. assert (wellformed c0) as H0.
  { split; [|by rewrite Hnone]. intros key d n st. by rewrite Hempty, lookup_empty. }
  assert (wellformed c) as [Hb Hs].
  { clear Hnone Hempty. induction Hsteps as [|x y z Hxy _ IH]; [done|]. by eapply IH, drawn_step_wellformed. }
  split; [|intros key d n st Hk Hn; by apply (Hb key d n st Hk Hn)].
  intros st Hst. split; [by apply typed_valid, Hs|]. intros Ho. by apply (typed_idle st (Hs st Hst) (or_introl Ho)).
Qed.
End types.

(** The history of the sample installation, whose launcher draws its identifier in full. *)
Lemma drawn_run command l c :
  drawn_step Sample.no_url Sample.hash Sample.size Sample.root c (Sample.run command l c).
Proof. apply drawn_command. split; [done|]. by apply Forall_replicate. Qed.

Lemma restored_drawn :
  rtc (drawn_step Sample.no_url Sample.hash Sample.size Sample.root) Sample.fresh History.restored.
Proof.
  refine (rtc_l _ _ _ _ (drawn_run (Cli.Install [49] None) [] _) _).
  refine (rtc_l _ _ _ _ (drawn_run (Cli.Update [50] None) _ _) _).
  refine (rtc_l _ _ _ _ (drawn_unlock _ _ _ _ _) _).
  refine (rtc_l _ _ _ _ (drawn_run (Cli.Update [50] None) [] _) _).
  exact (rtc_once _ _ (drawn_run _ _ _)).
Qed.

Lemma written_journal_loads_witness :
  exists st, state_json History.restored = Some st /\ validate st Sample.root = Ok tt.
Proof.
  destruct (state_json History.restored) as [st|] eqn:Hst.
  - exists st. split; [done|].
    refine (proj1 (proj1 (written_journal_loads Sample.no_url Sample.hash Sample.size Sample.root Sample.fresh
      History.restored eq_refl eq_refl restored_drawn) st Hst)).
  - exfalso. assert (bool_decide (state_json History.restored = None) = false) as Hf by (vm_compute; reflexivity).
    rewrite Hst in Hf. discriminate Hf.
Defined.
