(* ===== verification/ApplianceData.v ===== *)
(** From the command line to the disk: what no command takes away from an installation, and
    what an operator has to write to have it removed. *)

From S2P Require Import Prelude Bytes Text ApplianceConfig ApplianceEnvironment ApplianceCli Appliance ApplianceLogic ApplianceSafety ApplianceRecovery ApplianceResume.

Import Config Journal Launcher.

Local Open Scope Z_scope.

Section data.
Context (Url_parse : text -> option Url) (sha256_of : Content -> text) (length_of : Content -> Z) (root : text).

(** ** What lasts *)

(** The journal, the configuration, the secrets and the complete backups of [c0]. *)
Definition preserved (c0 c : Core) : Prop :=
  (is_Some (state_json c0) -> is_Some (state_json c)) /\
  (is_Some (config_json c0) -> is_Some (config_json c)) /\
  (is_Some (secrets_json c0) -> is_Some (secrets_json c)) /\
  (forall key d, backups c0 !! key = Some d -> is_Some (manifest d) -> backups c !! key = Some d).

Context (c0 : Core).
Abbreviation lasting := (framed (keeps (preserved c0))).

(** No complete backup of [c0] is at [key]. *)
Definition open_place (key : text * text) : Prop := forall d, backups c0 !! key = Some d -> ~ is_Some (manifest d).

Lemma preserved_backups b c :
  (forall key d, backups c0 !! key = Some d -> is_Some (manifest d) -> backups c !! key = Some d -> b !! key = Some d) ->
  preserved c0 c -> preserved c0 (set_backups b c).
Proof. intros Hb (? & ? & ? & H). split_and!; auto. Qed.

Lemma preserved_alter key f c :
  open_place key -> preserved c0 c -> preserved c0 (set_backups (alter f key (backups c)) c).
Proof.
  intros Hkey. apply preserved_backups. intros k d Hd Hm Hk. destruct (decide (k = key)) as [->|].
  - by destruct (Hkey d Hd).
  - by rewrite lookup_alter_ne.
Qed.

Lemma preserved_rename x y c :
  open_place x -> preserved c0 c -> preserved c0 (set_backups (rename_directory x y (backups c)) c).
Proof.
  intros Hx. apply preserved_backups. intros k d Hd Hm Hk. unfold rename_directory.
  destruct (backups c !! x) as [e|] eqn:He; [|done].
  assert (k <> x) as Hkx by (intros ->; by destruct (Hx d Hd)).
  assert (k <> y -> <[y := e]> (delete x (backups c)) !! k = Some d)
    by (intros; by rewrite lookup_insert_ne, lookup_delete_ne).
  destruct (backups c !! y) as [e'|] eqn:He'; [|apply H; congruence].
  destruct (_ && _) eqn:Hempty; [|done]. apply H. intros ->. rewrite He' in Hk. injection Hk as ->.
  destruct (manifest d); [by rewrite andb_false_r in Hempty|by destruct Hm].
Qed.

Lemma lasting_add_file key n x : open_place key -> lasting (add_file key n x).
Proof. intros Hkey. apply framed_effect; [apply _|]. intros c Hc. by apply preserved_alter. Qed.

Lemma lasting_backup_contents key b c i : open_place key -> lasting (backup_contents sha256_of length_of key b c i).
Proof.
  intros Hkey. pose proof (lasting_add_file key). pose proof (unchanged_file_records sha256_of length_of).
  unfold backup_contents, copy_file, backup_database, backup_edge, stop_traefik, restart_traefik. neutral; auto.
Qed.

Lemma lasting_create_backup n b x i : lasting (create_backup sha256_of length_of n b x i).
Proof.
  intros w Hw. cut (kwp (create_backup sha256_of length_of n b x i) (fun _ => preserved c0) (preserved c0) (preserved c0) (core w)).
  { intros H. specialize (H w eq_refl). by destruct (create_backup _ _ _ _ _ _ w) as [w' [a|e| |]]. }
  revert Hw. generalize (core w). intros c Hc. unfold create_backup. apply cwp_bind, kwp_now_unix. intros now.
  apply cwp_bind, cwp_lift; auto. intros _ _. apply cwp_bind, kwp_unchanged; [neutral|intros _|done..].
  apply cwp_bind, kwp_get_core, cwp_bind, cwp_lift; auto. intros u Hu%bail_if_ok.
  rewrite bool_decide_eq_false, <- eq_None_not_Some in Hu. set (key := (backup_directory x, _)) in *.
  assert (open_place key) as Hkey by (intros d Hd Hm; destruct Hc as (_ & _ & _ & H); discriminate (eq_trans (eq_sym (H _ _ Hd Hm)) Hu)).
  eapply kwp_keeps; [|exact Hc|auto]. unfold ignore. pose proof (lasting_backup_contents key b x i Hkey).
  neutral; intros Hc'; [|by apply preserved_alter|by apply preserved_rename].
  apply preserved_backups; [|done]. intros k d Hd Hm Hk. rewrite lookup_insert_ne; [done|]. intros <-. by destruct (Hkey d Hd).
Qed.
#[local] Hint Resolve lasting_create_backup : neutral.

(** Go through an operation whose own steps write journal, configuration and secrets, and
    leave the backups alone. *)
Ltac lasting := neutral; try (intros (? & ? & ? & ?); by split_and!).

Lemma lasting_set_state st : lasting (set_state st).
Proof. intros w Hw. exact Hw. Qed.

Lemma lasting_lock {A} (m : M A) : lasting m -> lasting (with_lock m).
Proof. intros Hm. unfold with_lock, ignore. lasting. Qed.
#[local] Hint Resolve lasting_set_state : neutral.

Lemma lasting_on_state f : lasting (on_state f).
Proof. unfold on_state. lasting. Qed.

Lemma lasting_save : lasting save.
Proof. unfold save. lasting. Qed.
#[local] Hint Resolve lasting_on_state lasting_save : neutral.

Lemma lasting_advance next : lasting (advance_checkpoint next).
Proof. unfold advance_checkpoint. lasting. Qed.

Lemma lasting_persist x s : lasting (persist_active_configuration x s).
Proof. unfold persist_active_configuration. lasting. Qed.

Lemma lasting_environment x s t : lasting (materialize_environment Url_parse root x s t).
Proof. unfold materialize_environment. lasting. Qed.

Lemma lasting_migrate : lasting database_migrate.
Proof. unfold database_migrate, compose_env. lasting. Qed.

Lemma lasting_start_and_verify x : lasting (start_and_verify x).
Proof. unfold start_and_verify, up_all, compose_env, collect_service_status. lasting. Qed.

Lemma lasting_load_installation : lasting (load_installation Url_parse root).
Proof. unfold load_installation, load. lasting. Qed.
#[local] Hint Resolve lasting_advance lasting_persist lasting_environment lasting_migrate lasting_start_and_verify
  lasting_load_installation : neutral.

Lemma lasting_or_restore_required m : lasting m -> lasting (or_restore_required m).
Proof. intros Hm. unfold or_restore_required. lasting. Qed.
#[local] Hint Resolve lasting_or_restore_required : neutral.

Lemma lasting_install rng r b : lasting (install Url_parse sha256_of length_of root rng r b).
Proof.
  unfold install. lasting. apply lasting_lock.
  unfold resume_install, load, begin_install, install_images, install_backup, ensure_local_certificate. lasting.
Qed.

Lemma lasting_start : lasting (start Url_parse root).
Proof. apply lasting_lock. lasting. Qed.

Lemma lasting_stop : lasting (stop Url_parse root).
Proof. apply lasting_lock. unfold project_stop. lasting. Qed.

Lemma lasting_status : lasting (_ ← status Url_parse root; mret tt).
Proof. unfold status, collect_service_status. lasting. Qed.

Lemma lasting_diagnostics : lasting (diagnostics_command Url_parse root).
Proof. unfold diagnostics_command. lasting. Qed.

Lemma lasting_update rng r b : lasting (update Url_parse sha256_of length_of root rng r b).
Proof.
  apply lasting_lock. unfold update_candidate, recover_interrupted_update, recover_failed_update, restart_previous, update_steps,
    persist_rollback_snapshot, stop_application_services, ignore. lasting.
Qed.

Lemma lasting_restore_steps key m x : lasting (restore_steps key m x).
Proof. unfold restore_steps, restore_postgres_dump, restart_traefik. lasting. Qed.
#[local] Hint Resolve lasting_restore_steps : neutral.

Lemma lasting_restore n id e : lasting (restore Url_parse sha256_of length_of root n id e).
Proof.
  apply lasting_lock. unfold restore_source, save_recovery_copy, restore_local_certificate_if_present,
    stop_application_services. lasting.
Qed.

Lemma lasting_backup_command n b : lasting (backup_command Url_parse sha256_of length_of root n b).
Proof. apply lasting_lock. unfold run_with_guaranteed_cleanup, stop_database. lasting. Qed.

Lemma lasting_quickstart rng r : lasting (quickstart Url_parse sha256_of length_of root rng r).
Proof. unfold quickstart, load. pose proof lasting_install. pose proof lasting_start. lasting. Qed.

(** Removal asks for the identifier of the installation on disk. *)
Definition confirmed (remove : bool) (id : option text) : Prop :=
  remove = true /\ exists st, state_json c0 = Some st /\ id = Some (installation_id st).

Lemma uninstall_confirmed e order remove id :
  let P := fun c => preserved c0 c \/ confirmed remove id in
  kwp (uninstall Url_parse root e order remove id) (fun _ => P) P P c0.
Proof.
  intros P. assert (preserved c0 c0) as H0 by (by split_and!).
  apply cwp_bind. eapply cwp_mono.
  - apply (kwp_with_lock_post _ (fun r c => preserved c0 c /\ (r = true -> confirmed remove id)) (preserved c0));
      [by intros|by intros|by intros ? ? []|done|].
    assert (preserved c0 (set_locked true c0)) as Hc by done.
    apply cwp_bind, kwp_load_installation; [done..|]. intros st v s (Hst & _) _ _.
    apply cwp_bind, kwp_get_state, cwp_bind, cwp_lift; [|done..]. intros _ _.
    apply cwp_bind, kwp_unchanged; [neutral|intros _|done..]. cbn [mem set_mem]. destruct remove.
    + apply cwp_bind, cwp_lift; [|done..]. intros u Hid%bail_if_ok. rewrite negb_false_iff, bool_decide_eq_true in Hid.
      eapply (kwp_keeps (preserved c0)); [|done|].
      * unfold validate_removal_root, remove_with_volumes. lasting. intros (? & ? & ? & ?). split_and!; by destruct (is_bundled _).
      * intros c Hp. split_and!; [|done..]. intros a. split; [done|]. intros _. split; [done|]. by exists st.
    + assert (preserved c0 (set_mem st (set_locked true c0))) as Hm by done. revert Hm.
      generalize (set_mem st (set_locked true c0)). unfold project_stop. intros c1 H1.
      do 3 (apply cwp_bind, (kwp_keeps (preserved c0)); [by lasting|done|]; clear c1 H1; intros c1 H1; split_and!;
            [intros _|done..]).
      by apply cwp_ret.
  - intros [] c [Hp Hconf].
    + eapply (kwp_keeps (fun _ => True)); [by intros w _|done|]. intros c' _. unfold P. auto.
    + apply cwp_ret. by left.
  - by left.
  - by left.
Qed.
End data.

(** ** The command line *)

(** The arguments hold a flag, or an option with a value. *)
Definition has_flag (flag : text) (arguments : list OsString) : Prop :=
  exists a, a ∈ arguments /\ from_utf8 a = Some flag.
Definition has_option (option value : text) (arguments : list OsString) : Prop :=
  exists before a v behind, arguments = before ++ a :: v :: behind /\ from_utf8 a = Some option /\ from_utf8 v = Some value.

Lemma has_flag_app flag l l' : has_flag flag l' -> has_flag flag (l ++ l').
Proof. intros (a & ? & ?). exists a. split; [set_solver|done]. Qed.

Lemma has_option_app o v l l' : has_option o v l' -> has_option o v (l ++ l').
Proof. intros (x & a & b & y & -> & ? & ?). exists (l ++ x), a, b, y. by rewrite <- app_assoc. Qed.

Lemma set_once_string_inv o v o' : Cli.set_once_string o v = Ok o' -> o' = from_utf8 v.
Proof. unfold Cli.set_once_string. destruct (from_utf8 v); [|done]. destruct o; [done|]. by intros [= <-]. Qed.

Lemma confirm_visitor_inv flag key value s s' :
  Cli.confirm_visitor flag key value s = Ok s' ->
  (exists v, key = str "--confirm" /\ value = Some v /\ s'.1 = from_utf8 v /\ s'.2 = s.2) \/
  (key = flag /\ s'.1 = s.1 /\ s'.2 = true).
Proof.
  unfold Cli.confirm_visitor. case_bool_decide.
  - intros Hv. res_inv. left. simplify_eq. cbn. repeat match goal with H : _ = Ok _ |- _ =>
      first [apply ok_or_ok_inv in H | apply set_once_string_inv in H] end. eauto.
  - case_bool_decide; [|done]. intros Hv. res_inv. right. simplify_eq. done.
Qed.

(** What the options say, the arguments hold. *)
Lemma confirm_options flag arguments s c r :
  Cli.parse_options (Cli.confirm_visitor flag) arguments s = Ok (c, r) ->
  (r = true -> s.2 = true \/ has_flag flag arguments) /\
  (forall id, c = Some id -> s.1 = Some id \/ has_option (str "--confirm") id arguments).
Proof.
  revert s. induction (well_founded_ltof _ (@length OsString) arguments) as [[|a rest] _ IH]; intros s H; cbn [Cli.parse_options] in H.
  { injection H as ->. cbn. auto. }
  res_inv. match goal with H : from_utf8 a = Some ?x |- _ => rename x into key; rename H into Hkey end.
  destruct (Cli.takes_no_value key).
  - res_inv. match goal with H : Cli.parse_options _ _ ?x = _ |- _ => rename x into s1; destruct (IH rest ltac:(unfold ltof; cbn; lia) _ H) as [Hr Hc] end.
    match goal with H : _ = Ok s1 |- _ => apply confirm_visitor_inv in H as [(v & _ & [=] & _)|(-> & H1 & H2)] end.
    split.
    + intros _. right. exists a. split; [left|done].
    + intros id Hid. destruct (Hc id Hid); [left; congruence|right; by apply (has_option_app _ _ [a])].
  - destruct rest as [|v rest]; [done|]. res_inv. match goal with H : Cli.parse_options _ _ ?x = _ |- _ => rename x into s1; destruct (IH rest ltac:(unfold ltof; cbn; lia) _ H) as [Hr Hc] end.
    match goal with H : _ = Ok s1 |- _ => apply confirm_visitor_inv in H as [(v' & -> & [= <-] & H1 & H2)|(-> & H1 & H2)] end.
    + split.
      * intros Ht. destruct (Hr Ht); [left; congruence|right; by apply (has_flag_app _ [a; v])].
      * intros id Hid. right. destruct (Hc id Hid) as [H3|H3]; [|by apply (has_option_app _ _ [a; v])].
        exists [], a, v, rest. split_and!; [done..|congruence].
    + split.
      * intros _. right. exists a. split; [left|done].
      * intros id Hid. destruct (Hc id Hid); [left; congruence|right; by apply (has_option_app _ _ [a; v])].
Qed.

Lemma parse_globals_rest arguments dir docker dir' docker' n rest :
  Cli.parse_globals arguments dir docker = Ok (dir', docker', n, rest) -> exists before, arguments = before ++ rest.
Proof.
  revert dir docker.
  induction (well_founded_ltof _ (@length OsString) arguments) as [[|a l] _ IH]; intros dir docker H; cbn [Cli.parse_globals] in H.
  { injection H as <- <- <- <-. by exists []. }
  res_inv. repeat case_bool_decide; cbn [orb] in *.
  all: try (simplify_eq; by exists [a]).
  all: try (destruct l as [|v l]; [done|]; res_inv;
    match goal with H : Cli.parse_globals _ _ _ = _ |- _ => destruct (IH l ltac:(unfold ltof; cbn; lia) _ _ H) as [before ->] end; by exists (a :: v :: before)).
  case_match; simplify_eq. by exists [a].
Qed.

Lemma parse_command_removal n arguments id :
  Cli.parse_command n arguments = Ok (Cli.Uninstall true id) ->
  has_flag (str "--remove-data") arguments /\ exists x, id = Some x /\ has_option (str "--confirm") x arguments.
Proof.
  unfold Cli.parse_command. intros H. repeat case_bool_decide; [..|done].
  all: repeat (res_inv; match goal with p : (_ * _)%type |- _ => destruct p end); res_inv; simplify_eq.
  match goal with H : Cli.parse_options _ _ _ = _ |- _ => apply confirm_options in H as [Hr Hc] end.
  destruct (Hr eq_refl) as [[=]|Hflag]. split; [done|]. destruct id as [named|]; [|done].
  exists named. split; [done|]. by destruct (Hc named eq_refl) as [[=]|].
Qed.

Lemma parse_removal default_root arguments cli id :
  Cli.parse default_root arguments = Ok cli -> Cli.command cli = Cli.Uninstall true id ->
  has_flag (str "--remove-data") arguments /\ exists x, id = Some x /\ has_option (str "--confirm") x arguments.
Proof.
  unfold Cli.parse. intros H Hc. res_inv. destruct x as [[[dir docker] n] rest]. res_inv. cbn in Hc. subst.
  match goal with H : Cli.parse_globals _ _ _ = _ |- _ => apply parse_globals_rest in H as [before ->] end.
  match goal with H : Cli.parse_command _ _ = _ |- _ => apply parse_command_removal in H as [Hf (named & -> & Ho)] end.
  split; [by apply has_flag_app|]. exists named. split; [done|by apply has_option_app].
Qed.

Section survives.
Context (Url_parse : text -> option Url) (sha256_of : Content -> text) (length_of : Content -> Z) (root : text).

(** Every command but a confirmed removal. *)
Lemma perform_preserves h command c0 :
  let P := fun c => preserved c0 c \/ exists st id, state_json c0 = Some st /\ id = Some (installation_id st) /\
                    command = Cli.Uninstall true id in
  kwp (perform Url_parse sha256_of length_of root h command) (fun _ => P) P P c0.
Proof.
  intros P. assert (preserved c0 c0) as H0 by (by split_and!).
  assert (forall {A} (m : M A), framed (keeps (preserved c0)) m -> kwp m (fun _ => P) P P c0) as Hlast.
  { intros A m Hm. eapply kwp_keeps; [exact Hm|exact H0|]. intros c Hc. unfold P. auto. }
  destruct command; cbn [perform].
  - apply Hlast, lasting_quickstart.
  - apply Hlast, lasting_install.
  - apply Hlast, lasting_start.
  - apply Hlast, lasting_stop.
  - apply Hlast, lasting_status.
  - apply Hlast, lasting_update.
  - apply Hlast, lasting_backup_command.
  - apply Hlast, lasting_restore.
  - apply Hlast, lasting_diagnostics.
  - assert (forall c, preserved c0 c \/ confirmed c0 remove_data confirmation -> P c) as HP.
    { intros c [|(-> & st & Hst & ->)]; [by left|]. right. by exists st, (Some (installation_id st)). }
    eapply cwp_mono; [apply uninstall_confirmed|..]; cbn beta; auto.
  - apply Hlast. neutral.
Qed.

(** C9. No command line takes the journal, the configuration, the secrets or a complete backup
    away from an installation, whichever of its steps fail and wherever its process ends,
    unless it contains the flag [--remove-data] and the option [--confirm] with the
    identifier of this installation.  Backups that are complete stay as they were, file
    by file. *)
Theorem data_survives default_root arguments cli h i c :
  Cli.parse default_root arguments = Ok cli ->
  preserved c (core (perform Url_parse sha256_of length_of root h (Cli.command cli) (after c i)).1) \/
  exists st, state_json c = Some st /\ has_flag (str "--remove-data") arguments /\
    has_option (str "--confirm") (installation_id st) arguments.
Proof.
  intros Hparse. pose proof (perform_preserves h (Cli.command cli) c (after c i) eq_refl) as H.
  destruct (perform _ _ _ _ _ _ _) as [w [a|e| |]]; destruct H as [H|(st & id & Hst & -> & Hc)]; auto; right.
  all: destruct (parse_removal _ _ _ _ Hparse Hc) as [Hf (x & [= <-] & Ho)]; by exists st.
Qed.
End survives.

(** The sample installation, with the command line that removes it and one that does not. *)
Module Removal.
Import Sample.
Definition id : text := random_hex (id_bytes random).
Definition spoken (id : text) : list OsString :=
  map utf8 [str "--state-dir"; root; str "uninstall"; str "--remove-data"; str "--confirm"; id].
Definition default_root : res anyhow OsString := Ok (utf8 root).
Definition asked (id : text) : Cli.Cli :=
  {| Cli.state_dir := utf8 root; Cli.docker_path := None; Cli.command := Cli.Uninstall true (Some id) |}.

Lemma spoken_parses : Cli.parse default_root (spoken id) = Ok (asked id).
Proof. vm_compute. reflexivity. Qed.

Lemma removed : state_json (run (Cli.command (asked id)) [] installed) = None.
Proof. vm_compute. reflexivity. Qed.
End Removal.

Lemma data_survives_witness :
  state_json (Sample.run (Cli.command (Removal.asked Removal.id)) [] Sample.installed) = None /\
  (preserved Sample.installed (Sample.run (Cli.command (Removal.asked Removal.id)) [] Sample.installed) \/
   exists st, state_json Sample.installed = Some st /\ has_flag (str "--remove-data") (Removal.spoken Removal.id) /\
     has_option (str "--confirm") (installation_id st) (Removal.spoken Removal.id)).
Proof.
  split; [exact Removal.removed|].
  exact (data_survives Sample.no_url Sample.hash Sample.size Sample.root Removal.default_root (Removal.spoken Removal.id)
    (Removal.asked Removal.id) Sample.host (Sample.given []) Sample.installed Removal.spoken_parses).
Defined.
