(* ===== verification/ApplianceRedact.v ===== *)
(** The redaction of printed output (apps/talos_appliance/src/redaction.rs): which secrets
    cannot survive it, and which can. *)

From S2P Require Import Prelude Bytes Text ApplianceConfig ApplianceTypes.

Import Config.

Local Open Scope Z_scope.

(** ** Strings *)

Definition to_ascii_uppercase (t : text) : text := map (fun c => if within 97 122 c then c - 32 else c) t.

(** [t.replace(from, to)] for a pattern that is not empty; [skip] characters belong to the
    last match. *)
Fixpoint replace_from (from to : text) (skip : nat) (t : text) : text :=
  match t, skip with
  | [], _ => []
  | _ :: t', S skip => replace_from from to skip t'
  | c :: t', O =>
      if starts_with from t then to ++ replace_from from to (pred (length from)) t' else c :: replace_from from to 0 t'
  end.
Definition replace (from to t : text) : text := replace_from from to 0 t.

(** [t.lines()]: the carriage return before a line feed belongs to it. *)
Definition strip_return (line : text) : text :=
  match reverse line with c :: r => if c =? 13 then reverse r else line | [] => line end.
Fixpoint ended_lines (parts : list text) : list text :=
  match parts with
  | [] => []
  | [last] => if bool_decide (last = []) then [] else [last]
  | line :: parts => strip_return line :: ended_lines parts
  end.
Definition lines (t : text) : list text := ended_lines (split_on 10 t).

(** [lines.join(NEWLINE)] *)
Fixpoint join_lines (l : list text) : text :=
  match l with
  | [] => []
  | [line] => line
  | line :: l => line ++ [10] ++ join_lines l
  end.

(** [t.find(p)], in characters *)
Fixpoint find_char (p : Z -> bool) (t : text) : option nat :=
  match t with
  | [] => None
  | c :: t => if p c then Some 0%nat else S <$> find_char p t
  end.

Module Redaction.
Definition SENSITIVE_KEYS : list text :=
  map str ["APP_ENCRYPTION_KEY"; "DATABASE_URL"; "JWT_SECRET"; "POSTGRES_PASSWORD"; "RMM_SERVER_API_KEY";
           "TALOS_DATABASE_URL"; "TALOS_POSTGRES_PASSWORD"]%string.

(** [values.sort_by_key(|value| Reverse(value.len())); values.dedup()] *)
Fixpoint insert_value (v : text) (l : list text) : list text :=
  match l with
  | [] => [v]
  | x :: l' => if str_len x <=? str_len v then v :: l else x :: insert_value v l'
  end.
Fixpoint dedup (l : list text) : list text :=
  match l with
  | x :: ((y :: _) as l') => if bool_decide (x = y) then dedup l' else x :: dedup l'
  | _ => l
  end.
Definition ordered_values (secret_values : list text) : list text :=
  dedup (foldr insert_value [] (List.filter (fun v => 4 <=? str_len v) secret_values)).

(** The end of a sensitive assignment's name. *)
Definition separator_of (line key : text) : option nat :=
  '(before, _) ← split_once_str key (to_ascii_uppercase line);
  let behind := (length before + length key)%nat in
  offset ← find_char (one_of "=:") (drop behind line);
  Some (behind + offset)%nat.
Definition sensitive (line : text) : option nat := head (omap (separator_of line) SENSITIVE_KEYS).

Definition ends_url (c : Z) : bool := is_whitespace c || (c =? 34) || one_of "',]})" c.

(** The loop over one scheme. *)
Fixpoint redact_scheme (fuel : nat) (scheme output : text) : res anyhow text :=
  match fuel with
  | O => Fuel
  | S fuel =>
      match split_once_str scheme output with
      | None => Ok output
      | Some (before, after) =>
          let rest := drop_while (fun c => negb (ends_url c)) (scheme ++ after) in
          redact_scheme fuel scheme (before ++ str "[REDACTED_DATABASE_URL]" ++ rest)
      end
  end.
Definition schemes : list text := [str "postgresql://"; str "postgres://"].
Definition redact_database_urls (input : text) : res anyhow text :=
  foldM (fun output scheme => redact_scheme (S (length output)) scheme output) input schemes.

Definition redact_line (line : text) : res anyhow text :=
  match sensitive line with
  | Some separator => Ok (take separator line ++ str "=[REDACTED]")
  | None => redact_database_urls line
  end.
Fixpoint redact_lines (l : list text) : res anyhow (list text) :=
  match l with
  | [] => Ok []
  | line :: l => r ← redact_line line; rs ← redact_lines l; Ok (r :: rs)
  end.

Definition replace_values (input : text) (secret_values : list text) : text :=
  foldl (fun output value => replace value (str "[REDACTED]") output) input (ordered_values secret_values).

Definition redact_text (input : text) (secret_values : list text) : res anyhow text :=
  rs ← redact_lines (lines (replace_values input secret_values));
  let result := join_lines rs in
  Ok (if ends_with [10] input then result ++ [10] else result).
End Redaction.

Import Redaction.

(** ** Occurrences *)

Definition occurs (v t : text) : Prop := exists a b, t = a ++ v ++ b.

Lemma occurs_nil v : v <> [] -> ~ occurs v [].
Proof. intros Hv (a & b & H). symmetry in H. apply app_eq_nil in H as [_ H]. by apply app_eq_nil in H as [? _]. Qed.

Lemma occurs_in_app v a t b : occurs v t -> occurs v (a ++ t ++ b).
Proof. intros (x & y & ->). exists (a ++ x), (y ++ b). by rewrite <- !app_assoc. Qed.

Lemma occurs_left v a b : occurs v a -> occurs v (a ++ b).
Proof. apply (occurs_in_app v []). Qed.

Lemma occurs_right v a b : occurs v b -> occurs v (a ++ b).
Proof. intros H. rewrite <- (app_nil_r b). by apply occurs_in_app. Qed.

(** A character that is not in [v] separates. *)
Lemma occurs_gap_char v a c b : v <> [] -> c ∉ v -> occurs v (a ++ c :: b) -> occurs v a \/ occurs v b.
Proof.
  intros Hv Hc (x & y & H). apply app_eq_app in H as [k [[-> H]|[-> H]]].
  - left. apply app_eq_app in H as [k' [[-> H]|[-> H]]].
    + destruct k' as [|c' k']; [by exists x, []; rewrite !app_nil_r|]. injection H as <- _. set_solver.
    + by exists x, k'.
  - destruct k as [|c' k]; cbn in H; [|injection H as <- ->; right; by exists k, y].
    destruct v as [|d v]; [done|]. injection H as <- _. set_solver.
Qed.

Lemma occurs_gap v a s b :
  v <> [] -> s <> [] -> Forall (fun c => c ∉ v) s -> occurs v (a ++ s ++ b) -> occurs v a \/ occurs v b.
Proof.
  intros Hv Hs Hall. revert a Hs. induction Hall as [|c s Hc Hall IH]; intros a Hs H; [done|].
  apply occurs_gap_char in H as [H|H]; [by left| |done..]. destruct s as [|d s]; [by right|].
  destruct (IH [] ltac:(done) H) as [Hn|]; [by apply occurs_nil in Hn|by right].
Qed.

(** The first occurrence. *)
Lemma split_once_str_None p t : p <> [] -> split_once_str p t = None -> ~ occurs p t.
Proof.
  intros Hp. induction t as [|c t IH]; cbn [split_once_str]; intros H (a & b & Ht).
  - apply (occurs_nil p Hp). by exists a, b.
  - destruct (strip_prefix p (c :: t)) eqn:Hs; [done|]. destruct (split_once_str p t) as [[]|]; [done|].
    destruct a as [|d a]; cbn in Ht; [by rewrite Ht, strip_prefix_app in Hs|]. injection Ht as -> ->. apply IH; [done|]. by exists a, b.
Qed.

Lemma split_once_str_Some p t a b :
  p <> [] -> split_once_str p t = Some (a, b) -> t = a ++ p ++ b /\ ~ occurs p a.
Proof.
  intros Hp. revert a. induction t as [|c t IH]; cbn [split_once_str]; intros a H;
    destruct (strip_prefix p _) as [r|] eqn:Hs; simplify_eq.
  1, 2: apply strip_prefix_inv in Hs; split; [done|by apply occurs_nil].
  destruct (split_once_str p t) as [[a' b']|]; [|done]. injection H as <- <-.
  destruct (IH a' eq_refl) as [-> Ha]. split; [done|]. intros (x & y & Hx). destruct x as [|d x]; cbn in Hx.
  - change (c :: a' ++ p ++ b') with ((c :: a') ++ p ++ b') in Hs. by rewrite Hx, <- app_assoc, strip_prefix_app in Hs.
  - injection Hx as -> ->. apply Ha. by exists x, y.
Qed.

(** ** Replacing *)

Lemma replace_skip from to s t : replace_from from to (length s) (s ++ t) = replace from to t.
Proof. induction s as [|c s IH]; [by destruct t|done]. Qed.

Lemma replace_eq from to t :
  from <> [] -> replace from to t =
    match split_once_str from t with None => t | Some (a, b) => a ++ to ++ replace from to b end.
Proof.
  intros Hf. unfold replace at 1. induction t as [|c t IH]; cbn [replace_from split_once_str].
  - by destruct from.
  - unfold starts_with. destruct (strip_prefix from (c :: t)) as [r|] eqn:Hs.
    + apply strip_prefix_inv in Hs. destruct from as [|d from]; [done|]. injection Hs as -> ->. cbn [length pred app].
      by rewrite replace_skip.
    + rewrite IH. by destruct (split_once_str from t) as [[]|].
Qed.

Lemma drop_while_suffix p (t : text) : exists d, t = d ++ drop_while p t.
Proof.
  induction t as [|c t [d IH]]; [by exists []|]. cbn [drop_while]. destruct (p c); [|by exists []].
  exists (c :: d). cbn. by rewrite <- IH.
Qed.

(** [s] has no character of [v]. *)
Definition apart (v s : text) : Prop := Forall (fun c => c ∉ v) s.

Section hides.
Context (v : text) (Hv : v <> []).

Lemma occurs_join a s b : s <> [] -> apart v s -> ~ occurs v a -> ~ occurs v b -> ~ occurs v (a ++ s ++ b).
Proof. intros Hs Hap Ha Hb [H|H]%occurs_gap; done. Qed.

Lemma replace_hides from to t :
  from <> [] -> to <> [] -> apart v to -> v = from \/ ~ occurs v t -> ~ occurs v (replace from to t).
Proof.
  intros Hf Ht Hap. induction (well_founded_ltof _ (@length Z) t) as [t _ IH]. intros H.
  rewrite replace_eq by done. destruct (split_once_str from t) as [[a b]|] eqn:Hs.
  - apply split_once_str_Some in Hs as [-> Ha]; [|done]. apply occurs_join; [done..| |].
    + destruct H as [->|H]; [done|]. intros ?. by apply H, occurs_left.
    + apply IH.
      * unfold ltof. rewrite !length_app. destruct from; [done|]. cbn. lia.
      * destruct H as [->|H]; [by left|right]. intros ?. by apply H, occurs_right, occurs_right.
  - destruct H as [->|H]; [|done]. by apply split_once_str_None.
Qed.

Lemma fold_hides to l t :
  Forall (fun x => x <> []) l -> to <> [] -> apart v to -> v ∈ l \/ ~ occurs v t ->
  ~ occurs v (foldl (fun output value => replace value to output) t l).
Proof.
  intros Hl Ht Hap. revert t. induction Hl as [|x l Hx Hl IH]; intros t H; cbn [foldl].
  - destruct H as [H|H]; [by apply elem_of_nil in H|done].
  - apply IH. destruct H as [[Heq|H]%elem_of_cons|H]; [|by left|]; right; apply replace_hides; auto.
Qed.

Lemma redact_scheme_hides fuel scheme t out :
  scheme <> [] -> apart v (str "[REDACTED_DATABASE_URL]") -> redact_scheme fuel scheme t = Ok out ->
  v = scheme \/ ~ occurs v t -> ~ occurs v out.
Proof.
  intros Hs Hap. revert t. induction fuel as [|fuel IH]; intros t H Ho; cbn [redact_scheme] in H; [done|].
  destruct (split_once_str scheme t) as [[a b]|] eqn:Hsplit.
  - apply (IH _ H). destruct Ho as [->|Ho]; [by left|right]. apply split_once_str_Some in Hsplit as [-> Ha]; [|done].
    apply occurs_join; [done..| |]; intros Hx; apply Ho; [by apply occurs_left|]. apply occurs_right.
    destruct (drop_while_suffix (fun c => negb (ends_url c)) (scheme ++ b)) as [d ->]. by apply occurs_right.
  - injection H as <-. destruct Ho as [->|]; [by apply split_once_str_None|done].
Qed.

Lemma join_lines_hides l : apart v [10] -> Forall (fun line => ~ occurs v line) l -> ~ occurs v (join_lines l).
Proof.
  intros Hap. induction 1 as [|line l Hline Hl IH]; [by apply occurs_nil|]. cbn [join_lines].
  destruct l as [|line' l]; [done|]. by apply occurs_join.
Qed.
End hides.

(** ** Termination *)

(** The colons of a text: every turn of the loop removes one. *)
Definition colons (t : text) : nat := length (List.filter (Z.eqb 58) t).

Lemma colons_app a b : colons (a ++ b) = (colons a + colons b)%nat.
Proof. unfold colons. by rewrite List.filter_app, length_app. Qed.

Lemma colons_length t : (colons t <= length t)%nat.
Proof. apply List.filter_length_le. Qed.

Lemma scheme_shape scheme :
  scheme ∈ schemes -> scheme <> [] /\ colons scheme = 1%nat /\ Forall (fun c => negb (ends_url c) = true) scheme /\
  apart scheme (str "[REDACTED_DATABASE_URL]") /\ apart scheme (str "[REDACTED]") /\ apart scheme [10].
Proof.
  intros [->|[->|H%elem_of_nil]%elem_of_cons]%elem_of_cons; [..|done].
  all: split_and!; [done|done|by repeat constructor|by apply (bool_decide_unpack _)..].
Qed.

Lemma redact_scheme_total fuel scheme t :
  scheme ∈ schemes -> (colons t < fuel)%nat -> exists out, redact_scheme fuel scheme t = Ok out.
Proof.
  intros (Hne & Hc & Hends & _)%scheme_shape.
  revert t. induction fuel as [|fuel IH]; intros t Hf; [lia|]. cbn [redact_scheme].
  destruct (split_once_str scheme t) as [[a b]|] eqn:Hsplit; [|by eexists].
  apply split_once_str_Some in Hsplit as [-> _]; [|done]. apply IH. rewrite drop_while_app by done.
  destruct (drop_while_suffix (fun c => negb (ends_url c)) b) as [d Hd].
  apply (f_equal colons) in Hd. rewrite colons_app in Hd. rewrite !colons_app in Hf. rewrite !colons_app.
  change (colons (str "[REDACTED_DATABASE_URL]")) with 0%nat. lia.
Qed.

Lemma redact_database_urls_spec t :
  exists out, redact_database_urls t = Ok out /\
    (forall scheme, scheme ∈ schemes -> ~ occurs scheme out) /\
    (forall v, v <> [] -> apart v (str "[REDACTED_DATABASE_URL]") -> ~ occurs v t -> ~ occurs v out).
Proof.
  pose proof colons_length as Hcl. unfold redact_database_urls, schemes. cbn [foldM].
  destruct (redact_scheme_total (S (length t)) (str "postgresql://") t) as [t1 H1]; [by left|specialize (Hcl t); lia|].
  destruct (redact_scheme_total (S (length t1)) (str "postgres://") t1) as [t2 H2]; [by right; left|specialize (Hcl t1); lia|].
  exists t2. rewrite H1, bind_Ok, H2. split; [done|]. split.
  - intros scheme Hs. destruct (scheme_shape _ Hs) as (Hne & _ & _ & Hap & _).
    refine (redact_scheme_hides _ Hne _ _ _ _ _ Hap H2 _); [done|].
    apply elem_of_cons in Hs as [->|[->|H%elem_of_nil]%elem_of_cons]; [right|by left|done].
    by refine (redact_scheme_hides _ Hne _ _ _ _ _ Hap H1 _); [done|left].
  - intros v Hv Hap Ht. refine (redact_scheme_hides _ Hv _ _ _ _ _ Hap H2 _); [done|right].
    by refine (redact_scheme_hides _ Hv _ _ _ _ _ Hap H1 _); [done|right].
Qed.

(** ** Lines *)

Lemma occurs_refl t : occurs t t.
Proof. exists [], []. by rewrite app_nil_r. Qed.

Lemma occurs_trans u v t : occurs u v -> occurs v t -> occurs u t.
Proof. intros H (a & b & ->). by apply occurs_in_app. Qed.

Lemma split_on_occurs c t :
  Forall (fun part => occurs part t) (split_on c t) /\ exists w ws b, split_on c t = w :: ws /\ t = w ++ b.
Proof.
  induction t as [|d t [Hall (w & ws & b & Hs & ->)]]; cbn [split_on].
  - split; [|by exists [], [], []]. constructor; [apply occurs_refl|constructor].
  - rewrite Hs in *. assert (Forall (fun part => occurs part (d :: w ++ b)) (w :: ws)) as Hd
      by (eapply Forall_impl; [exact Hall|]; intros part; apply (occurs_right _ [d])).
    destruct (d =? c).
    + split; [constructor; [by exists [], (d :: w ++ b)|done]|by exists [], (w :: ws), (d :: w ++ b)].
    + split; [|by exists (d :: w), ws, b]. inversion Hd; subst. constructor; [by exists [], b|done].
Qed.

Lemma strip_return_occurs line : occurs (strip_return line) line.
Proof.
  unfold strip_return. destruct (reverse line) as [|c r] eqn:H; [apply occurs_refl|].
  assert (line = reverse r ++ [c]) as -> by (by rewrite <- (reverse_involutive line), H, reverse_cons).
  destruct (c =? 13); [apply occurs_left|]; apply occurs_refl.
Qed.

Lemma lines_occur t : Forall (fun line => occurs line t) (lines t).
Proof.
  unfold lines. destruct (split_on_occurs 10 t) as [H _]. induction H as [|part parts Hp Hps IH]; [constructor|].
  cbn [ended_lines]. destruct parts as [|p ps].
  - case_bool_decide; by repeat constructor.
  - constructor; [|done]. by eapply occurs_trans; [apply strip_return_occurs|].
Qed.

(** ** The whole text *)

Lemma insert_value_elem v x l : x ∈ insert_value v l <-> x = v \/ x ∈ l.
Proof.
  induction l as [|y l IH]; cbn [insert_value]; [by rewrite elem_of_cons|].
  case_match; rewrite !elem_of_cons; [done|]. rewrite IH. tauto.
Qed.

Lemma dedup_elem x l : x ∈ dedup l <-> x ∈ l.
Proof.
  induction l as [|y [|z l] IH]; [done..|]. cbn [dedup]. case_bool_decide as Hyz.
  - subst. rewrite IH, (elem_of_cons (z :: l)). split; [by right|]. intros [->|]; [left|done].
  - change (match l with [] => z :: l | _ => _ end) with (dedup (z :: l)). rewrite !(elem_of_cons _ _ y), IH. done.
Qed.

Lemma ordered_values_elem x l : x ∈ ordered_values l <-> x ∈ l /\ 4 <= str_len x.
Proof.
  unfold ordered_values. rewrite dedup_elem. induction l as [|v l IH]; cbn [List.filter].
  - rewrite !elem_of_nil. tauto.
  - rewrite elem_of_cons. destruct (Z.leb_spec 4 (str_len v)).
    + cbn [foldr]. rewrite insert_value_elem, IH. split; [|tauto]. intros [->|]; tauto.
    + rewrite IH. split; [tauto|]. intros [[->|] ?]; [lia|done].
Qed.

Lemma redact_line_spec line :
  exists out, redact_line line = Ok out /\
    (sensitive line = None -> forall scheme, scheme ∈ schemes -> ~ occurs scheme out) /\
    (forall v, v <> [] -> apart v (str "[REDACTED_DATABASE_URL]") -> apart v (str "=[REDACTED]") ->
       ~ occurs v line -> ~ occurs v out).
Proof.
  unfold redact_line. destruct (sensitive line) as [n|].
  - eexists. split; [done|]. split; [done|]. intros v Hv _ Hap Hline. rewrite <- (app_nil_r (str "=[REDACTED]")).
    apply occurs_join; [done..| |by apply occurs_nil]. intros H. apply Hline. rewrite <- (take_drop n line). by apply occurs_left.
  - destruct (redact_database_urls_spec line) as (out & H1 & H2 & H3). exists out. auto.
Qed.

Lemma redact_lines_spec l :
  exists rs, redact_lines l = Ok rs /\
    (Forall (fun line => sensitive line = None) l -> forall scheme, scheme ∈ schemes -> Forall (fun r => ~ occurs scheme r) rs) /\
    (forall v, v <> [] -> apart v (str "[REDACTED_DATABASE_URL]") -> apart v (str "=[REDACTED]") ->
       Forall (fun line => ~ occurs v line) l -> Forall (fun r => ~ occurs v r) rs).
Proof.
  induction l as [|line l (rs & H & IH1 & IH2)]; cbn [redact_lines]; [by exists []|].
  destruct (redact_line_spec line) as (out & H1 & H2 & H3). exists (out :: rs). rewrite H1, bind_Ok, H, bind_Ok.
  split; [done|]. split.
  - intros [? ?]%Forall_cons scheme Hs. constructor; auto.
  - intros v Hv Ha Ha' [? ?]%Forall_cons. constructor; auto.
Qed.

Lemma redact_text_spec input values :
  exists out, redact_text input values = Ok out /\
    (Forall (fun line => sensitive line = None) (lines (replace_values input values)) ->
       forall scheme, scheme ∈ schemes -> ~ occurs scheme out) /\
    (forall v, v <> [] -> apart v (str "[REDACTED_DATABASE_URL]") -> apart v (str "=[REDACTED]") -> apart v [10] ->
       ~ occurs v (replace_values input values) -> ~ occurs v out).
Proof.
  unfold redact_text. destruct (redact_lines_spec (lines (replace_values input values))) as (rs & -> & H1 & H2).
  rewrite bind_Ok. eexists. split; [done|].
  assert (forall v, v <> [] -> apart v [10] -> Forall (fun r => ~ occurs v r) rs ->
            ~ occurs v (if ends_with [10] input then join_lines rs ++ [10] else join_lines rs)) as Hjoin.
  { intros v Hv Hap Hrs. pose proof (join_lines_hides v Hv rs Hap Hrs). destruct (ends_with [10] input); [|done].
    by apply (occurs_join v Hv (join_lines rs) [10] []); [..|apply occurs_nil]. }
  split.
  - intros Hs scheme Hscheme. destruct (scheme_shape _ Hscheme) as (? & _ & _ & _ & _ & ?). apply Hjoin; auto.
  - intros v Hv Ha Ha' Hap Hout. apply Hjoin, H2; auto. eapply Forall_impl; [apply lines_occur|].
    intros line Hline Hv'. apply Hout. by eapply occurs_trans.
Qed.

(** ** Secrets *)

Definition lower_hex (v : text) : Prop := Forall (fun c => 48 <= c <= 57 \/ 97 <= c <= 102) v.

Lemma lower_hex_apart v s :
  lower_hex v -> forallb (fun c => negb (within 48 57 c || within 97 102 c)) s = true -> apart v s.
Proof.
  intros Hv Hs. apply Forall_forall. intros c Hc Hin. unfold lower_hex in Hv. rewrite Forall_forall in Hv. specialize (Hv c Hin).
  rewrite forallb_forall in Hs. specialize (Hs c). rewrite list_elem_of_In in Hc. specialize (Hs Hc). unfold within in Hs. lia.
Qed.

Lemma random_hex_lower bytes : bytes_ok bytes -> lower_hex (random_hex bytes).
Proof.
  intros Hb. unfold random_hex.
  induction Hb as [|b bytes Hb _ IH]; [constructor|]. cbn [map concat app]. unfold is_u8, u8_max in Hb.
  assert (0 <= Z.shiftr b 4 < 16) by (rewrite Z.shiftr_div_pow2 by lia; change (2 ^ 4) with 16;
    split; [apply Z.div_pos; lia|apply Z.div_lt_upper_bound; lia]).
  assert (0 <= Z.land b 15 < 16) by (change 15 with (Z.ones 4); rewrite Z.land_ones by lia; apply Z.mod_pos_bound; lia).
  constructor; [|constructor; [|exact IH]]; unfold hex_digit; case_match; lia.
Qed.

(** A value of lower-case hexadecimal digits does not survive. *)
Lemma hex_redacted input values v :
  v ∈ values -> 4 <= str_len v -> lower_hex v -> exists out, redact_text input values = Ok out /\ ~ occurs v out.
Proof.
  intros Hin Hlen Hv. assert (v <> []) as Hne by (intros ->; change (4 <= 0) in Hlen; lia).
  destruct (redact_text_spec input values) as (out & H1 & _ & H3). exists out. split; [done|].
  apply H3; [done|by apply lower_hex_apart..|]. unfold replace_values. apply fold_hides; [done| |done|by apply lower_hex_apart|].
  - apply Forall_forall. intros x [_ Hx]%ordered_values_elem ->. change (4 <= 0) in Hx. lia.
  - left. by apply ordered_values_elem.
Qed.

(** Randomness that makes secrets of at least four characters. *)
Definition secret_bytes (bytes : list Z) : Prop := bytes_ok bytes /\ 2 <= len bytes.
Definition full (rng : Entropy) : Prop :=
  Forall secret_bytes [jwt_bytes rng; key_bytes rng; api_bytes rng; password_bytes rng].

Lemma random_hex_redacted input values bytes :
  secret_bytes bytes -> random_hex bytes ∈ values ->
  exists out, redact_text input values = Ok out /\ ~ occurs (random_hex bytes) out.
Proof.
  intros [Hb Hl] Hin. destruct (random_hex_spec bytes Hb) as [Hlen Hhex]. destruct (hex_text _ Hhex) as [Hstr _].
  apply hex_redacted; [done|lia|by apply random_hex_lower].
Qed.

(** C29. No text that the launcher prints or stores after redaction, whatever Docker or a
    container put into it, contains a secret that the launcher has generated: the key of
    the session tokens, the encryption key, the key of the control server or the password
    of the database; and redaction returns for every text. *)
Theorem generated_secrets_redacted rng config input text :
  full rng ->
  exists out, redact_text text (redaction_values (generate rng config input)) = Ok out /\
    ~ occurs (jwt_secret (generate rng config input)) out /\
    ~ occurs (app_encryption_key (generate rng config input)) out /\
    ~ occurs (rmm_server_api_key (generate rng config input)) out /\
    forall password, postgres_password (generate rng config input) = Some password -> ~ occurs password out.
Proof.
  intros Hrng. set (s := generate rng config input).
  unfold full in Hrng. rewrite !Forall_cons in Hrng. destruct Hrng as (Hj & Hk & Ha & Hp & _).
  assert (forall bytes, secret_bytes bytes -> random_hex bytes ∈ redaction_values s ->
            forall out, redact_text text (redaction_values s) = Ok out -> ~ occurs (random_hex bytes) out) as H.
  { intros bytes Hb Hin out Hout. destruct (random_hex_redacted text _ _ Hb Hin) as (out' & Hout' & ?). congruence. }
  destruct (redact_text_spec text (redaction_values s)) as (out & Hout & _). exists out.
  split; [done|]. split_and!; [apply H; [done| |done]..|]; try (unfold redaction_values; cbn; set_solver).
  cbn. destruct (is_bundled _) eqn:Hbundled; [|done]. intros ? [= <-]. apply H; [done| |done].
  unfold redaction_values. cbn. rewrite Hbundled. cbn. set_solver.
Qed.

(** C37. No address of a database survives in a text none of whose lines, after the secrets
    are replaced, assigns a sensitive name; but in a line that does, an address in
    front of the assignment survives with its password. *)
Theorem database_urls_redacted input values :
  (exists out, redact_text input values = Ok out /\
    (Forall (fun line => sensitive line = None) (lines (replace_values input values)) ->
     forall scheme, scheme ∈ schemes -> ~ occurs scheme out)) /\
  redact_text (str "postgres://talos:hunter2@db/talos refused, JWT_SECRET=x") [] =
    Ok (str "postgres://talos:hunter2@db/talos refused, JWT_SECRET=[REDACTED]").
Proof.
  split; [|vm_compute; reflexivity]. destruct (redact_text_spec input values) as (out & H1 & H2 & _). by exists out.
Qed.

(** The sample secrets in a line of a log. *)
Definition sample_log : text :=
  str "connecting with " ++ jwt_secret (generate SampleConfig.random (SampleConfig.configured 49) {| input_database_url := None |}).

Lemma generated_secrets_redacted_witness :
  redact_text sample_log (redaction_values (generate SampleConfig.random (SampleConfig.configured 49) {| input_database_url := None |}))
    = Ok (str "connecting with [REDACTED]") /\
  exists out, redact_text sample_log (redaction_values (generate SampleConfig.random (SampleConfig.configured 49) {| input_database_url := None |})) = Ok out /\
    ~ occurs (jwt_secret (generate SampleConfig.random (SampleConfig.configured 49) {| input_database_url := None |})) out.
Proof.
  split; [vm_compute; reflexivity|].
  destruct (generated_secrets_redacted SampleConfig.random (SampleConfig.configured 49) {| input_database_url := None |} sample_log)
    as (out & H1 & H2 & _).
  - repeat (constructor; [split; [by apply Forall_replicate|by vm_compute]|]). constructor.
  - exists out. split; [exact H1|exact H2].
Defined.
