(* ===== verification/Json.v ===== *)
(** JSON values and the functions of JavaScript with which the web backend reads them. *)

From S2P Require Import Prelude Bytes Text.

Local Open Scope Z_scope.

(** A number that is an integer, or the text of one that is not. *)
Inductive Number := Int (z : Z) | NotInt (shown : text).

Unset Elimination Schemes.
Inductive Json :=
  | JNull
  | JBool (b : bool)
  | JNumber (n : Number)
  | JString (s : text)
  | JArray (l : list Json)
  | JObject (fields : list (text * Json)).
Set Elimination Schemes.

Definition Fields : Type := list (text * Json).

(** [value.trim()] *)
Definition js_whitespace (c : Z) : bool :=
  within 9 13 c || (c =? 32) || (c =? 160) || (c =? 0x1680) || within 0x2000 0x200a c || (c =? 0x2028) || (c =? 0x2029) ||
  (c =? 0x202f) || (c =? 0x205f) || (c =? 0x3000) || (c =? 0xfeff).
Definition js_trim (t : text) : text := trim_by js_whitespace t.

(** [fields.key]; [None] is [undefined]. *)
Fixpoint get (key : text) (fields : Fields) : option Json :=
  match fields with
  | [] => None
  | (k, v) :: fields => if bool_decide (k = key) then Some v else get key fields
  end.
Definition has_own (key : text) (fields : Fields) : bool := bool_decide (is_Some (get key fields)).

(** [{ ...fields, key: value }] and [delete fields.key] *)
Fixpoint set (key : text) (value : Json) (fields : Fields) : Fields :=
  match fields with
  | [] => [(key, value)]
  | (k, v) :: fields => if bool_decide (k = key) then (k, value) :: fields else (k, v) :: set key value fields
  end.
Definition delete_key (key : text) (fields : Fields) : Fields :=
  List.filter (fun kv => negb (bool_decide (kv.1 = key))) fields.

(** [a ?? b] *)
Definition nullish (a b : option Json) : option Json :=
  match a with None | Some JNull => b | _ => a end.

(** A value that is an object and not an array, or null. *)
Definition asRecord (value : option Json) : option Fields :=
  match value with Some (JObject fields) => Some fields | _ => None end.

Definition asArray (value : option Json) : list Json :=
  match value with Some (JArray l) => l | _ => [] end.

(** A string that is not blank, trimmed. *)
Definition readString (value : option Json) : option text :=
  match value with
  | Some (JString s) => let trimmed := js_trim s in if bool_decide (trimmed = []) then None else Some trimmed
  | _ => None
  end.

(** [JSON.stringify(value)], over the text of a number. *)
Section stringify.
Context (show_number : Number -> text).

Definition hex4 (c : Z) : text :=
  map (fun n => if n <? 10 then 48 + n else 87 + n)
    [Z.shiftr c 12; Z.land (Z.shiftr c 8) 15; Z.land (Z.shiftr c 4) 15; Z.land c 15].
Definition escape (c : Z) : text :=
  if (c =? 34) || (c =? 92) then [92; c]
  else if c =? 8 then str "\b" else if c =? 9 then str "\t" else if c =? 10 then str "\n"
  else if c =? 12 then str "\f" else if c =? 13 then str "\r"
  else if (c <? 32) || within 0xd800 0xdfff c then str "\u" ++ hex4 c else [c].
Definition quoted (s : text) : text := [34] ++ concat (map escape s) ++ [34].

Fixpoint commas (l : list text) : text :=
  match l with [] => [] | [t] => t | t :: l => t ++ [44] ++ commas l end.

Fixpoint stringify (v : Json) : text :=
  match v with
  | JNull => str "null"
  | JBool b => if b then str "true" else str "false"
  | JNumber n => show_number n
  | JString s => quoted s
  | JArray l => [91] ++ commas (map stringify l) ++ [93]
  | JObject fields => [123] ++ commas (map (fun kv => quoted kv.1 ++ [58] ++ stringify kv.2) fields) ++ [125]
  end.
End stringify.

(** ** Lemmas *)

Lemma get_set key key' v fields :
  get key (set key' v fields) = if bool_decide (key' = key) then Some v else get key fields.
Proof.
  induction fields as [|[k w] fields IH]; cbn [set get]; [done|].
  repeat (case_bool_decide; cbn [get]; subst; try done).
Qed.

Lemma get_delete key key' fields :
  get key (delete_key key' fields) = if bool_decide (key' = key) then None else get key fields.
Proof.
  induction fields as [|[k w] fields IH]; cbn [delete_key List.filter get]; [by case_bool_decide|].
  cbn. repeat (case_bool_decide; cbn [negb get]; subst; try done).
Qed.
