(* ===== verification/Remediation.v ===== *)
(** The life of a remediation job in the web backend: commands are projected into jobs
    with steps (apps/api_backend/routes/rmmTelemetry.routes.ts), agents claim jobs
    (routes/remediationDispatch.routes.ts) and report on their steps
    (lib/remediationStatusTransitions.ts).

    A job is a row of remediation_job with its rows of remediation_step, by their index;
    the database maps identifiers to jobs.  A route is a transaction: it locks the rows it
    changes, so requests are steps one after the other.  Agents and commands named in a path
    are taken as read (not blank), keys of requests as checked, and the columns of type jsonb
    keep the value that was written.  The table rmm_patch_action, which mirrors the status of
    patch jobs, is left out. *)

From stdpp Require Import sorting.
From S2P Require Import Prelude Bytes Text Json.

Local Open Scope Z_scope.

Module Remediation.
Definition PATCH_INSTALL_INTENT_ID : text := str "talos.patch.install".
Definition MAX_REMEDIATION_EVIDENCE_BYTES : Z := 32 * 1024.

Definition queued : text := str "queued".
Definition pending_approval : text := str "pending_approval".
Definition pending : text := str "pending".
Definition running : text := str "running".
Definition completed : text := str "completed".
Definition failed : text := str "failed".
Definition cancelled : text := str "cancelled".

Definition includes (l : list text) (t : text) : bool := existsb (fun x => bool_decide (x = t)) l.
Definition TERMINAL_STATUSES : list text := [completed; failed; cancelled].
Definition REPORTABLE_STATUSES : list text := running :: TERMINAL_STATUSES.

Record DurableStepState := {
  command : text;
  step_status : text;
  evidence_jsonb : Json;
  step_organization_id : text;
  step_started_at : option Z;
  step_finished_at : option Z }.

Record DurableJobState := {
  command_id : option text;
  organization_id : text;
  agent_id : text;
  decision_id : option Z;
  intent_id : text;
  status : text;
  dedupe_key : option text;
  requested_by : text;
  requested_at : Z;
  metadata_jsonb : Json;
  started_at : option Z;
  finished_at : option Z;
  steps : gmap Z DurableStepState }.

(** The rows, and the sequence of identifiers. *)
Record Database := { jobs : gmap Z DurableJobState; next_id : Z }.

Record RemediationStatusReport := {
  report_status : text;
  stepIndex : Z;
  hasEvidence : bool;
  evidence : Json }.

Inductive Identity := CommandId (c : text) | JobId (id : Z).
Inductive IntentScope := Generic | Patch.
Record RemediationStatusSelector := {
  identity : Identity;
  selector_agent_id : text;
  selector_organization_id : option text;
  intentScope : IntentScope }.

Record TerminalStepProjection := { projected_index : Z; projected_status : text; projected_evidence : Fields }.

Inductive Projection := Direct | Invalid (error : string) | Aggregate (l : list TerminalStepProjection).

Inductive RemediationTransitionResult :=
  | NotFound
  | StepNotFound
  | Conflict (currentStatus : text)
  | StepConflict (index : Z) (currentStatus : text)
  | InvalidEvidence (error : string)
  | Updated (reportedStatus jobStatus : text) (jobId : Z) (commandId : option text) (organizationId agentId : text).

(** [COALESCE(t, NOW())] *)
Definition coalesce (t : option Z) (now : Z) : option Z := match t with Some t => Some t | None => Some now end.

Section remediation.
(** [Number(value)] of a value that is not a number, and the text of a number. *)
Context (ToNumber : Json -> Number) (show_number : Number -> text).

(** ** Reports (lib/remediationStatusTransitions.ts) *)

Definition readStepIndex (value : option Json) : option Z :=
  match value with
  | None | Some JNull | Some (JString []) => Some 0
  | Some v =>
      match (match v with JNumber n => n | _ => ToNumber v end) with
      | Int parsed => if (parsed <? 0) || (1000 <? parsed) then None else Some parsed
      | NotInt _ => None
      end
  end.

Definition readRequiredStepIndex (value : option Json) : option Z :=
  match value with
  | None | Some JNull | Some (JString []) => None
  | _ => readStepIndex value
  end.

Definition step_index_of (record : Fields) : option Json :=
  nullish (get (str "stepIndex") record) (get (str "step_index") record).

Definition encodedJsonBytes (value : Json) : Z := len (utf8 (stringify show_number value)).

(** The status and message of the response, or the report. *)
Definition parseRemediationStatusReport (value : option Json) : res (Z * string) RemediationStatusReport :=
  let body := default [] (asRecord value) in
  match readString (get (str "status") body) with
  | Some st =>
      if negb (includes REPORTABLE_STATUSES st)
      then Err (400, "status must be running, completed, failed, or cancelled"%string) else
      match readStepIndex (step_index_of body) with
      | None => Err (400, "stepIndex must be an integer between 0 and 1000"%string)
      | Some index =>
          let has := has_own (str "evidence") body in
          let e := default JNull (get (str "evidence") body) in
          if has && (MAX_REMEDIATION_EVIDENCE_BYTES <? encodedJsonBytes e)
          then Err (413, "evidence must not exceed 32768 encoded bytes"%string)
          else Ok {| report_status := st; stepIndex := index; hasEvidence := has; evidence := e |}
      end
  | None => Err (400, "status must be running, completed, failed, or cancelled"%string)
  end.

Definition isTerminalRemediationStatus (value : text) : bool := includes TERMINAL_STATUSES value.

Definition stepTransitionAllowed (currentStatus nextStatus : text) : bool :=
  bool_decide (currentStatus = nextStatus) || bool_decide (currentStatus = pending) ||
  (bool_decide (currentStatus = running) && isTerminalRemediationStatus nextStatus).

Definition deriveJobStatus (stepStatuses : list text) : text :=
  if negb (forallb isTerminalRemediationStatus stepStatuses) then running
  else if includes stepStatuses failed then failed
  else if includes stepStatuses cancelled then cancelled
  else completed.

(** The loop over [evidence.steps]: the entries by their index. *)
Fixpoint read_reported (durable : gmap Z DurableStepState) (values : list Json)
    (reportedByIndex : gmap Z TerminalStepProjection) : res string (gmap Z TerminalStepProjection) :=
  match values with
  | [] => Ok reportedByIndex
  | value :: values =>
      record ← ok_or (asRecord (Some value)) "terminal evidence.steps entries must be objects"%string;
      index ← ok_or (readRequiredStepIndex (step_index_of record))
                "terminal evidence stepIndex must be an integer between 0 and 1000"%string;
      let invalid := "terminal evidence step status must be completed, failed, or cancelled"%string in
      st ← ok_or (readString (get (str "status") record)) invalid;
      if negb (isTerminalRemediationStatus st) then Err invalid else
      if negb (bool_decide (is_Some (durable !! index))) then Err "terminal evidence references unknown step"%string else
      if bool_decide (is_Some (reportedByIndex !! index)) then Err "terminal evidence contains duplicate step"%string else
      let normalizedEvidence :=
        delete_key (str "step_index")
          (set (str "status") (JString st) (set (str "stepIndex") (JNumber (Int index)) record)) in
      read_reported durable values
        (<[index := {| projected_index := index; projected_status := st; projected_evidence := normalizedEvidence |}]>
           reportedByIndex)
  end.

Definition not_executed (index : Z) : TerminalStepProjection :=
  {| projected_index := index; projected_status := cancelled;
     projected_evidence := [(str "stepIndex", JNumber (Int index)); (str "status", JString cancelled);
                            (str "reason", JString (str "not_executed_after_terminal_outcome"))] |}.

(** The loop over the durable steps. *)
Fixpoint project_steps (reportedStatus : text) (reportedByIndex : gmap Z TerminalStepProjection)
    (durableSteps : list (Z * DurableStepState)) : res string (list TerminalStepProjection) :=
  match durableSteps with
  | [] => Ok []
  | (index, step) :: durableSteps =>
      p ← match reportedByIndex !! index with
          | Some reported =>
              if stepTransitionAllowed (step_status step) (projected_status reported) then Ok reported
              else Err "cannot transition remediation step"%string
          | None =>
              if bool_decide (reportedStatus = completed)
              then Err "completed terminal evidence is missing durable step"%string
              else if stepTransitionAllowed (step_status step) cancelled then Ok (not_executed index)
              else Err "terminal evidence is missing already-terminal step"%string
          end;
      ps ← project_steps reportedStatus reportedByIndex durableSteps;
      Ok (p :: ps)
  end.

Definition terminalStepProjection (e : Json) (reportedStatus : text) (reportedStepIndex : Z)
    (durable : gmap Z DurableStepState) (durableSteps : list (Z * DurableStepState)) : Projection :=
  let evidenceRecord := asRecord (Some e) in
  let field key := evidenceRecord ≫= get key in
  match field (str "steps") with
  | None =>
      let matches :=
        match readString (field (str "status")) with Some st => bool_decide (st = reportedStatus) | None => true end in
      if negb matches then Invalid "terminal evidence status does not match the report status" else
      match readRequiredStepIndex (nullish (field (str "stepIndex")) (field (str "step_index"))) with
      | Some index =>
          if index =? reportedStepIndex then Direct
          else Invalid "terminal evidence stepIndex does not match the report stepIndex"
      | None => Direct
      end
  | Some (JArray values) =>
      match (reportedByIndex ← read_reported durable values ∅;
             if negb (bool_decide (is_Some (reportedByIndex !! reportedStepIndex)))
             then Err "terminal evidence must include the reported step"%string else
             projected ← project_steps reportedStatus reportedByIndex durableSteps;
             if negb (bool_decide (deriveJobStatus (map projected_status projected) = reportedStatus))
             then Err "terminal evidence resolves to another status"%string
             else Ok projected) with
      | Ok projected => Aggregate projected
      | Err error => Invalid error
      | Panic | Fuel => Invalid ""
      end
  | Some _ => Invalid "terminal evidence.steps must be an array when present"
  end.

(** ** The transition *)

(** [SELECT ... FROM remediation_step WHERE job_id = .. AND organization_id = ..] *)
Definition durable (job : DurableJobState) : gmap Z DurableStepState :=
  filter (fun kv => step_organization_id kv.2 = organization_id job) (steps job).

(** [ORDER BY step_index ASC] *)
Definition index_le (a b : Z * DurableStepState) : Prop := a.1 <= b.1.
#[global] Instance index_le_dec a b : Decision (index_le a b).
Proof. unfold index_le. apply _. Defined.
Definition durableSteps (job : DurableJobState) : list (Z * DurableStepState) :=
  merge_sort index_le (map_to_list (durable job)).

Definition set_steps (m : gmap Z DurableStepState) (job : DurableJobState) : DurableJobState :=
  {| command_id := command_id job; organization_id := organization_id job; agent_id := agent_id job;
     decision_id := decision_id job; intent_id := intent_id job; status := status job; dedupe_key := dedupe_key job;
     requested_by := requested_by job; requested_at := requested_at job; metadata_jsonb := metadata_jsonb job;
     started_at := started_at job; finished_at := finished_at job; steps := m |}.

Definition set_status (st : text) (started finished : option Z) (job : DurableJobState) : DurableJobState :=
  {| command_id := command_id job; organization_id := organization_id job; agent_id := agent_id job;
     decision_id := decision_id job; intent_id := intent_id job; status := st; dedupe_key := dedupe_key job;
     requested_by := requested_by job; requested_at := requested_at job; metadata_jsonb := metadata_jsonb job;
     started_at := started; finished_at := finished; steps := steps job |}.

(** [UPDATE remediation_step SET status, evidence_jsonb, started_at, finished_at]; without
    evidence the column keeps its value. *)
Definition report_step (now : Z) (st : text) (e : option Json) (step : DurableStepState) : DurableStepState :=
  {| command := command step; step_status := st; evidence_jsonb := default (evidence_jsonb step) e;
     step_organization_id := step_organization_id step;
     step_started_at := coalesce (step_started_at step) now;
     step_finished_at := if isTerminalRemediationStatus st then coalesce (step_finished_at step) now
                         else step_finished_at step |}.

(** [... WHERE job_id = .. AND organization_id = .. AND step_index = ..] *)
Definition update_step (now : Z) (index : Z) (st : text) (e : option Json) (job : DurableJobState) : DurableJobState :=
  set_steps (alter (fun step => if bool_decide (step_organization_id step = organization_id job)
                                then report_step now st e step else step) index (steps job)) job.

(** [UPDATE remediation_job SET status, started_at, finished_at] *)
Definition update_job (now : Z) (st : text) (job : DurableJobState) : DurableJobState :=
  set_status st (coalesce (started_at job) now)
    (if isTerminalRemediationStatus st then coalesce (finished_at job) now else finished_at job) job.

Definition selects (selector : RemediationStatusSelector) (id : Z) (job : DurableJobState) : bool :=
  match identity selector with
  | CommandId c => bool_decide (command_id job = Some c)
  | JobId i => i =? id
  end && bool_decide (agent_id job = selector_agent_id selector) &&
  match selector_organization_id selector with
  | Some o => bool_decide (organization_id job = o)
  | None => true
  end &&
  match intentScope selector with
  | Patch => bool_decide (intent_id job = PATCH_INSTALL_INTENT_ID)
  | Generic => negb (bool_decide (intent_id job = PATCH_INSTALL_INTENT_ID))
  end.

(** The part of [transitionRemediationStatus] after the job is found. *)
Definition transition_job (now : Z) (id : Z) (report : RemediationStatusReport) (job : DurableJobState)
    : DurableJobState * RemediationTransitionResult :=
  let st := report_status report in
  if negb (bool_decide (status job = st) || bool_decide (status job = running)) then (job, Conflict (status job)) else
  match durable job !! stepIndex report with
  | None => (job, StepNotFound)
  | Some targetStep =>
      if negb (stepTransitionAllowed (step_status targetStep) st)
      then (job, StepConflict (stepIndex report) (step_status targetStep)) else
      let projection :=
        if isTerminalRemediationStatus st
        then terminalStepProjection (evidence report) st (stepIndex report) (durable job) (durableSteps job)
        else Direct in
      let finish job' projectedStatuses :=
        let jobStatus := deriveJobStatus (map snd (map_to_list projectedStatuses)) in
        (update_job now jobStatus job',
         Updated st jobStatus id (command_id job) (organization_id job) (agent_id job)) in
      let statuses : gmap Z text := step_status <$> durable job in
      match projection with
      | Invalid error => (job, InvalidEvidence error)
      | Aggregate l =>
          finish (foldl (fun job p => update_step now (projected_index p) (projected_status p)
                                        (Some (JObject (projected_evidence p))) job) job l)
                 (foldl (fun m p => <[projected_index p := projected_status p]> m) statuses l)
      | Direct =>
          finish (update_step now (stepIndex report) st (if hasEvidence report then Some (evidence report) else None) job)
                 (<[stepIndex report := st]> statuses)
      end
  end.

Definition set_job (id : Z) (job : DurableJobState) (db : Database) : Database :=
  {| jobs := <[id := job]> (jobs db); next_id := next_id db |}.

Definition transitionRemediationStatus (now : Z) (selector : RemediationStatusSelector) (report : RemediationStatusReport)
    (db : Database) : Database * RemediationTransitionResult :=
  match List.find (fun kv => selects selector kv.1 kv.2) (map_to_list (jobs db)) with
  | None => (db, NotFound)
  | Some (id, job) =>
      let '(job', result) := transition_job now id report job in
      match result with
      | Updated _ _ _ _ _ _ => (set_job id job' db, result)
      | _ => (db, result)
      end
  end.

(** ** Dispatch (lib/remediationDispatch.ts) *)

Definition REMEDIATION_DISPATCH_SNAPSHOT_KEY : text := str "__talosDispatchV1".

(** The readings of an integer: this one, and the one of the routes, differ on blanks. *)
Definition parseInteger (value : option Json) : option Z :=
  match value with
  | Some (JNumber (Int z)) => Some z
  | Some (JString s) =>
      if bool_decide (js_trim s = []) then None
      else match ToNumber (JString s) with Int z => Some z | NotInt _ => None end
  | _ => None
  end.

Definition persistedRemediationMetadata (metadata execution steps : option Json) : Json :=
  JObject (set REMEDIATION_DISPATCH_SNAPSHOT_KEY
    (JObject [(str "execution", JObject (default [] (asRecord execution))); (str "steps", JArray (asArray steps))])
    (default [] (asRecord metadata))).

(** Metadata, execution and steps. *)
Definition remediationDispatchSnapshot (metadata : Json) : Fields * Fields * list Json :=
  let persisted := default [] (asRecord (Some metadata)) in
  let snapshot := asRecord (get REMEDIATION_DISPATCH_SNAPSHOT_KEY persisted) in
  (delete_key REMEDIATION_DISPATCH_SNAPSHOT_KEY persisted,
   default [] (asRecord (snapshot ≫= get (str "execution"))),
   asArray (snapshot ≫= get (str "steps"))).

(** What an agent is sent. The identifier of the row is carried along; the fields that are the
    same for every job ([approvalState]) are left out. *)
Record DispatchJob := {
  dispatch_id : Z; dispatch_command_id : option text; dispatch_organization_id : text; dispatch_agent_id : text;
  dispatch_intent_id : text; dispatch_decision_id : option Z; dispatch_dedupe_key : option text;
  dispatch_requested_by : text; dispatch_requested_at : Z; dispatch_metadata : Fields;
  dispatch_steps : list Fields; dispatch_execution : Fields }.

(** [{ ...a, ...b }] *)
Definition spread (a b : Fields) : Fields := foldl (fun fields kv => set kv.1 kv.2 fields) a b.

Definition frozenStepsByIndex (snapshot_steps : list Json) : gmap Z Fields :=
  foldl (fun m iv => match asRecord (Some iv.2) with
                     | Some record => <[default (Z.of_nat iv.1) (parseInteger (step_index_of record)) := record]> m
                     | None => m
                     end) ∅ (imap pair snapshot_steps).

Definition dispatch_step (frozen : gmap Z Fields) (row : Z * DurableStepState) : Fields :=
  spread (default [] (frozen !! row.1))
    [(str "stepIndex", JNumber (Int row.1)); (str "command", JString (command row.2));
     (str "status", JString (step_status row.2)); (str "evidence", evidence_jsonb row.2)].

Definition build_dispatch_job (row : Z * DurableJobState) : DispatchJob :=
  let job := row.2 in
  let '(metadata, execution, snapshot_steps) := remediationDispatchSnapshot (metadata_jsonb job) in
  {| dispatch_id := row.1; dispatch_command_id := command_id job; dispatch_organization_id := organization_id job;
     dispatch_agent_id := agent_id job; dispatch_intent_id := intent_id job; dispatch_decision_id := decision_id job;
     dispatch_dedupe_key := dedupe_key job; dispatch_requested_by := requested_by job;
     dispatch_requested_at := requested_at job; dispatch_metadata := metadata;
     dispatch_steps := map (dispatch_step (frozenStepsByIndex snapshot_steps))
                         (merge_sort index_le (map_to_list (steps job)));
     dispatch_execution :=
       spread [(str "maxRetries", JNumber (Int 0)); (str "timeoutSeconds", JNumber (Int 300));
               (str "stopOnFailure", JBool true)] execution |}.

(** By the time of the request, then by identifier. *)
Definition requested_le (a b : Z * DurableJobState) : Prop :=
  requested_at a.2 < requested_at b.2 \/ requested_at a.2 = requested_at b.2 /\ a.1 <= b.1.
#[global] Instance requested_le_dec a b : Decision (requested_le a b).
Proof. unfold requested_le. apply _. Defined.

Definition buildRemediationDispatchJobs (rows : list (Z * DurableJobState)) : list DispatchJob :=
  map build_dispatch_job (merge_sort requested_le rows).

(** ** Claims (routes/remediationDispatch.routes.ts and rmmTelemetry.routes.ts) *)

Definition claim_job (now : Z) (job : DurableJobState) : DurableJobState :=
  set_status running (coalesce (started_at job) now) None job.

Definition claimable (agent : text) (scope : IntentScope) (job : DurableJobState) : bool :=
  bool_decide (status job = queued) && bool_decide (agent_id job = agent) &&
  match scope with
  | Generic => negb (bool_decide (intent_id job = PATCH_INSTALL_INTENT_ID)) &&
               bool_decide (is_Some (command_id job)) && negb (bool_decide (steps job = ∅))
  | Patch => bool_decide (intent_id job = PATCH_INSTALL_INTENT_ID)
  end.

(** [FOR UPDATE SKIP LOCKED]: the jobs that other transactions have locked are passed over. *)
Definition claim (now : Z) (agent : text) (limit : nat) (scope : IntentScope) (locked : list Z) (db : Database)
    : Database * list (Z * DurableJobState) :=
  let candidates :=
    take limit (List.filter (fun row => claimable agent scope row.2 && negb (existsb (Z.eqb row.1) locked))
                  (merge_sort requested_le (map_to_list (jobs db)))) in
  let claimed := map (fun row => (row.1, claim_job now row.2)) candidates in
  ({| jobs := foldl (fun m row => <[row.1 := row.2]> m) (jobs db) claimed; next_id := next_id db |}, claimed).

Definition readLimit (value : option Json) : nat :=
  match value with
  | Some (JNumber (Int z)) => Z.to_nat (Z.min 10 (Z.max 1 z))
  | Some (JNumber (NotInt _)) | None => 1
  | Some v => match ToNumber v with Int z => Z.to_nat (Z.min 10 (Z.max 1 z)) | NotInt _ => 1%nat end
  end.

(** POST /agents/:agentId/jobs/claim *)
Definition claim_route (now : Z) (agentId : text) (body : Json) (locked : list Z) (db : Database)
    : Database * list DispatchJob :=
  let '(db', claimed) := claim now agentId (readLimit (asRecord (Some body) ≫= get (str "limit"))) Generic locked db in
  (db', buildRemediationDispatchJobs claimed).

(** Times are in milliseconds. *)
Definition stale (now : Z) (agentId : text) (staleMinutes : Z) (job : DurableJobState) : bool :=
  bool_decide (agent_id job = agentId) && bool_decide (intent_id job = PATCH_INSTALL_INTENT_ID) &&
  bool_decide (status job = running) &&
  (default (requested_at job) (started_at job) <? now - staleMinutes * 60000).

Definition failStalePatchJobsForAgent (now : Z) (agentId : text) (staleMinutes : Z) (db : Database) : Database :=
  {| jobs := (fun job => if stale now agentId staleMinutes job then set_status failed (started_at job) (Some now) job else job)
               <$> jobs db;
     next_id := next_id db |}.

(** POST /remediation/agents/:agentId/patch-jobs/claim, with the limit of the request and the
    minutes of the configuration; of jobs requested at the same time any may come first. *)
Definition patch_claim_route (now : Z) (agentId : text) (staleMinutes : Z) (limit : nat) (locked : list Z) (db : Database)
    : Database * list (Z * DurableJobState) :=
  claim now agentId limit Patch locked (failStalePatchJobsForAgent now agentId staleMinutes db).

(** ** Projection of commands (routes/rmmTelemetry.routes.ts) *)

Record RemediationJobInsertOptions := {
  option_command_id : option text; option_organization_id : text; option_agent_id : text;
  option_decision_id : option Z; option_intent_id : text; option_status : option text; option_dedupe_key : option text;
  option_requested_by : option text; option_metadata : option Json; option_steps : option Json;
  option_execution : option Json }.

(** The errors that end the transaction: no such device, a row of another owner, a unique
    index, an index that is no 32-bit integer. *)
Inductive InsertError := ScopeError | ConflictError | UniqueViolation | OutOfRange.

(** [value || fallback] for a string or null *)
Definition truthy (t : option text) : option text := match t with Some [] => None | _ => t end.

Definition parseIntegerLoose (value : option Json) : option Z :=
  match value with
  | Some (JNumber (Int z)) => Some z
  | Some (JString s) => match ToNumber (JString s) with Int z => Some z | NotInt _ => None end
  | _ => None
  end.

Definition find_job (p : DurableJobState -> bool) (db : Database) : option (Z * DurableJobState) :=
  List.find (fun kv => p kv.2) (map_to_list (jobs db)).

Definition started (st : text) : bool := includes REPORTABLE_STATUSES st.

Definition new_job (now : Z) (o : RemediationJobInsertOptions) (st : text) (metadata : Json) : DurableJobState :=
  {| command_id := truthy (option_command_id o); organization_id := option_organization_id o; agent_id := option_agent_id o;
     decision_id := option_decision_id o; intent_id := option_intent_id o; status := st;
     dedupe_key := truthy (option_dedupe_key o);
     requested_by := default (str "consumer") (truthy (option_requested_by o)); requested_at := now;
     metadata_jsonb := metadata; started_at := None; finished_at := None; steps := ∅ |}.

Definition same_owner (o : RemediationJobInsertOptions) (job : DurableJobState) : bool :=
  bool_decide (organization_id job = option_organization_id o) && bool_decide (agent_id job = option_agent_id o) &&
  bool_decide (intent_id job = option_intent_id o).

(** [DO UPDATE SET ...] of the statements with a command: a job that has started keeps its
    values. *)
Definition refresh_job (now : Z) (o : RemediationJobInsertOptions) (st : text) (metadata : Json) (job : DurableJobState)
    : DurableJobState :=
  if started (status job) then job else
  {| command_id := command_id job; organization_id := organization_id job; agent_id := agent_id job;
     decision_id := decision_id job; intent_id := intent_id job; status := st; dedupe_key := dedupe_key job;
     requested_by := default (str "consumer") (truthy (option_requested_by o)); requested_at := now;
     metadata_jsonb := metadata; started_at := None; finished_at := None; steps := steps job |}.

(** The one without. *)
Definition refresh_request (now : Z) (metadata : Json) (job : DurableJobState) : DurableJobState :=
  if started (status job) then job else
  {| command_id := command_id job; organization_id := organization_id job; agent_id := agent_id job;
     decision_id := decision_id job; intent_id := intent_id job; status := status job; dedupe_key := dedupe_key job;
     requested_by := requested_by job; requested_at := now; metadata_jsonb := metadata;
     started_at := started_at job; finished_at := finished_at job; steps := steps job |}.

(** The row of the job: inserted, or the one on which the insertion conflicts. *)
Definition upsert_job (now : Z) (o : RemediationJobInsertOptions) (st : text) (metadata : Json) (db : Database)
    : res InsertError (Database * Z * DurableJobState) :=
  let insert :=
    let job := new_job now o st metadata in
    ({| jobs := <[next_id db := job]> (jobs db); next_id := next_id db + 1 |}, next_id db, job) in
  let update row (p : DurableJobState -> bool) f :=
    if p row.2 && same_owner o row.2 then Ok (set_job row.1 (f row.2) db, row.1, f row.2) else Err ConflictError in
  let by_dedupe d := find_job (fun job => bool_decide (dedupe_key job = Some d)) db in
  let by_command c := find_job (fun job => bool_decide (command_id job = Some c)) db in
  match truthy (option_command_id o), truthy (option_dedupe_key o) with
  | Some c, Some d =>
      match by_dedupe d, by_command c with
      | Some row, _ => update row (fun job => bool_decide (command_id job = Some c)) (refresh_job now o st metadata)
      | None, Some _ => Err UniqueViolation
      | None, None => Ok insert
      end
  | Some c, None =>
      match by_command c with
      | Some row => update row (fun _ => true) (refresh_job now o st metadata)
      | None => Ok insert
      end
  | None, Some d =>
      match by_dedupe d with
      | Some row => update row (fun job => bool_decide (command_id job = None)) (refresh_request now metadata)
      | None => Ok insert
      end
  | None, None => Ok insert
  end.

(** The index, the command and the rest of a step, unless the entry is passed over. *)
Definition read_step (organization : text) (i : Z) (value : Json) : option (Z * DurableStepState) :=
  record ← asRecord (Some value);
  c ← readString (get (str "command") record);
  Some (default i (parseIntegerLoose (step_index_of record)),
        {| command := c; step_status := default pending (readString (get (str "status") record));
           evidence_jsonb := match asRecord (get (str "evidence") record) with Some e => JObject e | None => JNull end;
           step_organization_id := organization; step_started_at := None; step_finished_at := None |}).

(** The loop over the steps: the rows and how many were written. *)
Fixpoint upsert_steps (organization : text) (refreshSteps : bool) (i : Z) (values : list Json)
    (rows : gmap Z DurableStepState) (insertedSteps : Z) : res InsertError (gmap Z DurableStepState * Z) :=
  match values with
  | [] => Ok (rows, insertedSteps)
  | value :: values =>
      match read_step organization i value with
      | None => upsert_steps organization refreshSteps (i + 1) values rows insertedSteps
      | Some (index, step) =>
          if (index <? -2147483648) || (2147483647 <? index) then Err OutOfRange else
          match rows !! index with
          | None => upsert_steps organization refreshSteps (i + 1) values (<[index := step]> rows) (insertedSteps + 1)
          | Some old =>
              if bool_decide (step_organization_id old = organization)
              then upsert_steps organization refreshSteps (i + 1) values
                     (if refreshSteps then <[index := step]> rows else rows) (insertedSteps + 1)
              else upsert_steps organization refreshSteps (i + 1) values rows insertedSteps
          end
      end
  end.

(** [device_organization] is the organization of the agent's device, if there is one. *)
Definition insertRemediationJob (now : Z) (device_organization : option text) (o : RemediationJobInsertOptions)
    (db : Database) : res InsertError (Database * (Z * text * Z)) :=
  organization ← ok_or device_organization ScopeError;
  if negb (bool_decide (option_organization_id o = [])) && negb (bool_decide (organization = option_organization_id o))
  then Err ScopeError else
  let st := default queued (truthy (option_status o)) in
  let metadata := persistedRemediationMetadata (option_metadata o) (option_execution o) (option_steps o) in
  '(db, jobId, job) ← upsert_job now o st metadata db;
  let refreshSteps := negb (started (status job)) in
  '(rows, insertedSteps) ← upsert_steps (option_organization_id o) refreshSteps 0 (asArray (option_steps o)) (steps job) 0;
  Ok (set_job jobId (set_steps rows job) db, (jobId, status job, insertedSteps)).

(** The first string of several that is not blank. *)
Definition firstString (a b : option Json) : option text :=
  match readString a with Some t => Some t | None => readString b end.

Definition read_options (parseBigIntValue : option Json -> option Z) (body : Fields) : option RemediationJobInsertOptions :=
  let field a b := firstString (get (str a) body) (get (str b) body) in
  commandId ← field "commandId" "command_id"; organizationId ← field "organizationId" "organization_id";
  agentId ← field "agentId" "agent_id"; intentId ← field "intentId" "intent_id";
  let approvalState := default (str "approved") (field "approvalState" "approval_state")%string in
  Some {| option_command_id := Some commandId; option_organization_id := organizationId; option_agent_id := agentId;
          option_decision_id := parseBigIntValue (nullish (get (str "decisionId") body) (get (str "decision_id") body));
          option_intent_id := intentId;
          option_status := Some (if bool_decide (approvalState = pending_approval) then pending_approval else queued);
          option_dedupe_key := field "dedupeKey" "dedupe_key"%string;
          option_requested_by := field "requestedBy" "requested_by"%string;
          option_metadata := get (str "metadata") body; option_steps := get (str "steps") body;
          option_execution := get (str "execution") body |}.

(** POST /remediation/commands/project *)
Definition project_route (parseBigIntValue : option Json -> option Z) (now : Z) (device_organization : text -> option text)
    (body : Json) (db : Database) : Database * Z :=
  match read_options parseBigIntValue (default [] (asRecord (Some body))) with
  | None => (db, 400)
  | Some o =>
      match insertRemediationJob now (device_organization (option_agent_id o)) o db with
      | Ok (db', _) => (db', 202)
      | Err ScopeError => (db, 404)
      | Err ConflictError | Err UniqueViolation => (db, 409)
      | _ => (db, 500)
      end
  end.

(** ** Reports of agents *)

Definition failure_code (result : RemediationTransitionResult) : Z :=
  match result with
  | NotFound | StepNotFound => 404
  | Conflict _ | StepConflict _ _ => 409
  | InvalidEvidence _ => 400
  | Updated _ _ _ _ _ _ => 200
  end.

(** PATCH /agents/:agentId/jobs/:commandId/status, and the one of patch jobs by their
    identifier *)
Definition status_route (now : Z) (agentId : text) (id : Identity) (scope : IntentScope) (body : Json) (db : Database)
    : Database * Z :=
  match parseRemediationStatusReport (Some body) with
  | Ok report =>
      let '(db', result) :=
        transitionRemediationStatus now
          {| identity := id; selector_agent_id := agentId; selector_organization_id := None; intentScope := scope |} report db in
      (db', failure_code result)
  | Err (code, _) => (db, code)
  | _ => (db, 500)
  end.

Definition read_status_item (item : Json) : res Z (RemediationStatusSelector * RemediationStatusReport) :=
  record ← ok_or (asRecord (Some item)) 400;
  commandId ← ok_or (firstString (get (str "commandId") record) (get (str "command_id") record)) 400;
  organizationId ← ok_or (firstString (get (str "organizationId") record) (get (str "organization_id") record)) 400;
  agentId ← ok_or (firstString (get (str "agentId") record) (get (str "agent_id") record)) 400;
  report ← map_err fst (parseRemediationStatusReport (Some item));
  Ok ({| identity := CommandId commandId; selector_agent_id := agentId;
         selector_organization_id := Some organizationId; intentScope := Generic |}, report).

Fixpoint read_status_items (items : list Json) : res Z (list (RemediationStatusSelector * RemediationStatusReport)) :=
  match items with
  | [] => Ok []
  | item :: items => x ← read_status_item item; xs ← read_status_items items; Ok (x :: xs)
  end.

(** The transaction over all reports: the first that is refused undoes the others. *)
Fixpoint transition_all (now : Z) (items : list (RemediationStatusSelector * RemediationStatusReport)) (db : Database)
    : res Z Database :=
  match items with
  | [] => Ok db
  | (selector, report) :: items =>
      match transitionRemediationStatus now selector report db with
      | (db', Updated _ _ _ _ _ _) => transition_all now items db'
      | (_, result) => Err (failure_code result)
      end
  end.

(** POST /remediation/commands/status *)
Definition statuses_route (now : Z) (body : Json) (db : Database) : Database * Z :=
  let statuses :=
    match asArray (asRecord (Some body) ≫= get (str "statuses")) with
    | [] => [JObject (default [] (asRecord (Some body)))]
    | l => l
    end in
  if 100 <? len statuses then (db, 413) else
  match (items ← read_status_items statuses; transition_all now items db) with
  | Ok db' => (db', 202)
  | Err code => (db, code)
  | _ => (db, 500)
  end.
End remediation.
End Remediation.
