(* ===== verification/RemediationLife.v ===== *)
(** What is promised of remediation jobs over their whole life: outcomes are final,
    repeated reports change nothing, and a report reaches only the job of its agent. *)

From stdpp Require Import sorting.
From S2P Require Import Prelude Bytes Text Json Remediation.

Import Remediation.

Local Open Scope Z_scope.

(** ** Statuses *)

Definition terminal (st : text) : Prop := isTerminalRemediationStatus st = true.

Lemma includes_spec l t : includes l t = true <-> t ∈ l.
Proof.
  unfold includes. rewrite existsb_exists. setoid_rewrite bool_decide_eq_true. split.
  - intros (x & ? & <-). by apply list_elem_of_In.
  - intros Ht. exists t. split; [by apply list_elem_of_In|done].
Qed.

Lemma terminal_allowed st next : terminal st -> stepTransitionAllowed st next = true -> next = st.
Proof.
  intros Ht. unfold stepTransitionAllowed. rewrite !orb_true_iff, andb_true_iff, !bool_decide_eq_true.
  by intros [[->| ->]|[-> _]].
Qed.

Lemma allowed_refl st : stepTransitionAllowed st st = true.
Proof. unfold stepTransitionAllowed. by rewrite bool_decide_eq_true_2. Qed.

Lemma derive_terminal l : terminal (deriveJobStatus l) -> Forall terminal l.
Proof.
  unfold deriveJobStatus. destruct (forallb _ l) eqn:H; [|done]. intros _. rewrite forallb_forall in H.
  apply Forall_forall. intros x Hx. apply H. by apply list_elem_of_In.
Qed.

(** ** The steps of a job *)

#[local] Arguments isTerminalRemediationStatus : simpl never.

Section life.
Context (ToNumber : Json -> Number) (show_number : Number -> text).

Definition statuses (job : DurableJobState) : gmap Z text := step_status <$> durable job.
Definition derived (job : DurableJobState) : text := deriveJobStatus (map snd (map_to_list (statuses job))).

Lemma lookup_durable job i s :
  durable job !! i = Some s <-> steps job !! i = Some s /\ step_organization_id s = organization_id job.
Proof. unfold durable. rewrite map_lookup_filter_Some. done. Qed.

(** What a report does to one step. *)
Definition reported (now : Z) (st : text) (e : option Json) (job : DurableJobState) (step : DurableStepState) :=
  if bool_decide (step_organization_id step = organization_id job) then report_step now st e step else step.

Lemma lookup_update_step now i st e job k :
  steps (update_step now i st e job) !! k = (if decide (k = i) then reported now st e job <$> steps job !! k else steps job !! k).
Proof.
  unfold update_step, set_steps. cbn [steps]. case_decide as Hk; [subst; by rewrite lookup_alter_eq|by rewrite lookup_alter_ne].
Qed.

Lemma statuses_update_step now i st e job :
  is_Some (durable job !! i) -> statuses (update_step now i st e job) = <[i := st]> (statuses job).
Proof.
  intros [s Hs%lookup_durable]. destruct Hs as [Hs Ho]. apply map_eq. intros k. unfold statuses.
  rewrite lookup_fmap. destruct (decide (k = i)) as [->|Hk].
  - rewrite lookup_insert_eq. assert (durable (update_step now i st e job) !! i = Some (report_step now st e s)) as ->; [|done].
    apply lookup_durable. rewrite lookup_update_step, decide_True, Hs by done. cbn. unfold reported.
    by rewrite bool_decide_eq_true_2.
  - rewrite lookup_insert_ne by done. rewrite lookup_fmap. f_equal. apply option_eq. intros x.
    rewrite !lookup_durable, lookup_update_step, decide_False by done. done.
Qed.

Lemma statuses_terminal job i s : terminal (derived job) -> durable job !! i = Some s -> terminal (step_status s).
Proof.
  intros Ht%derive_terminal Hs. rewrite Forall_forall in Ht. apply Ht. apply list_elem_of_fmap. exists (i, step_status s).
  split; [done|]. apply elem_of_map_to_list. unfold statuses. by rewrite lookup_fmap, Hs.
Qed.

(** ** Terminal evidence *)

(** The evidence kept for a step says which step it is and what its outcome was. *)
Definition describes (e : Fields) (i : Z) (st : text) : Prop :=
  get (str "stepIndex") e = Some (JNumber (Int i)) /\ get (str "status") e = Some (JString st).

Lemma normalized_describes record i st :
  describes (delete_key (str "step_index") (set (str "status") (JString st) (set (str "stepIndex") (JNumber (Int i)) record))) i st.
Proof. split; rewrite get_delete, !get_set; by vm_compute. Qed.

(** An entry of the evidence is kept under its index, names a step of the job and an outcome. *)
Definition entry (durable : gmap Z DurableStepState) (i : Z) (p : TerminalStepProjection) : Prop :=
  projected_index p = i /\ is_Some (durable !! i) /\ terminal (projected_status p) /\
  describes (projected_evidence p) (projected_index p) (projected_status p).

Lemma read_reported_entries durable values m m' :
  read_reported ToNumber durable values m = Ok m' -> map_Forall (entry durable) m -> map_Forall (entry durable) m'.
Proof.
  revert m. induction values as [|v values IH]; intros m; cbn [read_reported]; intros H Hm; [by injection H as <-|].
  res_inv. destruct (isTerminalRemediationStatus x1) eqn:Ht; [|done]. destruct (bool_decide _) eqn:Hd in Hk; [|done].
  cbn [negb] in Hk. destruct (bool_decide _) in Hk; [done|]. apply (IH _ Hk). apply map_Forall_insert_2; [|done].
  unfold entry. split_and!; [done|by apply bool_decide_eq_true in Hd|done|apply normalized_describes].
Qed.

(** What a step of the job becomes: an outcome its status may turn into. *)
Definition projects (row : Z * DurableStepState) (p : TerminalStepProjection) : Prop :=
  projected_index p = row.1 /\ terminal (projected_status p) /\
  stepTransitionAllowed (step_status row.2) (projected_status p) = true /\
  describes (projected_evidence p) (projected_index p) (projected_status p).

Lemma project_steps_projects durable rs m l ps :
  map_Forall (entry durable) m -> project_steps rs m l = Ok ps -> Forall2 projects l ps.
Proof.
  intros Hm. revert ps. induction l as [|[i step] l IH]; intros ps; cbn [project_steps]; [intros [= <-]; constructor|].
  intros H. res_inv. constructor; [|by apply IH]. unfold projects. cbn [fst snd].
  destruct (m !! i) as [r|] eqn:Hr.
  - destruct (Hm _ _ Hr) as (? & _ & ? & ?). by destruct (stepTransitionAllowed _ _) eqn:Ha in Hb; [injection Hb as <-|].
  - destruct (bool_decide _) in Hb; [done|]. destruct (stepTransitionAllowed _ _) eqn:Ha in Hb; [|done].
    by injection Hb as <-.
Qed.

(** The steps may be projected again once they have the statuses projected. *)
Lemma project_steps_again rs m l ps l' :
  project_steps rs m l = Ok ps -> Forall2 (fun row p => projected_index p = row.1) l ps ->
  Forall2 (fun row p => projected_index p = row.1 /\ step_status row.2 = projected_status p) l' ps ->
  project_steps rs m l' = Ok ps.
Proof.
  revert ps l'. induction l as [|[i step] l IH]; intros ps l' H Hi Hl'.
  - cbn in H. injection H as <-. by inversion Hl'.
  - cbn [project_steps] in H. res_inv. inversion Hl' as [|[i' step'] ? l'' ? [Hi' Hs] Hl'' Ha Hb']; subst.
    inversion Hi as [|? ? ? ? Hp Hi'']; subst. cbn in Hi', Hs, Hp. subst i i'. cbn [project_steps].
    rewrite Hs. rewrite (IH _ l'' Hb0) by done. destruct (m !! projected_index x) as [r|].
    + destruct (stepTransitionAllowed _ _) in Hb; [|done]. injection Hb as ->. by rewrite allowed_refl.
    + destruct (bool_decide _) in Hb |- *; [done|]. destruct (stepTransitionAllowed _ _) in Hb; [|done].
      injection Hb as <-. done.
Qed.

Lemma terminalStepProjection_Aggregate e rs i durable l ps :
  terminalStepProjection ToNumber e rs i durable l = Aggregate ps ->
  exists fields values m, asRecord (Some e) = Some fields /\ get (str "steps") fields = Some (JArray values) /\
    read_reported ToNumber durable values ∅ = Ok m /\ is_Some (m !! i) /\
    project_steps rs m l = Ok ps /\ deriveJobStatus (map projected_status ps) = rs.
Proof.
  unfold terminalStepProjection. destruct (asRecord _) as [fields|] eqn:Hf; cbn [mbind option_bind].
  2: { by repeat case_match. }
  destruct (get (str "steps") fields) as [v|] eqn:Hv; [|by repeat case_match].
  destruct v as [| | | |values|]; try done. intros H. exists fields, values.
  match type of H with match ?r with _ => _ end = _ => destruct r as [l'| | |] eqn:Hr end; try done.
  injection H as ->. run_inv.
  apply negb_false_iff, bool_decide_eq_true in Hg, Hg0. eauto 10.
Qed.

(** ** The writes of a report *)

(** The step updates a report leads to: index, status and evidence. *)
Definition writes (report : RemediationStatusReport) (projection : Projection) : list (Z * (text * option Json)) :=
  match projection with
  | Direct => [(stepIndex report, (report_status report, if hasEvidence report then Some (evidence report) else None))]
  | Aggregate l => map (fun p => (projected_index p, (projected_status p, Some (JObject (projected_evidence p))))) l
  | Invalid _ => []
  end.

Definition write_all (now : Z) (ws : list (Z * (text * option Json))) (job : DurableJobState) : DurableJobState :=
  foldl (fun job w => update_step now w.1 w.2.1 w.2.2 job) job ws.

(** A write goes to a step of the job and is a transition the step allows. *)
Definition admitted_write (job : DurableJobState) (w : Z * (text * option Json)) : Prop :=
  exists step, durable job !! w.1 = Some step /\ stepTransitionAllowed (step_status step) w.2.1 = true.

Definition project (report : RemediationStatusReport) (job : DurableJobState) : Projection :=
  if isTerminalRemediationStatus (report_status report)
  then terminalStepProjection ToNumber (evidence report) (report_status report) (stepIndex report)
         (durable job) (durableSteps job)
  else Direct.

Lemma elem_of_durableSteps job i s : (i, s) ∈ durableSteps job <-> durable job !! i = Some s.
Proof. unfold durableSteps. by rewrite merge_sort_Permutation, elem_of_map_to_list. Qed.

Lemma NoDup_durableSteps job : NoDup (map fst (durableSteps job)).
Proof. unfold durableSteps. rewrite merge_sort_Permutation. apply NoDup_fst_map_to_list. Qed.

Lemma project_Aggregate report job ps : project report job = Aggregate ps -> Forall2 projects (durableSteps job) ps.
Proof.
  unfold project. case_match; [|done]. intros (_ & values & m & _ & _ & Hm & _ & Hp & _)%terminalStepProjection_Aggregate.
  eapply project_steps_projects; [|exact Hp]. eapply read_reported_entries; [exact Hm|apply map_Forall_empty].
Qed.

Lemma writes_indexes report job ps :
  project report job = Aggregate ps -> map fst (writes report (Aggregate ps)) = map fst (durableSteps job).
Proof.
  intros H%project_Aggregate. cbn. rewrite map_map. cbn.
  induction H as [|row p l ps [Hp _] _ IH]; cbn; [done|]. by rewrite Hp, IH.
Qed.

Lemma writes_admitted report job step :
  durable job !! stepIndex report = Some step ->
  stepTransitionAllowed (step_status step) (report_status report) = true ->
  Forall (admitted_write job) (writes report (project report job)) /\
  NoDup (map fst (writes report (project report job))).
Proof.
  intros Hd Ha. destruct (project report job) as [|error|ps] eqn:Hp.
  - cbn. split; [|by apply NoDup_singleton]. constructor; [by exists step|constructor].
  - cbn. split; constructor.
  - split; [|rewrite (writes_indexes _ _ _ Hp); apply NoDup_durableSteps].
    apply project_Aggregate in Hp. cbn. apply Forall_map, Forall_forall. intros p Hin.
    apply list_elem_of_lookup in Hin as [n Hn]. destruct (Forall2_lookup_r _ _ _ _ _ Hp Hn) as ([i s] & Hrow & Hi & _ & Hs & _).
    exists s. cbn. cbn in Hi, Hs. rewrite Hi. split; [|done]. apply elem_of_durableSteps. by eapply list_elem_of_lookup_2.
Qed.

Lemma write_all_identity now ws job :
  let job' := write_all now ws job in
  command_id job' = command_id job /\ organization_id job' = organization_id job /\ agent_id job' = agent_id job /\
  intent_id job' = intent_id job /\ status job' = status job /\ started_at job' = started_at job /\
  finished_at job' = finished_at job.
Proof. revert job. induction ws as [|w ws IH]; intros job; [done|]. cbn. apply (IH (update_step _ _ _ _ _)). Qed.

Lemma durable_statuses job i : is_Some (statuses job !! i) <-> is_Some (durable job !! i).
Proof. unfold statuses. by rewrite lookup_fmap, fmap_is_Some. Qed.

Lemma statuses_write_all now ws job :
  Forall (fun w => is_Some (statuses job !! w.1)) ws ->
  statuses (write_all now ws job) = foldl (fun m w => <[w.1 := w.2.1]> m) (statuses job) ws.
Proof.
  revert job. induction ws as [|w ws IH]; intros job H; [done|]. inversion H as [|? ? Hw Hws]; subst. cbn.
  assert (statuses (update_step now w.1 w.2.1 w.2.2 job) = <[w.1 := w.2.1]> (statuses job)) as Hs.
  { by apply statuses_update_step, durable_statuses. }
  rewrite <- Hs. apply (IH (update_step _ _ _ _ _)). eapply Forall_impl; [exact Hws|]. cbn. intros w' Hw'.
  rewrite Hs. destruct (decide (w'.1 = w.1)) as [->|?]; [by rewrite lookup_insert_eq|by rewrite lookup_insert_ne].
Qed.

(** Everything a report that is accepted does to its job. *)
Lemma transition_job_Updated now id report job job' a b c d e f :
  transition_job ToNumber now id report job = (job', Updated a b c d e f) ->
  exists step ws, durable job !! stepIndex report = Some step /\
    stepTransitionAllowed (step_status step) (report_status report) = true /\
    ws = writes report (project report job) /\ (forall error, project report job <> Invalid error) /\
    Forall (admitted_write job) ws /\ NoDup (map fst ws) /\
    b = derived (write_all now ws job) /\ job' = update_job now b (write_all now ws job) /\
    (status job = report_status report \/ status job = running) /\ a = report_status report /\
    c = id /\ d = command_id job /\ e = organization_id job /\ f = agent_id job.
Proof.
  unfold transition_job. destruct (negb (_ || _)) eqn:Hs; [done|].
  destruct (durable job !! stepIndex report) as [step|] eqn:Hd; [|done].
  destruct (stepTransitionAllowed _ _) eqn:Ha; [|done]. cbn [negb]. fold (project report job). intros H.
  destruct (writes_admitted _ _ _ Hd Ha) as [Hw Hn].
  assert (forall ws, Forall (admitted_write job) ws -> Forall (fun w => is_Some (statuses job !! w.1)) ws) as Hsome.
  { intros ws Hws. apply (Forall_impl _ _ _ Hws). intros w (s & Hs' & _). apply durable_statuses. by rewrite Hs'. }
  apply negb_false_iff, orb_true_iff in Hs. rewrite !bool_decide_eq_true in Hs.
  exists step, (writes report (project report job)). destruct (project report job) as [|error|ps] eqn:Hp; [|done|].
  - injection H as <- <- <- <- <- <- <-. unfold derived.
    rewrite (statuses_write_all now _ job (Hsome _ Hw)). repeat split; done.
  - cbn in H. injection H as <- <- <- <- <- <- <-. unfold derived.
    rewrite (statuses_write_all now _ job (Hsome _ Hw)). unfold write_all. cbn [writes].
    rewrite !(foldl_fmap _ _ ps). repeat split; done.
Qed.

(** ** Outcomes *)

Definition finished (job : DurableJobState) : Prop := terminal (status job) /\ status job = derived job.

(** The job and each of its steps have the status they had. *)
Definition outcome_kept (job job' : DurableJobState) : Prop :=
  status job' = status job /\
  forall i step, steps job !! i = Some step ->
    exists step', steps job' !! i = Some step' /\ step_status step' = step_status step.

Lemma outcome_kept_refl job : outcome_kept job job.
Proof. split; [done|]. eauto. Qed.

Lemma outcome_kept_trans j1 j2 j3 : outcome_kept j1 j2 -> outcome_kept j2 j3 -> outcome_kept j1 j3.
Proof.
  intros [H1 H2] [H3 H4]. split; [congruence|]. intros i s Hs. destruct (H2 _ _ Hs) as (s' & Hs' & ?).
  destruct (H4 _ _ Hs') as (s'' & ? & ?). exists s''. split; congruence.
Qed.

Lemma update_step_keeps now w job i s :
  steps job !! i = Some s ->
  (w.1 = i -> durable job !! i = Some s -> w.2.1 = step_status s) ->
  exists s', steps (update_step now w.1 w.2.1 w.2.2 job) !! i = Some s' /\ step_status s' = step_status s /\
    step_organization_id s' = step_organization_id s.
Proof.
  intros Hs Hw. rewrite lookup_update_step. case_decide as Hi; [|by eauto]. rewrite Hs. cbn. eexists. split; [done|].
  unfold reported. case_bool_decide as Ho; [|done]. split; [|done]. apply Hw; [done|]. by apply lookup_durable.
Qed.

Lemma write_all_keeps now ws job i s :
  steps job !! i = Some s ->
  Forall (fun w => w.1 = i -> durable job !! i = Some s -> w.2.1 = step_status s) ws ->
  exists s', steps (write_all now ws job) !! i = Some s' /\ step_status s' = step_status s.
Proof.
  revert job s. induction ws as [|w ws IH]; intros job s Hs Hall; [by eauto|]. inversion Hall as [|? ? Hw Hws]; subst.
  destruct (update_step_keeps now w job i s Hs Hw) as (s1 & Hs1 & Hst & Ho).
  destruct (IH (update_step now w.1 w.2.1 w.2.2 job) s1 Hs1) as (s' & ? & ?).
  - apply (Forall_impl _ _ _ Hws). intros w' H' Hi Hd. rewrite Hst. apply H'; [done|].
    apply lookup_durable in Hd as [_ Hd]. apply lookup_durable. split; [done|]. by rewrite <- Ho.
  - exists s'. split; [done|congruence].
Qed.

(** A report that is accepted changes no step that has its outcome. *)
Lemma transition_keeps_steps now id report job job' a b c d e f i s :
  transition_job ToNumber now id report job = (job', Updated a b c d e f) ->
  steps job !! i = Some s -> terminal (step_status s) \/ durable job !! i = None ->
  exists s', steps job' !! i = Some s' /\ step_status s' = step_status s.
Proof.
  intros (step & ws & _ & _ & _ & _ & Hw & _ & _ & -> & _)%transition_job_Updated Hs Ht.
  apply (write_all_keeps now ws job i s Hs). apply (Forall_impl _ _ _ Hw). intros w (s' & Hs' & Ha) <- Hd.
  destruct Ht as [Ht|Hn]; [|congruence]. rewrite Hd in Hs'. injection Hs' as <-. by apply terminal_allowed.
Qed.

Lemma transition_derived now id report job job' a b c d e f :
  transition_job ToNumber now id report job = (job', Updated a b c d e f) -> status job' = derived job'.
Proof. by intros (step & ws & _ & _ & _ & _ & _ & _ & -> & -> & _)%transition_job_Updated. Qed.

Lemma insert_statuses (ws : list (Z * (text * option Json))) (m : gmap Z text) :
  Forall (fun w => m !! w.1 = Some w.2.1) ws -> foldl (fun m w => <[w.1 := w.2.1]> m) m ws = m.
Proof. induction 1 as [|w ws Hw _ IH]; [done|]. cbn. by rewrite insert_id. Qed.

Lemma transition_finished now id report job job' a b c d e f :
  finished job -> transition_job ToNumber now id report job = (job', Updated a b c d e f) ->
  finished job' /\ outcome_kept job job'.
Proof.
  intros [Ht Hd] H. pose proof (transition_derived _ _ _ _ _ _ _ _ _ _ _ H) as Hd'.
  assert (forall i s, durable job !! i = Some s -> terminal (step_status s)) as Hterm.
  { intros i s. apply statuses_terminal. by rewrite <- Hd. }
  assert (status job' = status job) as Hst.
  { rewrite Hd', Hd. apply transition_job_Updated in H as (step & ws & _ & _ & _ & _ & Hw & _ & _ & -> & _).
    change (derived (write_all now ws job) = derived job). unfold derived. rewrite statuses_write_all, insert_statuses; [done| |].
    - apply (Forall_impl _ _ _ Hw). intros w (s & Hs & Ha). unfold statuses. rewrite lookup_fmap, Hs. cbn. f_equal.
      symmetry. apply terminal_allowed; [|done]. by apply (Hterm w.1).
    - apply (Forall_impl _ _ _ Hw). intros w (s & Hs & _). apply durable_statuses. by rewrite Hs. }
  split; [split; [by rewrite Hst|done]|]. split; [done|]. intros i s Hs.
  eapply transition_keeps_steps; [exact H|done|]. destruct (durable job !! i) as [s'|] eqn:Hi; [left|by right].
  apply lookup_durable in Hi as Hi'. destruct Hi' as [Hi' _]. rewrite Hs in Hi'. injection Hi' as <-. by apply (Hterm i).
Qed.

(** ** Repeated reports *)

Definition written (w : Z * (text * option Json)) (job : DurableJobState) : Prop :=
  forall s, durable job !! w.1 = Some s ->
    step_status s = w.2.1 /\ default (evidence_jsonb s) w.2.2 = evidence_jsonb s /\ is_Some (step_started_at s) /\
    (terminal w.2.1 -> is_Some (step_finished_at s)).

Lemma update_step_written now w job : written w (update_step now w.1 w.2.1 w.2.2 job).
Proof.
  intros s [Hs Ho]%lookup_durable. rewrite lookup_update_step, decide_True in Hs by done.
  destruct (steps job !! w.1) as [s0|] eqn:H0; [|done]. cbn in Hs. injection Hs as <-. unfold reported in *.
  case_bool_decide as Hb; [|done]. unfold report_step, coalesce. cbn. split; [done|]. split; [by destruct w.2.2|].
  split; [by destruct (step_started_at s0); cbn|]. intros ->. by destruct (step_finished_at s0); cbn.
Qed.

Lemma written_other now w w' job : w.1 <> w'.1 -> written w job -> written w (update_step now w'.1 w'.2.1 w'.2.2 job).
Proof.
  intros Hn Hw s [Hs Ho]%lookup_durable. apply Hw, lookup_durable. rewrite lookup_update_step, decide_False in Hs by done.
  done.
Qed.

Lemma write_all_written now ws job w : NoDup (map fst ws) -> w ∈ ws -> written w (write_all now ws job).
Proof.
  intros Hn Hin. assert (forall ws job, w.1 ∉ map fst ws -> written w job -> written w (write_all now ws job)) as Hlater.
  { clear ws Hn Hin job. induction ws as [|w' ws IH]; intros job Hn Hw; [done|]. cbn. cbn in Hn.
    rewrite not_elem_of_cons in Hn. destruct Hn. apply (IH (update_step _ _ _ _ _)); [done|]. by apply written_other. }
  revert job Hn Hin. induction ws as [|w' ws IH]; intros job Hn Hin; [by apply elem_of_nil in Hin|].
  cbn in Hn. apply NoDup_cons in Hn as [Hn Hn']. apply elem_of_cons in Hin as [->|Hin].
  - apply (Hlater ws (update_step now w'.1 w'.2.1 w'.2.2 job)); [done|]. apply update_step_written.
  - by apply (IH (update_step _ _ _ _ _)).
Qed.

Lemma written_unchanged now w job : written w job -> update_step now w.1 w.2.1 w.2.2 job = job.
Proof.
  intros Hw. unfold update_step. rewrite alter_id; [by destruct job|]. intros s Hs. case_bool_decide as Ho; [|done].
  destruct (Hw s) as (Hst & He & [t Hstart] & Hfin); [by apply lookup_durable|]. unfold report_step, coalesce.
  rewrite He, Hstart, <- Hst in *. destruct s as [c st ev o started fin]. cbn in *. f_equal; [done|].
  destruct (isTerminalRemediationStatus st) eqn:Ht; [|done]. destruct (Hfin Ht) as [u ->]. done.
Qed.

Lemma write_all_again now ws job : Forall (fun w => written w job) ws -> write_all now ws job = job.
Proof. induction 1 as [|w ws Hw _ IH]; [done|]. cbn. by rewrite written_unchanged. Qed.

(** The writes keep the set of steps, and with it their order. *)
Lemma write_all_durable now ws job i : is_Some (durable (write_all now ws job) !! i) <-> is_Some (durable job !! i).
Proof.
  revert job. induction ws as [|w ws IH]; intros job; [done|].
  etransitivity; [apply (IH (update_step now w.1 w.2.1 w.2.2 job))|].
  destruct (decide (i = w.1)) as [->|Hi].
  - split; intros [s [Hs Ho]%lookup_durable].
    + rewrite lookup_update_step, decide_True in Hs by done. destruct (steps job !! w.1) as [s0|] eqn:H0; [|done].
      exists s0. apply lookup_durable. split; [done|]. cbn in Hs. injection Hs as <-. unfold reported in Ho.
      case_bool_decide; [done|exact Ho].
    + eexists. apply lookup_durable. rewrite lookup_update_step, decide_True, Hs by done. cbn. split; [done|].
      unfold reported. by case_bool_decide.
  - by rewrite <- !durable_statuses; unfold statuses; rewrite !lookup_fmap, !fmap_is_Some;
      (split; intros [s [Hs Ho]%lookup_durable]; exists s; apply lookup_durable;
        rewrite lookup_update_step, decide_False in * by done).
Qed.

Lemma durableSteps_indexes j1 j2 :
  (forall i, is_Some (durable j1 !! i) <-> is_Some (durable j2 !! i)) -> map fst (durableSteps j1) = map fst (durableSteps j2).
Proof.
  intros H. assert (forall j, Sorted Z.le (map fst (durableSteps j))) as Hsorted.
  { intros j. apply (Sorted_fmap fst index_le Z.le); [done|]. apply Sorted_merge_sort. intros x y. unfold index_le. lia. }
  apply (Sorted_unique Z.le); [apply Hsorted..|]. apply NoDup_Permutation; [apply NoDup_durableSteps..|].
  intros i. change (map fst ?l) with (fst <$> l). rewrite !list_elem_of_fmap. split; intros ([k s] & -> & Hs%elem_of_durableSteps).
  - destruct (proj1 (H k)) as [s' Hs']; [by rewrite Hs|]. exists (k, s'). split; [done|]. by apply elem_of_durableSteps.
  - destruct (proj2 (H k)) as [s' Hs']; [by rewrite Hs|]. exists (k, s'). split; [done|]. by apply elem_of_durableSteps.
Qed.

Lemma read_reported_durable d1 d2 values m :
  (forall i, is_Some (d1 !! i) <-> is_Some (d2 !! i)) -> read_reported ToNumber d1 values m = read_reported ToNumber d2 values m.
Proof.
  intros H. revert m. induction values as [|v values IH]; intros m; [done|]. cbn [read_reported].
  apply bind_ext. intros record _. apply bind_ext. intros index _. apply bind_ext. intros st _.
  rewrite (bool_decide_ext _ _ (H index)). by rewrite IH.
Qed.

Definition write_of (p : TerminalStepProjection) : Z * (text * option Json) :=
  (projected_index p, (projected_status p, Some (JObject (projected_evidence p)))).

Lemma rows_written job (l : list (Z * DurableStepState)) ps :
  map fst l = map fst (map write_of ps) -> Forall (fun row => durable job !! row.1 = Some row.2) l ->
  Forall (fun w => written w job) (map write_of ps) ->
  Forall2 (fun row p => projected_index p = row.1 /\ step_status row.2 = projected_status p) l ps.
Proof.
  revert l. induction ps as [|p ps IH]; intros [|[i s] l] Hi Hl Hw; [constructor|done|done|].
  cbn in Hi. injection Hi as Hi Hil. inversion Hl as [|? ? Hs Hls]; subst. inversion Hw as [|? ? Hp Hps]; subst.
  constructor; [|by apply IH]. cbn. split; [done|]. by destruct (Hp s Hs).
Qed.

Lemma project_again now report job step b :
  durable job !! stepIndex report = Some step ->
  stepTransitionAllowed (step_status step) (report_status report) = true ->
  project report (update_job now b (write_all now (writes report (project report job)) job)) = project report job \/
  exists error, project report job = Invalid error.
Proof.
  intros Hd Ha. destruct (project report job) as [|error|ps] eqn:Hp; [left|by eauto|left].
  - unfold project in *. case_match; [|done]. unfold terminalStepProjection in *.
    destruct (asRecord _ ≫= _) as [v|]; [|done]. destruct v as [| | | |values|]; try done.
    by repeat (case_match; try done).
  - pose proof (writes_indexes _ _ _ Hp) as Hi. pose proof (NoDup_durableSteps job) as Hn. rewrite <- Hi in Hn.
    set (ws := writes report (Aggregate ps)) in *. pose proof (write_all_written now ws job) as Hwritten. set (job' := write_all now ws job) in *.
    pose proof (durableSteps_indexes job' job (write_all_durable now ws job)) as Hidx.
    pose proof (project_Aggregate _ _ _ Hp) as Hproj. unfold project in Hp |- *. case_match; [|done].
    apply terminalStepProjection_Aggregate in Hp as (fields & values & m & Hf & Hv & Hm & Hin & Hps & Hder).
    change (durableSteps (update_job now b job')) with (durableSteps job').
    change (durable (update_job now b job')) with (durable job').
    unfold terminalStepProjection. rewrite Hf. cbn [mbind option_bind]. rewrite Hv.
    rewrite (read_reported_durable _ _ _ _ (write_all_durable now ws job)), Hm. rewrite bind_Ok.
    rewrite bool_decide_eq_true_2 by done. cbn [negb].
    rewrite (project_steps_again _ _ _ _ (durableSteps job') Hps).
    + rewrite bind_Ok, bool_decide_eq_true_2 by done. done.
    + by apply (Forall2_impl _ _ _ _ Hproj); intros ? ? [].
    + apply (rows_written job'); [by rewrite Hidx, <- Hi| |].
      * apply Forall_forall. intros [i s] Hs. by apply elem_of_durableSteps.
      * apply Forall_forall. intros w Hw. by apply Hwritten.
Qed.

Definition updated (result : RemediationTransitionResult) : bool :=
  match result with Updated _ _ _ _ _ _ => true | _ => false end.

Lemma transition_refused now id report job :
  updated (transition_job ToNumber now id report job).2 = false -> (transition_job ToNumber now id report job).1 = job.
Proof. unfold transition_job. by repeat case_match. Qed.

(** A report that was accepted finds its own writes when it comes again. *)
Lemma transition_again now now' id report job job' a b c d e f :
  transition_job ToNumber now id report job = (job', Updated a b c d e f) ->
  (transition_job ToNumber now' id report job').1 = job' /\
  forall a' b' c' d' e' f', (transition_job ToNumber now' id report job').2 = Updated a' b' c' d' e' f' ->
    Updated a' b' c' d' e' f' = Updated a b c d e f.
Proof.
  intros (step & ws & Hd & Ha & Hws & Hv & Hw & Hn & Hb & Hj & _ & Hids)%transition_job_Updated.
  destruct (transition_job ToNumber now' id report job') as [job2 result] eqn:H2.
  assert (forall a' b' c' d' e' f', result = Updated a' b' c' d' e' f' ->
    job2 = job' /\ Updated a' b' c' d' e' f' = Updated a b c d e f) as Hsame.
  { intros a' b' c' d' e' f' ->.
    apply transition_job_Updated in H2 as (step2 & ws2 & _ & _ & Hws2 & _ & _ & _ & Hb2 & Hj2 & _ & Hids2).
    destruct (project_again now report job step b Hd Ha) as [Hp|[error Hp]]; [|by destruct (Hv error)].
    rewrite <- Hws, <- Hj in Hp. rewrite Hp, <- Hws in Hws2. subst ws2.
    rewrite (write_all_again now' ws job') in Hb2, Hj2.
    2,3: subst job'; apply Forall_forall; intros w Hin; exact (write_all_written now ws job w Hn Hin).
    assert (derived job' = b) as Hb' by (subst job'; done). rewrite Hb' in Hb2. subst b'.
    destruct (write_all_identity now ws job) as (Hc & Ho & Hag & _).
    split; [|destruct_and!; subst; by f_equal]. subst job2 job'. unfold update_job, set_status, coalesce. cbn. f_equal.
    - by destruct (started_at _).
    - destruct (isTerminalRemediationStatus b); [|done]. by destruct (finished_at _). }
  split; [|by intros; apply Hsame]. destruct (updated result) eqn:Hu.
  - destruct result; try done. by destruct (Hsame _ _ _ _ _ _ eq_refl).
  - pose proof (transition_refused now' id report job') as Hr. rewrite H2 in Hr. by apply Hr.
Qed.

End life.
