(* ===== verification/RemediationHistory.v ===== *)
(** Remediation jobs through any sequence of requests to the backend: what a projection, a
    claim and a report do to the table, and the properties of every table they lead to. *)

From stdpp Require Import sorting.
From S2P Require Import Prelude Bytes Text Json Remediation RemediationLife.

Import Remediation.

Local Open Scope Z_scope.

#[local] Arguments isTerminalRemediationStatus : simpl never.

(** ** How one job changes *)

Definition generic (job : DurableJobState) : Prop := intent_id job <> PATCH_INSTALL_INTENT_ID.

(** The status of a job that is over is the one its steps give. *)
Definition sound (job : DurableJobState) : Prop := generic job -> terminal (status job) -> finished job.

Definition same_identity (job job' : DurableJobState) : Prop :=
  command_id job' = command_id job /\ organization_id job' = organization_id job /\
  agent_id job' = agent_id job /\ intent_id job' = intent_id job.

Definition evolves (job job' : DurableJobState) : Prop :=
  same_identity job job' /\
  (started (status job) = true -> started (status job') = true) /\
  (generic job -> finished job -> finished job' /\ outcome_kept job job') /\
  (sound job -> sound job').

Lemma same_identity_trans j1 j2 j3 : same_identity j1 j2 -> same_identity j2 j3 -> same_identity j1 j3.
Proof. unfold same_identity. intuition congruence. Qed.

Lemma evolves_refl job : evolves job job.
Proof. unfold evolves, same_identity. split_and!; try done. intros. split; [done|]. apply outcome_kept_refl. Qed.

Lemma terminal_started st : terminal st -> started st = true.
Proof.
  unfold terminal, isTerminalRemediationStatus, started. rewrite !includes_spec. intros H.
  unfold REPORTABLE_STATUSES. apply elem_of_cons. by right.
Qed.

Lemma derive_started l : started (deriveJobStatus l) = true.
Proof. unfold deriveJobStatus. by repeat case_match. Qed.

Lemma unstarted_evolves job job' :
  same_identity job job' -> started (status job) = false -> ~ terminal (status job') -> evolves job job'.
Proof.
  intros Hi Hs Ht. unfold evolves. split_and!; [done|congruence| |by intros _ _ ?].
  intros _ [H%terminal_started _]. congruence.
Qed.

(** ** How the table changes *)

Definition table_evolves (m m' : gmap Z DurableJobState) : Prop :=
  forall id, option_Forall2 evolves (m !! id) (m' !! id).

Lemma table_evolves_refl m : table_evolves m m.
Proof. intros id. destruct (m !! id); constructor. apply evolves_refl. Qed.

Lemma table_evolves_insert m0 m id job job' :
  table_evolves m0 m -> m0 !! id = Some job -> evolves job job' -> table_evolves m0 (<[id := job']> m).
Proof.
  intros H Hid He k. destruct (decide (k = id)) as [->|Hk]; [rewrite lookup_insert_eq, Hid; by constructor|].
  rewrite lookup_insert_ne by done. apply H.
Qed.

Lemma table_evolves_foldl m0 m rows :
  table_evolves m0 m -> Forall (fun row => exists job, m0 !! row.1 = Some job /\ evolves job row.2) rows ->
  table_evolves m0 (foldl (fun m row => <[row.1 := row.2]> m) m rows).
Proof.
  intros H Hrows. revert m H. induction Hrows as [|row rows (job & Hid & He) _ IH]; intros m H; [done|]. cbn.
  apply IH. by eapply table_evolves_insert.
Qed.

Record Wf (db : Database) : Prop := {
  wf_ids : forall id job, jobs db !! id = Some job -> id < next_id db;
  wf_commands : forall id1 id2 j1 j2 c, jobs db !! id1 = Some j1 -> jobs db !! id2 = Some j2 ->
    command_id j1 = Some c -> command_id j2 = Some c -> id1 = id2;
  wf_sound : forall id job, jobs db !! id = Some job -> sound job }.

(** Every job is still there. *)
Definition goes_on (db db' : Database) : Prop :=
  forall id job, jobs db !! id = Some job -> exists job', jobs db' !! id = Some job' /\ evolves job job'.

Lemma goes_on_refl db : goes_on db db.
Proof. intros id job H. exists job. split; [done|apply evolves_refl]. Qed.

Lemma evolves_trans j1 j2 j3 : evolves j1 j2 -> evolves j2 j3 -> evolves j1 j3.
Proof.
  intros (Hi & Hs & Hf & Hd) (Hi' & Hs' & Hf' & Hd'). unfold evolves. split_and!; [|by auto| |by auto].
  - by eapply same_identity_trans.
  - intros Hg Hfin. destruct (Hf Hg Hfin) as [Hfin' Ho]. destruct Hf' as [Hfin'' Ho']; [|done|].
    + unfold generic in *. destruct Hi as (_ & _ & _ & Hi). congruence.
    + split; [done|]. by eapply outcome_kept_trans.
Qed.

Lemma goes_on_trans db1 db2 db3 : goes_on db1 db2 -> goes_on db2 db3 -> goes_on db1 db3.
Proof.
  intros H H' id job Hj. destruct (H _ _ Hj) as (j2 & Hj2 & ?). destruct (H' _ _ Hj2) as (j3 & Hj3 & ?).
  exists j3. split; [done|]. by eapply evolves_trans.
Qed.

Lemma table_goes_on db db' :
  Wf db -> next_id db' = next_id db -> table_evolves (jobs db) (jobs db') -> Wf db' /\ goes_on db db'.
Proof.
  intros [Hids Hcmd Hsound] Hn H.
  assert (forall id job', jobs db' !! id = Some job' -> exists job, jobs db !! id = Some job /\ evolves job job') as Hback.
  { intros id job' Hj. specialize (H id). rewrite Hj in H. inversion H; subst. eauto. }
  split; [split|].
  - intros id job' Hj. destruct (Hback _ _ Hj) as (job & Hj' & _). rewrite Hn. by eapply Hids.
  - intros id1 id2 j1 j2 c H1 H2 Hc1 Hc2. destruct (Hback _ _ H1) as (k1 & Hk1 & [Hi1 _] & _).
    destruct (Hback _ _ H2) as (k2 & Hk2 & [Hi2 _] & _). apply (Hcmd _ _ _ _ c Hk1 Hk2); congruence.
  - intros id job' Hj. destruct (Hback _ _ Hj) as (job & Hj' & _ & _ & _ & Hs). by eapply Hs, Hsound.
  - intros id job Hj. specialize (H id). rewrite Hj in H. inversion H; subst. eauto.
Qed.

(** ** The operations *)

Lemma find_rows (p : Z * DurableJobState -> bool) m row :
  List.find p (map_to_list m) = Some row -> m !! row.1 = Some row.2 /\ p row = true.
Proof. intros [Hin Hp]%find_some. split; [|done]. destruct row. apply elem_of_map_to_list. by apply list_elem_of_In. Qed.

Lemma find_rows_None (p : Z * DurableJobState -> bool) m id job :
  List.find p (map_to_list m) = None -> m !! id = Some job -> p (id, job) = false.
Proof. intros Hn Hj. apply (find_none _ _ Hn). apply list_elem_of_In. by apply elem_of_map_to_list. Qed.

Section history.
Context (ToNumber : Json -> Number) (show_number : Number -> text).
Context (parseBigIntValue : option Json -> option Z).

Lemma transition_identity now id report job job' a b c d e f :
  transition_job ToNumber now id report job = (job', Updated a b c d e f) -> same_identity job job'.
Proof.
  intros (step & ws & _ & _ & _ & _ & _ & _ & _ & -> & _)%transition_job_Updated.
  destruct (write_all_identity now ws job) as (? & ? & ? & ? & _). done.
Qed.

Lemma transition_evolves now id report job job' a b c d e f :
  transition_job ToNumber now id report job = (job', Updated a b c d e f) -> evolves job job'.
Proof.
  intros H. pose proof (transition_derived _ _ _ _ _ _ _ _ _ _ _ _ H) as Hd. unfold evolves. split_and!.
  - by eapply transition_identity.
  - intros _. rewrite Hd. apply derive_started.
  - intros _ Hf. by eapply transition_finished.
  - intros _ _ Ht. done.
Qed.

(** A report leaves the table as it is, or is accepted by one job. *)
Lemma transition_cases now selector report db :
  let r := transitionRemediationStatus ToNumber now selector report db in
  (r.1 = db /\ updated r.2 = false) \/
  exists id job job' a b c d e f, jobs db !! id = Some job /\ selects selector id job = true /\
    transition_job ToNumber now id report job = (job', Updated a b c d e f) /\
    r = (set_job id job' db, Updated a b c d e f).
Proof.
  unfold transitionRemediationStatus. destruct (List.find _ _) as [[id job]|] eqn:Hf; [|by left].
  apply find_rows in Hf as [Hj Hs]. cbn in Hj, Hs. destruct (transition_job _ _ _ _ _) as [job' result] eqn:Ht.
  destruct result as [| | | | |a b c d e f]; try (by left). right. by exists id, job, job', a, b, c, d, e, f.
Qed.

Lemma transition_goes_on now selector report db :
  Wf db -> let db' := (transitionRemediationStatus ToNumber now selector report db).1 in Wf db' /\ goes_on db db'.
Proof.
  intros Hwf. cbn zeta. destruct (transition_cases now selector report db) as [[-> _]|H]; [by split; [|apply goes_on_refl]|].
  destruct H as (id & job & job' & a & b & c & d & e & f & Hj & _ & Ht & ->). cbn.
  apply table_goes_on; [done..|]. eapply table_evolves_insert; [apply table_evolves_refl|done|]. by eapply transition_evolves.
Qed.

Lemma transition_all_goes_on now items db db' :
  Wf db -> transition_all ToNumber now items db = Ok db' -> Wf db' /\ goes_on db db'.
Proof.
  revert db. induction items as [|[selector report] items IH]; intros db Hwf H.
  - injection H as <-. split; [done|apply goes_on_refl].
  - cbn in H. destruct (transition_goes_on now selector report db Hwf) as [Hwf1 Hg1].
    destruct (transitionRemediationStatus _ _ _ _ _) as [db1 result]. destruct result; try done.
    destruct (IH db1 Hwf1 H) as [Hwf2 Hg2]. split; [done|]. by eapply goes_on_trans.
Qed.

Lemma claimable_queued agent scope job : claimable agent scope job = true -> status job = queued.
Proof. unfold claimable. rewrite !andb_true_iff, bool_decide_eq_true. tauto. Qed.

(** What a claim takes: jobs of the agent that wait, each once. *)
Lemma claim_rows now agent limit scope locked db row :
  row ∈ (claim now agent limit scope locked db).2 ->
  exists job, jobs db !! row.1 = Some job /\ claimable agent scope job = true /\ row.2 = claim_job now job.
Proof.
  unfold claim. cbn. intros (row' & -> & Hin)%list_elem_of_fmap. cbn. exists row'.2.
  apply elem_of_take in Hin as (n & Hin & _). apply list_elem_of_lookup_2, list_elem_of_In in Hin.
  rewrite filter_In, andb_true_iff in Hin. destruct Hin as [Hin [Hc _]]. split; [|done].
  apply list_elem_of_In in Hin. rewrite merge_sort_Permutation in Hin. destruct row'. by apply elem_of_map_to_list.
Qed.

Lemma claim_evolves now job : status job = queued -> evolves job (claim_job now job).
Proof. intros Hq. apply unstarted_evolves; [done|by rewrite Hq|done]. Qed.

Lemma claim_goes_on now agent limit scope locked db :
  Wf db -> let db' := (claim now agent limit scope locked db).1 in Wf db' /\ goes_on db db'.
Proof.
  intros Hwf. apply table_goes_on; [done..|]. cbn. apply table_evolves_foldl; [apply table_evolves_refl|].
  apply Forall_forall. intros row Hin. destruct (claim_rows now agent limit scope locked db row Hin) as (job & Hj & Hc & ->).
  exists job. split; [done|]. eapply claim_evolves, claimable_queued, Hc.
Qed.

Lemma stale_goes_on now agent minutes db :
  Wf db -> let db' := failStalePatchJobsForAgent now agent minutes db in Wf db' /\ goes_on db db'.
Proof.
  intros Hwf. apply table_goes_on; [done..|]. intros id. cbn. rewrite lookup_fmap. destruct (jobs db !! id) as [job|]; constructor.
  destruct (stale now agent minutes job) eqn:Hs; [|apply evolves_refl].
  unfold stale in Hs. rewrite !andb_true_iff, !bool_decide_eq_true in Hs. destruct Hs as [[[_ Hp] Hr] _].
  unfold evolves, same_identity. split_and!; try done.
Qed.

(** ** Projection *)

(** A job that has started is left as it is; another one still waits afterwards. *)
Definition refreshed (job job' : DurableJobState) : Prop :=
  (started (status job) = true /\ job' = job) \/
  (started (status job) = false /\ same_identity job job' /\ started (status job') = false).

Lemma refresh_job_refreshed now o st metadata job :
  started st = false -> refreshed job (refresh_job now o st metadata job).
Proof. unfold refresh_job, refreshed. destruct (started (status job)) eqn:Hs; [by left|by right]. Qed.

Lemma refresh_request_refreshed now metadata job : refreshed job (refresh_request now metadata job).
Proof. unfold refresh_request, refreshed. destruct (started (status job)) eqn:Hs; [by left|by right]. Qed.

(** A projection adds a job under a new identifier, unless a job has its command. *)
Lemma upsert_job_cases now o st metadata db db1 id job1 :
  started st = false -> upsert_job now o st metadata db = Ok (db1, id, job1) ->
  (id = next_id db /\ job1 = new_job now o st metadata /\
   db1 = {| jobs := <[id := job1]> (jobs db); next_id := id + 1 |} /\
   forall c k job, truthy (option_command_id o) = Some c -> jobs db !! k = Some job -> command_id job <> Some c) \/
  exists job, jobs db !! id = Some job /\ command_id job = truthy (option_command_id o) /\ refreshed job job1 /\
    db1 = set_job id job1 db.
Proof.
  intros Hst. unfold upsert_job, find_job.
  assert (forall c, List.find (fun kv => bool_decide (command_id kv.2 = Some c)) (map_to_list (jobs db)) = None ->
    forall c' k job, Some c = Some c' -> jobs db !! k = Some job -> command_id job <> Some c') as Hnone.
  { intros c Hn c' k job [= ->] Hj. pose proof (find_rows_None _ _ _ _ Hn Hj) as Hb.
    by apply bool_decide_eq_false in Hb. }
  pose proof (refresh_job_refreshed now o st metadata) as Hr. pose proof (refresh_request_refreshed now metadata) as Hr'.
  destruct (truthy (option_command_id o)) as [c|], (truthy (option_dedupe_key o)) as [d|].
  - destruct (List.find _ _) as [row|] eqn:Hf; [|destruct (List.find _ _) as [|] eqn:Hf' in |- *; [done|]].
    + apply find_rows in Hf as [Hj _]. destruct (_ && _) eqn:Hp; [|done]. intros [= <- <- <-]. right.
      apply andb_true_iff in Hp as [Hp _]. apply bool_decide_eq_true in Hp. exists row.2. auto.
    + intros [= <- <- <-]. left. split_and!; try done. by apply Hnone.
  - destruct (List.find _ _) as [row|] eqn:Hf.
    + apply find_rows in Hf as [Hj Hp]. apply bool_decide_eq_true in Hp. destruct (_ && _); [|done].
      intros [= <- <- <-]. right. exists row.2. auto.
    + intros [= <- <- <-]. left. split_and!; try done. by apply Hnone.
  - destruct (List.find _ _) as [row|] eqn:Hf.
    + apply find_rows in Hf as [Hj _]. destruct (_ && _) eqn:Hp; [|done]. intros [= <- <- <-]. right.
      apply andb_true_iff in Hp as [Hp _]. apply bool_decide_eq_true in Hp. exists row.2. auto.
    + intros [= <- <- <-]. by left.
  - intros [= <- <- <-]. by left.
Qed.

(** The entry of the list names a step that is there. *)
Definition present (organization : text) (rows : gmap Z DurableStepState) (i : Z) (value : Json) : Prop :=
  forall index step, read_step ToNumber organization i value = Some (index, step) -> is_Some (rows !! index).

Lemma upsert_steps_present organization i values rows n rows' n' :
  (forall k value, values !! k = Some value -> present organization rows (i + Z.of_nat k) value) ->
  upsert_steps ToNumber organization false i values rows n = Ok (rows', n') -> rows' = rows.
Proof.
  revert i n. induction values as [|v values IH]; intros i n Hp H; [by injection H as <- _|].
  assert (forall k value, values !! k = Some value -> present organization rows (i + 1 + Z.of_nat k) value) as Hp'.
  { intros k value Hk. replace (i + 1 + Z.of_nat k) with (i + Z.of_nat (S k)) by lia. by apply Hp. }
  specialize (Hp 0%nat v eq_refl). rewrite Z.add_0_r in Hp. cbn [upsert_steps] in H.
  destruct (read_step _ _ _ _) as [[index step]|] eqn:Hr; [|by apply (IH _ _ Hp' H)].
  destruct (_ || _); [done|]. destruct (Hp _ _ Hr) as [old Hold]. rewrite Hold in H.
  destruct (bool_decide _); by apply (IH _ _ Hp' H).
Qed.

(** A command that comes again for a job that is over brings no further steps. *)
Definition redelivered (o : RemediationJobInsertOptions) (db : Database) : Prop :=
  forall id job k value, jobs db !! id = Some job -> command_id job = truthy (option_command_id o) ->
    terminal (status job) -> asArray (option_steps o) !! k = Some value ->
    present (option_organization_id o) (steps job) (Z.of_nat k) value.

Lemma unstarted_not_terminal st : started st = false -> ~ terminal st.
Proof. intros Hs Ht%terminal_started. congruence. Qed.

Lemma new_job_goes_on db job :
  Wf db -> started (status job) = false ->
  (forall c k job', command_id job = Some c -> jobs db !! k = Some job' -> command_id job' <> Some c) ->
  let db' := {| jobs := <[next_id db := job]> (jobs db); next_id := next_id db + 1 |} in Wf db' /\ goes_on db db'.
Proof.
  intros [Hids Hcmd Hsound] Hs Hnew db'. split; [split|].
  - intros id j. cbn. rewrite lookup_insert_Some. intros [[<- _]|[_ Hj%Hids]]; lia.
  - intros id1 id2 j1 j2 c. cbn. rewrite !lookup_insert_Some. intros [[<- <-]|[_ H1]] [[<- <-]|[_ H2]] Hc1 Hc2; [done| | |].
    + by destruct (Hnew c id2 j2).
    + by destruct (Hnew c id1 j1).
    + by apply (Hcmd _ _ _ _ c H1 H2).
  - intros id j. cbn. rewrite lookup_insert_Some. intros [[<- <-]|[_ Hj]]; [|by apply (Hsound _ _ Hj)].
    intros _ Ht. by apply unstarted_not_terminal in Ht.
  - intros id j Hj. exists j. split; [|apply evolves_refl]. cbn. rewrite lookup_insert_ne; [done|].
    intros Hid. apply Hids in Hj. lia.
Qed.

Lemma insert_goes_on now device_organization o db db' r :
  Wf db -> started (default queued (truthy (option_status o))) = false -> redelivered o db ->
  insertRemediationJob ToNumber now device_organization o db = Ok (db', r) -> Wf db' /\ goes_on db db'.
Proof.
  intros Hwf Hst Hre H. unfold insertRemediationJob in H. run_inv.
  destruct x0 as [[db1 id] job1]. run_inv. destruct x0 as [rows n]. injection Hk as <- <-.
  destruct (upsert_job_cases _ _ _ _ _ _ _ _ Hst Hb) as [(-> & -> & -> & Hnew)|(job & Hj & Hc & Hr & ->)].
  - unfold set_job. cbn [jobs next_id]. rewrite insert_insert_eq. by apply new_job_goes_on.
  - apply table_goes_on; [done..|]. unfold set_job. cbn [jobs]. rewrite insert_insert_eq.
    eapply table_evolves_insert; [apply table_evolves_refl|exact Hj|].
    destruct Hr as [[Hs ->]|(Hs & Hi & Hs')].
    + destruct (isTerminalRemediationStatus (status job)) eqn:Ht.
      * rewrite Hs in Hb0. apply upsert_steps_present in Hb0 as ->; [by destruct job; apply evolves_refl|].
        intros k value Hk. by apply (Hre id job).
      * unfold evolves. split_and!; [done|done| |]; unfold sound, finished, terminal; cbn; rewrite Ht; [by intros _ []|done].
    + apply unstarted_evolves; [done|done|]. by apply unstarted_not_terminal.
Qed.

(** ** Histories *)

(** The requests that write the tables. A claim of patch jobs is two transactions, between
    which other requests may come. *)
Inductive step : Database -> Database -> Prop :=
  | by_project now device_organization body db :
      (forall o, read_options parseBigIntValue (default [] (asRecord (Some body))) = Some o -> redelivered o db) ->
      step db (project_route ToNumber parseBigIntValue now device_organization body db).1
  | by_claim now agentId body locked db : step db (claim_route ToNumber now agentId body locked db).1
  | by_patch_claim now agentId staleMinutes limit locked db :
      step db (patch_claim_route now agentId staleMinutes limit locked db).1
  | by_stale now agentId staleMinutes db : step db (failStalePatchJobsForAgent now agentId staleMinutes db)
  | by_patch_rows now agentId limit locked db : step db (claim now agentId limit Patch locked db).1
  | by_report now agentId id scope body db :
      step db (status_route ToNumber show_number now agentId id scope body db).1
  | by_reports now body db : step db (statuses_route ToNumber show_number now body db).1.

Definition no_jobs : Database := {| jobs := ∅; next_id := 1 |}.

Lemma no_jobs_wf : Wf no_jobs.
Proof. by split. Qed.

Lemma read_options_waits body o :
  read_options parseBigIntValue body = Some o -> started (default queued (truthy (option_status o))) = false.
Proof.
  unfold read_options. intros H.
  repeat (apply bind_Some in H as (? & _ & H)). injection H as <-. cbn [option_status]. by destruct (bool_decide _).
Qed.

Lemma step_goes_on db db' : Wf db -> step db db' -> Wf db' /\ goes_on db db'.
Proof.
  intros Hwf H.
  destruct H as [now devices body db Hre|now agent body locked db|now agent m limit locked db|now agent m db
    |now agent limit locked db|now agent id scope body db|now body db].
  - unfold project_route. destruct (read_options _ _) as [o|] eqn:Ho; [|by split; [|apply goes_on_refl]].
    destruct (insertRemediationJob _ _ _ _ _) as [[db' r]| [] | |] eqn:Hi; cbn; try (by split; [|apply goes_on_refl]).
    eapply insert_goes_on; [done|by eapply read_options_waits|by apply Hre|exact Hi].
  - unfold claim_route. pose proof (claim_goes_on now agent (readLimit ToNumber (asRecord (Some body) ≫= get (str "limit"))) Generic locked db Hwf) as Hc.
    by destruct (claim _ _ _ _ _ _).
  - unfold patch_claim_route. destruct (stale_goes_on now agent m db Hwf) as [Hwf1 Hg1].
    destruct (claim_goes_on now agent limit Patch locked _ Hwf1) as [Hwf2 Hg2]. split; [done|]. by eapply goes_on_trans.
  - by apply stale_goes_on.
  - by apply claim_goes_on.
  - unfold status_route. destruct (parseRemediationStatusReport _ _ _) as [report|[code ?]| |]; try (by split; [|apply goes_on_refl]).
    match goal with |- context [transitionRemediationStatus ?a ?b ?c ?d ?e] => pose proof (transition_goes_on b c d e Hwf) as Ht end.
    by destruct (transitionRemediationStatus _ _ _ _ _).
  - unfold statuses_route. destruct (100 <? _); [by split; [|apply goes_on_refl]|].
    match goal with |- context [read_status_items ?a ?b ?c ≫= _] => destruct (read_status_items a b c) as [items| | |] end;
      cbn [mbind res_bind]; try (by split; [|apply goes_on_refl]).
    destruct (transition_all _ _ _ _) as [db'| | |] eqn:Ht; try (by split; [|apply goes_on_refl]).
    by apply (transition_all_goes_on _ _ _ _ Hwf Ht).
Qed.

Lemma history_goes_on db db' : Wf db -> rtc step db db' -> Wf db' /\ goes_on db db'.
Proof.
  intros Hwf H. induction H as [db|db db1 db2 Hs _ IH]; [by split; [|apply goes_on_refl]|].
  destruct (step_goes_on _ _ Hwf Hs) as [Hwf1 Hg1]. destruct (IH Hwf1) as [Hwf2 Hg2]. split; [done|].
  by eapply goes_on_trans.
Qed.

End history.

(** ** What holds of every history *)

Section theorems.
Context (ToNumber : Json -> Number) (show_number : Number -> text).
Context (parseBigIntValue : option Json -> option Z).

Abbreviation step := (step ToNumber show_number parseBigIntValue).

Lemma filter_sublist {A} (p : A -> bool) l : List.filter p l `sublist_of` l.
Proof. induction l as [|x l IH]; [done|]. cbn. destruct (p x); by constructor. Qed.

Lemma claim_ids now agent limit scope locked db : NoDup (map fst (claim now agent limit scope locked db).2).
Proof.
  unfold claim. cbn. rewrite map_map. cbn.
  apply (sublist_NoDup _ (map fst (merge_sort requested_le (map_to_list (jobs db))))).
  - rewrite merge_sort_Permutation. apply NoDup_fst_map_to_list.
  - apply (fmap_sublist fst). etransitivity; [apply sublist_take|apply filter_sublist].
Qed.

Lemma dispatched rows d :
  d ∈ buildRemediationDispatchJobs ToNumber rows -> exists row, row ∈ rows /\ d = build_dispatch_job ToNumber row.
Proof.
  unfold buildRemediationDispatchJobs. intros (row & -> & Hin)%list_elem_of_fmap. exists row.
  by rewrite merge_sort_Permutation in Hin.
Qed.

Lemma dispatched_ids rows :
  map dispatch_id (buildRemediationDispatchJobs ToNumber rows) = map fst (merge_sort requested_le rows).
Proof.
  unfold buildRemediationDispatchJobs. rewrite map_map. apply map_ext. intros row. unfold build_dispatch_job.
  by destruct (remediationDispatchSnapshot _) as [[? ?] ?].
Qed.

Lemma build_dispatch_identity row :
  let d := build_dispatch_job ToNumber row in
  dispatch_id d = row.1 /\ dispatch_agent_id d = agent_id row.2 /\ dispatch_intent_id d = intent_id row.2.
Proof. unfold build_dispatch_job. by destruct (remediationDispatchSnapshot _) as [[? ?] ?]. Qed.

Lemma readLimit_ten v : (readLimit ToNumber v <= 10)%nat.
Proof. unfold readLimit. repeat case_match; lia. Qed.

Lemma foldl_insert_started (rows : list (Z * DurableJobState)) (m : gmap Z DurableJobState) id :
  Forall (fun row => started (status row.2) = true) rows ->
  id ∈ map fst rows \/ (exists job, m !! id = Some job /\ started (status job) = true) ->
  exists job, foldl (fun m row => <[row.1 := row.2]> m) m rows !! id = Some job /\ started (status job) = true.
Proof.
  intros H. revert m. induction H as [|[k job] rows Hr _ IH]; intros m Hid; cbn.
  - destruct Hid as [Hid|Hid]; [by apply elem_of_nil in Hid|done].
  - apply IH. destruct (decide (id = k)) as [->|Hk].
    + right. exists job. by rewrite lookup_insert_eq.
    + rewrite lookup_insert_ne by done. cbn in Hid. rewrite elem_of_cons in Hid.
      destruct Hid as [[?|Hid]|Hid]; [done|by left|by right].
Qed.

Lemma claim_started now agent limit scope locked db id :
  id ∈ map fst (claim now agent limit scope locked db).2 ->
  exists job, jobs (claim now agent limit scope locked db).1 !! id = Some job /\ started (status job) = true.
Proof.
  intros Hid. apply foldl_insert_started; [|by left]. apply Forall_forall. intros row Hrow.
  by destruct (claim_rows now agent limit scope locked db row Hrow) as (job & _ & _ & ->).
Qed.

(** A job that has started is not handed out. *)
Lemma claim_not_started now agent limit scope locked db id job :
  jobs db !! id = Some job -> started (status job) = true -> id ∉ map fst (claim now agent limit scope locked db).2.
Proof.
  intros Hj Hs (row & -> & Hrow)%list_elem_of_fmap.
  destruct (claim_rows now agent limit scope locked db row Hrow) as (job' & Hj' & Hc%claimable_queued & _).
  rewrite Hj in Hj'. injection Hj' as <-. by rewrite Hc in Hs.
Qed.

Lemma claim_route_claim now agentId body locked db :
  exists limit, (limit <= 10)%nat /\
    (claim_route ToNumber now agentId body locked db).1 = (claim now agentId limit Generic locked db).1 /\
    (claim_route ToNumber now agentId body locked db).2 =
      buildRemediationDispatchJobs ToNumber (claim now agentId limit Generic locked db).2.
Proof.
  exists (readLimit ToNumber (asRecord (Some body) ≫= get (str "limit"))). split; [apply readLimit_ten|].
  unfold claim_route. by destruct (claim _ _ _ _ _ _).
Qed.

Lemma claim_length now agent limit scope locked db : (length (claim now agent limit scope locked db).2 <= limit)%nat.
Proof. unfold claim. cbn. rewrite length_map, length_take. lia. Qed.

(** C8. Outcomes are final. In every table that requests have led to, a job outside of patch
    installation that is completed, failed or cancelled has the status that its steps give,
    and whatever requests follow, it keeps this status and each of its steps keeps the status
    it has. The requests are projections (of which one that repeats the command of a finished
    job brings no further steps), claims, patch claims and reports, one or many at a time. *)
Theorem outcomes_are_final db id job :
  rtc step no_jobs db -> jobs db !! id = Some job -> generic job -> terminal (status job) ->
  status job = derived job /\
  forall db', rtc step db db' -> exists job', jobs db' !! id = Some job' /\ outcome_kept job job'.
Proof.
  intros H Hj Hg Ht. destruct (history_goes_on _ _ _ _ _ no_jobs_wf H) as [Hwf _].
  pose proof (wf_sound _ Hwf _ _ Hj Hg Ht) as Hf. split; [apply Hf|]. intros db' H'.
  destruct (history_goes_on _ _ _ _ _ Hwf H') as [_ Hg']. destruct (Hg' _ _ Hj) as (job' & Hj' & _ & _ & He & _).
  exists job'. split; [done|]. by apply He.
Qed.


End theorems.

(** ** Examples *)

Definition number_of_text (v : Json) : Number := NotInt (str "NaN").
Definition no_bigint (v : option Json) : option Z := None.
Definition no_digits (n : Number) : text := str "0".
Definition one_device (agent : text) : option text := if bool_decide (agent = str "agent") then Some (str "org") else None.

Definition example_command (intent : string) (indexes : list Z) : Json :=
  JObject [(str "commandId", JString (str "c1")); (str "organizationId", JString (str "org"));
           (str "agentId", JString (str "agent")); (str "intentId", JString (str intent));
           (str "steps", JArray (map (fun i => JObject [(str "stepIndex", JNumber (Int i));
                                                         (str "command", JString (str "reboot"))]) indexes))].

Definition example_report (st : text) (index : Z) : Json :=
  JObject [(str "status", JString st); (str "stepIndex", JNumber (Int index))].

Abbreviation example_step := (step number_of_text no_digits no_bigint).

(** A job of two steps is projected, claimed and reported on. *)
Definition example_projected : Database :=
  (project_route number_of_text no_bigint 1000 one_device (example_command "disk_cleanup" [0; 1]) no_jobs).1.
Definition example_claimed : Database := (claim_route number_of_text 2000 (str "agent") JNull [] example_projected).1.
Definition example_half : Database :=
  (status_route number_of_text no_digits 3000 (str "agent") (CommandId (str "c1")) Generic (example_report completed 0)
     example_claimed).1.
Definition example_done : Database :=
  (status_route number_of_text no_digits 4000 (str "agent") (CommandId (str "c1")) Generic (example_report completed 1)
     example_half).1.

Lemma example_projected_step : rtc example_step no_jobs example_projected.
Proof. eapply rtc_l; [|apply rtc_refl]. apply by_project. by intros o _ id job k value Hj. Defined.

Lemma example_done_steps : rtc example_step example_projected example_done.
Proof.
  eapply rtc_l; [apply by_claim|]. eapply rtc_l; [apply by_report|]. eapply rtc_l; [apply by_report|]. apply rtc_refl.
Defined.

Lemma outcomes_are_final_witness :
  exists job, jobs example_done !! 1 = Some job /\ status job = completed /\
    status job = derived job /\
    forall db', rtc example_step example_done db' -> exists job', jobs db' !! 1 = Some job' /\ outcome_kept job job'.
Proof.
  destruct (jobs example_done !! 1) as [job|] eqn:Hj; [|by vm_compute in Hj].
  assert (status job = completed /\ intent_id job = str "disk_cleanup") as [Hs Hi]
    by (vm_compute in Hj; injection Hj as <-; done).
  exists job. split; [done|]. split; [done|].
  apply (outcomes_are_final number_of_text no_digits no_bigint example_done 1 job); [|done|by unfold generic; rewrite Hi|by unfold terminal; rewrite Hs].
  etransitivity; [exact example_projected_step|exact example_done_steps].
Defined.

