(* ===== verification/RemediationReports.v ===== *)
(** The reports of agents: what a report reaches, what it does when it comes again, what the
    evidence of a whole job leads to, and two ways in which a job that is over runs again. *)

From stdpp Require Import sorting.
From S2P Require Import Prelude Bytes Text Json Remediation RemediationLife RemediationHistory.

Import Remediation.

Local Open Scope Z_scope.

#[local] Arguments isTerminalRemediationStatus : simpl never.

Section reports.
Context (ToNumber : Json -> Number) (show_number : Number -> text).
Context (parseBigIntValue : option Json -> option Z).

(** ** Scope *)

(** A step after a report: the same command, and the same status if it had an outcome. *)
Definition step_after (old new : DurableStepState) : Prop :=
  command new = command old /\ step_organization_id new = step_organization_id old /\
  (terminal (step_status old) -> step_status new = step_status old).

Lemma update_step_steps now w job i :
  option_Forall2 (fun s s' => command s' = command s /\ step_organization_id s' = step_organization_id s)
    (steps job !! i) (steps (update_step now w.1 w.2.1 w.2.2 job) !! i).
Proof.
  rewrite lookup_update_step. case_decide as Hi; destruct (steps job !! i) as [s|]; cbn; constructor; [|done].
  unfold reported. by case_bool_decide.
Qed.

Lemma write_all_steps now ws job i :
  option_Forall2 (fun s s' => command s' = command s /\ step_organization_id s' = step_organization_id s)
    (steps job !! i) (steps (write_all now ws job) !! i).
Proof.
  revert job. induction ws as [|w ws IH]; intros job; [by cbn; destruct (steps job !! i); constructor|].
  specialize (IH (update_step now w.1 w.2.1 w.2.2 job)). pose proof (update_step_steps now w job i) as H.
  change (write_all now (w :: ws) job) with (write_all now ws (update_step now w.1 w.2.1 w.2.2 job)).
  destruct H as [s s' [Hc Ho]|]; inversion IH as [? ? [Hc' Ho']|]; subst; constructor. split; congruence.
Qed.

Lemma transition_steps now id report job job' a b c d e f i :
  transition_job ToNumber now id report job = (job', Updated a b c d e f) ->
  option_Forall2 step_after (steps job !! i) (steps job' !! i).
Proof.
  intros H. pose proof (transition_keeps_steps ToNumber now id report job job' a b c d e f i) as Hkeep.
  pose proof H as (step & ws & _ & _ & _ & _ & _ & _ & _ & Hj & _)%transition_job_Updated.
  pose proof (write_all_steps now ws job i) as Hw. change (steps (write_all now ws job)) with (steps (update_job now b (write_all now ws job))) in Hw.
  rewrite <- Hj in Hw. destruct (steps job !! i) as [s|]; inversion Hw as [? s' [Hc Ho]|]; subst; constructor.
  split_and!; [done|done|]. intros Ht. destruct (Hkeep s H eq_refl (or_introl Ht)) as (s2 & Hs2 & ?). congruence.
Qed.

Lemma selects_spec selector id job :
  selects selector id job = true ->
  match identity selector with CommandId c => command_id job = Some c | JobId i => id = i end /\
  agent_id job = selector_agent_id selector /\
  (forall o, selector_organization_id selector = Some o -> organization_id job = o) /\
  (intent_id job = PATCH_INSTALL_INTENT_ID <-> intentScope selector = Patch).
Proof.
  unfold selects. rewrite !andb_true_iff, bool_decide_eq_true. intros [[[Hi Ha] Ho] Hp]. split_and!.
  - destruct (identity selector); [by apply bool_decide_eq_true in Hi|lia].
  - done.
  - intros o Hso. rewrite Hso in Ho. by apply bool_decide_eq_true in Ho.
  - destruct (intentScope selector); [apply negb_true_iff, bool_decide_eq_false in Hp|apply bool_decide_eq_true in Hp]; done.
Qed.


(** ** Repetition *)

Lemma transition_again_result now now' id report job job' a b c d e f :
  transition_job ToNumber now id report job = (job', Updated a b c d e f) ->
  match (transition_job ToNumber now' id report job').2 with
  | Updated _ _ _ _ _ _ | Conflict _ | StepConflict _ _ => True
  | _ => False
  end.
Proof.
  intros (step & ws & Hd & Ha & Hws & Hv & _ & _ & _ & Hj & _)%transition_job_Updated.
  destruct (project_again ToNumber now report job step b Hd Ha) as [Hp|[error Hp]]; [|by destruct (Hv error)].
  rewrite <- Hws, <- Hj in Hp. unfold transition_job. destruct (negb (_ || _)); [done|].
  assert (is_Some (durable job' !! stepIndex report)) as [step' ->].
  { rewrite Hj. apply (write_all_durable now ws job). by rewrite Hd. }
  destruct (negb (stepTransitionAllowed _ _)); [done|]. fold (project ToNumber report job'). rewrite Hp.
  by destruct (project ToNumber report job) as [|error|]; [|destruct (Hv error)|].
Qed.

Lemma selects_same selector id job job' : same_identity job job' -> selects selector id job' = selects selector id job.
Proof. intros (Hc & Ho & Ha & Hi). unfold selects. by rewrite Hc, Ho, Ha, Hi. Qed.

Lemma selects_unique selector db id1 id2 j1 j2 :
  Wf db -> jobs db !! id1 = Some j1 -> jobs db !! id2 = Some j2 ->
  selects selector id1 j1 = true -> selects selector id2 j2 = true -> id1 = id2.
Proof.
  intros Hwf H1 H2. unfold selects. rewrite !andb_true_iff. intros [[[Hi1 _] _] _] [[[Hi2 _] _] _].
  destruct (identity selector) as [c|i]; [|lia]. apply bool_decide_eq_true in Hi1, Hi2. by apply (wf_commands _ Hwf _ _ _ _ c H1 H2).
Qed.


(** ** Evidence of a whole job *)

#[local] Instance forallb_Permutation {A} (p : A -> bool) : Proper ((≡ₚ) ==> (=)) (forallb p).
Proof. induction 1 as [|x l l' _ IH|x y l|]; cbn; [done|by rewrite IH|by destruct (p x), (p y)|congruence]. Qed.

#[local] Instance includes_Permutation : Proper ((≡ₚ) ==> (=) ==> (=)) includes.
Proof. intros l l' Hl t _ <-. apply eq_bool_prop_intro. rewrite !Is_true_true, !includes_spec. by rewrite Hl. Qed.

#[local] Instance deriveJobStatus_Permutation : Proper ((≡ₚ) ==> (=)) deriveJobStatus.
Proof. intros l l' Hl. unfold deriveJobStatus. by rewrite !Hl. Qed.

Definition row_of (p : TerminalStepProjection) : Z * text := (projected_index p, projected_status p).

Lemma projected_rows now report job ps :
  project ToNumber report job = Aggregate ps ->
  map_to_list (statuses (write_all now (writes report (Aggregate ps)) job)) ≡ₚ map row_of ps.
Proof.
  intros Hp. pose proof (writes_indexes _ _ _ _ Hp) as Hi. pose proof (NoDup_durableSteps job) as Hn. rewrite <- Hi in Hn.
  pose proof (write_all_written now (writes report (Aggregate ps)) job) as Hw. set (ws := writes report (Aggregate ps)) in *.
  assert (forall w, w ∈ ws -> exists p, p ∈ ps /\ w = write_of p) as Hof.
  { intros w (p & -> & Hin)%list_elem_of_fmap. by exists p. }
  assert (forall i, i ∈ map fst ws <-> is_Some (durable (write_all now ws job) !! i)) as Hdom.
  { intros i. rewrite write_all_durable, Hi. change (map fst ?l) with (fst <$> l). rewrite list_elem_of_fmap. split.
    - intros ([k s] & -> & Hs%elem_of_durableSteps). by cbn; rewrite Hs.
    - intros [s Hs%elem_of_durableSteps]. by exists (i, s). }
  apply NoDup_Permutation; [apply NoDup_map_to_list| |].
  - apply (NoDup_fmap_1 fst). change (fst <$> map row_of ps) with (map fst (map row_of ps)). rewrite map_map.
    subst ws. cbn in Hn. by rewrite map_map in Hn.
  - intros [i st]. rewrite elem_of_map_to_list. unfold statuses. rewrite lookup_fmap, fmap_Some. split.
    + intros (s & Hs & ->). assert (i ∈ map fst ws) as (w & Hw1 & Hin)%list_elem_of_fmap by (apply Hdom; by rewrite Hs).
      destruct (Hof w Hin) as (p & Hp' & ->). cbn in Hw1. subst i. destruct (Hw _ Hn Hin s Hs) as [Hst _].
      apply list_elem_of_fmap. exists p. split; [|done]. unfold row_of. cbn in Hst. by rewrite Hst.
    + intros (p & [= -> ->] & Hin)%list_elem_of_fmap. assert (write_of p ∈ ws) as Hin' by (by apply (list_elem_of_fmap_2 write_of)).
      destruct (proj1 (Hdom (projected_index p))) as [s Hs]; [by apply (list_elem_of_fmap_2 fst _ (write_of p))|].
      exists s. split; [done|]. by destruct (Hw _ Hn Hin' s Hs) as [Hst _].
Qed.

(** C23. The evidence of a whole job settles it. When a report with an outcome carries evidence
    with a list of steps and is accepted, the job has the status reported, every one of its
    steps is completed, failed or cancelled, and the evidence kept with a step says its index
    and this very status, whether the list had an entry for the step or not. *)
Theorem evidence_settles_job now selector report db db1 a b c d e f fields values :
  transitionRemediationStatus ToNumber now selector report db = (db1, Updated a b c d e f) ->
  terminal (report_status report) -> asRecord (Some (evidence report)) = Some fields ->
  get (str "steps") fields = Some (JArray values) ->
  exists job1, jobs db1 !! c = Some job1 /\ b = report_status report /\ status job1 = report_status report /\
    forall i s, durable job1 !! i = Some s ->
      terminal (step_status s) /\ exists e, evidence_jsonb s = JObject e /\ describes e i (step_status s).
Proof.
  intros Ht Hterm Hf Hv. destruct (transition_cases ToNumber now selector report db) as [[_ Hu]|Hc]; [by rewrite Ht in Hu|].
  destruct Hc as (id & job & job' & a0 & b0 & c0 & d0 & e0 & f0 & Hj & _ & Hjob & Hr). rewrite Ht in Hr.
  injection Hr as -> -> -> -> -> -> ->.
  pose proof Hjob as (step & ws & Hd & Ha & Hws & Hv' & _ & Hn & Hb & Hj' & _ & _ & -> & _)%transition_job_Updated.
  exists job'. split; [cbn; apply lookup_insert_eq|].
  assert (exists ps, project ToNumber report job = Aggregate ps) as [ps Hp].
  { destruct (project ToNumber report job) as [|error|ps] eqn:Hp; [|by destruct (Hv' error)|by exists ps].
    unfold project in Hp. rewrite Hterm in Hp. unfold terminalStepProjection in Hp. rewrite Hf in Hp.
    cbn [mbind option_bind] in Hp. rewrite Hv in Hp. by repeat case_match. }
  rewrite Hp in Hws. pose proof (projected_rows now report job ps Hp) as Hrows. rewrite <- Hws in Hrows.
  assert (b0 = report_status report) as Hb'.
  { unfold project in Hp. rewrite Hterm in Hp. apply terminalStepProjection_Aggregate in Hp as (_ & _ & _ & _ & _ & _ & _ & _ & Hder).
    rewrite Hb. unfold derived. rewrite Hrows, map_map. exact Hder. }
  split_and!; [done|by rewrite Hj'|]. intros i s Hs.
  rewrite Hj' in Hs. change (durable (write_all now ws job) !! i = Some s) in Hs.
  assert ((i, step_status s) ∈ map row_of ps) as (p & [= -> Hst] & Hin)%list_elem_of_fmap.
  { rewrite <- Hrows. apply elem_of_map_to_list. unfold statuses. by rewrite lookup_fmap, Hs. }
  destruct (write_all_written now ws job (write_of p) Hn) with (s := s) as (_ & He & _); [|done|].
  { rewrite Hws. by apply (list_elem_of_fmap_2 write_of). }
  apply project_Aggregate in Hp. apply list_elem_of_lookup in Hin as [n Hin].
  destruct (Forall2_lookup_r _ _ _ _ _ Hp Hin) as (row & _ & _ & Htp & _ & Hdesc). rewrite Hst. split; [done|].
  exists (projected_evidence p). split; [symmetry; exact He|done].
Qed.

(** ** Jobs that run again *)

Definition job_status (db : Database) (id : Z) : option text := status <$> jobs db !! id.
Definition step_statuses (db : Database) (id : Z) : option (list text) :=
  (fun job => map (fun row => step_status row.2) (durableSteps job)) <$> jobs db !! id.

Abbreviation step := (step ToNumber show_number parseBigIntValue).

Lemma new_projection now body : step no_jobs (project_route ToNumber parseBigIntValue now one_device body no_jobs).1.
Proof. apply by_project. by intros o _ id job k value Hj. Qed.


End reports.

(** ** Examples *)

Definition example_selector : RemediationStatusSelector :=
  {| identity := CommandId (str "c1"); selector_agent_id := str "agent"; selector_organization_id := None;
     intentScope := Generic |}.

(** The first step failed, nothing is said of the second. *)
Definition example_evidence : Fields :=
  [(str "steps", JArray [JObject [(str "stepIndex", JNumber (Int 0)); (str "status", JString failed)]])].
Definition example_failure : RemediationStatusReport :=
  {| report_status := failed; stepIndex := 0; hasEvidence := true; evidence := JObject example_evidence |}.
Definition example_failed : Database * RemediationTransitionResult :=
  transitionRemediationStatus number_of_text 3000 example_selector example_failure example_claimed.


Lemma evidence_settles_job_witness :
  exists job, jobs example_failed.1 !! 1 = Some job /\ status job = failed /\
    step_statuses example_failed.1 1 = Some [failed; cancelled] /\
    forall i s, durable job !! i = Some s ->
      terminal (step_status s) /\ exists e, evidence_jsonb s = JObject e /\ describes e i (step_status s).
Proof.
  destruct (evidence_settles_job number_of_text 3000 example_selector example_failure example_claimed example_failed.1
    failed failed 1 (Some (str "c1")) (str "org") (str "agent") example_evidence
    [JObject [(str "stepIndex", JNumber (Int 0)); (str "status", JString failed)]]) as (job & Hj & _ & Hs & Hsteps);
    [by vm_compute|by vm_compute|by vm_compute|by vm_compute|].
  exists job. split; [done|]. split; [done|]. split; [by vm_compute|done].
Defined.
