(* ===== verification/PatchText.v ===== *)
(** Texts of patches in the web backend: regular expressions as JavaScript runs them, and the
    classification of updates (apps/api_backend/lib/patchManagement.ts and
    lib/patchDecisionEngine.ts). *)

From S2P Require Import Prelude Bytes Text Json.

Local Open Scope Z_scope.

(** ** Regular expressions *)

Inductive regex :=
  | Empty
  | Char (p : Z -> bool)
  | Seq (a b : regex)
  | Alt (a b : regex)
  | Star (a : regex)
  | Boundary
  | Start.

Definition is_digit (c : Z) : bool := within 48 57 c.
Definition is_word (c : Z) : bool := is_digit c || within 65 90 c || within 97 122 c || (c =? 95).
Definition word_at (c : option Z) : bool := match c with Some c => is_word c | None => false end.

(** The search for a match at one place, with the character before it; what follows the
    match is taken by [k].  A repetition takes as much as it can first, and a turn that
    takes nothing ends it. *)
Section run.
Context {A : Type}.
Fixpoint run (r : regex) (before : option Z) (s : text) (k : option Z -> text -> option A) : option A :=
  match r with
  | Empty => k before s
  | Char p => match s with c :: s => if p c then k (Some c) s else None | [] => None end
  | Seq a b => run a before s (fun before s => run b before s k)
  | Alt a b => match run a before s k with Some x => Some x | None => run b before s k end
  | Star a =>
      (fix loop (n : nat) (before : option Z) (s : text) : option A :=
         match n with
         | O => k before s
         | S n =>
             match run a before s (fun before' s' => if (length s' <? length s)%nat then loop n before' s' else None) with
             | Some x => Some x
             | None => k before s
             end
         end) (length s) before s
  | Boundary => if xorb (word_at before) (word_at (head s)) then k before s else None
  | Start => match before with None => k before s | Some _ => None end
  end.
End run.

(** [r.exec(s)]: the first match from the left. *)
Fixpoint exec_from (r : regex) (before : option Z) (s : text) : option text :=
  match run r before s (fun _ rest => Some (take (length s - length rest) s)) with
  | Some m => Some m
  | None => match s with c :: s => exec_from r (Some c) s | [] => None end
  end.
Definition exec (r : regex) (s : text) : option text := exec_from r None s.
(** [r.test(s)] *)
Definition test (r : regex) (s : text) : bool := bool_decide (is_Some (exec r s)).

Definition literal (t : text) : regex := foldr (fun c r => Seq (Char (Z.eqb c)) r) Empty t.
Definition lit (s : string) : regex := literal (str s).
(** [\bs\b], [s\b] and [\bs] *)
Definition word (s : string) : regex := Seq Boundary (Seq (lit s) Boundary).
Definition tail (s : string) : regex := Seq (lit s) Boundary.
Definition alts (l : list regex) : regex := foldr Alt (Char (fun _ => false)) l.
Definition plus (r : regex) : regex := Seq r (Star r).
Definition opt (r : regex) : regex := Alt r Empty.
Fixpoint times (n : nat) (r : regex) : regex := match n with O => Empty | S n => Seq r (times n r) end.
Definition digit : regex := Char is_digit.
Definition space : regex := Char js_whitespace.
(** [.] *)
Definition dot : regex := Char (fun c => negb ((c =? 10) || (c =? 13) || (c =? 0x2028) || (c =? 0x2029))).
(** [s] with the flag i *)
Definition lit_i (s : string) : regex :=
  foldr (fun c r => Seq (Char (fun x => (x =? c) || (within 97 122 c && (x =? c - 32)))) r) Empty (str s).

(** ** Categories *)

Inductive PatchCategory :=
  | Security | Critical | Cumulative | Feature | Driver | Firmware | MicrosoftProduct | UwpApp | DefinitionUpdate
  | Optional | Preview | Other.
#[global] Instance PatchCategory_eq_dec : EqDecision PatchCategory.
Proof. solve_decision. Defined.

Definition category_name (c : PatchCategory) : text :=
  match c with
  | Security => str "security" | Critical => str "critical" | Cumulative => str "cumulative" | Feature => str "feature"
  | Driver => str "driver" | Firmware => str "firmware" | MicrosoftProduct => str "microsoft_product"
  | UwpApp => str "uwp_app" | DefinitionUpdate => str "definition" | Optional => str "optional"
  | Preview => str "preview" | Other => str "other"
  end.
Definition categories_all : list PatchCategory :=
  [Security; Critical; Cumulative; Feature; Driver; Firmware; MicrosoftProduct; UwpApp; DefinitionUpdate; Optional;
   Preview; Other].
Definition category_of_name (t : text) : option PatchCategory :=
  List.find (fun c => bool_decide (category_name c = t)) categories_all.

Inductive Severity := SeverityCritical | SeveritySecurity | SeverityOther.

Section classify.
(** [value.toLowerCase()] *)
Context (toLowerCase : text -> text).

(** [replace(/\s+/g, ' ')] *)
Fixpoint collapse (in_space : bool) (t : text) : text :=
  match t with
  | [] => []
  | c :: t =>
      if js_whitespace c then (if in_space then collapse true t else 32 :: collapse true t) else c :: collapse false t
  end.

Definition normalizePatchText (value : text) : text := collapse false (toLowerCase (js_trim value)).

Definition buildPatchUpdateKey (title : text) (titleNorm kbArticle : option text) : text :=
  let nonempty t := match t with Some (_ :: _) => t | _ => None end in
  normalizePatchText (default title (nonempty titleNorm)) ++ str "|" ++ normalizePatchText (default [] kbArticle).

(** [[a, b, c].filter(Boolean).join(' ')] *)
Definition join_present (l : list (option text)) : text :=
  match filter (fun t => t <> []) (omap id l) with
  | [] => []
  | t :: l => t ++ concat (map (fun t => 32 :: t) l)
  end.

Definition classifyPatchSeverity (title : text) (description kbArticle : option text) (isMandatory : option bool) : Severity :=
  let t := normalizePatchText (join_present [Some title; description; kbArticle]) in
  if test (word "critical") t then SeverityCritical
  else if test (word "security") t || test (word "defender") t || test (word "malicious software removal") t
  then SeveritySecurity
  else if bool_decide (isMandatory = Some true) then SeveritySecurity else SeverityOther.

(** [\d+(?:\.\d+)*] between boundaries *)
Definition version_re : regex := Seq Boundary (Seq (Seq (plus digit) (Star (Seq (Char (Z.eqb 46)) (plus digit)))) Boundary).
(** [^mac\s?os\b] *)
Definition macos_re : regex := Seq Start (Seq (lit "mac") (Seq (opt space) (Seq (lit "os") Boundary))).

Definition isMacosOsVersionUpdateTitle (title : text) : bool :=
  test (Seq macos_re (Seq (Star dot) version_re)) (normalizePatchText title).

Definition uwp_re : regex :=
  alts [word "uwp"; word "appx"; word "msix"; Seq Boundary (Seq (lit "windowsapp") (Seq (opt (lit "runtime")) Boundary));
        word "windows app runtime"; word "devhome"; word "windows.devhome"; word "vclibs"; word "crossdevice";
        Seq Boundary (Seq (lit "microsoftwindows.")
          (plus (Char (fun c => within 97 122 c || is_digit c || (c =? 95) || (c =? 46) || (c =? 45)))))].
Definition store_re : regex :=
  Seq Start (Seq (times 12 (Char (fun c => within 97 122 c || is_digit c))) (lit "-microsoft.")).

Definition classifyPatchCategory (title : text) (kbArticle category : option text) : PatchCategory :=
  match (c ← category; category_of_name (toLowerCase (js_trim c))) with
  | Some c => c
  | None =>
      let t := normalizePatchText (title ++ [32] ++ default [] kbArticle) in
      if test (word "preview") t then Preview
      else if test (word "driver") t then Driver
      else if test (Alt (word "firmware") (tail "bios")) t then Firmware
      else if test (Alt (word "feature update") (tail "enablement package")) t then Feature
      else if test (alts [word "definition"; tail "defender"; tail "security intelligence"]) t then DefinitionUpdate
      else if test uwp_re t || test store_re t then UwpApp
      else if test (word "cumulative") t then Cumulative
      else match classifyPatchSeverity title None kbArticle None with
           | SeverityCritical => Critical
           | SeveritySecurity => Security
           | SeverityOther => if isMacosOsVersionUpdateTitle title then Feature else Other
           end
  end.

Definition isMacosDeviceOs (os : text) : bool :=
  test (Seq Boundary (Seq (alts [lit "macos"; lit "mac os"; lit "mac os x"; lit "os x"; lit "darwin"]) Boundary))
    (normalizePatchText os).

Definition supportsNativeWindowsUpdateControl (os : text) : bool := test (Seq Boundary (Seq (lit_i "windows") Boundary)) os.

(** [Number(part)] of digits; a number from 2^1024 on is infinite. *)
Definition digits_value (t : text) : Z := foldl (fun n c => 10 * n + (c - 48)) 0 t.
Definition finite (n : Z) : bool := n <? 2 ^ 1024 - 2 ^ 970.

Definition macosOsVersionFromTitle (title : text) : option (list Z) :=
  let t := normalizePatchText title in
  if negb (test macos_re t) then None else
  m ← exec version_re t;
  Some (List.filter finite (map digits_value (split_on 46 m))).

Definition compareVersionPartsDesc (a b : list Z) : Z :=
  default 0 (List.find (fun diff => negb (diff =? 0))
    (map (fun index => nth index b 0 - nth index a 0) (seq 0 (Nat.max (length a) (length b))))).
End classify.
