(* ===== verification/PatchPlan.v ===== *)
(** The plan of patch actions for a device (apps/api_backend/lib/patchDecisionEngine.ts): the
    policy as it is configured, the windows of its phases, the overrides of technicians, and
    the actions that follow for the updates of the device.

    Times are milliseconds; a time in a plan is kept as such, where the source prints it in
    ISO form, which throws outside of the range of dates. *)

From stdpp Require Import sorting.
From S2P Require Import Prelude Bytes Text Json PatchText.

Local Open Scope Z_scope.

Module Plan.
(** ** Data *)

Inductive PatchDeviceType := Server | Workstation | Laptop | UnknownDevice.
Inductive PatchOverrideAction :=
  | Approve | Block | Defer | ForceInstall | ForceScan | ForceDownload | ForceReboot | DeferReboot | MaintenanceMode
  | EmergencyApprove | Cancel.
Inductive PatchPlanActionType := ApplyNativeControl | Scan | Download | Install | Reboot | Deferred | Blocked | ReportOnly.
Inductive Approval := Auto | Manual | Never.
Inductive Phase := ScanPhase | DownloadPhase | InstallPhase | RebootPhase.
Inductive ScopeType := Global | Organization | Customer | Site | Group | Tag | Ring | Device.
Inductive ServerBehavior := WindowOnly | DeadlineWindow | ManualOnly.
Inductive WorkstationBehavior := WindowOrDeadline | AllowAnytimeAfterDeadline.
#[global] Instance PatchOverrideAction_eq_dec : EqDecision PatchOverrideAction.
Proof. solve_decision. Defined.
#[global] Instance PatchPlanActionType_eq_dec : EqDecision PatchPlanActionType.
Proof. solve_decision. Defined.
#[global] Instance PatchDeviceType_eq_dec : EqDecision PatchDeviceType.
Proof. solve_decision. Defined.
#[global] Instance Approval_eq_dec : EqDecision Approval.
Proof. solve_decision. Defined.
#[global] Instance ServerBehavior_eq_dec : EqDecision ServerBehavior.
Proof. solve_decision. Defined.

(** [string | Date]; a date may be invalid. *)
Inductive DateValue := DateText (s : text) | Date (ms : option Z).

Record PatchPhaseWindow := { enabled : bool; start : option text; end_ : option text; timezone : text }.
Record PatchCategoryRule := {
  approval : Approval; installAfterDays : Number; forceInstallByDays : option Number; forceRebootByDays : option Number }.
Record RebootConfig := {
  allowAutomaticReboot : bool; forceRebootAfterDeadline : bool; warningMinutes : Number; maxUserDeferrals : Number;
  activeHoursProtection : bool; serverBehavior : ServerBehavior; workstationBehavior : WorkstationBehavior }.
Record PatchPolicyConfig := {
  managedMode : bool; nativeWindowsUpdateControl : bool; checkInIntervalMinutes : Number;
  windows : Phase -> PatchPhaseWindow; categories : PatchCategory -> PatchCategoryRule; reboot : RebootConfig }.

(** The policy that applies to the device, of which the plan reads these fields. *)
Record PatchPolicy := {
  policy_id : text; deferralDays : Number; policy_managedMode : option bool;
  policy_nativeWindowsUpdateControl : option bool; policyConfig : option Json }.

Record PatchDecisionDevice := {
  organizationId : text; agentId : text; os : text; customerId : option text; siteId : option text;
  deviceType : PatchDeviceType; patchRing : text; patchManaged : bool; device_nativeWindowsUpdateControl : bool;
  patchMaintenanceModeUntil : option DateValue; patchTags : list text; rebootRequired : bool;
  lastScanAt : option DateValue }.

Record PatchDecisionUpdate := {
  updateKey : text; title : text; kbArticle : option text; category : option text; lifecycleState : option text;
  releaseDate : option DateValue; firstDetectedAt : option DateValue; downloadedAt : option DateValue;
  superseded : bool }.

Record PatchDecisionOverride := {
  override_id : text; scopeType : ScopeType; scopeKey : text; override_action : PatchOverrideAction;
  operationId : option text; override_updateKey : option text; override_kbArticle : option text;
  override_category : option text; override_reason : option text; deferUntil : option DateValue;
  expiresAt : option DateValue; override_enabled : option bool }.

(** An operation without an identifier gets a random one. *)
Record PatchActionPlanItem := {
  item_operationId : option text; item_action : PatchPlanActionType; updateKeys : list text;
  item_category : option PatchCategory; window : option Phase; notBefore : option Z; deadlineAt : option Z;
  forced : bool; reason : text; metadata : Fields }.

Record PatchActionPlan := {
  generatedAt : Z; plan_organizationId : text; plan_agentId : text; plan_policyId : option text; plan_managedMode : bool;
  plan_nativeWindowsUpdateControl : bool; nextCheckInAt : Z; actions : list PatchActionPlanItem }.

Record EvaluatePatchPlanInput := {
  input_now : option DateValue; device : PatchDecisionDevice; policy : option PatchPolicy;
  updates : list PatchDecisionUpdate; overrides : list PatchDecisionOverride; groupIds : list text }.

(** ** Policies *)

Definition baseWindow : PatchPhaseWindow := {| enabled := true; start := None; end_ := None; timezone := str "UTC" |}.

Definition categoryRule (a : Approval) (after : Number) (by_ reboot_by : option Number) : PatchCategoryRule :=
  {| approval := a; installAfterDays := after; forceInstallByDays := by_; forceRebootByDays := reboot_by |}.

Definition defaultPatchPolicyConfig (deferral : Number) : PatchPolicyConfig :=
  let days n := Some (Int n) in
  {| managedMode := true; nativeWindowsUpdateControl := true; checkInIntervalMinutes := Int 60;
     windows := fun _ => baseWindow;
     categories := fun c =>
       match c with
       | Security | Cumulative | MicrosoftProduct => categoryRule Auto deferral (days 21) (days 24)
       | Critical => categoryRule Auto deferral (days 14) (days 17)
       | DefinitionUpdate => categoryRule Auto (Int 0) (days 2) (days 3)
       | UwpApp | Other => categoryRule Manual deferral None None
       | Feature => categoryRule Manual (Int 30) (days 90) (days 97)
       | Driver | Optional => categoryRule Manual (Int 14) None None
       | Firmware => categoryRule Manual (Int 30) None None
       | Preview => categoryRule Never (Int 365) None None
       end;
     reboot := {| allowAutomaticReboot := true; forceRebootAfterDeadline := true; warningMinutes := Int 60;
                  maxUserDeferrals := Int 3; activeHoursProtection := true; serverBehavior := WindowOnly;
                  workstationBehavior := WindowOrDeadline |} |}.

Definition record_of (value : option Json) : Fields := default [] (asRecord value).
Definition asBoolean (value : option Json) (fallback : bool) : bool :=
  match value with Some (JBool b) => b | _ => fallback end.
(** The numbers of JSON are finite. *)
Definition asNumber (value : option Json) (fallback : Number) : Number :=
  match value with Some (JNumber n) => n | _ => fallback end.
Definition asNullableNumber (value : option Json) (fallback : option Number) : option Number :=
  match value with Some JNull => None | Some (JNumber n) => Some n | _ => fallback end.
Definition asString (value : option Json) (fallback : text) : text := default fallback (readString value).
Definition nonempty (value : option Json) : option text :=
  match value with Some (JString (c :: s)) => Some (c :: s) | _ => None end.
Definition or_else {A} (a b : option A) : option A := match a with Some _ => a | None => b end.

Definition mergeWindow (base : PatchPhaseWindow) (raw : option Json) : PatchPhaseWindow :=
  let value := record_of raw in
  {| enabled := asBoolean (get (str "enabled") value) (enabled base);
     start := or_else (nonempty (get (str "start") value)) (start base);
     end_ := or_else (nonempty (get (str "end") value)) (end_ base);
     timezone := asString (get (str "timezone") value) (timezone base) |}.

Definition constrainDownloadWindow (download install : PatchPhaseWindow) : PatchPhaseWindow :=
  match start download, end_ download, start install, end_ install with
  | None, None, None, None => download
  | None, None, _, _ =>
      if enabled download
      then {| enabled := enabled download; start := start install; end_ := end_ install; timezone := timezone install |}
      else download
  | _, _, _, _ => download
  end.

Definition approval_of (value : option Json) (fallback : Approval) : Approval :=
  match value with
  | Some (JString s) =>
      if bool_decide (s = str "auto") then Auto
      else if bool_decide (s = str "manual") then Manual
      else if bool_decide (s = str "blocked") then Never else fallback
  | _ => fallback
  end.

Definition mergeRule (base : PatchCategoryRule) (raw : option Json) : PatchCategoryRule :=
  let value := record_of raw in
  {| approval := approval_of (get (str "approval") value) (approval base);
     installAfterDays := asNumber (get (str "installAfterDays") value) (installAfterDays base);
     forceInstallByDays := asNullableNumber (get (str "forceInstallByDays") value) (forceInstallByDays base);
     forceRebootByDays := asNullableNumber (get (str "forceRebootByDays") value) (forceRebootByDays base) |}.

Definition mergeReboot (base : RebootConfig) (raw : option Json) : RebootConfig :=
  let value := record_of raw in
  {| allowAutomaticReboot := asBoolean (get (str "allowAutomaticReboot") value) (allowAutomaticReboot base);
     forceRebootAfterDeadline := asBoolean (get (str "forceRebootAfterDeadline") value) (forceRebootAfterDeadline base);
     warningMinutes := asNumber (get (str "warningMinutes") value) (warningMinutes base);
     maxUserDeferrals := asNumber (get (str "maxUserDeferrals") value) (maxUserDeferrals base);
     activeHoursProtection := asBoolean (get (str "activeHoursProtection") value) (activeHoursProtection base);
     serverBehavior :=
       match get (str "serverBehavior") value with
       | Some (JString s) =>
           if bool_decide (s = str "window_only") then WindowOnly
           else if bool_decide (s = str "deadline_window") then DeadlineWindow
           else if bool_decide (s = str "manual_only") then ManualOnly else serverBehavior base
       | _ => serverBehavior base
       end;
     workstationBehavior :=
       match get (str "workstationBehavior") value with
       | Some (JString s) =>
           if bool_decide (s = str "window_or_deadline") then WindowOrDeadline
           else if bool_decide (s = str "allow_anytime_after_deadline") then AllowAnytimeAfterDeadline
           else workstationBehavior base
       | _ => workstationBehavior base
       end |}.

Definition coercePatchPolicyConfig (policy : option PatchPolicy) : PatchPolicyConfig :=
  let base := defaultPatchPolicyConfig (from_option deferralDays (Int 0) policy) in
  let raw := record_of (policy ≫= policyConfig) in
  let raw_windows := record_of (get (str "windows") raw) in
  let raw_categories := record_of (get (str "categories") raw) in
  let merged phase key := mergeWindow (windows base phase) (get (str key) raw_windows) in
  {| managedMode := asBoolean (get (str "managedMode") raw) (default (managedMode base) (policy ≫= policy_managedMode));
     nativeWindowsUpdateControl :=
       asBoolean (get (str "nativeWindowsUpdateControl") raw)
         (default (nativeWindowsUpdateControl base) (policy ≫= policy_nativeWindowsUpdateControl));
     checkInIntervalMinutes := asNumber (get (str "checkInIntervalMinutes") raw) (checkInIntervalMinutes base);
     windows := fun phase =>
       match phase with
       | ScanPhase => merged ScanPhase "scan"%string
       | DownloadPhase => constrainDownloadWindow (merged DownloadPhase "download"%string) (merged InstallPhase "install"%string)
       | InstallPhase => merged InstallPhase "install"%string
       | RebootPhase => merged RebootPhase "reboot"%string
       end;
     categories := fun c => mergeRule (categories base c) (get (category_name c) raw_categories);
     reboot := mergeReboot (reboot base) (get (str "reboot") raw) |}.

(** ** Time *)

Section plan.
(** [toLowerCase], [Date.parse], the ISO form of a time, the sum of a time and a number of days
    or minutes, the hour and the minute of a time in a zone ([Intl.DateTimeFormat], which may
    throw), and [a.localeCompare(b)]. *)
Context (toLowerCase : text -> text) (parse_date : text -> option Z) (show_iso : Z -> text).
Context (add_days add_minutes : Z -> Number -> Z).
Context (zoned : Z -> text -> option (Z * Z)) (localeCompare : text -> text -> Z).

Definition date_ms (v : DateValue) : option Z := match v with DateText s => parse_date s | Date ms => ms end.

Definition parseDateMs (value : option DateValue) : option Z :=
  match value with None | Some (DateText []) => None | Some v => date_ms v end.

(** [new Date(ms).toISOString()] *)
Definition iso (ms : Z) : res string Z := if Z.abs ms <=? 8640000000000000 then Ok ms else Err "RangeError"%string.
(** [ms ? new Date(ms).toISOString() : null] *)
Definition iso_or_null (ms : option Z) : res string (option Z) :=
  match ms with
  | None => Ok None
  | Some ms => if ms =? 0 then Ok None else t ← iso ms; Ok (Some t)
  end.

(** [/^([01]\d|2[0-3]):([0-5]\d)$/] *)
Definition minutesFromTime (value : option text) : option Z :=
  match value with
  | Some [h1; h2; colon; m1; m2] =>
      if ((within 48 49 h1 && is_digit h2) || ((h1 =? 50) && within 48 51 h2)) && (colon =? 58) && within 48 53 m1 && is_digit m2
      then Some ((10 * (h1 - 48) + (h2 - 48)) * 60 + (10 * (m1 - 48) + (m2 - 48)))
      else None
  | _ => None
  end.

Definition localMinutes (now : Z) (timezone : text) : Z :=
  match zoned now (match timezone with [] => str "UTC" | _ => timezone end) with
  | Some (hour, minute) => hour * 60 + minute
  | None => (now `div` 60000) `mod` 1440
  end.

Definition isWithinPatchWindow (w : PatchPhaseWindow) (now : Z) : bool :=
  if negb (enabled w) then false else
  match minutesFromTime (start w), minutesFromTime (end_ w) with
  | Some s, Some e =>
      let current := localMinutes now (timezone w) in
      if s =? e then true
      else if s <? e then (s <=? current) && (current <? e)
      else (s <=? current) || (current <? e)
  | _, _ => true
  end.

(** ** Overrides *)

Definition isExpired (o : PatchDecisionOverride) (nowMs : Z) : bool :=
  bool_decide (override_enabled o = Some false) ||
  match parseDateMs (expiresAt o) with Some expiresMs => expiresMs <=? nowMs | None => false end.

Definition mem (t : text) (l : list text) : bool := existsb (fun x => bool_decide (x = t)) l.
Definition overrideScopeMatches (o : PatchDecisionOverride) (device : PatchDecisionDevice) (groupIds : list text) : bool :=
  let same id := match id with None | Some [] => false | Some id => bool_decide (scopeKey o = id) end in
  match scopeType o with
  | Global => true
  | Organization => bool_decide (scopeKey o = organizationId device)
  | Customer => same (customerId device)
  | Site => same (siteId device)
  | Ring => bool_decide (scopeKey o = patchRing device)
  | Device => bool_decide (scopeKey o = agentId device)
  | Tag => mem (scopeKey o) (patchTags device)
  | Group => mem (scopeKey o) groupIds
  end.

Definition truthy_text (t : option text) : option text := match t with Some [] => None | _ => t end.

(** Without an update only an override for all updates of the device matches. *)
Definition overrideUpdateMatches (o : PatchDecisionOverride) (update : option (PatchDecisionUpdate * PatchCategory)) : bool :=
  match update with
  | None =>
      match truthy_text (override_updateKey o), truthy_text (override_kbArticle o), truthy_text (override_category o) with
      | None, None, None => true
      | _, _, _ => false
      end
  | Some (u, c) =>
      from_option (fun key => bool_decide (key = updateKey u)) true (truthy_text (override_updateKey o)) &&
      from_option (fun kb => bool_decide (normalizePatchText toLowerCase kb =
                                          normalizePatchText toLowerCase (default [] (kbArticle u)))) true
        (truthy_text (override_kbArticle o)) &&
      from_option (fun name => bool_decide (name = category_name c)) true (truthy_text (override_category o))
  end.

Definition matchingOverrides (input : EvaluatePatchPlanInput) (nowMs : Z) (update : option (PatchDecisionUpdate * PatchCategory))
    : list PatchDecisionOverride :=
  List.filter (fun o => negb (isExpired o nowMs) && overrideScopeMatches o (device input) (groupIds input) &&
                        overrideUpdateMatches o update) (overrides input).

Definition with_action (a : PatchOverrideAction) (o : PatchDecisionOverride) : bool := bool_decide (override_action o = a).

(** The first identifier that is not blank, of the first override that has one. *)
Definition overrideOperationId (l : list PatchDecisionOverride) : option text :=
  o ← List.find (fun o => match operationId o with Some t => negb (bool_decide (js_trim t = [])) | None => false end) l;
  operationId o.

Definition override_ids (l : list PatchDecisionOverride) : Json := JArray (map (fun o => JString (override_id o)) l).

(** ** Actions *)

Definition action (type : PatchPlanActionType) (reason : text) : PatchActionPlanItem :=
  {| item_operationId := None; item_action := type; updateKeys := []; item_category := None; window := None;
     notBefore := None; deadlineAt := None; forced := false; reason := reason; metadata := [] |}.

(** An action for one update. *)
Definition action_for (type : PatchPlanActionType) (reason : text) (u : PatchDecisionUpdate) (c : PatchCategory)
    (w : option Phase) (not_before deadline : option Z) (meta : Fields) : PatchActionPlanItem :=
  {| item_operationId := None; item_action := type; updateKeys := [updateKey u]; item_category := Some c; window := w;
     notBefore := not_before; deadlineAt := deadline; forced := false; reason := reason; metadata := meta |}.

Definition action_name (a : PatchPlanActionType) : text :=
  match a with
  | ApplyNativeControl => str "applyNativeControl" | Scan => str "scan" | Download => str "download"
  | Install => str "install" | Reboot => str "reboot" | Deferred => str "defer" | Blocked => str "blocked"
  | ReportOnly => str "reportOnly"
  end.

(** Strings are ordered by their UTF-16 units. *)
Definition units (t : text) : list Z :=
  concat (map (fun c => if c <? 0x10000 then [c]
                        else [0xd800 + Z.shiftr (c - 0x10000) 10; 0xdc00 + Z.land (c - 0x10000) 0x3ff]) t).
Fixpoint units_le (a b : list Z) : bool :=
  match a, b with
  | [], _ => true
  | _ :: _, [] => false
  | x :: a, y :: b => (x <? y) || ((x =? y) && units_le a b)
  end.
Definition text_le (a b : text) : Prop := Is_true (units_le (units a) (units b)).
#[global] Instance text_le_dec a b : Decision (text_le a b).
Proof. unfold text_le. apply _. Defined.

Definition action_key (item : PatchActionPlanItem) : text :=
  action_name (item_action item) ++ str "|" ++ commas (merge_sort text_le (updateKeys item)) ++ str "|" ++ reason item.

Definition uniqueActions (actions : list PatchActionPlanItem) : list PatchActionPlanItem :=
  (foldl (fun '(seen, kept) item =>
            if mem (action_key item) seen then (seen, kept) else (action_key item :: seen, kept ++ [item])) ([], []) actions).2.

(** ** One version of macOS at a time *)

Record Candidate := {
  candidate : PatchDecisionUpdate; candidate_category : PatchCategory; version : list Z; major : Z }.

(** [Map.set]: a key keeps its first place and gets the last value. *)
Fixpoint map_set (u : PatchDecisionUpdate) (l : list PatchDecisionUpdate) : list PatchDecisionUpdate :=
  match l with
  | [] => [u]
  | x :: l => if bool_decide (updateKey x = updateKey u) then u :: l else x :: map_set u l
  end.

Definition classify (u : PatchDecisionUpdate) : PatchCategory :=
  classifyPatchCategory toLowerCase (title u) (kbArticle u) (category u).

Definition as_candidate (u : PatchDecisionUpdate) : option Candidate :=
  let c := classify u in
  match (if bool_decide (c = Feature) then macosOsVersionFromTitle toLowerCase (title u) else None) with
  | Some (m :: rest) => Some {| candidate := u; candidate_category := c; version := m :: rest; major := m |}
  | _ => None
  end.

Definition compare_candidates (a b : Candidate) : Z :=
  let d := compareVersionPartsDesc (version a) (version b) in
  if d =? 0 then localeCompare (title (candidate a)) (title (candidate b)) else d.

(** [l.slice().sort(compare)[0]] of a list that is not empty *)
Definition sort_first (x : Candidate) (l : list Candidate) : Candidate :=
  foldl (fun best y => if compare_candidates y best <? 0 then y else best) x l.

Definition osUpdateCandidates (updates : list PatchDecisionUpdate) (installKeys : list text) : list Candidate :=
  omap as_candidate (foldl (fun l u => map_set u l) [] (List.filter (fun u => mem (updateKey u) installKeys) updates)).

Definition skipped (selected : Candidate) (all : list Candidate) (c : Candidate) : PatchActionPlanItem :=
  action_for Blocked
    (str "Skipped to avoid installing multiple macOS OS-version updates in one run; " ++ title (candidate selected) ++
     str " was selected.")
    (candidate c) (candidate_category c) None None None
    [(str "selectedUpdateKey", JString (updateKey (candidate selected)));
     (str "selectedTitle", JString (title (candidate selected))); (str "candidateMajor", JNumber (Int (major c)));
     (str "competingUpdateKeys", JArray (map (fun c => JString (updateKey (candidate c))) all))].

(** The keys that remain, and the actions for the others. *)
Definition constrainMacosOsVersionInstallSelection (device : PatchDecisionDevice) (updates : list PatchDecisionUpdate)
    (installKeys : list text) : list text * list PatchActionPlanItem :=
  if negb (isMacosDeviceOs toLowerCase (os device)) then (installKeys, []) else
  match osUpdateCandidates updates installKeys with
  | [] | [_] => (installKeys, [])
  | first :: rest =>
      let selected := sort_first first rest in
      let blocked := List.filter (fun c => negb (bool_decide (updateKey (candidate c) = updateKey (candidate selected))))
                       (first :: rest) in
      (List.filter (fun key => negb (mem key (map (fun c => updateKey (candidate c)) blocked))) installKeys,
       map (skipped selected (first :: rest)) blocked)
  end.

(** ** The decision on one update *)

Record Selection := { selected_actions : list PatchActionPlanItem; installKeys : list text; manualInstallOnly : bool }.

Definition push (item : PatchActionPlanItem) (s : Selection) : Selection :=
  {| selected_actions := selected_actions s ++ [item]; installKeys := installKeys s; manualInstallOnly := manualInstallOnly s |}.
Definition mark (only : bool) (s : Selection) : Selection :=
  {| selected_actions := selected_actions s; installKeys := installKeys s; manualInstallOnly := manualInstallOnly s || only |}.
Definition push_key (key : text) (s : Selection) : Selection :=
  {| selected_actions := selected_actions s; installKeys := installKeys s ++ [key]; manualInstallOnly := manualInstallOnly s |}.

Definition present (v : option DateValue) : bool := match v with None | Some (DateText []) => false | Some _ => true end.

(** An update that is installed or replaced needs nothing, unless it is a part that was
    downloaded. *)
Definition done_with (u : PatchDecisionUpdate) : bool :=
  let lifecycle := default (str "detected") (lifecycleState u) in
  let replaced := bool_decide (lifecycle = str "superseded") || superseded u in
  let downloadedTransactionMember := present (downloadedAt u) && replaced in
  bool_decide (lifecycle = str "installed") || (negb downloadedTransactionMember && replaced).

Definition has_failed (u : PatchDecisionUpdate) : bool := bool_decide (lifecycleState u = Some (str "failed")).

Definition releaseMs (nowMs : Z) (u : PatchDecisionUpdate) : Z :=
  default nowMs (or_else (parseDateMs (releaseDate u)) (parseDateMs (firstDetectedAt u))).

Definition first_action (a : PatchOverrideAction) (l : list PatchDecisionOverride) : option PatchDecisionOverride :=
  List.find (with_action a) l.
Definition has (a : PatchOverrideAction) (l : list PatchDecisionOverride) : bool := existsb (with_action a) l.

(** A deferral that is still in force, with its time. *)
Definition active_deferral (nowMs : Z) (o : option PatchDecisionOverride) : option (PatchDecisionOverride * option Z) :=
  match o with
  | None => None
  | Some defer =>
      let deferMs := parseDateMs (deferUntil defer) in
      match deferMs with
      | Some ms => if nowMs <? ms then Some (defer, deferMs) else None
      | None => Some (defer, None)
      end
  end.

Definition reason_or (t : option text) (fallback : string) : text := default (str fallback) (truthy_text t).

Definition plan_update (input : EvaluatePatchPlanInput) (config : PatchPolicyConfig) (nowMs : Z) (hasManualInstallOnly : bool)
    (s : Selection) (u : PatchDecisionUpdate) : res string Selection :=
  if done_with u then Ok s else
  let c := classify u in
  let rule := categories config c in
  let l := matchingOverrides input nowMs (Some (u, c)) in
  let emergency := has EmergencyApprove l in
  let force := has ForceInstall l || has ForceDownload l in
  if has_failed u && negb force && negb emergency then Ok s else
  let released := releaseMs nowMs u in
  let eligibleMs := add_days released (installAfterDays rule) in
  let installDeadlineMs := add_days released <$> forceInstallByDays rule in
  let forceDeadlineReached := match installDeadlineMs with Some ms => ms <=? nowMs | None => false end in
  match first_action Block l with
  | Some block =>
      Ok (push (action_for Blocked (reason_or (override_reason block) "Update is blocked by override.") u c None None None
                  [(str "overrideId", JString (override_id block))]) s)
  | None =>
  match active_deferral nowMs (first_action Defer l) with
  | Some (defer, deferMs) =>
      not_before ← iso_or_null deferMs;
      Ok (push (action_for Deferred (reason_or (override_reason defer) "Update is deferred by override.") u c None not_before None
                  [(str "overrideId", JString (override_id defer))]) s)
  | None =>
  let s := mark (force && negb emergency) s in
  if negb force && negb emergency && bool_decide (approval rule = Never) then
    Ok (push (action_for Blocked (category_name c ++ str " updates are blocked by policy.") u c None None None []) s)
  else if negb force && negb emergency && (nowMs <? eligibleMs) && negb forceDeadlineReached then
    eligible ← iso eligibleMs;
    deadline ← iso_or_null installDeadlineMs;
    release ← iso released;
    Ok (push (action_for Deferred (str "Update is deferred until " ++ show_iso eligible ++ str ".") u c None (Some eligible) deadline
                [(str "releaseDate", JString (show_iso release)); (str "installAfterDays", JNumber (installAfterDays rule))]) s)
  else if negb force && negb emergency && bool_decide (approval rule = Manual) && negb (has Approve l) then
    Ok (push (action_for Blocked (category_name c ++ str " updates require manual approval.") u c None None None []) s)
  else if hasManualInstallOnly && negb force then Ok s
  else if force || emergency || forceDeadlineReached || isWithinPatchWindow (windows config InstallPhase) nowMs then
    Ok (push_key (updateKey u) s)
  else
    deadline ← iso_or_null installDeadlineMs;
    Ok (push (action_for Deferred (str "Update is approved but outside the install window.") u c (Some InstallPhase) None deadline []) s)
  end
  end.

(** ** The plan *)

Definition native_action (on : bool) : PatchActionPlanItem :=
  {| item_operationId := None; item_action := ApplyNativeControl; updateKeys := []; item_category := None; window := None;
     notBefore := None; deadlineAt := None; forced := false;
     reason := if on then str "Talos patch control is enabled by policy."
               else str "Native Windows Update control is restored or unmanaged by policy.";
     metadata := [(str "enabled", JBool on); (str "overrideIds", JArray [])] |}.

Definition phase_action (type : PatchPlanActionType) (phase : Phase) (reason : text) (id : option text) (forced : bool) (meta : Fields)
    : PatchActionPlanItem :=
  {| item_operationId := id; item_action := type; updateKeys := []; item_category := None; window := Some phase;
     notBefore := None; deadlineAt := None; forced := forced; reason := reason; metadata := meta |}.

Definition report_only (reason : text) (not_before : option Z) (meta : Fields) : PatchActionPlanItem :=
  {| item_operationId := None; item_action := ReportOnly; updateKeys := []; item_category := None; window := None;
     notBefore := not_before; deadlineAt := None; forced := false; reason := reason; metadata := meta |}.

(** [[...new Set(keys)]] *)
Definition unique_keys (keys : list text) : list text :=
  foldl (fun kept key => if mem key kept then kept else kept ++ [key]) [] keys.

(** The action that installs what was selected, if anything was. *)
Definition install_action (activeOverrides : list PatchDecisionOverride) (keys : list text) (manual_only : bool)
    : list PatchActionPlanItem :=
  match keys with
  | [] => []
  | _ =>
      let installOverrides :=
        List.filter (fun o => with_action ForceInstall o || with_action ForceDownload o || with_action EmergencyApprove o ||
                              with_action Approve o) activeOverrides in
      let suppress := has ForceDownload installOverrides in
      [{| item_operationId := overrideOperationId installOverrides; item_action := Install; updateKeys := unique_keys keys;
          item_category := None; window := Some InstallPhase; notBefore := None; deadlineAt := None;
          forced := negb (bool_decide (installOverrides = []));
          reason := str "Install is authorized by policy or override.";
          metadata := [(str "overrideIds", override_ids installOverrides);
                       (str "rebootBehavior", JString (if suppress then str "suppress" else str "allow"));
                       (str "manualInstallOnly", JBool manual_only)] |}]
  end.

(** The reboot that a device waits for. *)
Definition reboot_actions (input : EvaluatePatchPlanInput) (config : PatchPolicyConfig) (nowMs : Z)
    (activeOverrides : list PatchDecisionOverride) (hasManualInstallOnly : bool) : res string (list PatchActionPlanItem) :=
  if negb (rebootRequired (device input) && negb hasManualInstallOnly) then Ok [] else
  let forceReboot := first_action ForceReboot activeOverrides in
  let rebootWindowOpen := isWithinPatchWindow (windows config RebootPhase) nowMs in
  let serverManualOnly :=
    bool_decide (deviceType (device input) = Server) && bool_decide (serverBehavior (reboot config) = ManualOnly) in
  match active_deferral nowMs (first_action DeferReboot activeOverrides) with
  | Some (defer, deferMs) =>
      not_before ← iso_or_null deferMs;
      Ok [{| item_operationId := None; item_action := Deferred; updateKeys := []; item_category := None;
             window := Some RebootPhase; notBefore := not_before; deadlineAt := None; forced := false;
             reason := reason_or (override_reason defer) "Reboot is deferred by override.";
             metadata := [(str "overrideId", JString (override_id defer))] |}]
  | None =>
      if bool_decide (is_Some forceReboot) || (negb serverManualOnly && allowAutomaticReboot (reboot config) && rebootWindowOpen)
      then Ok [phase_action Reboot RebootPhase
                 (if bool_decide (is_Some forceReboot) then str "Manual reboot override requested." else str "Reboot window is open.")
                 (forceReboot ≫= operationId) (bool_decide (is_Some forceReboot))
                 [(str "overrideIds", override_ids (match forceReboot with Some o => [o] | None => [] end))]]
      else Ok [phase_action Deferred RebootPhase
                 (if serverManualOnly then str "Server reboot policy requires manual reboot."
                  else str "Reboot is pending but outside the reboot window.") None false []]
  end.

(** The scan, and whether it is all that is planned. *)
Definition scan_actions (config : PatchPolicyConfig) (nowMs : Z) (lastScan : option DateValue)
    (scanOverrides : list PatchDecisionOverride) (hasManualInstallOnly : bool) : list PatchActionPlanItem * bool :=
  let manual := negb (bool_decide (scanOverrides = [])) in
  let scanWindowOpen := isWithinPatchWindow (windows config ScanPhase) nowMs in
  let scanDue :=
    match parseDateMs lastScan with Some ms => add_minutes ms (checkInIntervalMinutes config) <=? nowMs | None => true end in
  if negb hasManualInstallOnly && (manual || (scanDue && scanWindowOpen)) then
    ([phase_action Scan ScanPhase (if manual then str "Manual scan override requested." else str "Scan window is open and scan is due.")
        (overrideOperationId scanOverrides) manual [(str "overrideIds", override_ids scanOverrides)]], manual)
  else if negb hasManualInstallOnly && scanDue && negb scanWindowOpen then
    ([phase_action Deferred ScanPhase (str "Scan is due but outside the scan window.") None false []], false)
  else ([], false).

(** The actions after the one for native control. *)
Definition plan_actions (input : EvaluatePatchPlanInput) (config : PatchPolicyConfig) (nowMs : Z) : res string (list PatchActionPlanItem) :=
  let maintenanceUntilMs := parseDateMs (patchMaintenanceModeUntil (device input)) in
  let activeOverrides := matchingOverrides input nowMs None in
  let inMaintenance :=
    match maintenanceUntilMs with Some ms => nowMs <? ms | None => false end || has MaintenanceMode activeOverrides in
  let forceRebootOverrides := List.filter (with_action ForceReboot) activeOverrides in
  let hasManualInstallOnly :=
    bool_decide (forceRebootOverrides = []) && (has ForceInstall activeOverrides || has ForceDownload activeOverrides) in
  if negb (patchManaged (device input) && managedMode config) then
    Ok [report_only (str "Device is unmanaged by policy.") None
          [(str "managedMode", JBool false); (str "overrideIds", JArray [])]]
  else if negb (bool_decide (forceRebootOverrides = [])) then
    Ok [phase_action Reboot RebootPhase (str "Manual reboot override requested.") (overrideOperationId forceRebootOverrides) true
          [(str "overrideIds", override_ids forceRebootOverrides)]]
  else if inMaintenance then
    not_before ← iso_or_null maintenanceUntilMs;
    Ok [report_only (str "Device is in patch maintenance mode.") not_before
          [(str "overrideIds", override_ids (List.filter (with_action MaintenanceMode) activeOverrides))]]
  else
    let scanOverrides := List.filter (with_action ForceScan) activeOverrides in
    let '(scans, only_scan) := scan_actions config nowMs (lastScanAt (device input)) scanOverrides hasManualInstallOnly in
    if only_scan then Ok scans else
    s ← foldM (plan_update input config nowMs hasManualInstallOnly)
          {| selected_actions := scans; installKeys := []; manualInstallOnly := false |} (updates input);
    let '(keys, skips) := constrainMacosOsVersionInstallSelection (device input) (updates input) (installKeys s) in
    reboots ← reboot_actions input config nowMs activeOverrides hasManualInstallOnly;
    let all := selected_actions s ++ skips ++ install_action activeOverrides keys (manualInstallOnly s) ++ reboots in
    Ok (match all with [] => [action ReportOnly (str "No patch action is currently required.")] | _ => all end).

(** [clock] is [Date.now()]. *)
Definition evaluatePatchActionPlan (clock : Z) (input : EvaluatePatchPlanInput) : res string PatchActionPlan :=
  let nowMs := default clock (match input_now input with Some v => date_ms v | None => None end) in
  let config := coercePatchPolicyConfig (policy input) in
  let managed := patchManaged (device input) && managedMode config in
  let supported := supportsNativeWindowsUpdateControl (os (device input)) in
  let native := supported && managed && device_nativeWindowsUpdateControl (device input) && nativeWindowsUpdateControl config in
  generated ← iso nowMs;
  rest ← plan_actions input config nowMs;
  next ← iso (add_minutes nowMs (checkInIntervalMinutes config));
  Ok {| generatedAt := generated; plan_organizationId := organizationId (device input); plan_agentId := agentId (device input);
        plan_policyId := policy_id <$> policy input; plan_managedMode := managed; plan_nativeWindowsUpdateControl := native;
        nextCheckInAt := next;
        actions := uniqueActions ((if supported then [native_action native] else []) ++ rest) |}.
End plan.
End Plan.
