(* ===== verification/PatchAuthority.v ===== *)
(** What a plan may contain: installations exactly where policy and overrides authorize them,
    at most one version of macOS, reboots only on request or in their window. *)

From stdpp Require Import sorting.
From S2P Require Import Prelude Bytes Text Json PatchText PatchPlan.

Import Plan.

Local Open Scope Z_scope.

(** ** Actions that are listed twice *)

Lemma mem_spec t l : mem t l = true <-> t ∈ l.
Proof.
  unfold mem. rewrite existsb_exists. setoid_rewrite bool_decide_eq_true. split.
  - intros (x & ? & <-). by apply list_elem_of_In.
  - intros Ht. exists t. split; [by apply list_elem_of_In|done].
Qed.

(** The first of the actions with the same key is kept. *)
Lemma uniqueActions_fold l seen kept :
  (forall t, t ∈ seen <-> exists y, y ∈ kept /\ action_key y = t) ->
  let r := (foldl (fun '(seen, kept) item =>
            if mem (action_key item) seen then (seen, kept) else (action_key item :: seen, kept ++ [item])) (seen, kept) l).2 in
  (forall x, x ∈ r -> x ∈ kept \/ x ∈ l) /\
  (forall x, x ∈ kept \/ x ∈ l -> exists y, y ∈ r /\ action_key y = action_key x).
Proof.
  revert seen kept. induction l as [|a l IH]; intros seen kept Hs; cbn.
  - split; [by left|]. intros x [Hx|Hx%elem_of_nil]; [by exists x|done].
  - destruct (mem (action_key a) seen) eqn:Hm.
    + apply mem_spec, Hs in Hm as (y & Hy & Hk). destruct (IH seen kept Hs) as [H1 H2]. split.
      * intros x Hx. rewrite elem_of_cons. destruct (H1 x Hx); tauto.
      * intros x Hx. rewrite elem_of_cons in Hx. destruct Hx as [Hx|[->|Hx]]; [by apply H2; left| |by apply H2; right].
        destruct (H2 y) as (z & Hz & Hzk); [by left|]. exists z. split; [done|congruence].
    + destruct (IH (action_key a :: seen) (kept ++ [a])) as [H1 H2].
      { intros t. rewrite elem_of_cons, Hs. setoid_rewrite elem_of_app. setoid_rewrite list_elem_of_singleton. split.
        - intros [->|(y & Hy & Hk)]; eauto.
        - intros (y & [Hy| ->] & <-); eauto. }
      setoid_rewrite elem_of_app in H1. setoid_rewrite elem_of_app in H2.
      setoid_rewrite list_elem_of_singleton in H1. setoid_rewrite list_elem_of_singleton in H2. setoid_rewrite elem_of_cons. split.
      * intros x Hx. destruct (H1 x Hx); tauto.
      * intros x Hx. apply H2. tauto.
Qed.

Lemma uniqueActions_spec l :
  (forall x, x ∈ uniqueActions l -> x ∈ l) /\ (forall x, x ∈ l -> exists y, y ∈ uniqueActions l /\ action_key y = action_key x).
Proof.
  destruct (uniqueActions_fold l [] []) as [H1 H2].
  { intros t. split; [by intros ?%elem_of_nil|]. by intros (y & ?%elem_of_nil & _). }
  split.
  - intros x [Hx%elem_of_nil|Hx]%H1; done.
  - intros x Hx. by apply H2; right.
Qed.

Lemma action_key_action x y : action_key x = action_key y -> item_action x = item_action y.
Proof.
  intros H. apply (f_equal (take 4)) in H. unfold action_key in H.
  assert (forall a rest, take 4 (action_name a ++ rest) = take 4 (action_name a)) as Htake by (by intros []).
  rewrite !Htake in H. destruct (item_action x), (item_action y); try done; by vm_compute in H.
Qed.

(** For the types of action of which there is at most one, nothing is lost. *)
Lemma uniqueActions_sole l x :
  (forall y, y ∈ l -> item_action y = item_action x -> y = x) -> x ∈ uniqueActions l <-> x ∈ l.
Proof.
  destruct (uniqueActions_spec l) as [H1 H2]. intros Hsole. split; [by apply H1|]. intros Hx.
  destruct (H2 x Hx) as (y & Hy & Hk). rewrite (Hsole y) in Hy; [done|by apply H1|by apply action_key_action].
Qed.

(** ** Updates *)

Set Default Proof Using "Type".
Section authority.
Context (toLowerCase : text -> text) (parse_date : text -> option Z) (show_iso : Z -> text).
Context (add_days add_minutes : Z -> Number -> Z).
Context (zoned : Z -> text -> option (Z * Z)) (localeCompare : text -> text -> Z).

Abbreviation classify := (classify toLowerCase).
Abbreviation matchingOverrides := (matchingOverrides toLowerCase parse_date).
Abbreviation releaseMs := (releaseMs parse_date).
Abbreviation active_deferral := (active_deferral parse_date).
Abbreviation isWithinPatchWindow := (isWithinPatchWindow zoned).
Abbreviation plan_update := (plan_update toLowerCase parse_date show_iso add_days zoned).
Abbreviation plan_actions := (plan_actions toLowerCase parse_date show_iso add_days add_minutes zoned localeCompare).
Abbreviation evaluate := (evaluatePatchActionPlan toLowerCase parse_date show_iso add_days add_minutes zoned localeCompare).

(** An override that is in force for the device, and for the update or for all of them. *)
Definition applies (input : EvaluatePatchPlanInput) (nowMs : Z) (u : option PatchDecisionUpdate) (o : PatchDecisionOverride) : Prop :=
  o ∈ overrides input /\ isExpired parse_date o nowMs = false /\
  overrideScopeMatches o (device input) (groupIds input) = true /\
  overrideUpdateMatches toLowerCase o ((fun u => (u, classify u)) <$> u) = true.

Definition overridden (input : EvaluatePatchPlanInput) (nowMs : Z) (u : option PatchDecisionUpdate) (a : PatchOverrideAction) : Prop :=
  exists o, applies input nowMs u o /\ override_action o = a.

Definition rule_of (config : PatchPolicyConfig) (u : PatchDecisionUpdate) : PatchCategoryRule := categories config (classify u).

Definition deadline_reached (config : PatchPolicyConfig) (nowMs : Z) (u : PatchDecisionUpdate) : Prop :=
  exists days, forceInstallByDays (rule_of config u) = Some days /\ add_days (releaseMs nowMs u) days <= nowMs.

(** When an update may be installed: it is of use, not blocked or deferred by a technician, and
    forced by one; or approved in an emergency; or approved by policy or technician, and due or
    old enough in the window.  While all that is asked for is one forced installation, only
    forced updates count. *)
Definition authorized (input : EvaluatePatchPlanInput) (config : PatchPolicyConfig) (nowMs : Z) (manual_only : bool)
    (u : PatchDecisionUpdate) : Prop :=
  let overridden := overridden input nowMs (Some u) in
  let rule := rule_of config u in
  done_with u = false /\ ~ overridden Block /\
  active_deferral nowMs (first_action Defer (matchingOverrides input nowMs (Some (u, classify u)))) = None /\
  (overridden ForceInstall \/ overridden ForceDownload \/
   manual_only = false /\
   (overridden EmergencyApprove \/
    has_failed u = false /\ (approval rule = Auto \/ approval rule = Manual /\ overridden Approve) /\
    (deadline_reached config nowMs u \/
     add_days (releaseMs nowMs u) (installAfterDays rule) <= nowMs /\
     isWithinPatchWindow (windows config InstallPhase) nowMs = true))).

Lemma elem_of_matching input nowMs u o :
  o ∈ matchingOverrides input nowMs ((fun u => (u, classify u)) <$> u) <-> applies input nowMs u o.
Proof.
  unfold applies, Plan.matchingOverrides. rewrite list_elem_of_In, filter_In, <- list_elem_of_In, !andb_true_iff, negb_true_iff.
  split; [intros (? & (? & ?) & ?)|intros (? & ? & ? & ?)]; done.
Qed.

Lemma has_spec a l : has a l = true <-> exists o, o ∈ l /\ override_action o = a.
Proof.
  unfold has, with_action. rewrite existsb_exists. setoid_rewrite bool_decide_eq_true. by setoid_rewrite list_elem_of_In.
Qed.

Lemma has_overridden input nowMs u a :
  has a (matchingOverrides input nowMs ((fun u => (u, classify u)) <$> u)) = true <-> overridden input nowMs u a.
Proof. rewrite has_spec. unfold overridden. by setoid_rewrite elem_of_matching. Qed.

Lemma first_action_None a l : first_action a l = None <-> has a l = false.
Proof.
  unfold first_action, has. split.
  - intros H. apply not_true_iff_false. rewrite existsb_exists. intros (o & Ho & Hw). by rewrite (find_none _ _ H o Ho) in Hw.
  - intros H. destruct (List.find _ l) as [o|] eqn:Hf; [|done]. apply find_some in Hf as [Ho Hw].
    apply not_true_iff_false in H. destruct H. apply existsb_exists. eauto.
Qed.

Lemma deadline_reached_spec config nowMs u :
  deadline_reached config nowMs u <->
  match add_days (releaseMs nowMs u) <$> forceInstallByDays (rule_of config u) with Some ms => ms <=? nowMs | None => false end = true.
Proof.
  unfold deadline_reached. destruct (forceInstallByDays _) as [days|]; cbn.
  - rewrite Z.leb_le. split; [by intros (d & [= <-] & ?)|eauto].
  - split; [by intros (d & ? & _)|done].
Qed.

(** The kinds of action that concern single updates. *)
Definition notice (item : PatchActionPlanItem) : Prop := item_action item = Blocked \/ item_action item = Deferred.

(** The same as a test on the overrides that apply. *)
Definition decided (input : EvaluatePatchPlanInput) (config : PatchPolicyConfig) (nowMs : Z) (manual_only : bool)
    (u : PatchDecisionUpdate) : Prop :=
  let l := matchingOverrides input nowMs (Some (u, classify u)) in
  let rule := rule_of config u in
  let due := match add_days (releaseMs nowMs u) <$> forceInstallByDays rule with Some ms => ms <=? nowMs | None => false end in
  done_with u = false /\ first_action Block l = None /\ active_deferral nowMs (first_action Defer l) = None /\
  (has ForceInstall l || has ForceDownload l = true \/
   manual_only = false /\
   (has EmergencyApprove l = true \/
    has_failed u = false /\ (approval rule = Auto \/ approval rule = Manual /\ has Approve l = true) /\
    (due = true \/
     (nowMs <? add_days (releaseMs nowMs u) (installAfterDays rule)) = false /\
     isWithinPatchWindow (windows config InstallPhase) nowMs = true))).

Lemma authorized_decided input config nowMs manual u :
  authorized input config nowMs manual u <-> decided input config nowMs manual u.
Proof.
  unfold authorized, decided. cbv zeta. rewrite <- !(has_overridden input nowMs (Some u)), deadline_reached_spec.
  rewrite first_action_None, orb_true_iff, Z.ltb_ge, not_true_iff_false. clear show_iso add_minutes localeCompare. tauto.
Qed.

(** What one update may add to a selection. *)
Definition adds (P : Prop) (key : text) (s s' : Selection) : Prop :=
  (exists extra, selected_actions s' = selected_actions s ++ extra /\ Forall notice extra) /\
  ((P /\ installKeys s' = installKeys s ++ [key]) \/ (~ P /\ installKeys s' = installKeys s)).

Lemma adds_nothing (P : Prop) key s only : ~ P -> adds P key s (mark only s).
Proof. intros HP. split; [exists []; by rewrite app_nil_r|by right]. Qed.

Lemma adds_same (P : Prop) key s : ~ P -> adds P key s s.
Proof. intros HP. split; [exists []; by rewrite app_nil_r|by right]. Qed.

Lemma adds_notice (P : Prop) key s only item : ~ P -> notice item -> adds P key s (push item (mark only s)).
Proof. intros HP Hn. split; [exists [item]; split; [done|by constructor]|by right]. Qed.

Lemma adds_push (P : Prop) key s item : ~ P -> notice item -> adds P key s (push item s).
Proof. intros HP Hn. split; [exists [item]; split; [done|by constructor]|by right]. Qed.

Lemma adds_key (P : Prop) key s only : P -> adds P key s (push_key key (mark only s)).
Proof. intros HP. split; [exists []; by rewrite app_nil_r|by left]. Qed.

Ltac refuse := let H := fresh in intros H; decompose [and or] H; subst; congruence.

(** The decision on an update. *)
Lemma plan_update_adds input config nowMs manual s u s' :
  plan_update input config nowMs manual s u = Ok s' -> adds (decided input config nowMs manual u) (updateKey u) s s'.
Proof.
  clear add_minutes localeCompare. intros H. unfold Plan.plan_update in H. cbv zeta in H. fold (rule_of config u) in H.
  unfold decided. cbv zeta.
  set (l := matchingOverrides input nowMs (Some (u, classify u))) in *.
  set (due := match add_days _ <$> _ with Some ms => ms <=? nowMs | None => false end) in *.
  set (force := has ForceInstall l || has ForceDownload l) in *. set (emergency := has EmergencyApprove l) in *.
  clearbody force emergency due.
  destruct (done_with u); [injection H as <-; apply adds_same; refuse|].
  destruct (has_failed u && negb force && negb emergency) eqn:Hfailed.
  { injection H as <-. apply adds_same. destruct force, emergency, (has_failed u); try done; refuse. }
  destruct (first_action Block l) as [block|]; [injection H as <-; apply adds_push; [refuse|by left]|].
  destruct (active_deferral nowMs (first_action Defer l)) as [[defer ms]|].
  { res_inv. apply adds_push; [refuse|by right]. }
  destruct force; cbn [negb andb orb] in H |- *.
  { rewrite andb_false_r in H. injection H as <-. apply adds_key. auto. }
  destruct emergency; cbn [negb andb orb] in H.
  { rewrite andb_true_r in H. destruct manual; injection H as <-; [apply adds_nothing; refuse|apply adds_key; auto 10]. }
  cbn [negb] in Hfailed. rewrite !andb_true_r in Hfailed. rewrite ?andb_true_r in H.
  rewrite Hfailed.
  destruct (bool_decide (approval (rule_of config u) = Never)) eqn:Hnever.
  { injection H as <-. apply bool_decide_eq_true in Hnever. apply adds_notice; [|by left]. refuse. }
  apply bool_decide_eq_false in Hnever.
  destruct ((nowMs <? _) && negb due) eqn:Hearly.
  { res_inv. apply adds_notice; [|by right]. apply andb_true_iff in Hearly as [He Hd]. apply negb_true_iff in Hd.
    refuse. }
  destruct (bool_decide (approval (rule_of config u) = Manual) && negb (has Approve l)) eqn:Hmanual.
  { injection H as <-. apply andb_true_iff in Hmanual as [Hm Hp]. apply bool_decide_eq_true in Hm. apply negb_true_iff in Hp.
    apply adds_notice; [|by left]. refuse. }
  destruct manual; [injection H as <-; apply adds_nothing; refuse|].
  destruct (due || isWithinPatchWindow _ nowMs) eqn:Hwindow.
  - injection H as <-. apply adds_key. split_and!; try done. right. split; [done|]. right. split; [done|].
    apply andb_false_iff in Hmanual, Hearly. apply orb_true_iff in Hwindow.
    rewrite negb_false_iff, bool_decide_eq_false in Hmanual. rewrite negb_false_iff in Hearly.
    destruct (approval (rule_of config u)); intuition congruence.
  - res_inv. apply orb_false_iff in Hwindow as [Hd Hw]. apply adds_notice; [|by right]. refuse.
Qed.


(** All updates. *)
Lemma plan_updates_spec input config nowMs manual us s s' :
  foldM (plan_update input config nowMs manual) s us = Ok s' ->
  (exists extra, selected_actions s' = selected_actions s ++ extra /\ Forall notice extra) /\
  forall key, key ∈ installKeys s' <->
    key ∈ installKeys s \/ exists u, u ∈ us /\ updateKey u = key /\ authorized input config nowMs manual u.
Proof.
  revert s. induction us as [|u us IH]; intros s H; cbn [foldM] in H.
  - injection H as <-. split; [exists []; by rewrite app_nil_r|]. intros key. split; [by left|].
    intros [Hk|(u & Hu%elem_of_nil & _)]; done.
  - res_inv. destruct (IH _ Hk) as [(extra2 & He2 & Hn2) Hkeys].
    destruct (plan_update_adds _ _ _ _ _ _ _ Hb) as [(extra1 & He1 & Hn1) Hu]. rewrite <- authorized_decided in Hu. split.
    + exists (extra1 ++ extra2). rewrite He2, He1, <- app_assoc. split; [done|]. by apply Forall_app.
    + intros key. rewrite Hkeys. setoid_rewrite elem_of_cons. destruct Hu as [[Ha ->]|[Ha ->]].
      * rewrite elem_of_app, list_elem_of_singleton. split.
        -- intros [[Hk'| ->]|(v & Hv & Hvk & Hva)]; [by left|right; by exists u; auto|right; exists v; auto].
        -- intros [Hk'|(v & [->|Hv] & <- & Hva)]; [by left; left|by left; right|right; by exists v].
      * split.
        -- intros [Hk'|(v & Hv & Hvk & Hva)]; [by left|right; exists v; auto].
        -- intros [Hk'|(v & [->|Hv] & <- & Hva)]; [by left|done|right; by exists v].
Qed.

(** ** Versions of macOS *)

Lemma map_set_fresh u l : updateKey u ∉ map updateKey l -> map_set u l = l ++ [u].
Proof.
  induction l as [|x l IH]; intros Hn; [done|]. cbn in *. rewrite not_elem_of_cons in Hn. destruct Hn as [Hx Hn].
  rewrite bool_decide_eq_false_2 by congruence. by rewrite IH.
Qed.

Lemma foldl_map_set l1 l2 : NoDup (map updateKey (l1 ++ l2)) -> foldl (fun l u => map_set u l) l1 l2 = l1 ++ l2.
Proof.
  revert l1. induction l2 as [|u l2 IH]; intros l1 Hn; cbn; [by rewrite app_nil_r|].
  rewrite map_set_fresh.
  - rewrite IH; rewrite <- app_assoc; done.
  - rewrite map_app in Hn. cbn in Hn. apply NoDup_app in Hn as (_ & Hd & _). intros Hin. apply (Hd _ Hin). by left.
Qed.

Lemma NoDup_filter_keys (p : PatchDecisionUpdate -> bool) us : NoDup (map updateKey us) -> NoDup (map updateKey (List.filter p us)).
Proof.
  induction us as [|u us IH]; intros Hn; [done|]. cbn in *. apply NoDup_cons in Hn as [Hu Hn].
  destruct (p u); [|by apply IH]. cbn. apply NoDup_cons. split; [|by apply IH]. intros Hin. apply Hu.
  apply list_elem_of_fmap in Hin as (v & -> & Hv). apply list_elem_of_fmap_2. apply list_elem_of_In, filter_In in Hv as [Hv _].
  by apply list_elem_of_In.
Qed.

(** With keys of their own, the candidates are the selected updates that are versions of macOS. *)
Lemma candidates_spec us keys c :
  NoDup (map updateKey us) ->
  c ∈ osUpdateCandidates toLowerCase us keys <->
  exists u, u ∈ us /\ updateKey u ∈ keys /\ as_candidate toLowerCase u = Some c.
Proof.
  intros Hn. unfold osUpdateCandidates. rewrite foldl_map_set by (by apply NoDup_filter_keys). cbn [app].
  rewrite list_elem_of_omap. setoid_rewrite list_elem_of_In. setoid_rewrite filter_In. setoid_rewrite mem_spec.
  setoid_rewrite <- list_elem_of_In. split; [intros (u & (? & ?) & ?)|intros (u & ? & ? & ?)]; by exists u.
Qed.

Lemma as_candidate_update u c : as_candidate toLowerCase u = Some c -> candidate c = u.
Proof. unfold as_candidate. cbv zeta. intros H. repeat case_match; by simplify_eq. Qed.

(** The comparison of versions part by part. *)
Fixpoint compare_from (n i : nat) (a b : list Z) : Z :=
  match n with
  | O => 0
  | S n => if nth i b 0 - nth i a 0 =? 0 then compare_from n (S i) a b else nth i b 0 - nth i a 0
  end.

Lemma compare_from_find n i a b :
  default 0 (List.find (fun diff => negb (diff =? 0)) (map (fun index => nth index b 0 - nth index a 0) (seq i n))) = compare_from n i a b.
Proof. revert i. induction n as [|n IH]; intros i; cbn; [done|]. destruct (_ =? 0); cbn; [apply IH|done]. Qed.

Lemma compare_from_more n k i a b :
  (length a <= i + n)%nat -> (length b <= i + n)%nat -> compare_from (n + k) i a b = compare_from n i a b.
Proof.
  revert i. induction n as [|n IH]; intros i Ha Hb; cbn.
  - revert i Ha Hb. induction k as [|k IHk]; intros i Ha Hb; cbn; [done|]. rewrite !nth_overflow by lia. cbn. apply IHk; lia.
  - rewrite IH by lia. done.
Qed.

Lemma compare_enough a b n : (length a <= n)%nat -> (length b <= n)%nat -> compareVersionPartsDesc a b = compare_from n 0 a b.
Proof.
  intros Ha Hb. unfold compareVersionPartsDesc. rewrite compare_from_find.
  replace n with (Nat.max (length a) (length b) + (n - Nat.max (length a) (length b)))%nat by lia.
  symmetry. apply compare_from_more; lia.
Qed.

Lemma compare_from_trans n i a b c :
  compare_from n i a b <= 0 -> compare_from n i b c <= 0 -> compare_from n i a c <= 0.
Proof. revert i. induction n as [|n IH]; intros i; cbn; [lia|]. repeat case_match; try lia. apply IH. Qed.

Lemma compare_from_total n i a b : compare_from n i a b = - compare_from n i b a.
Proof. revert i. induction n as [|n IH]; intros i; cbn; [lia|]. repeat case_match; try lia. apply IH. Qed.

(** At least as new. *)
Definition newest (a b : list Z) : Prop := compareVersionPartsDesc a b <= 0.

Lemma newest_refl a : newest a a.
Proof. unfold newest. rewrite (compare_enough _ _ (length a)) by lia. pose proof (compare_from_total (length a) 0 a a). lia. Qed.

Lemma newest_trans a b c : newest a b -> newest b c -> newest a c.
Proof.
  unfold newest. set (n := (length a + length b + length c)%nat).
  rewrite !(compare_enough _ _ n) by lia. apply compare_from_trans.
Qed.

Lemma compare_anti a b : compareVersionPartsDesc a b = - compareVersionPartsDesc b a.
Proof. rewrite !(compare_enough _ _ (length a + length b)%nat) by lia. apply compare_from_total. Qed.

Lemma sort_first_spec x l :
  sort_first localeCompare x l ∈ x :: l /\
  forall c, c ∈ x :: l -> newest (version (sort_first localeCompare x l)) (version c).
Proof.
  unfold sort_first. revert x. induction l as [|y l IH]; intros x; cbn.
  - split; [by left|]. intros c ->%list_elem_of_singleton. apply newest_refl.
  - set (best := if compare_candidates localeCompare y x <? 0 then y else x).
    assert ((best = x \/ best = y) /\ newest (version best) (version x) /\ newest (version best) (version y)) as (Hb & Hx & Hy).
    { subst best. unfold compare_candidates. cbv zeta. pose proof (compare_anti (version x) (version y)) as Ht.
      pose proof (newest_refl (version x)) as Hrx. pose proof (newest_refl (version y)) as Hry. unfold newest in *.
      destruct (compareVersionPartsDesc (version y) (version x) =? 0) eqn:He; destruct (_ <? 0) eqn:Hl; split; auto; lia. }
    destruct (IH best) as [Hin Hall]. fold best. split.
    + apply elem_of_cons in Hin as [Hin|Hin]; [rewrite Hin; rewrite !elem_of_cons; tauto|by right; right].
    + intros c. rewrite !elem_of_cons. intros [->|[->|Hc]]; [| |apply Hall; by right].
      * eapply newest_trans; [apply Hall; by left|done].
      * eapply newest_trans; [apply Hall; by left|done].
Qed.

Abbreviation constrain := (constrainMacosOsVersionInstallSelection toLowerCase localeCompare).

Lemma constrain_keys device us keys :
  let r := constrain device us keys in
  Forall notice r.2 /\ (forall key, key ∈ r.1 -> key ∈ keys) /\ (isMacosDeviceOs toLowerCase (os device) = false -> r.1 = keys).
Proof.
  cbv zeta. unfold constrainMacosOsVersionInstallSelection. destruct (isMacosDeviceOs _ _); cbn [negb]; [|done].
  destruct (osUpdateCandidates toLowerCase us keys) as [|first [|second rest]]; [done..|]. cbv zeta. split_and!; [|by intros key Hk; apply list_elem_of_In, filter_In in Hk as [Hk%list_elem_of_In _]|done].
  apply Forall_map, Forall_forall. intros c _. by left.
Qed.

Lemma key_update us u v : NoDup (map updateKey us) -> u ∈ us -> v ∈ us -> updateKey u = updateKey v -> u = v.
Proof.
  intros Hn [i Hi]%list_elem_of_lookup [j Hj]%list_elem_of_lookup Hk.
  assert (i = j) as ->; [|congruence]. apply (NoDup_lookup _ _ _ (updateKey u) Hn); change (map ?f us) with (f <$> us);
    rewrite list_lookup_fmap; [by rewrite Hi|by rewrite Hj, Hk].
Qed.

(** On macOS one version is left, and it is at least as new as those left out for it. *)
Lemma constrain_macos device us keys :
  NoDup (map updateKey us) -> isMacosDeviceOs toLowerCase (os device) = true ->
  let r := constrain device us keys in
  (forall u, u ∈ us -> updateKey u ∈ keys -> updateKey u ∈ r.1 \/
     exists c v c', as_candidate toLowerCase u = Some c /\ v ∈ us /\ updateKey v ∈ r.1 /\ as_candidate toLowerCase v = Some c' /\
       newest (version c') (version c)) /\
  (forall u v, u ∈ us -> v ∈ us -> updateKey u ∈ r.1 -> updateKey v ∈ r.1 ->
     is_Some (as_candidate toLowerCase u) -> is_Some (as_candidate toLowerCase v) -> u = v).
Proof.
  intros Hn Hmac. cbv zeta. unfold constrainMacosOsVersionInstallSelection. rewrite Hmac. cbn [negb].
  pose proof (fun c => candidates_spec us keys c Hn) as Hc.
  destruct (osUpdateCandidates toLowerCase us keys) as [|first [|second rest]].
  - split; [by left|]. intros u v Hu Hv Hku Hkv [cu Hcu] _. assert (cu ∈ []) as []%elem_of_nil. apply Hc. by exists u.
  - split; [by left|]. intros u v Hu Hv Hku Hkv [cu Hcu] [cv Hcv].
    assert (cu = first) as -> by (apply list_elem_of_singleton, Hc; by exists u).
    assert (cv = first) as -> by (apply list_elem_of_singleton, Hc; by exists v).
    rewrite <- (as_candidate_update _ _ Hcu). by apply as_candidate_update.
  - cbv zeta. cbn [fst]. destruct (sort_first_spec first (second :: rest)) as [Hin Hbest].
    set (all := first :: second :: rest) in *. set (selected := sort_first localeCompare first (second :: rest)) in *.
    destruct (proj1 (Hc selected) Hin) as (w & Hw & Hwk & Hws).
    set (blocked := List.filter _ all).
    assert (forall key, key ∈ map (fun c => updateKey (candidate c)) blocked <->
      exists u c, u ∈ us /\ updateKey u ∈ keys /\ as_candidate toLowerCase u = Some c /\ key = updateKey u /\ key <> updateKey w) as Hblocked.
    { intros key. change (map ?f blocked) with (f <$> blocked). rewrite list_elem_of_fmap. subst blocked. setoid_rewrite list_elem_of_In. setoid_rewrite filter_In.
      setoid_rewrite <- list_elem_of_In. setoid_rewrite negb_true_iff. setoid_rewrite bool_decide_eq_false. setoid_rewrite Hc.
      rewrite (as_candidate_update _ _ Hws). split.
      - intros (c & -> & (u & Hu & Huk & Huc) & Hne). rewrite (as_candidate_update _ _ Huc) in *. by exists u, c.
      - intros (u & c & Hu & Huk & Huc & -> & Hne). exists c. rewrite (as_candidate_update _ _ Huc). split; [done|]. split; [by exists u|done]. }
    assert (forall key, key ∈ List.filter (fun key => negb (mem key (map (fun c => updateKey (candidate c)) blocked))) keys <->
      key ∈ keys /\ key ∉ map (fun c => updateKey (candidate c)) blocked) as Hleft.
    { intros key. rewrite list_elem_of_In, filter_In, <- list_elem_of_In, negb_true_iff, <- not_true_iff_false, mem_spec. done. }
    setoid_rewrite Hleft. split.
    + intros u Hu Huk. destruct (decide (updateKey u ∈ map (fun c => updateKey (candidate c)) blocked)) as [Hb|Hb]; [right|by left].
      apply Hblocked in Hb as (u' & c & Hu' & _ & Huc & Hkey & _). rewrite (key_update us u u' Hn Hu Hu' Hkey).
      exists c, w, selected. split_and!; [done|done|done| |done|].
      * rewrite Hblocked. by intros (? & ? & _ & _ & _ & _ & ?).
      * apply Hbest, Hc. exists u'. split_and!; [done|by rewrite <- Hkey|done].
    + intros u v Hu Hv [Huk Hub] [Hvk Hvb] [cu Hcu] [cv Hcv]. rewrite Hblocked in Hub, Hvb.
      apply (key_update us u v Hn Hu Hv). destruct (decide (updateKey u = updateKey w)) as [->|Hne]; [|destruct Hub; by exists u, cu].
      destruct (decide (updateKey v = updateKey w)) as [->|Hne]; [done|]. destruct Hvb. by exists v, cv.
Qed.

End authority.
