(* ===== verification/PatchDecision.v ===== *)
(** The theorems about the plan of patch actions: what is installed, which version of macOS,
    when a device reboots, and what an override for a single update does. *)

From stdpp Require Import sorting.
From S2P Require Import Prelude Bytes Text Json PatchText PatchPlan PatchAuthority.

Import Plan.

Local Open Scope Z_scope.

Lemma unique_keys_fold kept keys key :
  key ∈ foldl (fun kept key => if mem key kept then kept else kept ++ [key]) kept keys <-> key ∈ kept \/ key ∈ keys.
Proof.
  revert kept. induction keys as [|k keys IH]; intros kept; cbn; [by rewrite elem_of_nil; tauto|].
  rewrite IH, elem_of_cons. destruct (mem k kept) eqn:Hm; [apply mem_spec in Hm; split; [tauto|]; intros [?|[->|?]]; tauto|].
  rewrite elem_of_app, list_elem_of_singleton. tauto.
Qed.

Lemma install_action_keys l keys only item :
  item ∈ install_action l keys only -> item_action item = Install /\ forall key, key ∈ updateKeys item <-> key ∈ keys.
Proof.
  destruct keys as [|k keys]; [by intros ?%elem_of_nil|]. intros ->%list_elem_of_singleton. split; [done|].
  intros key. cbn [updateKeys]. unfold unique_keys. rewrite unique_keys_fold, elem_of_nil. tauto.
Qed.

Set Default Proof Using "Type".
Section decision.
Context (toLowerCase : text -> text) (parse_date : text -> option Z) (show_iso : Z -> text).
Context (add_days add_minutes : Z -> Number -> Z).
Context (zoned : Z -> text -> option (Z * Z)) (localeCompare : text -> text -> Z).

Abbreviation active input nowMs := (matchingOverrides toLowerCase parse_date input nowMs None).
Abbreviation overridden := (overridden toLowerCase parse_date).
Abbreviation authorized := (authorized toLowerCase parse_date add_days zoned).
Abbreviation constrain := (constrainMacosOsVersionInstallSelection toLowerCase localeCompare).
Abbreviation plan_actions := (plan_actions toLowerCase parse_date show_iso add_days add_minutes zoned localeCompare).
Abbreviation evaluate := (evaluatePatchActionPlan toLowerCase parse_date show_iso add_days add_minutes zoned localeCompare).

(** The time and the policy of a plan. *)
Definition plan_time (clock : Z) (input : EvaluatePatchPlanInput) : Z :=
  default clock (match input_now input with Some v => date_ms parse_date v | None => None end).
Definition plan_config (input : EvaluatePatchPlanInput) : PatchPolicyConfig := coercePatchPolicyConfig (policy input).

(** An installation or a download is forced on the whole device. *)
Definition manual_only (input : EvaluatePatchPlanInput) (nowMs : Z) : bool :=
  has ForceInstall (active input nowMs) || has ForceDownload (active input nowMs).

(** The device is managed, and nothing but patching is asked of it: no reboot, no maintenance,
    no scan. *)
Definition may_patch (input : EvaluatePatchPlanInput) (nowMs : Z) : Prop :=
  patchManaged (device input) && managedMode (plan_config input) = true /\
  ~ overridden input nowMs None ForceReboot /\ ~ overridden input nowMs None MaintenanceMode /\
  (forall ms, parseDateMs parse_date (patchMaintenanceModeUntil (device input)) = Some ms -> ms <= nowMs) /\
  (overridden input nowMs None ForceScan -> manual_only input nowMs = true).

Definition installed (plan : PatchActionPlan) (key : text) : Prop :=
  exists item, item ∈ actions plan /\ item_action item = Install /\ key ∈ updateKeys item.

Lemma has_active input nowMs a : has a (active input nowMs) = true <-> overridden input nowMs None a.
Proof. apply (has_overridden toLowerCase parse_date input nowMs None). Qed.

Lemma filter_action_nil a l : List.filter (with_action a) l = [] <-> has a l = false.
Proof.
  unfold has. induction l as [|o l IH]; [done|]. cbn. destruct (with_action a o); [done|]. cbn. apply IH.
Qed.

Lemma scan_actions_spec config nowMs lastScan l manual r :
  scan_actions parse_date add_minutes zoned config nowMs lastScan l manual = r ->
  Forall (fun item => item_action item = Scan \/ item_action item = Deferred) r.1 /\
  r.2 = negb (bool_decide (l = [])) && negb manual.
Proof.
  intros <-. unfold scan_actions. cbv zeta. destruct manual; cbn [negb andb]; [by rewrite andb_false_r|]. rewrite andb_true_r.
  destruct (bool_decide (l = [])); cbn [negb orb]; [|by split; [constructor; [left|constructor]|]].
  destruct (_ && _); [by split; [constructor; [left|constructor]|]|]. destruct (_ && _); [|done].
  by split; [constructor; [right|constructor]|].
Qed.

Lemma reboot_actions_spec input config nowMs l manual r :
  reboot_actions parse_date zoned input config nowMs l manual = Ok r ->
  Forall (fun item => item_action item = Deferred \/
            item_action item = Reboot /\ rebootRequired (device input) = true /\ manual = false /\
            (has ForceReboot l = true \/
             allowAutomaticReboot (reboot config) = true /\ isWithinPatchWindow zoned (windows config RebootPhase) nowMs = true /\
             ~ (deviceType (device input) = Server /\ serverBehavior (reboot config) = ManualOnly))) r.
Proof.
  unfold reboot_actions. destruct (rebootRequired _ && negb manual) eqn:Hreq; cbn [negb]; [|by intros [= <-]].
  apply andb_true_iff in Hreq as [Hreq Hm]. apply negb_true_iff in Hm. cbv zeta. destruct (active_deferral _ _ _) as [[o ms]|].
  { intros H. res_inv. constructor; [by left|constructor]. }
  destruct (bool_decide (is_Some (first_action ForceReboot l)) || _) eqn:Hw; intros [= <-]; (constructor; [|constructor]); [right|by left].
  split_and!; [done..|]. apply orb_true_iff in Hw as [Hf|Hw].
  - left. apply bool_decide_eq_true in Hf. destruct (has ForceReboot l) eqn:Hh; [done|].
    apply first_action_None in Hh. rewrite Hh in Hf. by destruct Hf.
  - right. rewrite !andb_true_iff, negb_true_iff in Hw. destruct Hw as [[Hs Ha] Hwin]. split_and!; [done|done|].
    intros [Hd Hb]. by rewrite !bool_decide_eq_true_2 in Hs.
Qed.

(** The parts of a plan for a device that may be patched. *)
Definition parts (input : EvaluatePatchPlanInput) (nowMs : Z) (s : Selection) (reboots : list PatchActionPlanItem)
    : list PatchActionPlanItem :=
  let r := constrain (device input) (updates input) (installKeys s) in
  selected_actions s ++ r.2 ++ install_action (active input nowMs) r.1 (manualInstallOnly s) ++ reboots.

Lemma plan_actions_cases input nowMs l :
  plan_actions input (plan_config input) nowMs = Ok l ->
  (~ may_patch input nowMs /\
   Forall (fun item => item_action item <> Install /\
     (item_action item = Reboot ->
        patchManaged (device input) && managedMode (plan_config input) = true /\ overridden input nowMs None ForceReboot)) l) \/
  (may_patch input nowMs /\ exists scans s reboots,
     Forall (fun item => item_action item = Scan \/ item_action item = Deferred) scans /\
     foldM (plan_update toLowerCase parse_date show_iso add_days zoned input (plan_config input) nowMs (manual_only input nowMs))
       {| selected_actions := scans; installKeys := []; manualInstallOnly := false |} (updates input) = Ok s /\
     reboot_actions parse_date zoned input (plan_config input) nowMs (active input nowMs) (manual_only input nowMs) = Ok reboots /\
     l = match parts input nowMs s reboots with
         | [] => [action ReportOnly (str "No patch action is currently required.")]
         | all => all
         end).
Proof.
  unfold Plan.plan_actions, may_patch. rewrite <- !has_active. set (l0 := active input nowMs). cbv zeta. intros H.
  destruct (patchManaged (device input) && managedMode (plan_config input)) eqn:Hm; cbn [negb] in H.
  2: { injection H as <-. left. split; [by intros []|]. constructor; [by split; intros|constructor]. }
  destruct (has ForceReboot l0) eqn:Hr.
  { rewrite bool_decide_eq_false_2 in H by (rewrite filter_action_nil; congruence). cbn [negb] in H. injection H as <-. left.
    split; [by intros (_ & ? & _)|]. constructor; [|constructor]. split; [done|]. intros _. split; [done|]. by apply has_active. }
  rewrite bool_decide_eq_true_2 in H by (by apply filter_action_nil). cbn [negb andb] in H.
  destruct (match parseDateMs _ _ with Some ms => _ | None => _ end || has MaintenanceMode l0) eqn:Hmaint.
  { res_inv. left. split; [|constructor; [by split; intros|constructor]]. intros (_ & _ & Hn & Hu & _). apply orb_true_iff in Hmaint as [Hmaint|]; [|done].
    destruct (parseDateMs _ _) as [ms|]; [|done]. specialize (Hu ms eq_refl). lia. }
  apply orb_false_iff in Hmaint as [Huntil Hmode].
  change (has ForceInstall l0 || has ForceDownload l0) with (manual_only input nowMs) in H. destruct (scan_actions _ _ _ _ _ _ _ _) as [scans only] eqn:Hscan.
  apply scan_actions_spec in Hscan as [Hscans Honly]. cbn in Hscans, Honly.
  destruct only.
  { injection H as <-. left. split.
    - intros (_ & _ & _ & _ & Hs). symmetry in Honly. apply andb_true_iff in Honly as [Hne Hmo]. apply negb_true_iff in Hmo, Hne.
      rewrite bool_decide_eq_false, filter_action_nil, not_false_iff_true in Hne. rewrite (Hs Hne) in Hmo. done.
    - apply (Forall_impl _ _ _ Hscans). intros item [Hi|Hi]; rewrite Hi; by split; intros. }
  right. split.
  - split_and!; [done|done|by rewrite Hmode|intros ms Hms; rewrite Hms in Huntil; lia|]. intros Hs.
    symmetry in Honly. apply andb_false_iff in Honly as [Hne|Hmo]; [|by apply negb_false_iff in Hmo].
    rewrite negb_false_iff, bool_decide_eq_true, filter_action_nil in Hne. congruence.
  - res_inv. exists scans, x. destruct (constrain _ _ _) as [keys skips] eqn:Hcon. res_inv. exists x0.
    split_and!; try done. unfold parts. rewrite Hcon. cbn [fst snd]. fold l0. by destruct (selected_actions x ++ _).
Qed.

Lemma evaluate_actions clock input plan :
  evaluate clock input = Ok plan ->
  exists native l, Forall (fun item => item_action item = ApplyNativeControl) native /\
    plan_actions input (plan_config input) (plan_time clock input) = Ok l /\ actions plan = uniqueActions (native ++ l).
Proof.
  unfold evaluatePatchActionPlan. cbv zeta. intros H. res_inv.
  eexists _, _. split; [|split; [exact Hb0|done]]. destruct (supportsNativeWindowsUpdateControl _); [by constructor|constructor].
Qed.

(** The installation in the parts of a plan. *)
Lemma parts_install input nowMs s reboots scans item :
  Forall (fun item => item_action item = Scan \/ item_action item = Deferred) scans ->
  (exists extra, selected_actions s = scans ++ extra /\ Forall notice extra) ->
  Forall (fun item => item_action item <> Install) reboots ->
  item ∈ parts input nowMs s reboots -> item_action item = Install ->
  item ∈ install_action (active input nowMs) (constrain (device input) (updates input) (installKeys s)).1 (manualInstallOnly s).
Proof.
  intros Hs (extra & He & Hn) Hr Hin Hi. unfold parts in Hin. rewrite He in Hin.
  pose proof (constrain_keys toLowerCase localeCompare (device input) (updates input) (installKeys s)) as [Hskip _].
  rewrite Forall_forall in Hs, Hn, Hr, Hskip. rewrite !elem_of_app in Hin.
  destruct Hin as [[Hin|Hin]|[Hin|[Hin|Hin]]]; [| | |done|].
  - destruct (Hs _ Hin); congruence.
  - destruct (Hn _ Hin); congruence.
  - destruct (Hskip _ Hin); congruence.
  - by apply Hr in Hin.
Qed.

Lemma install_action_sole l keys only x y : x ∈ install_action l keys only -> y ∈ install_action l keys only -> x = y.
Proof. destruct keys; [by intros ?%elem_of_nil|]. by intros ->%list_elem_of_singleton ->%list_elem_of_singleton. Qed.

Lemma install_action_some l keys only key : key ∈ keys -> exists item, item ∈ install_action l keys only.
Proof. destruct keys; [by intros ?%elem_of_nil|]. intros _. eexists. by apply list_elem_of_singleton. Qed.

Lemma reboots_not_install input config nowMs l manual r :
  reboot_actions parse_date zoned input config nowMs l manual = Ok r -> Forall (fun item => item_action item <> Install) r.
Proof.
  intros H%reboot_actions_spec. apply (Forall_impl _ _ _ H). intros item [Hi|[Hi _]]; by rewrite Hi.
Qed.

(** The keys that are installed: those of authorized updates, but of several versions of
    macOS only one. *)
Lemma installed_keys clock input plan :
  evaluate clock input = Ok plan ->
  let nowMs := plan_time clock input in
  (~ may_patch input nowMs /\ forall key, ~ installed plan key) \/
  (may_patch input nowMs /\ exists keys,
     (forall key, key ∈ keys <->
        exists u, u ∈ updates input /\ updateKey u = key /\ authorized input (plan_config input) nowMs (manual_only input nowMs) u) /\
     forall key, installed plan key <-> key ∈ (constrain (device input) (updates input) keys).1).
Proof.
  intros (native & l & Hnative & Hl & Hplan)%evaluate_actions. cbv zeta. set (nowMs := plan_time clock input) in *.
  rewrite Forall_forall in Hnative. unfold installed. rewrite Hplan. destruct (uniqueActions_spec (native ++ l)) as [Hsub _].
  destruct (plan_actions_cases _ _ _ Hl) as [[Hno Hall]|(Hmay & scans & s & reboots & Hscans & Hs & Hr & ->)].
  - left. split; [done|]. rewrite Forall_forall in Hall. intros key (item & Hin%Hsub & Hi & _).
    apply elem_of_app in Hin as [Hin|Hin]; [apply Hnative in Hin; congruence|by apply Hall in Hin as [? _]].
  - right. split; [done|]. apply plan_updates_spec in Hs as [Hsel Hkeys]. apply reboots_not_install in Hr.
    exists (installKeys s). split; [intros key; rewrite Hkeys; cbn; split; [by intros [?%elem_of_nil|]|by right]|].
    set (l := match parts input nowMs s reboots with [] => _ | all => all end) in *.
    assert (forall item, item ∈ native ++ l -> item_action item = Install ->
      item ∈ install_action (active input nowMs) (constrain (device input) (updates input) (installKeys s)).1 (manualInstallOnly s)) as Honly.
    { intros item Hin Hi. apply elem_of_app in Hin as [Hin|Hin]; [apply Hnative in Hin; congruence|].
      apply (parts_install input nowMs s reboots scans item Hscans Hsel Hr); [|done]. subst l.
      destruct (parts input nowMs s reboots); [|done]. apply list_elem_of_singleton in Hin. by subst item. }
    intros key. split.
    + intros (item & Hin%Hsub & Hi & Hk). destruct (install_action_keys _ _ _ _ (Honly _ Hin Hi)) as [_ Hkey]. by apply Hkey.
    + intros Hk. destruct (install_action_some (active input nowMs) _ (manualInstallOnly s) key Hk) as [item Hin].
      destruct (install_action_keys _ _ _ _ Hin) as [Hi Hkey]. exists item. split; [|split; [done|by apply Hkey]].
      apply uniqueActions_sole.
      * intros y Hy Hyi. rewrite Hi in Hyi. eapply install_action_sole; [by apply Honly|exact Hin].
      * apply elem_of_app. right. subst l. assert (item ∈ parts input nowMs s reboots) as Hp.
        { unfold parts. cbv zeta. rewrite !elem_of_app. auto. }
        destruct (parts input nowMs s reboots); [by apply elem_of_nil in Hp|done].
Qed.

(** C14. What is installed. A plan installs an update only if the device is managed, not in
    maintenance and not asked to reboot or scan instead, and the update is authorized: it is
    not blocked or deferred by an override, and it is forced by one, or approved in an
    emergency, or approved by policy or override and past its deadline or old enough within the
    install window. On a device that does not run macOS, every such update is installed. *)
Theorem installs_what_is_authorized clock input plan :
  evaluate clock input = Ok plan ->
  let nowMs := plan_time clock input in
  let wanted key := may_patch input nowMs /\
    exists u, u ∈ updates input /\ updateKey u = key /\ authorized input (plan_config input) nowMs (manual_only input nowMs) u in
  (forall key, installed plan key -> wanted key) /\
  (isMacosDeviceOs toLowerCase (os (device input)) = false -> forall key, wanted key -> installed plan key).
Proof.
  intros H. destruct (installed_keys _ _ _ H) as [[Hno Hnone]|(Hmay & keys & Hkeys & Hin)]; cbv zeta in *.
  - split; [by intros key ?%Hnone|by intros _ key [? _]].
  - destruct (constrain_keys toLowerCase localeCompare (device input) (updates input) keys) as (_ & Hsub & Heq). split.
    + intros key Hk. split; [done|]. by apply Hkeys, Hsub, Hin.
    + intros Hmac key [_ Hu]. apply Hin. rewrite (Heq Hmac). by apply Hkeys.
Qed.

(** C25. One version of macOS at a time. When the updates have keys of their own, a plan for a
    device that runs macOS and may be patched installs every authorized update or, instead of
    one that is a version of macOS, another version that is at least as new; and it never
    installs two versions of macOS. *)
Theorem one_macos_version clock input plan :
  evaluate clock input = Ok plan -> NoDup (map updateKey (updates input)) ->
  isMacosDeviceOs toLowerCase (os (device input)) = true ->
  let nowMs := plan_time clock input in
  (forall u, may_patch input nowMs -> u ∈ updates input ->
     authorized input (plan_config input) nowMs (manual_only input nowMs) u ->
     installed plan (updateKey u) \/
     exists c v c', as_candidate toLowerCase u = Some c /\ v ∈ updates input /\ installed plan (updateKey v) /\
       as_candidate toLowerCase v = Some c' /\ compareVersionPartsDesc (version c') (version c) <= 0) /\
  (forall u v, u ∈ updates input -> v ∈ updates input -> installed plan (updateKey u) -> installed plan (updateKey v) ->
     is_Some (as_candidate toLowerCase u) -> is_Some (as_candidate toLowerCase v) -> u = v).
Proof.
  intros H Hn Hmac. destruct (installed_keys _ _ _ H) as [[Hno Hnone]|(Hmay & keys & Hkeys & Hin)]; cbv zeta in *.
  - split; [by intros|by intros u v _ _ ?%Hnone].
  - destruct (constrain_macos toLowerCase localeCompare (device input) (updates input) keys Hn Hmac) as [Hleft Hone].
    setoid_rewrite Hin. split; [|done]. intros u _ Hu Ha. apply Hleft; [done|]. apply Hkeys. by exists u.
Qed.

(** A policy without its deadlines for reboots and what else it says about them. *)
Definition forget_deadlines (config : PatchPolicyConfig) : PatchPolicyConfig :=
  {| managedMode := managedMode config; nativeWindowsUpdateControl := nativeWindowsUpdateControl config;
     checkInIntervalMinutes := checkInIntervalMinutes config; windows := windows config;
     categories := fun c =>
       let rule := categories config c in
       {| approval := approval rule; installAfterDays := installAfterDays rule; forceInstallByDays := forceInstallByDays rule;
          forceRebootByDays := None |};
     reboot := {| allowAutomaticReboot := allowAutomaticReboot (reboot config); forceRebootAfterDeadline := false;
                  warningMinutes := Int 0; maxUserDeferrals := Int 0; activeHoursProtection := false;
                  serverBehavior := serverBehavior (reboot config); workstationBehavior := WindowOrDeadline |} |}.

(** C26. When a device reboots. A plan contains a reboot only for a managed device, and only if
    an override asks for it, or if a reboot is needed, the policy allows automatic ones, the
    reboot window is open and the device is not a server to be rebooted by hand. The deadlines
    that a policy sets for reboots, whether it forces them, its warnings, deferrals and active
    hours, and its behavior for workstations, change nothing in any plan: a device that is
    never reached in its window is never rebooted by its deadline. *)
Theorem reboots_only_in_window clock input plan :
  evaluate clock input = Ok plan ->
  let nowMs := plan_time clock input in
  let config := plan_config input in
  (forall item, item ∈ actions plan -> item_action item = Reboot ->
     patchManaged (device input) && managedMode config = true /\
     (overridden input nowMs None ForceReboot \/
      rebootRequired (device input) = true /\ allowAutomaticReboot (reboot config) = true /\
      isWithinPatchWindow zoned (windows config RebootPhase) nowMs = true /\
      ~ (deviceType (device input) = Server /\ serverBehavior (reboot config) = ManualOnly))) /\
  forall config', plan_actions input (forget_deadlines config') nowMs = plan_actions input config' nowMs.
Proof.
  intros H. cbv zeta. split; [|done].
  apply evaluate_actions in H as (native & l & Hnative & Hl & Hplan). set (nowMs := plan_time clock input) in *.
  rewrite Forall_forall in Hnative. rewrite Hplan. destruct (uniqueActions_spec (native ++ l)) as [Hsub _].
  intros item Hin%Hsub Hi. apply elem_of_app in Hin as [Hin|Hin]; [apply Hnative in Hin; congruence|].
  destruct (plan_actions_cases _ _ _ Hl) as [[_ Hall]|(Hmay & scans & s & reboots & Hscans & Hs & Hr & ->)].
  - rewrite Forall_forall in Hall. destruct (Hall _ Hin) as [_ Hr]. destruct (Hr Hi) as [Hm Ho]. split; [done|by left].
  - split; [apply Hmay|]. apply reboot_actions_spec in Hr. rewrite Forall_forall in Hr.
    apply plan_updates_spec in Hs as [(extra & He & Hn) _]. cbn [selected_actions] in He.
    assert (item ∈ parts input nowMs s reboots) as Hp.
    { destruct (parts input nowMs s reboots); [|done]. apply list_elem_of_singleton in Hin. by subst item. }
    unfold parts in Hp. cbv zeta in Hp. rewrite He, !elem_of_app in Hp.
    destruct (constrain_keys toLowerCase localeCompare (device input) (updates input) (installKeys s)) as [Hskip _].
    rewrite Forall_forall in Hscans, Hn, Hskip. destruct Hp as [[Hp|Hp]|[Hp|[Hp|Hp]]].
    + destruct (Hscans _ Hp); congruence.
    + destruct (Hn _ Hp); congruence.
    + destruct (Hskip _ Hp); congruence.
    + apply install_action_keys in Hp as [Hp _]. congruence.
    + destruct (Hr _ Hp) as [Hd|(_ & Hreq & _ & [Hf|Hw])]; [congruence|left; by apply has_active|by right].
Qed.

(** ** Dates out of range *)

Definition in_range (ms : Z) : Prop := Z.abs ms <= 8640000000000000.

(** All times that a plan may print. *)
Definition times_in_range (clock : Z) (input : EvaluatePatchPlanInput) : Prop :=
  let nowMs := plan_time clock input in
  let config := plan_config input in
  in_range nowMs /\ in_range (add_minutes nowMs (checkInIntervalMinutes config)) /\
  (forall ms, parseDateMs parse_date (patchMaintenanceModeUntil (device input)) = Some ms -> in_range ms) /\
  (forall o ms, o ∈ overrides input -> parseDateMs parse_date (deferUntil o) = Some ms -> in_range ms) /\
  (forall u, u ∈ updates input ->
     let rule := rule_of toLowerCase config u in
     let released := releaseMs parse_date nowMs u in
     in_range released /\ in_range (add_days released (installAfterDays rule)) /\
     forall days, forceInstallByDays rule = Some days -> in_range (add_days released days)).

Lemma iso_total ms : in_range ms -> exists t, iso ms = Ok t.
Proof. unfold in_range, iso. intros H. exists ms. by rewrite (proj2 (Z.leb_le _ _) H). Qed.

Lemma iso_or_null_total ms : (forall t, ms = Some t -> in_range t) -> exists t, iso_or_null ms = Ok t.
Proof.
  intros H. destruct ms as [ms|]; cbn; [|by eexists]. destruct (ms =? 0); [by eexists|].
  destruct (iso_total ms) as [t ->]; [by apply H|]. by eexists.
Qed.

Lemma deferral_in_range clock input nowMs u a o ms :
  times_in_range clock input -> active_deferral parse_date nowMs (first_action a (matchingOverrides toLowerCase parse_date input nowMs u)) = Some (o, ms) ->
  forall t, ms = Some t -> in_range t.
Proof.
  intros (_ & _ & _ & Ho & _) H t ->. unfold active_deferral, first_action in H. destruct (List.find _ _) as [o'|] eqn:Hf; [|done].
  apply find_some in Hf as [Hin _]. unfold matchingOverrides in Hin. apply filter_In in Hin as [Hin%list_elem_of_In _].
  destruct (parseDateMs parse_date (deferUntil o')) as [t'|] eqn:Hp; [|done]. destruct (_ <? _); [|done]. injection H as <- <-.
  by apply (Ho o').
Qed.

Lemma plan_update_total clock input manual s u :
  times_in_range clock input -> u ∈ updates input ->
  exists s', plan_update toLowerCase parse_date show_iso add_days zoned input (plan_config input) (plan_time clock input) manual s u = Ok s'.
Proof.
  intros Ht Hu. unfold plan_update. destruct (done_with u); [by eexists|]. cbv zeta.
  fold (rule_of toLowerCase (plan_config input) u). destruct (_ && _); [by eexists|].
  destruct (first_action Block _); [by eexists|]. pose proof Ht as (_ & _ & _ & _ & Hus). destruct (Hus u Hu) as (Hrel & Helig & Hdl).
  assert (exists t, iso_or_null (add_days (releaseMs parse_date (plan_time clock input) u) <$>
    forceInstallByDays (rule_of toLowerCase (plan_config input) u)) = Ok t) as [deadline Hdeadline].
  { apply iso_or_null_total. intros t (days & Hd & ->)%fmap_Some. by apply Hdl. }
  destruct (active_deferral _ _ _) as [[o ms]|] eqn:Hdef.
  { destruct (iso_or_null_total ms) as [t ->]; [by eapply deferral_in_range|]. by eexists. }
  rewrite Hdeadline. destruct (iso_total _ Hrel) as [released ->]. destruct (iso_total _ Helig) as [eligible ->].
  repeat match goal with |- exists s', (if ?b then _ else _) = Ok s' => destruct b; [by eexists|] end. by eexists.
Qed.

Lemma reboot_actions_total clock input manual :
  times_in_range clock input ->
  exists r, reboot_actions parse_date zoned input (plan_config input) (plan_time clock input)
              (active input (plan_time clock input)) manual = Ok r.
Proof.
  intros Ht. unfold reboot_actions. destruct (negb _); [by eexists|]. cbv zeta.
  destruct (active_deferral _ _ _) as [[o ms]|] eqn:Hdef; [|destruct (_ || _); by eexists].
  destruct (iso_or_null_total ms) as [t ->]; [by eapply deferral_in_range|]. by eexists.
Qed.

(** C28. A plan is made. When the times that it may name, of the device, its updates and the
    overrides, with the days and minutes of the policy added, lie in the range of dates, the
    evaluation returns a plan, whatever the policy, the overrides and the texts are. *)
Theorem plan_is_made clock input : times_in_range clock input -> exists plan, evaluate clock input = Ok plan.
Proof.
  intros Ht. pose proof Ht as (Hnow & Hnext & Huntil & _). unfold evaluatePatchActionPlan. cbv zeta.
  change (default clock _) with (plan_time clock input). fold (plan_config input).
  destruct (iso_total _ Hnow) as [t ->]. rewrite bind_Ok.
  assert (exists l, plan_actions input (plan_config input) (plan_time clock input) = Ok l) as [l ->].
  { unfold Plan.plan_actions. cbv zeta. destruct (negb _); [by eexists|]. destruct (negb _); [by eexists|].
    destruct (_ || _); [destruct (iso_or_null_total _ Huntil) as [t' ->]; by eexists|].
    destruct (scan_actions _ _ _ _ _ _ _ _) as [scans []]; [by eexists|].
    match goal with |- context [foldM ?f ?s0 ?l] => destruct (foldM_total (fun _ => True) f s0 l) as (s & -> & _); [|done|] end.
    { intros s u Hu _. edestruct (plan_update_total clock input) as [s' Hs']; [done|exact Hu|]. exists s'. split; [exact Hs'|done]. }
    rewrite bind_Ok. destruct (constrain _ _ _) as [keys skips].
    match goal with |- context [reboot_actions _ _ _ _ _ _ ?m] => destruct (reboot_actions_total clock input m Ht) as [r ->] end.
    by eexists. }
  rewrite bind_Ok. destruct (iso_total _ Hnext) as [t' ->]. by eexists.
Qed.
End decision.

(** ** Examples *)

Definition ascii_lower (t : text) : text := map (fun c => if within 65 90 c then c + 32 else c) t.
Definition no_dates (t : text) : option Z := None.
Definition no_iso (ms : Z) : text := [].
Definition whole_days (ms : Z) (n : Number) : Z := match n with Int d => ms + d * 86400000 | NotInt _ => ms end.
Definition whole_minutes (ms : Z) (n : Number) : Z := match n with Int m => ms + m * 60000 | NotInt _ => ms end.
Definition no_zones (ms : Z) (zone : text) : option (Z * Z) := None.
Definition same_place (a b : text) : Z := 0.

Abbreviation example_plan := (evaluatePatchActionPlan ascii_lower no_dates no_iso whole_days whole_minutes no_zones same_place).

Definition example_now : Z := 1779278400000.
Definition example_device (os : string) : PatchDecisionDevice :=
  {| organizationId := str "org"; agentId := str "agent"; os := str os; customerId := None; siteId := None;
     deviceType := Workstation; patchRing := str "broad"; patchManaged := true; device_nativeWindowsUpdateControl := true;
     patchMaintenanceModeUntil := None; patchTags := []; rebootRequired := true;
     lastScanAt := Some (Date (Some example_now)) |}.

Definition example_update (key title : string) (kind : option text) : PatchDecisionUpdate :=
  {| updateKey := str key; title := str title; kbArticle := None; category := kind; lifecycleState := None;
     releaseDate := Some (Date (Some 1775001600000)); firstDetectedAt := None; downloadedAt := None; superseded := false |}.

(** A technician has an update downloaded, or all of them. *)
Definition example_download (key : option text) : PatchDecisionOverride :=
  {| override_id := str "download-1"; scopeType := Device; scopeKey := str "agent"; override_action := ForceDownload;
     operationId := None; override_updateKey := key; override_kbArticle := None; override_category := None;
     override_reason := None; deferUntil := None; expiresAt := None; override_enabled := None |}.

Definition example_input (os : string) (us : list PatchDecisionUpdate) (os' : list PatchDecisionOverride) : EvaluatePatchPlanInput :=
  {| input_now := Some (Date (Some example_now)); device := example_device os; policy := None; updates := us;
     overrides := os'; groupIds := [] |}.

Definition security_update : PatchDecisionUpdate := example_update "security update|kb5030000" "Security Update" (Some (str "security")).

(** The types of the actions of a plan and what they say of reboots. *)
Definition summary (plan : PatchActionPlan) : list (PatchPlanActionType * option Json) :=
  map (fun item => (item_action item, get (str "rebootBehavior") (metadata item))) (actions plan).


Definition windows_input : EvaluatePatchPlanInput := example_input "Windows 11" [security_update] [].
Definition macos_input : EvaluatePatchPlanInput :=
  example_input "macOS 15.4" [example_update "a" "macOS Sequoia 15.5" None; example_update "b" "macOS Sequoia 15.6" None]
    [example_download None].

Lemma installs_what_is_authorized_witness :
  exists plan, example_plan 0 windows_input = Ok plan /\ installed plan (updateKey security_update) /\
    exists u, u ∈ updates windows_input /\
      authorized ascii_lower no_dates whole_days no_zones windows_input (plan_config windows_input) example_now false u.
Proof.
  destruct (example_plan 0 windows_input) as [plan| | |] eqn:H; try (by vm_compute in H).
  exists plan. split; [done|].
  assert (installed plan (updateKey security_update)) as Hi.
  { vm_compute in H. injection H as <-. eexists. split; [right; left|split; [done|left]]. }
  split; [done|].
  destruct (installs_what_is_authorized ascii_lower no_dates no_iso whole_days whole_minutes no_zones same_place 0 windows_input plan H)
    as [Hw _]. destruct (Hw _ Hi) as [_ (u & Hu & _ & Ha)]. by exists u.
Defined.

Lemma one_macos_version_witness :
  exists plan, example_plan 0 macos_input = Ok plan /\ installed plan (str "b") /\
    forall u v, u ∈ updates macos_input -> v ∈ updates macos_input -> installed plan (updateKey u) -> installed plan (updateKey v) ->
      is_Some (as_candidate ascii_lower u) -> is_Some (as_candidate ascii_lower v) -> u = v.
Proof.
  destruct (example_plan 0 macos_input) as [plan| | |] eqn:H; try (by vm_compute in H).
  exists plan. split; [done|]. split.
  { vm_compute in H. injection H as <-. eexists. split; [right; left|split; [done|left]]. }
  apply (one_macos_version ascii_lower no_dates no_iso whole_days whole_minutes no_zones same_place 0 macos_input plan H).
  - apply (bool_decide_unpack _). by vm_compute.
  - by vm_compute.
Defined.

Lemma reboots_only_in_window_witness :
  exists plan, example_plan 0 windows_input = Ok plan /\ (exists item, item ∈ actions plan /\ item_action item = Reboot) /\
    isWithinPatchWindow no_zones (windows (plan_config windows_input) RebootPhase) example_now = true.
Proof.
  destruct (example_plan 0 windows_input) as [plan| | |] eqn:H; try (by vm_compute in H).
  exists plan. split; [done|].
  assert (exists item, item ∈ actions plan /\ item_action item = Reboot) as (item & Hin & Hi).
  { vm_compute in H. injection H as <-. eexists. split; [right; right; left|done]. }
  split; [by exists item|].
  destruct (reboots_only_in_window ascii_lower no_dates no_iso whole_days whole_minutes no_zones same_place 0 windows_input plan H)
    as [Hr _]. destruct (Hr item Hin Hi) as [_ [(o & (Ho & _) & _)|(_ & _ & Hw & _)]]; [by apply elem_of_nil in Ho|exact Hw].
Defined.

Lemma plan_is_made_witness : exists plan, example_plan 0 windows_input = Ok plan.
Proof.
  apply (plan_is_made ascii_lower no_dates no_iso whole_days whole_minutes no_zones same_place 0 windows_input).
  unfold times_in_range, in_range. cbv zeta. split_and!; [by vm_compute|by vm_compute|done|by intros o ms ?%elem_of_nil|].
  intros u ->%list_elem_of_singleton. split_and!; [by vm_compute|by vm_compute|]. intros days Hd. vm_compute in Hd.
  injection Hd as <-. by vm_compute.
Defined.
