(* ===== verification/PatchCompliance.v ===== *)
(** Which policy applies to a device, and what the devices lack
    (apps/api_backend/lib/patchManagement.ts). *)

From S2P Require Import Prelude Bytes Text Json PatchText PatchPlan.

Import Plan.

Local Open Scope Z_scope.

Module Compliance.

Inductive PatchPolicyScopeType := OrganizationScope | CustomerScope | SiteScope | DeviceScope.
#[global] Instance PatchPolicyScopeType_eq_dec : EqDecision PatchPolicyScopeType.
Proof. solve_decision. Defined.
Inductive PatchComplianceStatus :=
  | Compliant | PendingUpdates | MissingSecurity | MissingCritical | RebootNeeded | NotScanned.
#[global] Instance PatchComplianceStatus_eq_dec : EqDecision PatchComplianceStatus.
Proof. solve_decision. Defined.

(** The fields that resolution reads, and the rest, which it hands on. *)
Record PatchPolicyForResolution := {
  resolution_id : text; resolution_scopeType : PatchPolicyScopeType; resolution_scopeKey : text;
  targetOsFamily : option text; priority : Number; resolution_enabled : bool; isDefault : bool;
  updatedAt : option DateValue }.

Record PatchDeviceScope := {
  scope_organizationId : text; scope_customerId : option text; scope_siteId : option text;
  scope_agentId : option text; osFamily : text }.

Record PatchUpdateInput := {
  input_title : text; input_titleNorm : option text; description : option text; input_kbArticle : option text;
  isMandatory : option bool; requiresReboot : option bool }.

Record PatchDeviceComplianceInput := {
  compliance_agentId : text; compliance_os : text; compliance_customerId : option text; compliance_siteId : option text;
  compliance_lastScanAt : option DateValue; compliance_rebootRequired : option bool; installStatus : option text;
  installStatusAt : option DateValue; pendingUpdates : list PatchUpdateInput }.

Record PatchApprovalForSummary := { approval_agentId : text; approval_updateKey : text; decision : text }.

Record PatchUpdateSummary := {
  summarized : PatchUpdateInput; summary_updateKey : text; severity : Severity; approvalDecision : option text }.

Record PatchDeviceComplianceSummary := {
  summary_agentId : text; pendingUpdatesCount : Z; missingCriticalCount : Z; missingSecurityCount : Z;
  summary_rebootRequired : bool; summary_installStatus : text; complianceStatus : PatchComplianceStatus;
  effectivePolicy : option PatchPolicyForResolution; summary_updates : list PatchUpdateSummary }.

Record PatchComplianceTotals := {
  devices : Z; compliant : Z; pending : Z; security : Z; critical : Z; rebootRequiredTotal : Z; unknown : Z;
  pendingUpdatesTotal : Z; missingCritical : Z; missingSecurity : Z }.

Definition CUSTOM_PATCH_POLICY_DEFAULT_PRIORITY : Z := 100.
Definition DEFAULT_PATCH_POLICY_PRIORITY : Z := 10000.

(** [text.includes(needle)] *)
Fixpoint includes_text (needle t : text) : bool :=
  bool_decide (take (length needle) t = needle) ||
  match t with [] => false | _ :: t => includes_text needle t end.

Section compliance.
Context (toLowerCase : text -> text) (parse_date : text -> option Z).

Definition normalizePatchOsFamily (os : text) : text :=
  let t := normalizePatchText toLowerCase os in
  let any l := existsb (fun s => includes_text (str s) t) l in
  match t with
  | [] => str "unknown"
  | _ =>
      if any ["windows"%string] then str "windows"
      else if any ["linux"; "ubuntu"; "debian"; "fedora"; "red hat"; "rhel"; "centos"; "alma"; "rocky"; "suse"]%string
      then str "linux"
      else if any ["macos"; "mac os"; "darwin"]%string then str "macos"
      else str "unknown"
  end.

Definition policyUpdatedAtMs (p : PatchPolicyForResolution) : Z := default 0 (parseDateMs parse_date (updatedAt p)).

Definition policyPriority (p : PatchPolicyForResolution) : Z :=
  match priority p with
  | Int z => z
  | NotInt _ => if isDefault p then DEFAULT_PATCH_POLICY_PRIORITY else CUSTOM_PATCH_POLICY_DEFAULT_PRIORITY
  end.

Definition specificity (s : PatchPolicyScopeType) : Z :=
  match s with OrganizationScope => 1 | CustomerScope => 2 | SiteScope => 3 | DeviceScope => 4 end.
Definition policySpecificity (p : PatchPolicyForResolution) : Z :=
  if isDefault p then 0 else specificity (resolution_scopeType p).

(** The filter of [resolveEffectivePatchPolicy]. *)
Definition policy_applies (scope : PatchDeviceScope) (p : PatchPolicyForResolution) : bool :=
  let target := default (str "all") (targetOsFamily p) in
  let same id := match id with None | Some [] => false | Some id => bool_decide (resolution_scopeKey p = id) end in
  resolution_enabled p &&
  (bool_decide (target = str "all") || bool_decide (target = osFamily scope)) &&
  (if isDefault p then bool_decide (resolution_scopeType p = OrganizationScope)
   else match resolution_scopeType p with
        | DeviceScope => same (scope_agentId scope)
        | SiteScope => same (scope_siteId scope)
        | CustomerScope => same (scope_customerId scope)
        | OrganizationScope => bool_decide (resolution_scopeKey p = scope_organizationId scope)
        end).

(** Its order. *)
Definition compare_policies (a b : PatchPolicyForResolution) : Z :=
  let priorityDelta := policyPriority a - policyPriority b in
  let specificityDelta := policySpecificity b - policySpecificity a in
  if negb (priorityDelta =? 0) then priorityDelta
  else if negb (specificityDelta =? 0) then specificityDelta
  else policyUpdatedAtMs b - policyUpdatedAtMs a.

(** [candidates.sort(compare)[0] ?? null]; the sort is stable, so the first of equals comes
    first. *)
Definition first_policy (candidates : list PatchPolicyForResolution) : option PatchPolicyForResolution :=
  foldl (fun best p => match best with
                       | None => Some p
                       | Some b => if compare_policies p b <? 0 then Some p else best
                       end) None candidates.

Definition resolveEffectivePatchPolicy (policies : list PatchPolicyForResolution) (scope : PatchDeviceScope)
    : option PatchPolicyForResolution :=
  first_policy (List.filter (policy_applies scope) policies).

Definition normalizeInstallStatus (device : PatchDeviceComplianceInput) (count : Z) : text :=
  let st := default (str "not_requested") (truthy_text (installStatus device)) in
  if negb (bool_decide (toLowerCase st = str "completed")) || (count =? 0) then st else
  match parseDateMs parse_date (compliance_lastScanAt device), parseDateMs parse_date (installStatusAt device) with
  | Some lastScanMs, Some installStatusMs => if installStatusMs <? lastScanMs then str "not_requested" else st
  | _, _ => st
  end.

(** The last approval of the update for the device. *)
Definition approval_of_update (approvals : list PatchApprovalForSummary) (agent key : text) : option text :=
  decision <$> List.find (fun a => bool_decide (approval_agentId a ++ str "|" ++ approval_updateKey a = agent ++ str "|" ++ key))
                 (rev approvals).

Definition summarize_update (approvals : list PatchApprovalForSummary) (agent : text) (u : PatchUpdateInput) : PatchUpdateSummary :=
  let key := buildPatchUpdateKey toLowerCase (input_title u) (input_titleNorm u) (input_kbArticle u) in
  {| summarized := u; summary_updateKey := key;
     severity := classifyPatchSeverity toLowerCase (input_title u) (description u) (input_kbArticle u) (isMandatory u);
     approvalDecision := approval_of_update approvals agent key |}.

Definition is_critical (s : PatchUpdateSummary) : bool := match severity s with SeverityCritical => true | _ => false end.
Definition is_security (s : PatchUpdateSummary) : bool := match severity s with SeveritySecurity => true | _ => false end.
Definition scanned (v : option DateValue) : bool := match v with None | Some (DateText []) => false | Some _ => true end.

Definition summarize_device (policies : list PatchPolicyForResolution) (approvals : list PatchApprovalForSummary)
    (organization : text) (device : PatchDeviceComplianceInput) : PatchDeviceComplianceSummary :=
  let us := map (summarize_update approvals (compliance_agentId device)) (pendingUpdates device) in
  let criticals := len (List.filter is_critical us) in
  let securities := len (List.filter is_security us) in
  let needs_reboot :=
    bool_decide (compliance_rebootRequired device = Some true) ||
    existsb (fun u => bool_decide (requiresReboot u = Some true)) (pendingUpdates device) in
  {| summary_agentId := compliance_agentId device; pendingUpdatesCount := len us; missingCriticalCount := criticals;
     missingSecurityCount := securities; summary_rebootRequired := needs_reboot;
     summary_installStatus := normalizeInstallStatus device (len us);
     complianceStatus :=
       if negb (scanned (compliance_lastScanAt device)) then NotScanned
       else if 0 <? criticals then MissingCritical
       else if 0 <? securities then MissingSecurity
       else if 0 <? len us then PendingUpdates
       else if needs_reboot then RebootNeeded else Compliant;
     effectivePolicy :=
       resolveEffectivePatchPolicy policies
         {| scope_organizationId := organization; scope_customerId := compliance_customerId device;
            scope_siteId := compliance_siteId device; scope_agentId := Some (compliance_agentId device);
            osFamily := normalizePatchOsFamily (compliance_os device) |};
     summary_updates := us |}.

Definition count_if (b : bool) (n : Z) : Z := if b then n + 1 else n.

Definition add_device (acc : PatchComplianceTotals) (item : PatchDeviceComplianceSummary) : PatchComplianceTotals :=
  let has st := bool_decide (complianceStatus item = st) in
  {| devices := devices acc + 1; compliant := count_if (has Compliant) (compliant acc);
     pending := count_if (has PendingUpdates) (pending acc); security := count_if (has MissingSecurity) (security acc);
     critical := count_if (has MissingCritical) (critical acc);
     rebootRequiredTotal := count_if (summary_rebootRequired item) (rebootRequiredTotal acc);
     unknown := count_if (has NotScanned) (unknown acc);
     pendingUpdatesTotal := pendingUpdatesTotal acc + pendingUpdatesCount item;
     missingCritical := missingCritical acc + missingCriticalCount item;
     missingSecurity := missingSecurity acc + missingSecurityCount item |}.

Definition no_devices : PatchComplianceTotals :=
  {| devices := 0; compliant := 0; pending := 0; security := 0; critical := 0; rebootRequiredTotal := 0; unknown := 0;
     pendingUpdatesTotal := 0; missingCritical := 0; missingSecurity := 0 |}.

Definition calculatePatchComplianceSummary (ds : list PatchDeviceComplianceInput) (policies : list PatchPolicyForResolution)
    (approvals : list PatchApprovalForSummary) (organization : text)
    : PatchComplianceTotals * list PatchDeviceComplianceSummary :=
  let items := map (summarize_device policies approvals organization) ds in
  (foldl add_device no_devices items, items).
End compliance.
End Compliance.

Import Compliance.

Section theorems.
Context (toLowerCase : text -> text) (parse_date : text -> option Z).

Abbreviation compare_policies := (compare_policies parse_date).

(** One policy goes before another, or is as good. *)
Definition precedes (p q : PatchPolicyForResolution) : Prop :=
  policyPriority p < policyPriority q \/
  policyPriority p = policyPriority q /\
  (policySpecificity q < policySpecificity p \/
   policySpecificity p = policySpecificity q /\ policyUpdatedAtMs parse_date q <= policyUpdatedAtMs parse_date p).

Lemma compare_precedes p q : compare_policies p q <= 0 <-> precedes p q.
Proof. unfold Compliance.compare_policies, precedes. cbv zeta. repeat case_match; lia. Qed.

Lemma compare_precedes_not p q : (compare_policies p q <? 0) = false -> precedes q p.
Proof. rewrite <- compare_precedes. unfold Compliance.compare_policies. cbv zeta. repeat case_match; lia. Qed.

Lemma precedes_trans p q r : precedes p q -> precedes q r -> precedes p r.
Proof. unfold precedes. lia. Qed.

Lemma precedes_refl p : precedes p p.
Proof. unfold precedes. lia. Qed.

Lemma first_policy_fold l b :
  exists p, foldl (fun best p => match best with
                                 | None => Some p
                                 | Some b => if compare_policies p b <? 0 then Some p else best
                                 end) (Some b) l = Some p /\
    p ∈ b :: l /\ forall q, q ∈ b :: l -> precedes p q.
Proof.
  revert b. induction l as [|x l IH]; intros b; cbn.
  - exists b. split_and!; [done|by left|]. intros q ->%list_elem_of_singleton. apply precedes_refl.
  - set (b' := if compare_policies x b <? 0 then x else b).
    assert ((b' = b \/ b' = x) /\ precedes b' b /\ precedes b' x) as (Hb & Hb1 & Hb2).
    { subst b'. destruct (_ <? 0) eqn:Hc; split_and!; auto using precedes_refl, compare_precedes_not.
      apply compare_precedes. lia. }
    destruct (IH b') as (p & Hp & Hin & Hall). exists p. split_and!.
    + rewrite <- Hp. subst b'. by destruct (_ <? 0).
    + rewrite !elem_of_cons in *. destruct Hb as [-> | ->]; tauto.
    + intros q. rewrite !elem_of_cons. intros [->|[->|Hq]]; [| |apply Hall; by right].
      * eapply precedes_trans; [apply Hall; by left|done].
      * eapply precedes_trans; [apply Hall; by left|done].
Qed.

(** C27. The policy of a device. There is no policy exactly if none applies: every policy is
    disabled, meant for another operating system, or scoped elsewhere. Otherwise the policy is
    one that applies, and no other that applies has a lower priority number, or the same number
    and a narrower scope, or the same scope and a later change. *)
Theorem policy_resolution policies scope :
  match resolveEffectivePatchPolicy parse_date policies scope with
  | None => forall q, q ∈ policies -> policy_applies scope q = false
  | Some p => p ∈ policies /\ policy_applies scope p = true /\
              forall q, q ∈ policies -> policy_applies scope q = true -> precedes p q
  end.
Proof.
  assert (forall q, q ∈ List.filter (policy_applies scope) policies <-> q ∈ policies /\ policy_applies scope q = true) as Hf.
  { intros q. by rewrite !list_elem_of_In, filter_In. }
  unfold resolveEffectivePatchPolicy, first_policy. destruct (List.filter _ policies) as [|b l]; cbn.
  - intros q Hq. destruct (policy_applies scope q) eqn:Ha; [|done]. assert (q ∈ []) as []%elem_of_nil. by apply Hf.
  - destruct (first_policy_fold l b) as (p & -> & Hp & Hall). apply Hf in Hp as [Hp Ha]. split_and!; [done|done|].
    intros q Hq Hqa. apply Hall. by apply Hf.
Qed.

Definition with_status (st : PatchComplianceStatus) (item : PatchDeviceComplianceSummary) : bool :=
  bool_decide (complianceStatus item = st).

(** What holds of the totals while devices are added. *)
Definition adds_up (t : PatchComplianceTotals) (reboots : Z) : Prop :=
  devices t = compliant t + pending t + security t + critical t + unknown t + reboots /\
  reboots <= rebootRequiredTotal t /\ missingCritical t + missingSecurity t <= pendingUpdatesTotal t.

Lemma filters_apart (l : list PatchUpdateSummary) : len (List.filter is_critical l) + len (List.filter is_security l) <= len l.
Proof.
  unfold len. induction l as [|x l IH]; cbn; [lia|]. unfold is_critical, is_security in *. destruct (severity x); cbn [length]; lia.
Qed.

Abbreviation summarize := (summarize_device toLowerCase parse_date).

Lemma add_device_adds_up policies approvals organization d t n :
  adds_up t n ->
  let item := summarize policies approvals organization d in
  adds_up (add_device t item) (if with_status RebootNeeded item then n + 1 else n).
Proof.
  intros (Hd & Hr & Hm). cbv zeta.
  pose proof (filters_apart (map (summarize_update toLowerCase approvals (compliance_agentId d)) (pendingUpdates d))) as Hf.
  unfold adds_up, add_device, with_status. cbn [devices compliant pending security critical unknown rebootRequiredTotal missingCritical
    missingSecurity pendingUpdatesTotal].
  set (item := summarize policies approvals organization d).
  assert (missingCriticalCount item + missingSecurityCount item <= pendingUpdatesCount item) as Hc by exact Hf.
  assert (complianceStatus item = RebootNeeded -> summary_rebootRequired item = true) as Hreboot.
  { unfold item, summarize_device. cbn. repeat case_match; done. }
  unfold count_if. destruct (complianceStatus item);
    repeat first [rewrite bool_decide_eq_false_2 by done | rewrite bool_decide_eq_true_2 by done];
    try (rewrite (Hreboot eq_refl); lia); destruct (summary_rebootRequired item); lia.
Qed.

Lemma foldl_adds_up policies approvals organization ds t n :
  adds_up t n ->
  let items := map (summarize policies approvals organization) ds in
  adds_up (foldl add_device t items) (n + len (List.filter (with_status RebootNeeded) items)) /\
  devices (foldl add_device t items) = devices t + len ds.
Proof.
  revert t n. induction ds as [|d ds IH]; intros t n H; cbn.
  - unfold len. cbn. by rewrite !Z.add_0_r.
  - destruct (IH _ _ (add_device_adds_up policies approvals organization d t n H)) as [Ha Hd]. cbv zeta in Ha.
    split; [|rewrite Hd; unfold add_device, len; cbn [devices length]; lia].
    destruct (with_status RebootNeeded _); [|done]. unfold len in *. cbn [length].
    match goal with |- adds_up _ ?m => replace m with (n + 1 + Z.of_nat (length (List.filter (with_status RebootNeeded)
      (map (summarize policies approvals organization) ds)))) by lia end.
    exact Ha.
Qed.

(** The totals of compliance add up. Every device is counted, and under exactly one of
    compliant, pending, security, critical and unknown, but for those that only wait for a
    reboot, which are all among the devices that need one; and no more critical and security
    updates are missing than updates are pending. A device is compliant exactly if it was
    scanned, has no pending updates and needs no reboot. *)
Theorem compliance_adds_up ds policies approvals organization :
  let r := calculatePatchComplianceSummary toLowerCase parse_date ds policies approvals organization in
  devices r.1 = len ds /\
  devices r.1 = compliant r.1 + pending r.1 + security r.1 + critical r.1 + unknown r.1 +
                len (List.filter (with_status RebootNeeded) r.2) /\
  len (List.filter (with_status RebootNeeded) r.2) <= rebootRequiredTotal r.1 /\
  missingCritical r.1 + missingSecurity r.1 <= pendingUpdatesTotal r.1 /\
  forall d, complianceStatus (summarize policies approvals organization d) = Compliant <->
    scanned (compliance_lastScanAt d) = true /\ pendingUpdates d = [] /\ compliance_rebootRequired d <> Some true.
Proof.
  cbv zeta. destruct (foldl_adds_up policies approvals organization ds no_devices 0) as [(Hd & Hr & Hm) Hn]; [done|].
  cbn in Hd, Hr, Hn. split_and!; [done|done|done|done|]. intros d. unfold summarize_device. cbn [complianceStatus].
  destruct (scanned _); cbn [negb]; [|by split; [|intros []]].
  destruct (pendingUpdates d) as [|u us]; cbn [map existsb List.filter].
  - cbn. rewrite orb_false_r. case_bool_decide as Hb; split; [done|by intros (_ & _ & ?)|by intros _|done].
  - assert ((0 <? len (map (summarize_update toLowerCase approvals (compliance_agentId d)) (u :: us))) = true) as Hl
      by (unfold len; cbn [map length]; lia).
    cbn [map] in Hl. rewrite Hl. split; [by repeat case_match|by intros (_ & ? & _)].
Qed.
End theorems.
