(* ===== verification/Machine.v ===== *)
(** The machine the supervisor works on: what apps/talos_supervisor/src and
    apps/talos_update_common/src use of the standard library's files, paths, clock and
    processes, and of an HTTP client.

    A path is the list of its components below the root; symbolic links are not
    modelled.  Every operation on files can fail: the machine carries the failures to
    come, one for each operation, with how much of the operation was done before it
    failed.  In the same way it carries what the servers and the commands will answer,
    and it records the requests and the commands. *)

From stdpp Require Import gmap.
From S2P Require Import Prelude Bytes Text.

Local Open Scope Z_scope.

Module Fs.
Abbreviation path := (list text).

(** A file with its permission bits. *)
Record file := { content : list Z; mode : Z }.

Inductive node := File (f : file) | Dir.

#[export] Instance path_eq_dec : EqDecision path := list_eq_dec.
#[export] Instance path_countable : Countable path := list_countable.

Abbreviation tree := (@gmap path path_eq_dec path_countable node).

(** [Path::parent], [Path::file_name]; a root has neither. *)
Definition parent (p : path) : option path := if p is [] then None else Some (removelast p).
Definition path_name (p : path) : option text := last p.

(** The part of a name before its last dot and the part after it.  A name that starts with
    its only dot has no extension. *)
Definition split_extension (name : text) : text * option text :=
  match split_once 46 (reverse name) with
  | Some (ext, (_ :: _) as stem) => (reverse stem, Some (reverse ext))
  | _ => (name, None)
  end.

(** [Path::extension] *)
Definition extension (p : path) : option text := name ← path_name p; (split_extension name).2.

(** [Path::with_extension] with an extension that is not empty. *)
Definition with_extension (p : path) (ext : text) : path :=
  match path_name p with
  | Some name => removelast p ++ [(split_extension name).1 ++ [46] ++ ext]
  | None => p
  end.

(** [Path::strip_prefix] *)
Fixpoint strip_base (base p : path) : option path :=
  match base, p with
  | [], p => Some p
  | b :: base, c :: p => if decide (b = c) then strip_base base p else None
  | _ :: _, [] => None
  end.

(** [PathBuf::from] of an absolute path and [Path::display]. *)
Definition from_text (t : text) : path :=
  filter (fun c => c <> [] /\ c <> str ".") (split_on 47 t).
Definition display (p : path) : text :=
  if p is [] then str "/" else concat (map (cons 47) p).

(** [Path::exists], [Path::is_file], [Path::is_dir]. *)
Definition is_dir (t : tree) (p : path) : bool :=
  match p with [] => true | _ => match t !! p with Some Dir => true | _ => false end end.
Definition is_file (t : tree) (p : path) : bool :=
  match t !! p with Some (File _) => true | _ => false end.
Definition exists_ (t : tree) (p : path) : bool := is_dir t p || is_file t p.

(** The directories above [base ++ rest] that are missing are made; there is no result when
    a file is in the way. *)
Fixpoint make_dirs (base rest : path) (t : tree) : option tree :=
  match rest with
  | [] => Some t
  | c :: rest =>
    let p := base ++ [c] in
    match t !! p with
    | Some (File _) => None
    | Some Dir => make_dirs p rest t
    | None => make_dirs p rest (<[p := Dir]> t)
    end
  end.

(** A file can be made at [p]: its directory is there and [p] is not a directory. *)
Definition can_hold (t : tree) (p : path) : bool :=
  match parent p with Some d => is_dir t d && negb (is_dir t p) | None => false end.

Definition set_file (p : path) (f : file) (t : tree) : option tree :=
  if can_hold t p then Some (<[p := File f]> t) else None.

(** The nodes below [p], and the tree without [p] and what is below it. *)
Definition below (p : path) (t : tree) : tree :=
  filter (fun '(q, _) => is_Some (strip_base p q)) t.
Definition without (p : path) (t : tree) : tree :=
  filter (fun '(q, _) => ~ is_Some (strip_base p q)) t.

(** The files below [p], in the order of the map. *)
Definition files_below (p : path) (t : tree) : list path :=
  omap (fun '(q, n) => if n is File _ then Some q else None) (map_to_list (below p t)).

(** The subtree of [a] moved to [b]. *)
Definition moved (a b : path) (t : tree) : tree :=
  kmap (fun q => b ++ default q (strip_base a q)) (below a t).

(** rename(2): a file replaces a file; a directory replaces nothing or an empty directory. *)
Definition renamed (a b : path) (t : tree) : option tree :=
  match t !! a with
  | Some (File f) => set_file b f (delete a t)
  | Some Dir =>
    if bool_decide (strip_base a b = None) && negb (is_file t b)
       && bool_decide (files_below b t = [] /\ delete b (below b t) = ∅)
       && match parent b with Some d => is_dir t d | None => false end
    then Some (moved a b t ∪ without a (delete b t)) else None
  | None => None
  end.
End Fs.

Module Machine.
Import Fs.

(** What a server answers: the status, the declared length, the headers (those whose value
    is visible ASCII) and the body in the pieces that arrive.  A piece that is missing is a
    connection that broke. *)
Record Response := {
  status : Z; content_length : option Z; header : text -> option text;
  chunks : list (option (list Z)) }.

(** What a command answers, and the milliseconds it took. *)
Record Output := { success : bool; stdout : list Z; elapsed : N }.

Record Machine := {
  files : tree;
  faults : list (option nat);
  answers : list (option Response);
  requests : list text;
  outputs : list (option Output);
  commands : list (list text * option Output);
  clock : Z }.

Definition M : Type -> Type := method Machine anyhow.

Definition set_files (t : tree) (m : Machine) : Machine :=
  {| files := t; faults := faults m; answers := answers m; requests := requests m;
     outputs := outputs m; commands := commands m; clock := clock m |}.
Definition set_faults (l : list (option nat)) (m : Machine) : Machine :=
  {| files := files m; faults := l; answers := answers m; requests := requests m;
     outputs := outputs m; commands := commands m; clock := clock m |}.
Definition set_clock (t : Z) (m : Machine) : Machine :=
  {| files := files m; faults := faults m; answers := answers m; requests := requests m;
     outputs := outputs m; commands := commands m; clock := t |}.

(** [let _ = operation], and [operation.ok()]. *)
Definition ok {A} (op : M A) : M (option A) := fun m =>
  match op m with
  | (m', Ok a) => (m', Ok (Some a))
  | (m', Err _) => (m', Ok None)
  | (m', Panic) => (m', Panic)
  | (m', Fuel) => (m', Fuel)
  end.
Definition ignore {A} (op : M A) : M unit := _ ← ok op; mret tt.

(** An early return of an error. *)
Definition fail {A} (e : anyhow) : M A := lift (Err e).

(** Whether and how the next operation fails. *)
Definition next_fault : M (option nat) := fun m =>
  (set_faults (drop 1 (faults m)) m, Ok (default None (head (faults m)))).

(** An operation on the tree that can fail, and what is left of it when it fails after
    [k] parts were done. *)
Definition operation (e : anyhow) (op : tree -> option tree) (part : nat -> tree -> option tree) :
    M unit :=
  f ← next_fault; m ← get;
  match f with
  | None => t ← lift (ok_or (op (files m)) e); put (set_files t m)
  | Some k => _ ← put (set_files (default (files m) (part k (files m))) m); fail e
  end.

(** ** std::fs *)

(** The tree after an operation that either is done or is not. *)
Definition untouched (_ : nat) (t : tree) : option tree := Some t.

(** A file that is made or emptied, and filled; [k] = 0 when it could not be opened. *)
Definition filled (p : path) (f : file) (k : nat) (t : tree) : option tree :=
  match k with
  | O => Some t
  | S k => set_file p {| content := take k (content f); mode := mode f |} t
  end.

Definition path_exists (p : path) : M bool := m ← get; mret (exists_ (files m) p).
Definition path_is_file (p : path) : M bool := m ← get; mret (is_file (files m) p).

Definition create_dir_all (p : path) : M unit :=
  operation "create directory" (make_dirs [] p) (fun k => make_dirs [] (take k p)).

Definition remove_file (p : path) : M unit :=
  operation "remove file" (fun t => if is_file t p then Some (delete p t) else None) untouched.

Definition remove_dir_all (p : path) : M unit :=
  operation "remove directory" (fun t => if is_dir t p then Some (without p t) else None)
    (fun k t => Some (foldr delete t (take k (files_below p t)))).

Definition rename (a b : path) : M unit := operation "rename" (renamed a b) untouched.

(** The file at [p], to be read. *)
Definition file_at (t : tree) (p : path) : option file :=
  match t !! p with Some (File f) => Some f | _ => None end.

Definition copy (a b : path) : M unit :=
  operation "copy" (fun t => f ← file_at t a; set_file b f t)
    (fun k t => f ← file_at t a; filled b f k t).

(** The bits of a file that exists stay; a new one has [0644]. *)
Definition mode_at (t : tree) (p : path) : Z :=
  match file_at t p with Some f => mode f | None => 420 end.

(** [File::create] *)
Definition create (p : path) : M unit :=
  operation "create" (fun t => set_file p {| content := []; mode := mode_at t p |} t) untouched.

(** [fs::write] *)
Definition write (p : path) (bytes : list Z) : M unit :=
  operation "write" (fun t => set_file p {| content := bytes; mode := mode_at t p |} t)
    (fun k t => filled p {| content := bytes; mode := mode_at t p |} k t).

(** [Write::write_all] at the end of a file that is open. *)
Definition extended (p : path) (bytes : list Z) (t : tree) : option tree :=
  f ← file_at t p; Some (<[p := File {| content := content f ++ bytes; mode := mode f |}]> t).
Definition write_all (p : path) (bytes : list Z) : M unit :=
  operation "write" (extended p bytes) (fun k => extended p (take k bytes)).

Definition set_mode (p : path) (bits : Z) : M unit :=
  operation "chmod" (fun t => f ← file_at t p;
    Some (<[p := File {| content := content f; mode := bits |}]> t)) untouched.

(** [fs::read], and [fs::metadata] of a file followed by its length. *)
Definition read (p : path) : M (list Z) :=
  _ ← operation "read" Some untouched; m ← get;
  f ← lift (ok_or (file_at (files m) p) "read"); mret (content f).
Definition metadata_len (p : path) : M Z := content ← read p; mret (len content).

(** [fs::read_to_string]: text has to be UTF-8. *)
Definition read_to_string (p : path) : M text :=
  content ← read p; lift (ok_or (from_utf8 content) "read").

(** ** Requests, commands, time *)

(** [client.get(url).send()] *)
Definition http_get (url : text) : M Response := fun m =>
  ({| files := files m; faults := faults m; answers := drop 1 (answers m);
      requests := requests m ++ [url];
      outputs := outputs m; commands := commands m; clock := clock m |},
   ok_or (default None (head (answers m))) "request").

(** [Response::error_for_status] *)
Definition error_for_status (r : Response) : res anyhow Response :=
  if (400 <=? status r) && (status r <=? 599) then Err "status" else Ok r.

(** [Command::new(name).args(args)], run to its end. *)
Definition run_command (args : list text) : M Output := fun m =>
  let answer := default None (head (outputs m)) in
  ({| files := files m; faults := faults m; answers := answers m; requests := requests m;
      outputs := drop 1 (outputs m); commands := commands m ++ [(args, answer)];
      clock := clock m + match answer with Some o => Z.of_N (elapsed o) | None => 0 end |},
   ok_or answer "run command").

Definition now : M Z := m ← get; mret (clock m).
Definition sleep (ms : Z) : M unit := m ← get; put (set_clock (clock m + ms) m).
End Machine.

(** ** Reasoning about operations

    [keeps T op]: whatever fails, [op] keeps the property [T] of the tree, returns, and
    does not panic. *)

Module Keeps.
Import Fs Machine.

Definition keeps {A} (T : tree -> Prop) (op : M A) : Prop :=
  forall m, T (files m) ->
    wp op (fun _ m' => T (files m')) (fun m' => T (files m')) False m.

Section keeps.
Context (T : tree -> Prop).

Lemma keeping_bind {A B} (op : M A) (k : A -> M B) :
  keeps T op -> (forall a, keeps T (k a)) -> keeps T (op ≫= k).
Proof.
  intros Hop Hk m Hm. apply wp_bind. eapply wp_mono; [by apply Hop| |done|done].
  intros a m' Hm'. by apply Hk.
Qed.

Lemma keeping_ret {A} (a : A) : keeps T (mret a).
Proof. by intros m Hm. Qed.

Lemma keeping_get : keeps T get.
Proof. by intros m Hm. Qed.

Lemma keeping_lift {A} (r : res anyhow A) : safe r -> keeps T (lift r).
Proof. intros Hr m Hm. by apply wp_lift_safe. Qed.

Lemma keeps_bind_assoc {A B D} (x : M A) (y : A -> M B) (k : B -> M D) :
  keeps T (x ≫= y) -> (forall b, keeps T (k b)) -> keeps T (x ≫= fun a => y a ≫= k).
Proof.
  intros Hxy Hk m Hm. specialize (keeping_bind _ _ Hxy Hk m Hm). unfold wp, mbind, method_bind.
  by destruct (x m) as [m' []].
Qed.

(** Where the value matters. *)
Lemma keeps_bind_lift {A B} (r : res anyhow A) (k : A -> M B) :
  safe r -> (forall a, r = Ok a -> keeps T (k a)) -> keeps T (lift r ≫= k).
Proof.
  intros Hr Hk m Hm. apply wp_bind, wp_lift_safe; [done| |done]. intros a Ha. by apply Hk.
Qed.

Lemma keeps_fail {A} e : keeps T (fail e : M A).
Proof. by apply keeping_lift. Qed.

Lemma keeps_ok {A} (op : M A) : keeps T op -> keeps T (ok op).
Proof.
  intros Hop m Hm. specialize (Hop m Hm). unfold wp, ok in *. by destruct (op m) as [m' []].
Qed.

Lemma keeps_ignore {A} (op : M A) : keeps T op -> keeps T (ignore op).
Proof. intros. apply keeping_bind; [by apply keeps_ok|intros; apply keeping_ret]. Qed.

Lemma keeping_for_each {A} (f : A -> M unit) l :
  (forall a, a ∈ l -> keeps T (f a)) -> keeps T (for_each f l).
Proof.
  intros Hf m Hm. apply (wp_for_each (fun m => T (files m))); [done|].
  intros a s Ha Hs. by apply Hf.
Qed.

Lemma keeps_operation e op part :
  (forall t t', T t -> op t = Some t' -> T t') ->
  (forall k t t', T t -> part k t = Some t' -> T t') -> keeps T (operation e op part).
Proof.
  intros Hop Hpart m Hm. unfold operation, wp, mbind, method_bind. cbn.
  destruct (default None (head (faults m))) as [k|]; cbn.
  - destruct (part k (files m)) eqn:E; cbn; eauto.
  - destruct (op (files m)) eqn:E; cbn; eauto.
Qed.

Lemma keeps_if {A} (b : bool) (x y : M A) : keeps T x -> keeps T y -> keeps T (if b then x else y).
Proof. by destruct b. Qed.

Lemma keeps_sleep ms : keeps T (sleep ms).
Proof. by intros m Hm. Qed.
Lemma keeps_now : keeps T now.
Proof. by intros m Hm. Qed.

Lemma keeps_http_get url : keeps T (http_get url).
Proof.
  intros m Hm. unfold wp, http_get. by destruct (default None (head (answers m))).
Qed.

Lemma keeps_run_command args : keeps T (run_command args).
Proof.
  intros m Hm. unfold wp, run_command. by destruct (default None (head (outputs m))).
Qed.
End keeps.

(** ** Files that change

    Between [t] and [t'] every file is the same, or is gone and may go, or has a content it
    may have.  A property that such changes keep is kept by the operations on files. *)

Section changes.
Context (Del : path -> Prop) (Wr : path -> list Z -> Prop).

Definition changes (t t' : tree) : Prop := forall p,
  file_at t' p = file_at t p \/ (file_at t' p = None /\ Del p) \/
  (exists f, file_at t' p = Some f /\ Wr p (content f)).

Definition closed (T : tree -> Prop) : Prop := forall t t', T t -> changes t t' -> T t'.

Lemma changes_refl t : changes t t.
Proof. by left. Qed.

Lemma file_at_insert t p n q :
  file_at (<[p := n]> t) q =
  if decide (p = q) then (if n is File f then Some f else None) else file_at t q.
Proof.
  unfold file_at. case_decide as E; [subst; by rewrite lookup_insert_eq|by rewrite lookup_insert_ne].
Qed.

Lemma file_at_delete t p q :
  file_at (delete p t) q = if decide (p = q) then None else file_at t q.
Proof.
  unfold file_at. case_decide as E; [subst; by rewrite lookup_delete_eq|by rewrite lookup_delete_ne].
Qed.

Lemma make_dirs_files base rest t t' p : make_dirs base rest t = Some t' -> file_at t' p = file_at t p.
Proof.
  revert base t; induction rest as [|c rest IH]; intros base t; cbn; [by intros [= ->]|].
  destruct (t !! (base ++ [c])) as [[f|]|] eqn:E; [done|apply IH|].
  intros H%IH. rewrite H, file_at_insert. case_decide; [|done]. subst. unfold file_at. by rewrite E.
Qed.

Lemma changes_insert t p f : Wr p (content f) -> changes t (<[p := File f]> t).
Proof. intros H q. rewrite file_at_insert. case_decide; subst; eauto. Qed.

Lemma changes_delete t p : Del p -> changes t (delete p t).
Proof. intros H q. rewrite file_at_delete. case_decide; subst; eauto. Qed.

Lemma set_file_inv p f t t' : set_file p f t = Some t' -> can_hold t p = true /\ t' = <[p := File f]> t.
Proof. unfold set_file. case_match; intros; by simplify_eq. Qed.

Lemma changes_set_file t p f t' : set_file p f t = Some t' -> Wr p (content f) -> changes t t'.
Proof. intros [_ ->]%set_file_inv. apply changes_insert. Qed.

Lemma strip_base_app base p r : strip_base base p = Some r <-> p = base ++ r.
Proof.
  revert p; induction base as [|b base IH]; intros p; cbn.
  { split; [by intros [= ->]|by intros ->]. }
  destruct p as [|c p]; [done|]. case_decide; [subst; rewrite IH|]; split; congruence.
Qed.

Lemma below_dec p q : is_Some (strip_base p q) <-> exists r, q = p ++ r.
Proof. split; intros [r H]; exists r; [by apply strip_base_app|by rewrite strip_base_app]. Qed.

Lemma file_at_filter (P : path * node -> Prop) `{!forall x, Decision (P x)} t p :
  file_at (filter P t) p = f ← file_at t p; if decide (P (p, File f)) then Some f else None.
Proof.
  unfold file_at. rewrite map_lookup_filter. destruct (t !! p) as [[f|]|]; cbn; [|by case_guard|done].
  case_decide; by case_guard.
Qed.

Lemma changes_without t p : (forall r, Del (p ++ r)) -> changes t (without p t).
Proof.
  intros H q. unfold without. rewrite file_at_filter. destruct (file_at t q) as [f|]; [|by left].
  cbn. case_decide as E; [by left|]. right; left. split; [done|].
  destruct (strip_base p q) as [r|] eqn:Er; [|by destruct E].
  apply strip_base_app in Er as ->. apply H.
Qed.

Lemma changes_foldr_delete t l : (forall q, q ∈ l -> Del q) -> changes t (foldr delete t l).
Proof.
  intros Hl q. induction l as [|a l IH]; cbn; [by left|].
  rewrite file_at_delete. case_decide as E; [|apply IH; set_solver].
  right; left. split; [done|]. subst. apply Hl. set_solver.
Qed.

Lemma files_below_inv p t q : q ∈ files_below p t -> exists r, q = p ++ r.
Proof.
  unfold files_below. rewrite list_elem_of_omap. intros ([q' n] & Hin & Hq).
  destruct n; simplify_eq. apply elem_of_map_to_list in Hin.
  unfold below in Hin. apply map_lookup_filter_Some in Hin as [_ H]. by apply below_dec.
Qed.

Context (T : tree -> Prop) (HT : closed T).

Lemma keeps_create_dir_all p : keeps T (create_dir_all p).
Proof.
  apply keeps_operation; intros; (eapply HT; [done|]); intros q; left; by eapply make_dirs_files.
Qed.

Lemma keeps_untouched e : keeps T (operation e Some untouched).
Proof. apply keeps_operation; [by intros ? ? ? [= ->]|by intros ? ? ? ? [= ->]]. Qed.

Lemma keeps_remove_file p : Del p -> keeps T (remove_file p).
Proof.
  intros Hp. apply keeps_operation; [|by intros ? ? ? ? [= ->]]. intros.
  case_match; simplify_eq. eapply HT; [done|]. by apply changes_delete.
Qed.

Lemma keeps_remove_dir_all p : (forall r, Del (p ++ r)) -> keeps T (remove_dir_all p).
Proof.
  intros Hp. apply keeps_operation.
  - intros. case_match; simplify_eq. eapply HT; [done|]. by apply changes_without.
  - intros k t t' Ht [= <-]. eapply HT; [done|]. apply changes_foldr_delete.
    intros q Hq. assert (q ∈ files_below p t) as [r ->]%files_below_inv; [|done].
    eapply elem_of_subseteq, Hq. apply subseteq_take.
Qed.

Lemma keeps_copy a b :
  (forall t f k, T t -> file_at t a = Some f -> Wr b (take k (content f))) -> keeps T (copy a b).
Proof.
  intros H. apply keeps_operation.
  - intros t t' Ht. destruct (file_at t a) as [f|] eqn:E; [|done]. intros Hs.
    eapply HT; [done|]. eapply changes_set_file; [done|].
    rewrite <- (firstn_all (content f)). by eapply H.
  - intros k t t' Ht. destruct (file_at t a) as [f|] eqn:E; [|done]. destruct k; cbn.
    { by intros [= ->]. }
    intros Hs. eapply HT; [done|]. eapply changes_set_file; [done|]. by eapply H.
Qed.

Lemma keeps_create p : Wr p [] -> keeps T (create p).
Proof.
  intros H. apply keeps_operation; [|by intros ? ? ? ? [= ->]].
  intros t t' Ht Hs. eapply HT; [done|]. by eapply changes_set_file.
Qed.

Lemma keeps_write p bytes : (forall k, Wr p (take k bytes)) -> keeps T (write p bytes).
Proof.
  intros H. apply keeps_operation.
  - intros t t' Ht Hs. eapply HT; [done|]. eapply changes_set_file; [done|].
    rewrite <- (firstn_all bytes). apply H.
  - intros [|k] t t' Ht; [by cbn; intros [= ->]|]. intros Hs.
    eapply HT; [done|]. eapply changes_set_file; [exact Hs|]. apply H.
Qed.

Lemma keeps_write_all p bytes :
  (forall t f k, T t -> file_at t p = Some f -> Wr p (content f ++ take k bytes)) ->
  keeps T (write_all p bytes).
Proof.
  intros H. unfold write_all, extended. apply keeps_operation.
  - intros t t' Ht. destruct (file_at t p) as [f|] eqn:E; [|done]. intros [= <-].
    eapply HT; [done|]. apply changes_insert. cbn. rewrite <- (firstn_all bytes). by eapply H.
  - intros k t t' Ht. destruct (file_at t p) as [f|] eqn:E; [|done]. intros [= <-].
    eapply HT; [done|]. apply changes_insert. cbn. by eapply H.
Qed.

Lemma keeps_set_mode p bits :
  (forall t f, T t -> file_at t p = Some f -> Wr p (content f)) -> keeps T (set_mode p bits).
Proof.
  intros H. unfold set_mode. apply keeps_operation; [|by intros ? ? ? ? [= ->]].
  intros t t' Ht. destruct (file_at t p) as [f|] eqn:E; [|done]. intros [= <-].
  eapply HT; [done|]. apply changes_insert. cbn. by eapply H.
Qed.

Lemma moved_inv a b t p n : moved a b t !! p = Some n -> exists r, p = b ++ r /\ t !! (a ++ r) = Some n.
Proof.
  unfold moved, kmap. intros H%elem_of_list_to_map_2. apply list_elem_of_fmap in H as ([q n'] & E & H).
  apply elem_of_map_to_list in H. unfold below in H. apply map_lookup_filter_Some in H as [H [r Hr]].
  unfold prod_map in E. cbn in E. simplify_eq. rewrite Hr. exists r. split; [done|].
  by apply strip_base_app in Hr as ->.
Qed.

Lemma files_below_elem p t r f : file_at t (p ++ r) = Some f -> p ++ r ∈ files_below p t.
Proof.
  unfold file_at. intros H. destruct (t !! (p ++ r)) as [[g|]|] eqn:E; simplify_eq.
  unfold files_below. apply list_elem_of_omap. exists (p ++ r, File f). split; [|done].
  apply elem_of_map_to_list. unfold below. apply map_lookup_filter_Some. split; [done|].
  apply below_dec. by exists r.
Qed.

Lemma renamed_dir_changes a b t :
  files_below b t = [] -> (forall r, Del (a ++ r)) ->
  (forall r f, file_at t (a ++ r) = Some f -> Wr (b ++ r) (content f)) ->
  changes t (moved a b t ∪ without a (delete b t)).
Proof.
  intros Hb Ha Hw p.
  assert (forall r, file_at t (b ++ r) = None) as Hnone.
  { intros r. apply eq_None_not_Some. intros [f Hf]. apply files_below_elem in Hf. rewrite Hb in Hf.
    set_solver. }
  destruct (moved a b t !! p) as [n|] eqn:E.
  - assert (file_at (moved a b t ∪ without a (delete b t)) p = if n is File f then Some f else None) as ->.
    { unfold file_at. by rewrite (lookup_union_Some_l _ _ _ _ E). }
    apply moved_inv in E as (r & -> & E). destruct n as [f|]; [|left; by rewrite Hnone].
    right; right. exists f. split; [done|]. apply Hw. unfold file_at. by rewrite E.
  - assert (file_at (moved a b t ∪ without a (delete b t)) p = file_at (without a (delete b t)) p) as ->.
    { unfold file_at. by rewrite (lookup_union_r _ _ _ E). }
    assert (file_at (delete b t) p = file_at t p) as Hp.
    { rewrite file_at_delete. case_decide; [|done]. subst. by rewrite <- (app_nil_r p), Hnone. }
    destruct (changes_without (delete b t) a Ha p) as [H|H]; [left; congruence|by right].
Qed.

Lemma keeps_rename a b :
  (forall r, Del (a ++ r)) ->
  (forall t f r, T t -> file_at t (a ++ r) = Some f -> Wr (b ++ r) (content f)) -> keeps T (rename a b).
Proof.
  intros Ha Hw. apply keeps_operation; [|by intros ? ? ? ? [= ->]].
  intros t t' Ht. unfold renamed. destruct (t !! a) as [[f|]|] eqn:E; [| |done].
  - assert (file_at t (a ++ []) = Some f) as Hf by (rewrite app_nil_r; unfold file_at; by rewrite E).
    intros [_ ->]%set_file_inv. eapply HT; [|apply changes_insert].
    + eapply HT; [done|]. apply changes_delete. rewrite <- (app_nil_r a). apply Ha.
    + rewrite <- (app_nil_r b). by eapply Hw.
  - case_match eqn:Hc; [|done]. intros [= <-]. eapply HT; [done|].
    rewrite !andb_true_iff, bool_decide_eq_true in Hc. destruct Hc as [[_ Hb] _].
    rewrite bool_decide_eq_true in Hb. apply renamed_dir_changes; [apply Hb|done|]. eauto.
Qed.

Lemma keeps_read p : keeps T (read p).
Proof.
  apply keeping_bind; [apply keeps_untouched|]. intros _.
  apply keeping_bind; [apply keeping_get|]. intros m.
  apply keeping_bind; [apply keeping_lift, ok_or_safe|]. intros f. apply keeping_ret.
Qed.

Lemma keeps_read_to_string p : keeps T (read_to_string p).
Proof. apply keeping_bind; [apply keeps_read|]. intros bytes. apply keeping_lift, ok_or_safe. Qed.
End changes.

(** ** One operation *)

Definition after (t : tree) (m : Machine) : Machine := set_files t (set_faults (drop 1 (faults m)) m).

Lemma wp_operation e op part (Q : unit -> Machine -> Prop) R X m :
  (forall t, op (files m) = Some t -> Q tt (after t m)) -> R (after (files m) m) ->
  (forall k t, part k (files m) = Some t -> R (after t m)) -> wp (operation e op part) Q R X m.
Proof.
  intros HQ HR Hp. unfold operation, wp, mbind, method_bind. cbn.
  destruct (default None (head (faults m))) as [k|]; cbn.
  - destruct (part k (files m)) eqn:E; cbn; [by eapply Hp|done].
  - destruct (op (files m)) eqn:E; cbn; [by apply HQ|done].
Qed.

Lemma operation_ok e op part m t :
  faults m = [] -> op (files m) = Some t -> operation e op part m = (set_files t m, Ok tt).
Proof.
  intros Hf Ht. unfold operation, mbind, method_bind, next_fault. rewrite Hf. cbn. rewrite Ht. cbn.
  destruct m; cbn in *. by subst.
Qed.

(** A file that is made and written. *)
Lemma keeps_create_write Del Wr T p bytes :
  closed Del Wr T -> (forall k, Wr p (take k bytes)) ->
  keeps T (_ ← create p; write_all p bytes).
Proof.
  intros HT Hw m Hm. apply wp_bind, wp_operation; [|done|by intros k t [= <-]].
  intros t [_ ->]%set_file_inv. set (f := {| content := []; mode := _ |}). set (t := <[p := File f]> _).
  assert (file_at t p = Some f) as Hf by (unfold t; rewrite file_at_insert; by case_decide).
  assert (T t) as Ht by (eapply HT; [done|]; apply changes_insert; apply (Hw O)).
  assert (forall k t', extended p (take k bytes) t = Some t' -> T t') as Hk.
  { unfold extended. rewrite Hf. intros k t' [= <-]. eapply HT; [done|]. apply changes_insert, Hw. }
  apply wp_operation; [|done|done].
  intros t'. rewrite <- (firstn_all bytes). apply Hk.
Qed.

(** ** Reading *)

Lemma wp_untouched e (Q : unit -> Machine -> Prop) R X m :
  (forall m', files m' = files m -> Q tt m') -> (forall m', files m' = files m -> R m') ->
  wp (operation e Some untouched) Q R X m.
Proof.
  intros HQ HR. unfold operation, wp, mbind, method_bind. cbn.
  destruct (default None (head (faults m))); cbn; eauto.
Qed.

Lemma wp_read p Q R X m :
  (forall f m', file_at (files m) p = Some f -> files m' = files m -> Q (content f) m') ->
  (forall m', files m' = files m -> R m') -> wp (read p) Q R X m.
Proof.
  intros HQ HR. apply wp_bind, wp_untouched; [|done]. intros m' Hm'. apply wp_bind, wp_get.
  apply wp_bind, wp_lift_safe; [apply ok_or_safe| |by apply HR].
  intros f Hf%ok_or_ok_inv. apply wp_ret, HQ; [congruence|done].
Qed.

(** ** Two kinds of properties

    Every file has a content it may have; the files at other paths are as they were. *)

Definition sound (Wr : path -> list Z -> Prop) (t : tree) : Prop :=
  forall p f, file_at t p = Some f -> Wr p (content f).

Definition agree (W : path -> Prop) (t0 t : tree) : Prop :=
  forall p, ~ W p -> file_at t p = file_at t0 p.

Lemma sound_closed Wr : closed (fun _ => True) Wr (sound Wr).
Proof.
  intros t t' Ht H p f Hf. destruct (H p) as [E|[[E _]|(g & E & Hg)]]; [|congruence|congruence].
  apply Ht. congruence.
Qed.

Lemma agree_closed W t0 : closed W (fun p _ => W p) (agree W t0).
Proof.
  intros t t' Ht H p Hp. destruct (H p) as [E|[[_ ?]|(g & _ & ?)]]; [|done|done].
  rewrite E. by apply Ht.
Qed.

Lemma closed_and Del Del' (Wr Wr' : path -> list Z -> Prop) T T' :
  closed Del Wr T -> closed Del' Wr' T' ->
  closed (fun p => Del p /\ Del' p) (fun p c => Wr p c /\ Wr' p c) (fun t => T t /\ T' t).
Proof.
  intros H H' t t' [Ht Ht'] Hc. split; [eapply H|eapply H']; try done; intros p;
    destruct (Hc p) as [?|[[? []]|(? & ? & ? & ?)]]; eauto.
Qed.
End Keeps.

(** A step of a proof that an operation keeps a property. *)
Ltac keeps_step :=
  match goal with
  | |- Keeps.keeps _ (_ ≫= _) => apply Keeps.keeping_bind; [|intros ?]
  | |- Keeps.keeps _ (mret _) => apply Keeps.keeping_ret
  | |- Keeps.keeps _ get => apply Keeps.keeping_get
  | |- Keeps.keeps _ (Machine.fail _) => apply Keeps.keeps_fail
  | |- Keeps.keeps _ (lift (ok_or _ _)) => apply Keeps.keeping_lift, ok_or_safe
  | |- Keeps.keeps _ (lift (ensure _ _)) => apply Keeps.keeping_lift, ensure_safe
  | |- Keeps.keeps _ (Machine.ok _) => apply Keeps.keeps_ok
  | |- Keeps.keeps _ (Machine.ignore _) => apply Keeps.keeps_ignore
  | |- Keeps.keeps _ Machine.now => apply Keeps.keeps_now
  | |- Keeps.keeps _ (Machine.sleep _) => apply Keeps.keeps_sleep
  | |- Keeps.keeps _ (Machine.http_get _) => apply Keeps.keeps_http_get
  | |- Keeps.keeps _ (Machine.run_command _) => apply Keeps.keeps_run_command
  | |- Keeps.keeps _ (if ?b then _ else _) => apply Keeps.keeps_if
  | |- Keeps.keeps _ (match ?x with _ => _ end) => destruct x
  | H : Keeps.closed _ _ ?T |- Keeps.keeps ?T (Machine.create_dir_all _) =>
      apply (Keeps.keeps_create_dir_all _ _ _ H)
  | |- Keeps.keeps _ (Machine.read _) => apply Keeps.keeps_read
  | |- Keeps.keeps _ (Machine.read_to_string _) => apply Keeps.keeps_read_to_string
  | |- Keeps.keeps _ (Machine.operation _ Some Machine.untouched) => apply Keeps.keeps_untouched
  | H : Keeps.closed _ _ ?T |- Keeps.keeps ?T (Machine.remove_file _) =>
      apply (Keeps.keeps_remove_file _ _ _ H)
  | H : Keeps.closed _ _ ?T |- Keeps.keeps ?T (Machine.remove_dir_all _) =>
      apply (Keeps.keeps_remove_dir_all _ _ _ H)
  end.
