(* ===== verification/Update.v ===== *)
(** Signed updates (apps/talos_update_common/src/lib.rs): the manifest of an update and the
    checks of its signature, of the artifact it is for, of its version, and of the size and
    the digest of the package, and the two requests that fetch the manifest and the package. *)

From stdpp Require Import gmap.
From S2P Require Import Prelude Bytes Text ApplianceConfig Machine.

Import Fs Machine.


Local Open Scope Z_scope.

Module Update.
Definition MANIFEST_SIGNATURE_HEADER : text := str "x-talos-manifest-signature".
Definition MANIFEST_KEY_ID_HEADER : text := str "x-talos-manifest-key-id".
Definition ETAG : text := str "etag".
Definition MAX_MANIFEST_BYTES : Z := 1024 * 1024.

Record UpdatePackageArtifact := { file_name : text; size_bytes : Z; sha256 : text }.

Record UpdateManifest := {
  product : text; platform : text; arch : text; channel : text; ring : option text;
  version : text; minimum_supported_version : option text; severity : text;
  published_at_utc : text; rollout_percentage : option Z; package : UpdatePackageArtifact;
  contents : list text; requires_restart : bool; install_mode : text }.

Record SignedManifest := {
  manifest : UpdateManifest; manifest_bytes : list Z; signature_b64 : text;
  key_id : option text; etag : option text }.

Inductive ManifestFetchResult := NotModified | NoUpdate | Signed (signed : SignedManifest).

Record UpdateManifestExpectation := {
  ex_product : text; ex_platform : text; ex_arch : text; ex_channel : text;
  ex_ring : option text; ex_install_mode : text; ex_package_file_name : text }.

(** What the code reads off a parsed URL. *)
Record Url := {
  scheme : text; host_str : option text; username : text; password : option text;
  query : option text; fragment : option text }.

(** The libraries the code calls: versions (semver), base64, RSA signatures (ring), SHA-256
    (sha2), the decoding of the manifest from JSON (serde_json) and URLs (url). *)
Class Crates := {
  Version : Type;
  Version_parse : text -> option Version;
  Version_gt : Version -> Version -> bool;
  base64_decode : text -> option (list Z);
  rsa_verify : list Z -> list Z -> list Z -> bool;
  Hasher : Type;
  Sha256_new : Hasher;
  Sha256_update : Hasher -> list Z -> Hasher;
  Sha256_finalize : Hasher -> list Z;
  manifest_from_slice : list Z -> option UpdateManifest;
  Url_parse : text -> option Url }.

(** What is documented of them and used below: a version that parses has only the
    characters of the grammar of semantic versions, hashing nothing changes nothing, and
    hashing in pieces is hashing the whole. *)
Class CratesLaws (C : Crates) : Prop := {
  version_characters t v : Version_parse t = Some v ->
    Forall (fun c => is_ascii_alphanumeric c = true \/ c = 45 \/ c = 46 \/ c = 43) t;
  sha256_nothing h : Sha256_update h [] = h;
  sha256_pieces h a b :
    Sha256_update (Sha256_update h a) b = Sha256_update h (a ++ b) }.

(** [a.eq_ignore_ascii_case(b)] *)
Definition eq_ignore_ascii_case (a b : text) : bool :=
  bool_decide (to_ascii_lowercase a = to_ascii_lowercase b).

Definition is_one_of (t : text) (names : list string) : bool :=
  existsb (fun n => bool_decide (t = str n)) names.

(** ** The artifact a manifest has to be for *)

Definition artifact_platform (arch : text) : res anyhow text :=
  if is_one_of arch ["x86"; "x64"; "x64-v1"; "x64-v2"; "x64-v3"; "x64-v4"]%string
  then Ok (str "windows")
  else if starts_with (str "linux-") arch then Ok (str "linux")
  else if starts_with (str "macos-") arch then Ok (str "macos")
  else Err "unsupported update architecture"%string.

Definition product_label (product : text) : res anyhow text :=
  if bool_decide (product = str "agent") then Ok (str "Agent")
  else if bool_decide (product = str "viewer") then Ok (str "Viewer")
  else if bool_decide (product = str "worker") then Ok (str "Worker")
  else if bool_decide (product = str "supervisor") then Ok (str "Supervisor")
  else Err "unsupported update product"%string.

Definition artifact_install_mode (product platform : text) : res anyhow text :=
  if bool_decide (product = str "viewer") && bool_decide (platform = str "windows")
  then Ok (str "restart")
  else if bool_decide (product = str "viewer") && bool_decide (platform = str "macos")
  then Ok (str "pkg")
  else if is_one_of product ["worker"; "supervisor"]%string && bool_decide (platform = str "macos")
  then Ok (str "zip")
  else if is_one_of product ["agent"; "worker"; "supervisor"]%string
       && is_one_of platform ["windows"; "linux"]%string
  then Ok (str "silent")
  else Err "unsupported update product/platform combination"%string.

Definition for_artifact (product arch channel : text) (ring : option text) :
    res anyhow UpdateManifestExpectation :=
  platform ← artifact_platform arch;
  label ← product_label product;
  install_mode ← artifact_install_mode product platform;
  let package_file_name :=
    if bool_decide (product = str "viewer") && bool_decide (platform = str "macos")
    then str "Talos.Viewer.macos.pkg"
    else str "Talos." ++ label ++ str "." ++ arch ++ str ".Update.zip" in
  Ok {| ex_product := product; ex_platform := platform; ex_arch := arch; ex_channel := channel;
        ex_ring := ring; ex_install_mode := install_mode;
        ex_package_file_name := package_file_name |}.

(** [value.len() != 64 || !value.bytes().all(is_ascii_hexdigit)], negated. *)
Definition is_sha256_text (value : text) : bool :=
  (len (utf8 value) =? 64) && forallb is_ascii_hexdigit (utf8 value).

Definition validate_package_size (size_bytes : Z) : res anyhow unit :=
  ensure (negb (size_bytes =? 0)) "update manifest package size must be greater than zero"%string.

Definition validate_sha256 (value : text) : res anyhow unit :=
  ensure (is_sha256_text value)
    "update manifest package SHA-256 must contain exactly 64 hexadecimal characters"%string.

Definition validate_manifest_context (m : UpdateManifest) (ex : UpdateManifestExpectation) :
    res anyhow unit :=
  _ ← foldM (fun _ '(actual, expected) =>
        ensure (bool_decide (actual = expected))
          "signed update manifest does not match the requested artifact context"%string) tt
        [(product m, ex_product ex); (platform m, ex_platform ex); (arch m, ex_arch ex);
         (channel m, ex_channel ex); (install_mode m, ex_install_mode ex);
         (file_name (package m), ex_package_file_name ex)];
  _ ← ensure (bool_decide (ring m = ex_ring ex))
        "signed update manifest ring does not match the requested artifact context"%string;
  _ ← validate_package_size (size_bytes (package m));
  validate_sha256 (sha256 (package m)).

(** ** Checks of the package *)

Definition verify_package_sha256 (expected_sha256 actual_sha256 : text) : res anyhow unit :=
  _ ← validate_sha256 expected_sha256;
  _ ← ensure (is_sha256_text actual_sha256) "computed package SHA-256 is malformed"%string;
  ensure (eq_ignore_ascii_case expected_sha256 actual_sha256)
    "update package SHA-256 mismatch"%string.

Definition verify_package_size (expected_size_bytes actual_size_bytes : Z) : res anyhow unit :=
  _ ← validate_package_size expected_size_bytes;
  ensure (actual_size_bytes =? expected_size_bytes) "update package size mismatch"%string.

(** Two lower-case digits a byte. *)
Definition hex_lower (bytes : list Z) : text :=
  concat (map (fun b => [Config.hex_digit (Z.shiftr b 4); Config.hex_digit (Z.land b 15)]) bytes).

Section crates.
Context {C : Crates}.

(** ** Versions *)

Definition normalize_semver (value : text) : res anyhow Version :=
  let trimmed := trim value in
  let normalized := default trimmed (strip_prefix (str "v") trimmed) in
  ok_or (Version_parse normalized) "parse version"%string.

Definition is_update_newer (current_version next_version : text) : res anyhow bool :=
  current ← normalize_semver current_version;
  next ← normalize_semver next_version;
  Ok (Version_gt next current).

(** [value.trim_end_matches('/')] *)
Definition trim_slashes (value : text) : text := trim_end_by (Z.eqb 47) value.

Definition normalize_update_base_url (value : text) : option text :=
  let trimmed := trim_slashes (trim value) in
  if bool_decide (trimmed = []) then None else
  parsed ← Url_parse trimmed;
  if negb (is_one_of (scheme parsed) ["http"; "https"]%string)
     || bool_decide (host_str parsed = None)
     || negb (bool_decide (username parsed = []))
     || bool_decide (password parsed <> None)
     || bool_decide (query parsed <> None)
     || bool_decide (fragment parsed <> None)
  then None
  else if ends_with (str "/rmm/updates") trimmed then Some trimmed
  else Some (trimmed ++ str "/rmm/updates").

(** ** Signature and digest *)

Definition verify_manifest_signature (public_key_der manifest_bytes : list Z) (signature_b64 : text) :
    res anyhow unit :=
  _ ← ensure (negb (bool_decide (public_key_der = [])))
        "manifest signing public key is not embedded"%string;
  signature ← ok_or (base64_decode signature_b64) "decode base64 manifest signature"%string;
  ensure (rsa_verify public_key_der manifest_bytes signature)
    "manifest signature verification failed"%string.

Definition sha256_hex_bytes (bytes : list Z) : text :=
  hex_lower (Sha256_finalize (Sha256_update Sha256_new bytes)).

(** The loop reads pieces of 64 KiB until there is nothing left; each read can fail. *)
Fixpoint hash_pieces (fuel : nat) (hasher : Hasher) (rest : list Z) : M Hasher :=
  match fuel with
  | O => lift Fuel
  | S fuel =>
    _ ← operation "read" Some untouched;
    if bool_decide (rest = []) then mret hasher
    else hash_pieces fuel (Sha256_update hasher (take (Z.to_nat 65536) rest))
           (drop (Z.to_nat 65536) rest)
  end.

Definition sha256_hex_file (p : path) : M text :=
  bytes ← read p;
  hasher ← hash_pieces (S (length bytes)) Sha256_new bytes;
  mret (hex_lower (Sha256_finalize hasher)).

(** ** The requests *)

(** The pieces of the body, up to the limit. *)
Fixpoint manifest_body (manifest_bytes : list Z) (chunks : list (option (list Z))) :
    res anyhow (list Z) :=
  match chunks with
  | [] => Ok manifest_bytes
  | None :: _ => Err "read manifest response body"%string
  | Some chunk :: chunks =>
    if MAX_MANIFEST_BYTES <? saturating_add usize_max (len manifest_bytes) (len chunk)
    then Err "signed update manifest exceeds the limit"%string
    else manifest_body (manifest_bytes ++ chunk) chunks
  end.

(** A header, trimmed, when it is there and not blank. *)
Definition nonempty_header (r : Response) (name : text) : option text :=
  value ← trim <$> header r name; if bool_decide (value = []) then None else Some value.

(** A response with a manifest. *)
Definition signed_response (r : Response) : res anyhow ManifestFetchResult :=
  r ← error_for_status r;
  _ ← ensure (match content_length r with Some n => n <=? MAX_MANIFEST_BYTES | None => true end)
        "signed update manifest exceeds the limit"%string;
  manifest_bytes ← manifest_body [] (chunks r);
  signature_b64 ← ok_or (nonempty_header r MANIFEST_SIGNATURE_HEADER)
                    "missing signature header"%string;
  manifest ← ok_or (manifest_from_slice manifest_bytes) "parse signed update manifest"%string;
  Ok (Signed {| manifest := manifest; manifest_bytes := manifest_bytes;
                signature_b64 := signature_b64;
                key_id := nonempty_header r MANIFEST_KEY_ID_HEADER;
                etag := header r ETAG |}).

(** The request carries the tag of the manifest at hand when there is one; the supervisor
    has none. *)
Definition fetch_manifest (manifest_url : text) : M ManifestFetchResult :=
  response ← http_get manifest_url;
  if status response =? 304 then mret NotModified
  else if status response =? 204 then mret NoUpdate
  else lift (signed_response response).

Fixpoint download_chunks (destination : path) (expected_size_bytes actual_size_bytes : Z)
    (chunks : list (option (list Z))) : M Z :=
  match chunks with
  | [] => mret actual_size_bytes
  | None :: _ => fail "read package bytes"
  | Some chunk :: chunks =>
    actual ← lift (ok_or (checked_add u64_max actual_size_bytes (len chunk))
                     "downloaded package size overflow"%string);
    if expected_size_bytes <? actual then fail "update package exceeded its signed size" else
    _ ← write_all destination chunk;
    download_chunks destination expected_size_bytes actual chunks
  end.

(** The error of [op], after [cleanup]. *)
Definition on_error {A} (op : M A) (cleanup : M unit) : M A := fun m =>
  match op m with
  | (m', Err e) => (_ ← cleanup; fail e) m'
  | done => done
  end.

Definition download_file (url : text) (destination : path) (expected_size_bytes : Z) : M unit :=
  _ ← lift (validate_package_size expected_size_bytes);
  _ ← ignore (remove_file destination);
  response ← http_get url;
  response ← lift (error_for_status response);
  _ ← lift (match content_length response with
            | Some n => verify_package_size expected_size_bytes n
            | None => Ok tt
            end);
  _ ← match parent destination with Some d => create_dir_all d | None => mret tt end;
  on_error
    (_ ← create destination;
     actual_size_bytes ← download_chunks destination expected_size_bytes 0 (chunks response);
     lift (verify_package_size expected_size_bytes actual_size_bytes))
    (ignore (remove_file destination)).
End crates.
End Update.

(** ** What the operations do *)

Module UpdateFacts.
Import Keeps Update.

Section crates.
Context {C : Crates} {CL : CratesLaws C}.

Lemma keeps_on_error {A} T (op : M A) cleanup :
  keeps T op -> keeps T cleanup -> keeps T (on_error op cleanup).
Proof.
  intros Hop Hc m Hm. specialize (Hop m Hm). unfold wp, on_error in *.
  destruct (op m) as [m' []]; try done. apply (keeping_bind T cleanup (fun _ => fail e)); [done| |done].
  intros. apply keeps_fail.
Qed.

(** The digest of a file is the digest of its content; nothing changes. *)
Lemma wp_hash_pieces fuel h rest (Q : Hasher -> Machine -> Prop) R X m :
  (length rest < fuel)%nat ->
  (forall m', files m' = files m -> Q (Sha256_update h rest) m') ->
  (forall m', files m' = files m -> R m') -> wp (hash_pieces fuel h rest) Q R X m.
Proof.
  revert h rest m; induction fuel as [|fuel IH]; intros h rest m Hlen HQ HR; [lia|].
  cbn [hash_pieces]. apply wp_bind, wp_untouched; [|done]. intros m1 H1. case_bool_decide as E.
  { subst. apply wp_ret. rewrite <- (sha256_nothing h). by apply HQ. }
  apply IH.
  - rewrite length_drop. destruct rest; [done|]. cbn in *. lia.
  - intros m' Hm'. rewrite sha256_pieces, firstn_skipn. apply HQ. congruence.
  - intros m' Hm'. apply HR. congruence.
Qed.

Lemma wp_sha256_hex_file p (Q : text -> Machine -> Prop) R X m :
  (forall f m', file_at (files m) p = Some f -> files m' = files m -> Q (sha256_hex_bytes (content f)) m') ->
  (forall m', files m' = files m -> R m') -> wp (sha256_hex_file p) Q R X m.
Proof.
  intros HQ HR. apply wp_bind, wp_read; [|done]. intros f m1 Hf H1.
  apply wp_bind, wp_hash_pieces; [lia| |intros; apply HR; congruence].
  intros m2 H2. apply wp_ret, HQ; congruence.
Qed.

Lemma keeps_sha256_hex_file T p : keeps T (sha256_hex_file p).
Proof. intros m Hm. apply wp_sha256_hex_file; intros; congruence. Qed.

Lemma manifest_body_safe acc chunks : safe (manifest_body acc chunks).
Proof. revert acc; induction chunks as [|[c|] chunks IH]; intros acc; cbn; [done| |done]. case_match; [done|apply IH]. Qed.

Lemma signed_response_safe r : safe (signed_response r).
Proof.
  unfold signed_response, error_for_status. case_match; [done|].
  apply bind_safe; [done|]. intros ? _. apply bind_safe; [apply ensure_safe|]. intros ? _.
  apply bind_safe; [apply manifest_body_safe|]. intros ? _. apply bind_safe; [apply ok_or_safe|]. intros ? _.
  by apply bind_safe; [apply ok_or_safe|].
Qed.

Lemma keeps_fetch_manifest T url : keeps T (fetch_manifest url).
Proof. unfold fetch_manifest. repeat keeps_step. apply keeping_lift, signed_response_safe. Qed.

(** A manifest that was fetched is the decoding of the bytes that came with it. *)
Lemma fetch_manifest_decoded url m m' signed :
  fetch_manifest url m = (m', Ok (Signed signed)) ->
  manifest_from_slice (manifest_bytes signed) = Some (manifest signed).
Proof.
  unfold fetch_manifest, mbind, method_bind. destruct (http_get url m) as [m1 [r| | |]]; try done.
  case_match; [done|]. case_match; [done|]. unfold lift, signed_response. intros [= _ Hr]. run_inv.
  by simplify_eq/=.
Qed.

Lemma keeps_download_chunks Del Wr T destination expected actual chunks :
  closed Del Wr T -> (forall c, Wr destination c) ->
  keeps T (download_chunks destination expected actual chunks).
Proof.
  intros HT Hw. revert actual; induction chunks as [|[c|] chunks IH]; intros actual; cbn; [keeps_step| |keeps_step].
  repeat keeps_step; [|apply IH]. by eapply keeps_write_all.
Qed.

Lemma verify_package_size_safe a b : safe (verify_package_size a b).
Proof. apply bind_safe; [apply ensure_safe|]. intros; apply ensure_safe. Qed.

Lemma keeps_download_file Del Wr T url destination size :
  closed Del Wr T -> Del destination -> (forall c, Wr destination c) ->
  keeps T (download_file url destination size).
Proof.
  intros HT Hd Hw. unfold download_file. repeat keeps_step.
  all: try (by apply keeping_lift, ensure_safe).
  - done.
  - apply keeping_lift. unfold error_for_status. by case_match.
  - apply keeping_lift. case_match; [apply verify_package_size_safe|done].
  - apply keeps_on_error; repeat keeps_step; [| |apply keeping_lift, verify_package_size_safe|done].
    + by eapply keeps_create.
    + by eapply keeps_download_chunks.
Qed.
End crates.
End UpdateFacts.
