(* ===== verification/Services.v ===== *)
(** The service manager (apps/talos_supervisor/src/service_manager.rs): the interface the
    supervisor uses to install, start and stop the service of the worker, and its
    implementation with systemd on Linux. *)

From stdpp Require Import gmap.
From S2P Require Import Prelude Bytes Text ApplianceConfig Machine.

Import Fs Machine.

Local Open Scope Z_scope.

(** The variables and the executable of the process. *)
Class Process := {
  env_var : text -> option text;
  current_exe : option path;
  process_id : text }.

Module Services.
Inductive ServiceState := Running | Stopped | Starting | Stopping | Unknown.

#[export] Instance ServiceState_eq_dec : EqDecision ServiceState.
Proof. solve_decision. Defined.

Record WorkerServiceConfig := {
  service_name : text; display_name : text; description : text; executable_path : path;
  environment_file : option path }.

(** The trait. *)
Class ServiceManager := {
  service_exists : text -> M bool;
  service_state : text -> M (option ServiceState);
  install_worker_service : WorkerServiceConfig -> M unit;
  ensure_worker_service : WorkerServiceConfig -> M bool;
  start_service : text -> M unit;
  stop_service : text -> M unit;
  ensure_worker_firewall_rule : path -> M unit }.

(** A service that is not there is stopped. *)
Definition reached (expected : ServiceState) (current : option ServiceState) : bool :=
  match current with
  | Some s => bool_decide (s = expected)
  | None => bool_decide (expected = Stopped)
  end.

(** The loop asks for the state once a second until the deadline; [timeout] is in seconds. *)
Fixpoint wait_loop (state : M (option ServiceState)) (expected : ServiceState) (deadline : Z)
    (fuel : nat) : M unit :=
  match fuel with
  | O => lift Fuel
  | S fuel =>
    current ← state;
    if reached expected current then mret tt
    else
      time ← now;
      if deadline <=? time then fail "timed out waiting for service"
      else _ ← sleep 1000; wait_loop state expected deadline fuel
  end.

Definition wait_for_service_state (state : M (option ServiceState)) (expected : ServiceState)
    (timeout : Z) : M unit :=
  start ← now;
  wait_loop state expected (start + 1000 * timeout) (S (Z.to_nat timeout)).

(** ** systemd *)

(** [value.replace(c, by)] *)
Definition replace_char (c : Z) (by_ : text) (t : text) : text :=
  concat (map (fun d => if d =? c then by_ else [d]) t).

Definition systemd_quote_path (p : path) : text :=
  let value := display p in
  if existsb is_whitespace value
  then [34] ++ replace_char 34 [92; 34] (replace_char 92 [92; 92] value) ++ [34]
  else value.

Definition systemd_escape_text (value : text) : text :=
  map (fun c => if (c =? 10) || (c =? 13) then 32 else c) value.

(** [paths.join(" ")] *)
Fixpoint join_spaces (l : list text) : text :=
  match l with [] => [] | [t] => t | t :: l => t ++ [32] ++ join_spaces l end.

Definition worker_read_write_paths (worker_exe : path) : text :=
  let worker_dir := default [str "opt"; str "talos"; str "worker"] (parent worker_exe) in
  let paths := [[str "etc"; str "talos"]; [str "var"; str "lib"; str "talos"];
                [str "var"; str "log"; str "talos"]; [str "tmp"]; worker_dir] in
  join_spaces (map systemd_quote_path paths).

(** The lines of the unit, each with its end. *)
Definition unit_line (t : text) : text := t ++ [10].

Definition worker_systemd_unit (config : WorkerServiceConfig) : text :=
  let description :=
    if bool_decide (trim (description config) = []) then display_name config
    else display_name config ++ str " (" ++ description config ++ str ")" in
  let environment_file :=
    match environment_file config with
    | Some p => unit_line (str "EnvironmentFile=" ++ systemd_quote_path p)
    | None => []
    end in
  unit_line (str "[Unit]") ++
  unit_line (str "Description=" ++ systemd_escape_text description) ++
  unit_line (str "After=network-online.target") ++
  unit_line (str "Wants=network-online.target") ++
  unit_line [] ++
  unit_line (str "[Service]") ++
  unit_line (str "Type=simple") ++
  environment_file ++
  unit_line (str "ExecStart=" ++ systemd_quote_path (executable_path config)) ++
  unit_line (str "Restart=always") ++
  unit_line (str "RestartSec=10") ++
  unit_line (str "User=root") ++
  unit_line (str "Group=root") ++
  unit_line (str "NoNewPrivileges=false") ++
  unit_line (str "PrivateTmp=true") ++
  unit_line (str "ProtectHome=read-only") ++
  unit_line (str "ReadWritePaths=" ++ worker_read_write_paths (executable_path config)) ++
  unit_line [] ++
  unit_line (str "[Install]") ++
  unit_line (str "WantedBy=multi-user.target").

Module Systemd.
Definition unit_name (service_name : text) : res anyhow text :=
  let trimmed := trim service_name in
  _ ← ensure (negb (bool_decide (trimmed = []))) "service name is empty"%string;
  _ ← ensure (negb (existsb (fun c => (c =? 47) || (c =? 92)) trimmed))
        "service name must not contain path separators"%string;
  Ok (if ends_with (str ".service") trimmed then trimmed else trimmed ++ str ".service").

Definition unit_directory : path := [str "etc"; str "systemd"; str "system"].

Definition unit_path (service_name : text) : res anyhow path :=
  unit ← unit_name service_name; Ok (unit_directory ++ [unit]).

Definition systemctl (args : list text) : M Output := run_command (str "systemctl" :: args).

(** A command that has to succeed. *)
Definition systemctl_success (args : list text) : M unit :=
  status ← systemctl args; lift (ensure (success status) "systemctl failed"%string).

Definition daemon_reload : M unit := systemctl_success [str "daemon-reload"].

Definition enable_service (service_name : text) : M unit :=
  unit ← lift (unit_name service_name); systemctl_success [str "enable"; unit].

Definition service_exists (service_name : text) : M bool :=
  unit ← lift (unit_name service_name);
  output ← systemctl [str "show"; unit; str "--property=LoadState"; str "--value"];
  let load_state := trim (from_utf8_lossy (stdout output)) in
  mret (success output && negb (bool_decide (load_state = []))
        && negb (bool_decide (load_state = str "not-found"))).

Definition active_state (output : Output) : ServiceState :=
  let active := trim (from_utf8_lossy (stdout output)) in
  if bool_decide (active = str "active") then Running
  else if bool_decide (active = str "activating") then Starting
  else if bool_decide (active = str "deactivating") then Stopping
  else if bool_decide (active = str "inactive") then Stopped
  else if bool_decide (active = str "failed") then Stopped
  else Unknown.

Definition service_state (service_name : text) : M (option ServiceState) :=
  known ← service_exists service_name;
  if negb known then mret None else
  unit ← lift (unit_name service_name);
  output ← systemctl [str "is-active"; unit];
  mret (Some (active_state output)).

Definition install_worker_service (config : WorkerServiceConfig) : M unit :=
  unit_path ← lift (unit_path (service_name config));
  _ ← match parent unit_path with Some d => create_dir_all d | None => mret tt end;
  _ ← write unit_path (utf8 (worker_systemd_unit config));
  _ ← daemon_reload;
  enable_service (service_name config).

Definition ensure_worker_service (config : WorkerServiceConfig) : M bool :=
  unit_path ← lift (unit_path (service_name config));
  _ ← match parent unit_path with Some d => create_dir_all d | None => mret tt end;
  let unit := worker_systemd_unit config in
  current ← ok (read_to_string unit_path);
  let changed := bool_decide (current <> Some unit) in
  _ ← (if changed
       then _ ← write unit_path (utf8 unit); daemon_reload
       else mret tt);
  _ ← enable_service (service_name config);
  mret changed.

Definition start_service (service_name : text) : M unit :=
  unit ← lift (unit_name service_name);
  _ ← systemctl_success [str "start"; unit];
  wait_for_service_state (service_state service_name) Running 60.

Definition stop_service (service_name : text) : M unit :=
  unit ← lift (unit_name service_name);
  _ ← systemctl [str "stop"; unit];
  wait_for_service_state (service_state service_name) Stopped 60.
End Systemd.

#[export] Instance SystemdServiceManager : ServiceManager := {|
  service_exists := Systemd.service_exists;
  service_state := Systemd.service_state;
  install_worker_service := Systemd.install_worker_service;
  ensure_worker_service := Systemd.ensure_worker_service;
  start_service := Systemd.start_service;
  stop_service := Systemd.stop_service;
  ensure_worker_firewall_rule := fun _ => mret tt |}.

(** [command_available]: an absolute path, or a name in one of the directories of [PATH]. *)
Definition command_available `{Process} (name : text) : M bool :=
  if starts_with [47] name then path_is_file (from_text name) else
  match env_var (str "PATH") with
  | Some paths =>
    m ← get;
    mret (existsb (fun dir => is_file (files m) (from_text dir ++ [name])) (split_on 58 paths))
  | None => mret false
  end.

(** [SystemdServiceManager::is_available]; [command_available] is asked only when the
    directory is there. *)
Definition is_available `{Process} : M bool :=
  systemd ← path_exists [str "run"; str "systemd"; str "system"];
  if (systemd : bool) then command_available (str "systemctl") else mret false.

(** The manager of the platform, when it is there; on Linux it is systemd's. *)
Definition platform_service_manager `{Process} : M unit :=
  available ← is_available;
  lift (ensure available "unsupported_service_manager: systemd is not available"%string).
End Services.

(** ** What the managers promise

    The supervisor's theorems rest on this: the operations return, whatever the commands
    answer, they write no files but the manager's own, and a service that was started was
    seen running. *)

Module ServiceFacts.
Import Keeps Services.

Class ServiceManagerLaws (SM : ServiceManager) := {
  service_area : path -> Prop;
  seen_running : text -> Machine -> Prop;
  keeps_service_exists Del Wr T name : closed Del Wr T -> (forall p c, service_area p -> Wr p c) ->
    keeps T (service_exists name);
  keeps_service_state Del Wr T name : closed Del Wr T -> (forall p c, service_area p -> Wr p c) ->
    keeps T (service_state name);
  keeps_ensure_worker_service Del Wr T config : closed Del Wr T ->
    (forall p c, service_area p -> Wr p c) -> keeps T (ensure_worker_service config);
  keeps_stop_service Del Wr T name : closed Del Wr T -> (forall p c, service_area p -> Wr p c) ->
    keeps T (stop_service name);
  keeps_firewall Del Wr T p : closed Del Wr T -> (forall p c, service_area p -> Wr p c) ->
    keeps T (ensure_worker_firewall_rule p);
  wp_start_service Del Wr T name m : closed Del Wr T -> (forall p c, service_area p -> Wr p c) ->
    T (files m) ->
    wp (start_service name) (fun _ m' => T (files m') /\ seen_running name m')
      (fun m' => T (files m')) False m }.

(** Waiting for a state ends: with a deadline in [1000 * n] milliseconds the state is asked
    for at most [n + 1] times. *)
Lemma wp_wait_loop (T : tree -> Prop) (Q : option ServiceState -> Machine -> Prop) state expected deadline fuel m :
  (forall m, T (files m) ->
     wp state (fun a m' => T (files m') /\ clock m <= clock m' /\ Q a m') (fun m' => T (files m')) False m) ->
  deadline - clock m <= 1000 * (Z.of_nat fuel - 1) -> (0 < fuel)%nat -> T (files m) ->
  wp (wait_loop state expected deadline fuel)
    (fun _ m' => T (files m') /\ (Q (Some expected) m' \/ (expected = Stopped /\ Q None m')))
    (fun m' => T (files m')) False m.
Proof.
  intros Hs. revert m; induction fuel as [|fuel IH]; intros m Hd Hf Hm; [lia|].
  cbn [wait_loop]. apply wp_bind. eapply wp_mono; [by apply Hs| |done|done].
  cbn beta. intros current m1 (Hm1 & Hc & HQ).
  destruct (reached expected current) eqn:E.
  { apply wp_ret. split; [done|]. destruct current; apply bool_decide_eq_true in E; subst; eauto. }
  apply wp_bind, wp_bind, wp_get, wp_ret. destruct (Z.leb_spec deadline (clock m1)) as [|Ed]; [by apply wp_lift_safe|].
  apply wp_bind. unfold sleep. apply wp_bind, wp_get, wp_put.
  apply IH; cbn; [lia|lia|done].
Qed.

(** ** systemd *)

Definition unit_area (p : path) : Prop := exists unit, p = Systemd.unit_directory ++ [unit].

Definition seen_active (name : text) (m : Machine) : Prop :=
  exists unit output, Systemd.unit_name name = Ok unit /\ Systemd.active_state output = Running /\
    last (commands m) = Some ([str "systemctl"; str "is-active"; unit], Some output).

Lemma unit_name_safe name : safe (Systemd.unit_name name).
Proof.
  apply bind_safe; [apply ensure_safe|]. intros ? _. apply bind_safe; [apply ensure_safe|]. done.
Qed.

Lemma keeps_systemctl_success T args : keeps T (Systemd.systemctl_success args).
Proof. unfold Systemd.systemctl_success, Systemd.systemctl. repeat keeps_step. Qed.

Lemma keeps_enable_service T name : keeps T (Systemd.enable_service name).
Proof.
  unfold Systemd.enable_service. repeat keeps_step; [apply keeping_lift, unit_name_safe|].
  apply keeps_systemctl_success.
Qed.

Lemma keeps_systemd_exists T name : keeps T (Systemd.service_exists name).
Proof.
  unfold Systemd.service_exists, Systemd.systemctl. repeat keeps_step. apply keeping_lift, unit_name_safe.
Qed.

Lemma wp_run_command args (Q : Output -> Machine -> Prop) R X m :
  (forall o m', files m' = files m -> clock m <= clock m' ->
     last (commands m') = Some (args, Some o) -> Q o m') ->
  (forall m', files m' = files m -> R m') -> wp (run_command args) Q R X m.
Proof.
  intros HQ HR. unfold wp, run_command. destruct (default None (head (outputs m))) as [o|]; cbn.
  - apply HQ; cbn; [done|lia|by rewrite last_snoc].
  - by apply HR.
Qed.

(** The state: time passes, and a state that is reported is what systemctl just answered. *)
Lemma wp_systemd_state (T : tree -> Prop) name m :
  T (files m) ->
  wp (Systemd.service_state name)
    (fun a m' => T (files m') /\ clock m <= clock m' /\ (a = Some Running -> seen_active name m'))
    (fun m' => T (files m')) False m.
Proof.
  intros Hm. unfold Systemd.service_state, Systemd.service_exists, Systemd.systemctl.
  apply wp_bind, wp_bind, wp_lift_safe; [apply unit_name_safe| |done]. intros unit Hu.
  apply wp_bind, wp_run_command; [|congruence]. intros o1 m1 Hf1 Hc1 _. apply wp_ret.
  case_match; [apply wp_ret; split_and!; [congruence|done|done]|].
  apply wp_bind, wp_lift_safe; [apply unit_name_safe| |congruence]. intros unit' Hu'.
  apply wp_bind, wp_run_command; [|congruence]. intros o2 m2 Hf2 Hc2 Hlast. apply wp_ret.
  split_and!; [congruence|lia|]. intros [= Ho]. by exists unit', o2.
Qed.

Lemma wp_wait_for_service_state (T : tree -> Prop) name expected timeout m :
  0 <= timeout -> T (files m) ->
  wp (wait_for_service_state (Systemd.service_state name) expected timeout)
    (fun _ m' => T (files m') /\ (expected = Running -> seen_active name m'))
    (fun m' => T (files m')) False m.
Proof.
  intros Ht Hm. apply wp_bind, wp_bind, wp_get, wp_ret.
  eapply wp_mono; [apply (wp_wait_loop T (fun a m' => a = Some Running -> seen_active name m'))| |done|done].
  - intros m0. apply wp_systemd_state.
  - lia.
  - lia.
  - done.
  - intros _ m' [Hm' [HQ|[-> _]]]; split; [done|intros ->; by apply HQ|done|done].
Qed.

Lemma keeps_stop_systemd T name : keeps T (Systemd.stop_service name).
Proof.
  unfold Systemd.stop_service, Systemd.systemctl. repeat keeps_step; [apply keeping_lift, unit_name_safe|].
  intros m Hm. eapply wp_mono; [by apply (wp_wait_for_service_state T)| |done|done]. by intros _ m' [? _].
Qed.

Lemma keeps_ensure_systemd Del Wr T config :
  closed Del Wr T -> (forall p c, unit_area p -> Wr p c) -> keeps T (Systemd.ensure_worker_service config).
Proof.
  intros HT Hw. unfold Systemd.ensure_worker_service, Systemd.daemon_reload. apply keeps_bind_lift.
  { apply bind_safe; [apply unit_name_safe|done]. }
  intros p (unit & _ & [= <-])%bind_ok_inv. repeat keeps_step.
  - eapply keeps_write; [done|]. intros k. apply Hw. by exists unit.
  - apply keeps_systemctl_success.
  - apply keeps_enable_service.
Qed.

#[export] Program Instance SystemdLaws : ServiceManagerLaws SystemdServiceManager := {|
  service_area := unit_area; seen_running := seen_active |}.
Next Obligation. intros. apply keeps_systemd_exists. Qed.
Next Obligation.
  intros Del Wr T name _ _ m Hm. eapply wp_mono; [by apply (wp_systemd_state T)| |done|done].
  by intros a m' [? _].
Qed.
Next Obligation. exact keeps_ensure_systemd. Qed.
Next Obligation. intros. apply keeps_stop_systemd. Qed.
Next Obligation. intros. apply keeping_ret. Qed.
Next Obligation.
  intros Del Wr T name m _ _ Hm. apply wp_bind, wp_lift_safe; [apply unit_name_safe| |done]. intros unit Hu.
  apply wp_bind. eapply wp_mono; [exact (keeps_systemctl_success T _ m Hm)| |done|done].
  intros [] m' Hm'. eapply wp_mono; [by apply (wp_wait_for_service_state T)| |done|done].
  intros _ m'' [? H]. split; [done|by apply H].
Qed.

Lemma keeps_platform `{Process} T : keeps T platform_service_manager.
Proof.
  unfold platform_service_manager, is_available, path_exists, command_available, path_is_file.
  repeat keeps_step.
Qed.
End ServiceFacts.
