(* ===== verification/Apply.v ===== *)
(** The application of an update package (apps/talos_supervisor/src/main.rs), as the program
    is built for Linux: the arguments of the helper, the extraction of the package into a
    staging directory, the replacement of the installed files with the service stopped, and
    the promotion of a supervisor that was left for the next start. *)

From stdpp Require Import gmap.
From S2P Require Import Prelude Bytes Text Machine Update Services.

Import Fs Machine Services.

Local Open Scope Z_scope.

(** The libraries that read the archive (zip) and walk the staging directory (walkdir). *)
Record ZipEntry := {
  mangled_name : path; entry_is_dir : bool; entry_bytes : list Z; entry_broken : bool }.

Class Archives := {
  ZipArchive_new : list Z -> option (list (option ZipEntry));
  walk_order : list path -> list path }.

(** What is documented of them: the components of a mangled name are names, and a walk meets
    each file once, in some order. *)
Definition is_name (c : text) : Prop := c <> [] /\ c <> str "." /\ c <> str ".." /\ 47 ∉ c.

Class ArchivesLaws (A : Archives) := {
  mangled_names bytes entries e : ZipArchive_new bytes = Some entries ->
    Some e ∈ entries -> Forall is_name (mangled_name e);
  walk_permutation l : Permutation (walk_order l) l }.

Module Apply.
Definition SUPERVISOR_FILE_NAME : text := str "talos_supervisor".
Definition LEGACY_SUPERVISOR_FILE_NAME : text := str "updater".
Definition PENDING_SUPERVISOR_FILE_NAME : text := str "talos_supervisor.next".
Definition LEGACY_PENDING_SUPERVISOR_FILE_NAME : text := str "updater.next".
Definition SUPERVISOR_PREVIOUS_FILE_NAME : text := str "talos_supervisor.previous".
Definition LEGACY_SUPERVISOR_PREVIOUS_FILE_NAME : text := str "updater.previous".
Definition DEFAULT_APPLY_SERVICE_NAME : text := str "talos-worker".

Record ApplyArgs := {
  package_path : path; install_dir : path; service_name : text; target_version : option text }.

(** ** Arguments *)

Definition is_apply_invocation (raw_args : list text) : bool :=
  existsb (fun arg => bool_decide (arg = str "--apply") || bool_decide (arg = str "--package"))
    raw_args.

(** What the loop has gathered. *)
Record Parsed := {
  p_package : option path; p_install_dir : option path; p_service : option text;
  p_version : option text }.

(** The value after an option is the next argument, when there is one. *)
Fixpoint parse_args (acc : Parsed) (args : list text) : res anyhow Parsed :=
  match args with
  | [] => Ok acc
  | arg :: args =>
    if bool_decide (arg = str "--apply") then parse_args acc args
    else
    let value := head args in
    let set acc := if args is _ :: args' then parse_args acc args' else Ok acc in
    if bool_decide (arg = str "--package") then
      set {| p_package := from_text <$> value; p_install_dir := p_install_dir acc;
             p_service := p_service acc; p_version := p_version acc |}
    else if bool_decide (arg = str "--install-dir") then
      set {| p_package := p_package acc; p_install_dir := from_text <$> value;
             p_service := p_service acc; p_version := p_version acc |}
    else if bool_decide (arg = str "--service-name") then
      set {| p_package := p_package acc; p_install_dir := p_install_dir acc;
             p_service := value; p_version := p_version acc |}
    else if bool_decide (arg = str "--target-version") then
      set {| p_package := p_package acc; p_install_dir := p_install_dir acc;
             p_service := p_service acc; p_version := value |}
    else Err "unknown arg"%string
  end.

(** [value.trim()], when something is left. *)
Definition nonempty (value : text) : option text :=
  let value := trim value in if bool_decide (value = []) then None else Some value.

Definition parse (raw_args : list text) : res anyhow ApplyArgs :=
  parsed ← parse_args {| p_package := None; p_install_dir := None;
                         p_service := Some DEFAULT_APPLY_SERVICE_NAME; p_version := None |} raw_args;
  package ← ok_or (p_package parsed) "--package is required"%string;
  dir ← ok_or (p_install_dir parsed) "--install-dir is required"%string;
  Ok {| package_path := package; install_dir := dir;
        service_name := default DEFAULT_APPLY_SERVICE_NAME (p_service parsed);
        target_version := p_version parsed ≫= nonempty |}.

(** ** Files *)

Definition eq_ignore_ascii_case : text -> text -> bool := Update.eq_ignore_ascii_case.

Definition is_supervisor_self_file (file_name : text) : bool :=
  eq_ignore_ascii_case file_name SUPERVISOR_FILE_NAME
  || eq_ignore_ascii_case file_name LEGACY_SUPERVISOR_FILE_NAME.

Definition pending_supervisor_path (install_dir : path) (file_name : text) : path :=
  install_dir ++ [if eq_ignore_ascii_case file_name LEGACY_SUPERVISOR_FILE_NAME
                  then LEGACY_PENDING_SUPERVISOR_FILE_NAME else PENDING_SUPERVISOR_FILE_NAME].

Definition supervisor_backup_path (install_dir : path) (file_name : text) : path :=
  install_dir ++ [if eq_ignore_ascii_case file_name LEGACY_SUPERVISOR_FILE_NAME
                  then LEGACY_SUPERVISOR_PREVIOUS_FILE_NAME else SUPERVISOR_PREVIOUS_FILE_NAME].

(** Without symbolic links a path is its canonical path. *)
Definition running_from_path `{Process} (p : path) : bool :=
  match current_exe with Some current => bool_decide (current = p) | None => false end.

Definition replace_file_with_backup (source destination backup : path) : M unit :=
  _ ← ignore (remove_file backup);
  moved_existing ← path_exists destination;
  _ ← (if moved_existing : bool then rename destination backup else mret tt);
  copied ← ok (copy source destination);
  match copied with
  | None =>
    there ← path_exists destination;
    saved ← path_exists backup;
    _ ← (if moved_existing && negb there && saved
         then ignore (rename backup destination) else mret tt);
    fail "copy"
  | Some _ => ignore (remove_file backup)
  end.

Definition promote_pending_supervisor_file (pending current backup : path) : M unit :=
  waiting ← path_exists pending;
  if negb waiting then mret tt else
  there ← path_exists current;
  _ ← (if there : bool then _ ← ignore (remove_file backup); rename current backup else mret tt);
  _ ← rename pending current;
  ignore (remove_file backup).

Definition promote_pending_supervisor (install_dir : path) : M unit :=
  _ ← promote_pending_supervisor_file (install_dir ++ [PENDING_SUPERVISOR_FILE_NAME])
        (install_dir ++ [SUPERVISOR_FILE_NAME]) (install_dir ++ [SUPERVISOR_PREVIOUS_FILE_NAME]);
  promote_pending_supervisor_file (install_dir ++ [LEGACY_PENDING_SUPERVISOR_FILE_NAME])
    (install_dir ++ [LEGACY_SUPERVISOR_FILE_NAME])
    (install_dir ++ [LEGACY_SUPERVISOR_PREVIOUS_FILE_NAME]).

(** The programs of the packages. *)
Definition is_program (file_name : text) : bool :=
  Update.is_one_of file_name
    ["talos_supervisor"; "updater"; "talos_worker"; "talos-rmm-agent"; "talos_worker_helper";
     "talos_worker_chat"; "talos_permissions_helper"]%string.

(** Mode [0755]. *)
Definition apply_platform_file_permissions (p : path) : M unit :=
  match path_name p with
  | None => mret tt
  | Some file_name =>
    if is_program file_name then _ ← read p; set_mode p 493 else mret tt
  end.

Definition create_parent (p : path) : M unit :=
  match parent p with Some d => create_dir_all d | None => mret tt end.

Section archives.
Context {A : Archives} {P : Process} {SM : ServiceManager}.

Definition extract_entry (destination : path) (entry : option ZipEntry) : M unit :=
  match entry with
  | None => fail "read zip entry"
  | Some e =>
    let out_path := destination ++ mangled_name e in
    if entry_is_dir e then create_dir_all out_path else
    _ ← create_parent out_path;
    _ ← create out_path;
    _ ← write_all out_path (entry_bytes e);
    if entry_broken e then fail "extract" else mret tt
  end.

Definition extract_zip (zip_path destination : path) : M unit :=
  bytes ← read zip_path;
  archive ← lift (ok_or (ZipArchive_new bytes) "open zip archive"%string);
  for_each (extract_entry destination) archive.

(** One file of the staging directory.  Authenticode signatures are checked on Windows
    only. *)
Definition replace_self_file (install_dir source destination : path) (file_name : text) : M unit :=
  if running_from_path destination then
    let pending := pending_supervisor_path install_dir file_name in
    _ ← copy source pending;
    apply_platform_file_permissions pending
  else
    _ ← replace_file_with_backup source destination (supervisor_backup_path install_dir file_name);
    apply_platform_file_permissions destination.

Definition replace_file (source destination : path) : M unit :=
  _ ← create_parent destination;
  let backup_path := with_extension destination (str "previous") in
  there ← path_exists destination;
  _ ← (if there : bool
       then _ ← ignore (remove_file backup_path); rename destination backup_path
       else mret tt);
  _ ← copy source destination;
  _ ← apply_platform_file_permissions destination;
  ignore (remove_file backup_path).

Definition replace_entry (staging_dir install_dir source : path) : M unit :=
  _ ← operation "walk staging directory" Some untouched;
  relative ← lift (ok_or (strip_base staging_dir source) "strip prefix"%string);
  file_name ← lift (ok_or (path_name relative) "invalid staging file name"%string);
  let destination := install_dir ++ relative in
  if is_supervisor_self_file file_name
  then replace_self_file install_dir source destination file_name
  else replace_file source destination.

(** The walk is over the files that are staged when it starts. *)
Definition replace_directory_contents (staging_dir install_dir : path) : M unit :=
  m ← get;
  for_each (replace_entry staging_dir install_dir)
    (walk_order (files_below staging_dir (files m))).

(** [service_exists], [stop_service] and [start_service] of main.rs. *)
Definition known_service (service_name : text) : M bool :=
  known ← ok (_ ← platform_service_manager; service_exists service_name);
  mret (default false known).
Definition stop_known_service (service_name : text) : M unit :=
  _ ← platform_service_manager; stop_service service_name.
Definition start_known_service (service_name : text) : M unit :=
  _ ← platform_service_manager; start_service service_name.

(** The display version is set on Windows only. *)
Definition apply_update_package (args : ApplyArgs) : M unit :=
  let staging_dir := install_dir args ++ [str "_update_staging"] in
  stale ← path_exists staging_dir;
  _ ← (if stale : bool then ignore (remove_dir_all staging_dir) else mret tt);
  _ ← create_dir_all staging_dir;
  _ ← extract_zip (package_path args) staging_dir;
  restart_service ← known_service (service_name args);
  _ ← (if restart_service : bool then stop_known_service (service_name args) else mret tt);
  _ ← replace_directory_contents staging_dir (install_dir args);
  _ ← (if restart_service : bool then start_known_service (service_name args) else mret tt);
  ignore (remove_dir_all staging_dir).
End archives.
End Apply.

(** ** What the application keeps *)

Module ApplyFacts.
Import Keeps Apply ServiceFacts.

Lemma with_extension_below base r ext :
  r <> [] -> exists r', with_extension (base ++ r) ext = base ++ r'.
Proof.
  destruct r as [|r c] using rev_ind; [done|]. intros _. unfold with_extension, path_name.
  rewrite app_assoc, last_snoc, removelast_last, <- app_assoc. eauto.
Qed.

Section apply.
Context {A : Archives} {P : Process} {SM : ServiceManager} {SL : ServiceManagerLaws SM}.
Context (Del : path -> Prop) (Wr : path -> list Z -> Prop) (T : tree -> Prop) (HT : closed Del Wr T).
Context (install : path) (Hdel : forall r, Del (install ++ r)).
Context (Hcopy : forall t f r r' k, T t -> file_at t (install ++ r) = Some f ->
           Wr (install ++ r') (take k (content f))).
Context (Harea : forall p c, service_area p -> Wr p c).

Lemma keeps_create_parent p : keeps T (create_parent p).
Proof. unfold create_parent. repeat keeps_step. Qed.

Lemma keeps_rename_below r r' : keeps T (rename (install ++ r) (install ++ r')).
Proof.
  eapply keeps_rename; [done| |].
  - intros x. rewrite <- app_assoc. apply Hdel.
  - intros t f x Ht Hf. rewrite <- app_assoc in *. rewrite <- (firstn_all (content f)). by eapply Hcopy.
Qed.

Lemma keeps_copy_below r r' : keeps T (copy (install ++ r) (install ++ r')).
Proof. eapply keeps_copy; [done|]. intros t f k Ht Hf. by eapply Hcopy. Qed.

Lemma keeps_permissions r : keeps T (apply_platform_file_permissions (install ++ r)).
Proof.
  unfold apply_platform_file_permissions. repeat keeps_step. eapply keeps_set_mode; [done|].
  intros ? f Ht Hf. rewrite <- (firstn_all (content f)). by eapply Hcopy.
Qed.

Lemma keeps_replace_file_with_backup r r' r'' :
  keeps T (replace_file_with_backup (install ++ r) (install ++ r') (install ++ r'')).
Proof.
  unfold replace_file_with_backup, path_exists. repeat keeps_step;
    first [apply keeps_rename_below|apply keeps_copy_below|apply Hdel].
Qed.

Lemma keeps_promote_file r r' r'' :
  keeps T (promote_pending_supervisor_file (install ++ r) (install ++ r') (install ++ r'')).
Proof.
  unfold promote_pending_supervisor_file, path_exists. repeat keeps_step;
    first [apply keeps_rename_below|apply Hdel].
Qed.

Lemma keeps_promote : keeps T (promote_pending_supervisor install).
Proof. unfold promote_pending_supervisor. keeps_step; apply keeps_promote_file. Qed.

Lemma keeps_replace_entry s source : keeps T (replace_entry (install ++ s) install source).
Proof.
  unfold replace_entry. keeps_step; [keeps_step|].
  apply keeps_bind_lift; [apply ok_or_safe|]. intros r ->%ok_or_ok_inv%strip_base_app.
  rewrite <- app_assoc. apply keeps_bind_lift; [apply ok_or_safe|]. intros name Hname%ok_or_ok_inv.
  assert (r <> []) as Hr by by intros ->.
  unfold replace_self_file, replace_file, path_exists, pending_supervisor_path, supervisor_backup_path.
  destruct (with_extension_below install r (str "previous") Hr) as [r' ->].
  repeat keeps_step; first [apply keeps_copy_below|apply keeps_permissions|apply keeps_create_parent
    |apply keeps_rename_below|apply keeps_replace_file_with_backup|apply Hdel].
Qed.

Lemma keeps_replace_directory_contents s : keeps T (replace_directory_contents (install ++ s) install).
Proof.
  unfold replace_directory_contents. keeps_step; [keeps_step|]. apply keeping_for_each.
  intros p _. apply keeps_replace_entry.
Qed.

Lemma keeps_extract_entry s e :
  (forall k, Wr (install ++ s ++ mangled_name e) (take k (entry_bytes e))) ->
  keeps T (extract_entry (install ++ s) (Some e)).
Proof.
  intros He. cbn. rewrite <- app_assoc. destruct (entry_is_dir e); [by keeps_step|].
  keeps_step; [apply keeps_create_parent|]. apply keeps_bind_assoc; [|intros; by repeat keeps_step].
  by eapply keeps_create_write.
Qed.

Lemma keeps_service_control b name :
  keeps T (if b : bool then stop_known_service name else mret tt) /\ keeps T (known_service name).
Proof.
  unfold stop_known_service, known_service.
  split; repeat keeps_step; try apply keeps_platform; by (eapply keeps_stop_service || eapply keeps_service_exists).
Qed.

Lemma keeps_start_service name : keeps T (start_known_service name).
Proof.
  unfold start_known_service. keeps_step; [apply keeps_platform|]. intros m Hm.
  eapply wp_mono; [by eapply (wp_start_service _ _ _ name m HT)| |done|done]. by intros [] m' [? _].
Qed.

Lemma wp_extract_zip zip_path s f m :
  file_at (files m) zip_path = Some f ->
  (forall entries e k, ZipArchive_new (content f) = Some entries -> Some e ∈ entries ->
     Wr (install ++ s ++ mangled_name e) (take k (entry_bytes e))) ->
  T (files m) ->
  wp (extract_zip zip_path (install ++ s)) (fun _ m' => T (files m')) (fun m' => T (files m')) False m.
Proof.
  intros Hf He Hm. apply wp_bind, wp_read; [|by intros m' ->]. intros g m1 Hg Hm1. simplify_eq.
  apply wp_bind, wp_lift_safe; [apply ok_or_safe| |by rewrite Hm1]. intros entries Hz%ok_or_ok_inv.
  apply (keeping_for_each T); [|by rewrite Hm1]. intros [e|] Hin; [|apply keeps_fail].
  apply keeps_extract_entry. eauto.
Qed.

Lemma keeps_after_extract name s :
  keeps T (restart_service ← known_service name;
           _ ← (if restart_service : bool then stop_known_service name else mret tt);
           _ ← replace_directory_contents (install ++ s) install;
           _ ← (if restart_service : bool then start_known_service name else mret tt);
           ignore (remove_dir_all (install ++ s))).
Proof.
  keeps_step; [apply (keeps_service_control true)|].
  keeps_step; [apply keeps_service_control|]. keeps_step; [apply keeps_replace_directory_contents|].
  repeat keeps_step; [apply keeps_start_service|]. intros r. rewrite <- app_assoc. apply Hdel.
Qed.

(** Every failure included, the application of a package keeps a property that its own
    changes keep: files of the installation may go and be copied, and the members of the
    package may be written below the staging directory. *)
Lemma wp_apply_update_package args f m :
  install_dir args = install -> strip_base install (package_path args) = None ->
  file_at (files m) (package_path args) = Some f ->
  (forall entries e r k, ZipArchive_new (content f) = Some entries -> Some e ∈ entries ->
     Wr (install ++ r) (take k (entry_bytes e))) ->
  T (files m) ->
  wp (apply_update_package args) (fun _ m' => T (files m')) (fun m' => T (files m')) False m.
Proof.
  intros Hinst Hout Hf He Hm.
  set (T2 t := T t /\ agree (fun p => is_Some (strip_base install p)) (files m) t).
  assert (closed _ _ T2) as HT2 by (apply closed_and; [exact HT|apply agree_closed]).
  assert (T2 (files m)) as Hm2 by (split; [done|by intros p _]).
  assert (forall r, is_Some (strip_base install (install ++ r))) as Hin.
  { intros r. apply below_dec. by exists r. }
  unfold apply_update_package. rewrite Hinst. apply wp_bind, wp_bind, wp_get, wp_ret.
  apply wp_bind. eapply wp_mono; [eapply (keeps_if T2)| |by intros m' []|done]; [| |done|].
  { eapply keeps_ignore, keeps_remove_dir_all; [exact HT2|]. intros r. rewrite <- app_assoc. auto. }
  { apply keeping_ret. }
  intros [] m1 Hm1. apply wp_bind.
  eapply wp_mono; [by apply (keeps_create_dir_all _ _ _ HT2)| |by intros m' []|done].
  intros [] m2 [Ht2 Ha2]. apply wp_bind. eapply wp_mono; [apply (wp_extract_zip _ _ f)| |done|done].
  - rewrite Ha2; [done|]. rewrite Hout. by intros [].
  - intros. eauto.
  - done.
  - intros [] m3 Hm3. revert m3 Hm3. apply keeps_after_extract.
Qed.
End apply.
End ApplyFacts.
