(* ===== verification/Supervisor.v ===== *)
(** The supervisor (apps/talos_supervisor/src/supervisor.rs), as the program is built for
    Linux: its settings, the requests for updates with their retries, the update of the
    supervisor through a detached helper, the update of the worker, the repair of the
    worker's service, and the start-up and the loop that run them. *)

From stdpp Require Import gmap.
From S2P Require Import Prelude Bytes Text Machine Update Services Apply.

Import Fs Machine Update Services.

Local Open Scope Z_scope.

(** What the build fixes: the version of the package, the embedded key and the target. *)
Class Build := {
  CARGO_PKG_VERSION : text;
  EMBEDDED_MANIFEST_PUBLIC_KEY_DER : list Z;
  target_arch : text }.

Module Supervisor.
Definition UPDATE_REQUEST_ATTEMPTS : nat := 4.
Definition SUPERVISOR_SERVICE_NAME : text := str "talos-supervisor".
Definition WORKER_SERVICE_NAME : text := str "talos-worker".
Definition SUPERVISOR_PRODUCT : text := str "supervisor".
Definition WORKER_PRODUCT : text := str "worker".
Definition WORKER_VERSION_FILE_NAME : text := str "worker.version".
Definition WORKER_EXE_NAME : text := str "talos_worker".
Definition LEGACY_WORKER_EXE_NAME : text := str "talos-rmm-agent".

Record SupervisorArgs := {
  arg_once : bool; arg_update_base_url : option text; arg_channel : option text;
  arg_ring : option text; arg_worker_install_dir : option path;
  arg_worker_service_name : option text; arg_supervisor_service_name : option text;
  arg_startup_jitter_secs : option Z; arg_update_interval_secs : option Z;
  arg_monitor_interval_secs : option Z }.

Record SupervisorConfig := {
  update_base_url : option text; channel : text; ring : option text; worker_arch : text;
  worker_install_dir : path; worker_environment_file : option path; worker_version_path : path;
  worker_service_name : text; supervisor_service_name : text; supervisor_install_dir : path;
  startup_jitter_secs : Z; update_interval : Z; monitor_interval : Z; once : bool }.

(** ** Arguments *)

(** [value.parse::<u64>()] *)
Definition parse_u64 (t : text) : option Z := parse_uint u64_max t.

(** The option [name] with the value that follows it. *)
Definition set_arg (name : text) (value : option text) (a : SupervisorArgs) : option SupervisorArgs :=
  let named s := bool_decide (name = str s) in
  let upd url ch rg dir ws ss jit ui mi := Some
    {| arg_once := arg_once a; arg_update_base_url := url; arg_channel := ch; arg_ring := rg;
       arg_worker_install_dir := dir; arg_worker_service_name := ws;
       arg_supervisor_service_name := ss; arg_startup_jitter_secs := jit;
       arg_update_interval_secs := ui; arg_monitor_interval_secs := mi |} in
  let '(url, ch, rg, dir) := (arg_update_base_url a, arg_channel a, arg_ring a, arg_worker_install_dir a) in
  let '(ws, ss) := (arg_worker_service_name a, arg_supervisor_service_name a) in
  let '(jit, ui, mi) := (arg_startup_jitter_secs a, arg_update_interval_secs a, arg_monitor_interval_secs a) in
  if named "--update-base-url"%string then upd value ch rg dir ws ss jit ui mi
  else if named "--channel"%string then upd url value rg dir ws ss jit ui mi
  else if named "--ring"%string then upd url ch value dir ws ss jit ui mi
  else if named "--worker-install-dir"%string then upd url ch rg (from_text <$> value) ws ss jit ui mi
  else if named "--worker-service-name"%string then upd url ch rg dir value ss jit ui mi
  else if named "--supervisor-service-name"%string then upd url ch rg dir ws value jit ui mi
  else if named "--startup-jitter-secs"%string then upd url ch rg dir ws ss (value ≫= parse_u64) ui mi
  else if named "--update-interval-secs"%string then upd url ch rg dir ws ss jit (value ≫= parse_u64) mi
  else if named "--monitor-interval-secs"%string then upd url ch rg dir ws ss jit ui (value ≫= parse_u64)
  else None.

Definition set_once (a : SupervisorArgs) : SupervisorArgs :=
  {| arg_once := true; arg_update_base_url := arg_update_base_url a; arg_channel := arg_channel a;
     arg_ring := arg_ring a; arg_worker_install_dir := arg_worker_install_dir a;
     arg_worker_service_name := arg_worker_service_name a;
     arg_supervisor_service_name := arg_supervisor_service_name a;
     arg_startup_jitter_secs := arg_startup_jitter_secs a;
     arg_update_interval_secs := arg_update_interval_secs a;
     arg_monitor_interval_secs := arg_monitor_interval_secs a |}.

Fixpoint parse_from (a : SupervisorArgs) (args : list text) : res anyhow SupervisorArgs :=
  match args with
  | [] => Ok a
  | arg :: args =>
    if bool_decide (arg = str "--once") then parse_from (set_once a) args
    else
      a ← ok_or (set_arg arg (head args) a) "unknown supervisor arg"%string;
      if args is _ :: args then parse_from a args else Ok a
  end.

Definition parse (raw_args : list text) : res anyhow SupervisorArgs :=
  parse_from
    {| arg_once := false; arg_update_base_url := None; arg_channel := None; arg_ring := None;
       arg_worker_install_dir := None; arg_worker_service_name := None;
       arg_supervisor_service_name := None; arg_startup_jitter_secs := None;
       arg_update_interval_secs := None; arg_monitor_interval_secs := None |} raw_args.

Section supervisor.
Context {C : Crates} {A : Archives} {P : Process} {SM : ServiceManager} {B : Build}.

(** ** Settings *)

Definition env_string (name : string) : option text := env_var (str name) ≫= Apply.nonempty.
Definition env_path (name : string) : option path := from_text <$> env_string name.
Definition env_u64 (name : string) : option Z := env_string name ≫= parse_u64.
Definition env_bool (name : string) : bool :=
  match env_string name with
  | Some value => negb (is_one_of (to_ascii_lowercase value) ["0"; "false"; "no"; "off"]%string)
  | None => false
  end.

(** [a.or_else(|| b)] *)
Definition or_else {T} (a b : option T) : option T := match a with Some _ => a | None => b end.

Definition resolve_string (cli_value : option text) (env_name default_value : string) : text :=
  default (str default_value) (or_else cli_value (env_string env_name) ≫= Apply.nonempty).

Definition resolve_update_base_url_from_values (values : list (option text)) : option text :=
  List.find (fun value => negb (bool_decide (trim value = []))) (omap id values)
    ≫= normalize_update_base_url.

Definition resolve_update_base_url (cli_value : option text) : option text :=
  resolve_update_base_url_from_values
    [cli_value; env_string "RMM_UPDATE_BASE_URL"; env_string "API_BACKEND_URL";
     env_string "INTERNAL_API_URL"].

(** The architecture of the target, for the worker and for the supervisor. *)
Definition linux_arch : text :=
  if bool_decide (target_arch = str "x86_64") then str "linux-x64"
  else if bool_decide (target_arch = str "aarch64") then str "linux-arm64"
  else if bool_decide (target_arch = str "x86") then str "linux-x86"
  else if bool_decide (target_arch = str "arm") then str "linux-arm"
  else str "linux-" ++ target_arch.
Definition supervisor_arch : text :=
  if is_one_of target_arch ["x86_64"; "aarch64"; "x86"; "arm"]%string then linux_arch
  else str "unknown".

Definition worker_arch_candidates (detected : text) : list text := [detected].

Definition current_install_dir : res anyhow path :=
  exe ← ok_or current_exe "resolve current supervisor exe"%string;
  ok_or (parent exe) "supervisor install directory not found"%string.

Definition default_worker_install_dir : path := [str "opt"; str "talos"; str "worker"].
Definition default_worker_version_path : path :=
  [str "var"; str "lib"; str "talos"; WORKER_VERSION_FILE_NAME].
Definition default_worker_environment_file : path := [str "etc"; str "talos"; str "rmm-agent.env"].

Definition from_args (args : SupervisorArgs) : res anyhow SupervisorConfig :=
  supervisor_install_dir ← current_install_dir;
  let worker_install_dir :=
    default default_worker_install_dir
      (or_else (arg_worker_install_dir args) (env_path "RMM_WORKER_INSTALL_DIR")) in
  Ok {| update_base_url := resolve_update_base_url (arg_update_base_url args);
        channel := resolve_string (arg_channel args) "RMM_UPDATE_CHANNEL" "stable";
        ring := ring ← or_else (arg_ring args) (env_string "RMM_UPDATE_RING");
                if bool_decide (trim ring = []) then None else Some ring;
        worker_arch := linux_arch;
        worker_install_dir := worker_install_dir;
        worker_environment_file :=
          or_else (env_path "RMM_WORKER_ENV_FILE") (Some default_worker_environment_file);
        worker_version_path :=
          default default_worker_version_path (env_path "RMM_WORKER_VERSION_PATH");
        worker_service_name :=
          default WORKER_SERVICE_NAME
            (or_else (arg_worker_service_name args) (env_string "RMM_WORKER_SERVICE_NAME"));
        supervisor_service_name :=
          default SUPERVISOR_SERVICE_NAME
            (or_else (arg_supervisor_service_name args) (env_string "RMM_SUPERVISOR_SERVICE_NAME"));
        supervisor_install_dir := supervisor_install_dir;
        startup_jitter_secs :=
          default 0 (or_else (arg_startup_jitter_secs args)
                       (env_u64 "RMM_SUPERVISOR_STARTUP_JITTER_SECS"));
        update_interval :=
          Z.max 1 (default (24 * 60 * 60)
            (or_else (arg_update_interval_secs args) (env_u64 "RMM_SUPERVISOR_UPDATE_INTERVAL_SECS")));
        monitor_interval :=
          Z.max 1 (default 60
            (or_else (arg_monitor_interval_secs args) (env_u64 "RMM_SUPERVISOR_MONITOR_INTERVAL_SECS")));
        once := arg_once args || env_bool "RMM_SUPERVISOR_ONCE" |}.

(** ** Addresses and paths *)

Definition update_root_dir : path :=
  default [str "var"; str "lib"; str "talos"; str "updates"] (env_path "RMM_SUPERVISOR_UPDATE_ROOT").

(** [p.join(t)] *)
Definition join (p : path) (t : text) : path :=
  if starts_with [47] t then from_text t else p ++ from_text t.

Definition update_download_path (product arch version : text) : path :=
  join (join update_root_dir product)
    (product ++ str "-" ++ arch ++ str "-" ++ version ++ str ".zip").

Definition rollout_seed : M text :=
  match env_string "RMM_AGENT_ID" with
  | Some id => mret id
  | None =>
    machine_id ← ok (read_to_string [str "etc"; str "machine-id"]);
    mret (default (str "talos-supervisor")
      (or_else (machine_id ≫= Apply.nonempty)
        (or_else (env_string "HOSTNAME") (env_string "COMPUTERNAME"))))
  end.

Definition ring_suffix (ring : option text) : text :=
  match ring with Some ring => str "&ring=" ++ ring | None => [] end.

Definition build_manifest_url (config : SupervisorConfig) (base product arch current_version : text) :
    M text :=
  seed ← rollout_seed;
  mret (trim_slashes base ++ str "/" ++ product ++ str "/manifest?arch=" ++ arch ++
        str "&channel=" ++ channel config ++ str "&currentVersion=" ++ current_version ++
        str "&rolloutSeed=" ++ seed ++ ring_suffix (ring config)).

Definition build_package_url (base product arch channel : text) (ring : option text) : text :=
  trim_slashes base ++ str "/" ++ product ++ str "/package?arch=" ++ arch ++
  str "&channel=" ++ channel ++ ring_suffix ring.

(** ** Requests with retries *)

(** Up to [attempts] attempts, with a delay in milliseconds that doubles; the macro
    [unreachable!] after the loop is the panic. *)
Fixpoint with_retry {T} (request : M T) (attempts : nat) (delay : Z) : M T :=
  match attempts with
  | O => lift Panic
  | S attempts => fun m =>
    match request m with
    | (m', Err e) =>
      if bool_decide (attempts = O) then (m', Err e)
      else (_ ← sleep delay; with_retry request attempts (saturating_mul u64_max delay 2)) m'
    | done => done
    end
  end.

Definition fetch_manifest_with_retry (manifest_url : text) : M ManifestFetchResult :=
  with_retry (fetch_manifest manifest_url) UPDATE_REQUEST_ATTEMPTS 2000.

Definition download_file_with_retry (package_url : text) (package_path : path)
    (expected_size_bytes : Z) : M unit :=
  with_retry (download_file package_url package_path expected_size_bytes)
    UPDATE_REQUEST_ATTEMPTS 2000.

Record DownloadedUpdate := { du_version : text; du_package_path : path }.

(** What is done with a signed manifest. *)
Definition take_update (config : SupervisorConfig) (base product arch current_version : text)
    (signed : SignedManifest) : M (option DownloadedUpdate) :=
  _ ← lift (verify_manifest_signature EMBEDDED_MANIFEST_PUBLIC_KEY_DER (manifest_bytes signed)
              (signature_b64 signed));
  expected ← lift (for_artifact product arch (channel config) (ring config));
  _ ← lift (validate_manifest_context (manifest signed) expected);
  newer ← lift (is_update_newer current_version (version (manifest signed)));
  if negb newer then mret None else
  let package_url := build_package_url base product arch (channel config) (ring config) in
  let package_path := update_download_path product arch (version (manifest signed)) in
  let package := package (manifest signed) in
  _ ← download_file_with_retry package_url package_path (size_bytes package);
  actual_size ← metadata_len package_path;
  _ ← lift (verify_package_size (size_bytes package) actual_size);
  actual_hash ← sha256_hex_file package_path;
  _ ← lift (verify_package_sha256 (sha256 package) actual_hash);
  mret (Some {| du_version := version (manifest signed); du_package_path := package_path |}).

Definition fetch_update (config : SupervisorConfig) (base product arch current_version : text) :
    M (option DownloadedUpdate) :=
  manifest_url ← build_manifest_url config base product arch current_version;
  fetch_result ← fetch_manifest_with_retry manifest_url;
  match fetch_result with
  | NoUpdate | NotModified => mret None
  | Signed signed => take_update config base product arch current_version signed
  end.

(** ** The worker's service *)

Definition resolve_worker_exe (worker_install_dir : path) : M (option path) :=
  m ← get;
  mret (List.find (exists_ (files m))
    (map (fun name => worker_install_dir ++ [name]) [WORKER_EXE_NAME; LEGACY_WORKER_EXE_NAME])).

Definition ensure_worker_service_healthy (config : SupervisorConfig) : M unit :=
  worker_exe ← resolve_worker_exe (worker_install_dir config);
  worker_exe ← lift (ok_or worker_exe "Talos Worker executable not found"%string);
  _ ← platform_service_manager;
  let name := worker_service_name config in
  let worker_service :=
    {| service_name := name; display_name := str "Talos Worker";
       description := str "Talos remote monitoring and management worker";
       executable_path := worker_exe; environment_file := worker_environment_file config |} in
  state ← service_state name;
  service_changed ← ensure_worker_service worker_service;
  _ ← ensure_worker_firewall_rule worker_exe;
  match state with
  | Some Running =>
    if service_changed : bool then _ ← stop_service name; start_service name else mret tt
  | _ => start_service name
  end.

Definition current_worker_version (config : SupervisorConfig) : M (option text) :=
  match env_string "RMM_WORKER_CURRENT_VERSION" with
  | Some version => mret (Some version)
  | None =>
    version ← ok (read_to_string (worker_version_path config));
    mret (version ≫= Apply.nonempty)
  end.

Definition write_worker_version (config : SupervisorConfig) (version : text) : M unit :=
  _ ← Apply.create_parent (worker_version_path config);
  write (worker_version_path config) (utf8 version).

(** ** Updates *)

(** The architectures in turn, until one answers. *)
Fixpoint select_update (fetch : text -> M (option DownloadedUpdate)) (candidates : list text)
    (last_error : option anyhow) : M (option DownloadedUpdate) := fun m =>
  let finish m := match last_error with Some e => (m, Err e) | None => (m, Ok None) end in
  match candidates with
  | [] => finish m
  | arch :: candidates =>
    match fetch arch m with
    | (m', Err e) => select_update fetch candidates (Some e) m'
    | (m', Ok None) => finish m'
    | found => found
    end
  end.

Definition check_worker_update (config : SupervisorConfig) (base : text) : M unit :=
  current_version ← current_worker_version config;
  worker_exe ← resolve_worker_exe (worker_install_dir config);
  let current_version_for_manifest :=
    match worker_exe with
    | None => str "0.0.0"
    | Some _ => default (str "0.0.0") current_version
    end in
  update ← select_update
    (fun arch => fetch_update config base WORKER_PRODUCT arch current_version_for_manifest)
    (worker_arch_candidates (worker_arch config)) None;
  match update with
  | None => mret tt
  | Some update =>
    _ ← Apply.apply_update_package
          {| Apply.package_path := du_package_path update;
             Apply.install_dir := worker_install_dir config;
             Apply.service_name := worker_service_name config;
             Apply.target_version := Some (du_version update) |};
    _ ← write_worker_version config (du_version update);
    ensure_worker_service_healthy config
  end.

Definition prepare_supervisor_apply_helper (supervisor_path : path) : M path :=
  let helper_dir := join update_root_dir SUPERVISOR_PRODUCT in
  _ ← create_dir_all helper_dir;
  let helper_path := helper_dir ++ [str "talos_supervisor.apply." ++ process_id] in
  _ ← ignore (remove_file helper_path);
  _ ← copy supervisor_path helper_path;
  _ ← read helper_path;
  _ ← set_mode helper_path 493;
  mret helper_path.

Definition helper_args (config : SupervisorConfig) (update : DownloadedUpdate) : list text :=
  [str "--apply"; str "--package"; display (du_package_path update);
   str "--install-dir"; display (supervisor_install_dir config);
   str "--service-name"; supervisor_service_name config;
   str "--target-version"; du_version update].

(** With systemd-run when it is there, so that the helper outlives the service; the helper
    that is spawned is recorded like a command. *)
Definition launch_supervisor_apply_helper (config : SupervisorConfig) (helper_path : path)
    (update : DownloadedUpdate) : M unit :=
  available ← command_available (str "systemd-run");
  if available : bool then
    status ← run_command
      ([str "systemd-run"; str "--quiet"; str "--collect"; str "--unit";
        str "talos-supervisor-apply-" ++ process_id; display helper_path] ++ helper_args config update);
    lift (ensure (success status) "systemd-run failed"%string)
  else
    _ ← run_command (display helper_path :: helper_args config update); mret tt.

Definition check_supervisor_update (config : SupervisorConfig) (base : text) : M bool :=
  update ← fetch_update config base SUPERVISOR_PRODUCT supervisor_arch CARGO_PKG_VERSION;
  match update with
  | None => mret false
  | Some update =>
    supervisor_path ← lift (ok_or current_exe "resolve current supervisor exe"%string);
    apply_helper_path ← prepare_supervisor_apply_helper supervisor_path;
    _ ← launch_supervisor_apply_helper config apply_helper_path update;
    mret true
  end.

Definition run_update_cycle (config : SupervisorConfig) : M unit :=
  match update_base_url config with
  | None => mret tt
  | Some base =>
    launched ← ok (check_supervisor_update config base);
    if default false launched then mret tt
    else ignore (check_worker_update config base)
  end.

(** ** The process *)

(** [u128::from(max + 1)] adds in 64 bits; the remainder of a division by zero panics. *)
Definition jitter_secs (nanos max : Z) : res anyhow Z :=
  if max =? 0 then Ok 0
  else if wrap_u64 (max + 1) =? 0 then Panic
  else Ok (nanos mod wrap_u64 (max + 1)).

(** The loop for [ticks] seconds, after which a shutdown is asked for; a shutdown in the
    middle of a cycle is not modelled. *)
Fixpoint run_loop (config : SupervisorConfig) (ticks : nat) (last_update_check last_health_check : Z) :
    M unit :=
  match ticks with
  | O => mret tt
  | S ticks =>
    _ ← sleep 1000;
    time ← now;
    last_update_check ← (if 1000 * update_interval config <=? time - last_update_check
                         then _ ← run_update_cycle config; now else mret last_update_check);
    time ← now;
    last_health_check ← (if 1000 * monitor_interval config <=? time - last_health_check
                         then _ ← ignore (ensure_worker_service_healthy config); now
                         else mret last_health_check);
    run_loop config ticks last_update_check last_health_check
  end.

Definition run_async (args : SupervisorArgs) (nanos : Z) (ticks : nat) : M unit :=
  config ← lift (from_args args);
  _ ← ignore (Apply.promote_pending_supervisor (supervisor_install_dir config));
  _ ← create_dir_all (worker_install_dir config);
  _ ← Apply.create_parent (worker_version_path config);
  _ ← ignore (ensure_worker_service_healthy config);
  startup_delay ← lift (jitter_secs nanos (startup_jitter_secs config));
  _ ← sleep (1000 * startup_delay);
  _ ← run_update_cycle config;
  _ ← ignore (ensure_worker_service_healthy config);
  if once config then mret tt else
  time ← now;
  run_loop config ticks time time.
End supervisor.
End Supervisor.
