(* ===== verification/UpdateSafety.v ===== *)
(** Only authorized packages are installed: theorems about the updates of the worker and of
    the supervisor ([Supervisor], [Apply], [Update]). *)

From stdpp Require Import gmap.
From S2P Require Import Prelude Bytes Text ApplianceConfig Machine Update Services Apply Supervisor.

Import Fs Machine Keeps Update UpdateFacts Services ServiceFacts Apply ApplyFacts Supervisor.

Local Open Scope Z_scope.

(** ** Paths and versions *)

(** What makes a package the one to install: a manifest under a signature of the embedded
    key, for this product, architecture, channel and ring, with a version newer than the
    current one, that gives the size and the digest of the package. *)
Record authorizes `{C : Crates} `{B : Build} (config : SupervisorConfig)
    (product arch current version : text) (package : list Z) (signed : SignedManifest) : Prop := {
  au_key : EMBEDDED_MANIFEST_PUBLIC_KEY_DER <> [];
  au_signature : exists signature, base64_decode (signature_b64 signed) = Some signature /\
    rsa_verify EMBEDDED_MANIFEST_PUBLIC_KEY_DER (manifest_bytes signed) signature = true;
  au_decoded : manifest_from_slice (manifest_bytes signed) = Some (manifest signed);
  au_product : Update.product (manifest signed) = product;
  au_arch : Update.arch (manifest signed) = arch;
  au_channel : Update.channel (manifest signed) = channel config;
  au_ring : Update.ring (manifest signed) = ring config;
  au_expected : exists ex, for_artifact product arch (channel config) (ring config) = Ok ex /\
    platform (manifest signed) = ex_platform ex /\
    install_mode (manifest signed) = ex_install_mode ex /\
    file_name (Update.package (manifest signed)) = ex_package_file_name ex;
  au_version : Update.version (manifest signed) = version;
  au_newer : is_update_newer current version = Ok true;
  au_size : len package = size_bytes (Update.package (manifest signed)) /\ package <> [];
  au_digest : Update.eq_ignore_ascii_case (sha256 (Update.package (manifest signed)))
                (sha256_hex_bytes package) = true }.

Section contents.
Context {C : Crates} {A : Archives} {P : Process} {B : Build}.
Context {SM : ServiceManager} {SL : ServiceManagerLaws SM}.

(** The version an update of the worker has to be newer than. *)
Definition version_in_place (config : SupervisorConfig) (m : Machine) : text :=
  match (resolve_worker_exe (worker_install_dir config) m).2, (current_worker_version config m).2 with
  | Ok (Some _), Ok (Some version) => version
  | _, _ => str "0.0.0"
  end.

(** A content, or the beginning of one, that was in the installation. *)
Definition old_content (install : path) (t : tree) (c : list Z) : Prop :=
  exists r f k, file_at t (install ++ r) = Some f /\ c = take k (content f).

(** A member, or the beginning of one, of an authorized package. *)
Definition new_content (config : SupervisorConfig) (current : text) (c : list Z) : Prop :=
  exists version package signed entries e k,
    authorizes config WORKER_PRODUCT (worker_arch config) current version package signed /\
    ZipArchive_new package = Some entries /\ Some e ∈ entries /\ c = take k (entry_bytes e).

(** The installation of the worker is apart from the files the supervisor keeps itself. *)
Record apart (config : SupervisorConfig) : Prop := {
  ap_updates r : strip_base (worker_install_dir config) (update_root_dir ++ r) = None;
  ap_version : strip_base (worker_install_dir config) (worker_version_path config) = None;
  ap_services r : ~ service_area (worker_install_dir config ++ r);
  ap_arch : 47 ∉ worker_arch config }.
End contents.

Section paths.
Lemma drop_while_elem p c t : c ∈ t -> p c = false -> c ∈ drop_while p t.
Proof.
  intros Hin Hc. induction t as [|d t IH]; [done|]. cbn. case_match eqn:Hd; [|done].
  apply IH. apply elem_of_cons in Hin as [->|]; [congruence|done].
Qed.

Lemma trim_elem c t : c ∈ t -> is_whitespace c = false -> c ∈ trim t.
Proof.
  intros Hin Hc. unfold trim, trim_by, trim_end_by. apply elem_of_reverse.
  apply drop_while_elem; [|done]. apply elem_of_reverse. by apply drop_while_elem.
Qed.

Lemma split_on_absent c t : c ∉ t -> split_on c t = [t].
Proof. intros H. apply split_on_none, Forall_forall. by intros d Hd ->. Qed.

(** A component that stays one component in a longer path. *)
Definition is_component (c : text) : Prop := (c <> [] /\ c <> str ".") /\ 47 ∉ c.

Lemma from_text_component c : is_component c -> from_text c = [c].
Proof. intros [Hc Hs]. unfold from_text. rewrite split_on_absent by done. by rewrite filter_cons_True. Qed.

Lemma split_on_extend c t u w ws :
  c ∉ t -> split_on c u = w :: ws -> split_on c (t ++ u) = (t ++ w) :: ws.
Proof.
  intros Ht Hu. induction t as [|d t IH]; [done|]. apply not_elem_of_cons in Ht as [Hd Ht].
  cbn. rewrite (IH Ht). destruct (Z.eqb_spec d c); [congruence|done].
Qed.

Lemma split_on_display p : Forall is_component p -> split_on 47 (concat (map (cons 47) p)) = [] :: p.
Proof.
  induction 1 as [|c p [_ Hc] _ IH]; [done|]. cbn [map concat]. cbn [split_on app].
  rewrite (split_on_extend 47 c _ [] p Hc IH), app_nil_r. done.
Qed.

Lemma filter_components p :
  Forall is_component p -> filter (fun c => c <> [] /\ c <> str ".") p = p.
Proof. induction 1 as [|c p [Hc _] _ IH]; [done|]. rewrite filter_cons_True by done. f_equal. exact IH. Qed.

(** A path that is printed as an argument is read back. *)
Lemma from_text_display p : Forall is_component p -> from_text (display p) = p.
Proof.
  intros Hp. unfold from_text, display. destruct p as [|c p]; [done|].
  rewrite split_on_display by done. rewrite filter_cons_False by (by intros [? _]). by apply filter_components.
Qed.

Lemma split_on_pieces c t : Forall (fun w => c ∉ w) (split_on c t).
Proof.
  induction t as [|d t IH]; cbn; [by repeat constructor; apply not_elem_of_nil|].
  destruct (split_on c t) as [|w ws]; [done|]. destruct (Z.eqb_spec d c) as [|Hd].
  - constructor; [apply not_elem_of_nil|done].
  - inversion IH; subst. constructor; [|done]. by apply not_elem_of_cons.
Qed.

Lemma from_text_components t : Forall is_component (from_text t).
Proof.
  apply Forall_forall. intros c [Hc Hin]%list_elem_of_filter. split; [done|].
  by apply (proj1 (Forall_forall _ _) (split_on_pieces 47 t)).
Qed.

Lemma join_component p c : is_component c -> join p c = p ++ [c].
Proof.
  intros Hc. unfold join. rewrite (from_text_component c Hc). case_match eqn:Hs; [|done].
  destruct Hc as [[Hne _] H47]. destruct c as [|d c]; [done|]. exfalso. apply H47.
  unfold starts_with in Hs. cbn [strip_prefix] in Hs. destruct (Z.eqb_spec 47 d) as [<-|]; [left|done].
Qed.
End paths.

Section authorized.
Context {C : Crates} {CL : CratesLaws C} {A : Archives} {P : Process}.
Context {SM : ServiceManager} {SL : ServiceManagerLaws SM} {B : Build}.

Lemma version_no_slash current v : is_update_newer current v = Ok true -> 47 ∉ v.
Proof.
  unfold is_update_newer, normalize_semver. intros H Hin. run_inv.
  apply (trim_elem 47) in Hin; [|done].
  match goal with H : Version_parse (default (trim v) _) = _ |- _ => apply version_characters in H as Hc end.
  assert (47 ∈ default (trim v) (strip_prefix (str "v") (trim v))) as Hd.
  { destruct (strip_prefix (str "v") (trim v)) as [r|] eqn:E; [|done]. apply strip_prefix_inv in E.
    rewrite E in Hin. cbn. apply elem_of_cons in Hin as [[=]|]; done. }
  apply (proj1 (Forall_forall _ _) Hc) in Hd. by destruct Hd as [|[|[|]]].
Qed.

Lemma update_root_components : Forall is_component update_root_dir.
Proof.
  unfold update_root_dir, env_path. destruct (env_string _) as [t|]; [apply from_text_components|].
  repeat constructor; by_evaluation.
Qed.

Lemma package_component current product arch v :
  is_update_newer current v = Ok true -> is_component product -> 47 ∉ arch ->
  is_component (product ++ str "-" ++ arch ++ str "-" ++ v ++ str ".zip").
Proof.
  intros Hv [[Hp1 Hp2] Hp3] Ha. split; [split|].
  - by destruct product.
  - intros Ht. apply (f_equal length) in Ht. rewrite !length_app in Ht. cbn in Ht.
    destruct product; [done|]. cbn in Ht. lia.
  - rewrite !not_elem_of_app. split_and!; try done; try by_evaluation.
    apply (version_no_slash current v Hv).
Qed.

(** The package of an accepted version has a name of its own in the update directory. *)
Lemma download_path_shape current product arch v :
  is_update_newer current v = Ok true -> is_component product -> 47 ∉ arch ->
  update_download_path product arch v =
  update_root_dir ++ [product; product ++ str "-" ++ arch ++ str "-" ++ v ++ str ".zip"].
Proof.
  intros Hv Hp Ha. unfold update_download_path. rewrite (join_component _ product) by done.
  rewrite join_component, <- app_assoc; [done|]. by apply (package_component current).
Qed.

(** ** Retries *)

Lemma wp_with_retry {R} T (request : M R) Q attempts delay m :
  (forall m, T (files m) -> wp request Q (fun m' => T (files m')) False m) ->
  (0 < attempts)%nat -> T (files m) ->
  wp (with_retry request attempts delay) Q (fun m' => T (files m')) False m.
Proof.
  intros Hreq. revert delay m; induction attempts as [|n IH]; intros delay m Hn Hm; [lia|].
  specialize (Hreq m Hm). unfold wp in Hreq |- *. cbn [with_retry].
  destruct (request m) as [m' [a|e| |]]; try done. case_bool_decide; [done|].
  specialize (IH (saturating_mul u64_max delay 2) (set_clock (clock m' + delay) m')).
  unfold wp in IH. apply IH; [lia|done].
Qed.

(** ** The checks *)

Lemma for_artifact_safe product arch channel ring : safe (for_artifact product arch channel ring).
Proof.
  unfold for_artifact, artifact_platform, product_label, artifact_install_mode.
  repeat (apply bind_safe; [by repeat case_match|intros ? _]). done.
Qed.

Lemma for_artifact_inv product arch channel ring ex :
  for_artifact product arch channel ring = Ok ex ->
  ex_product ex = product /\ ex_arch ex = arch /\ ex_channel ex = channel /\ ex_ring ex = ring.
Proof. unfold for_artifact. intros H. run_inv. by simplify_eq/=. Qed.

Lemma validate_manifest_context_safe m ex : safe (validate_manifest_context m ex).
Proof.
  unfold validate_manifest_context, validate_package_size, validate_sha256. cbn [foldM].
  repeat first [apply ensure_safe|apply bind_safe; [|intros ? _]|done].
Qed.

Lemma validate_manifest_context_inv m ex :
  validate_manifest_context m ex = Ok tt ->
  (product m = ex_product ex /\ platform m = ex_platform ex /\ arch m = ex_arch ex) /\
  (Update.channel m = ex_channel ex /\ install_mode m = ex_install_mode ex /\
   file_name (package m) = ex_package_file_name ex /\ Update.ring m = ex_ring ex).
Proof.
  unfold validate_manifest_context. cbn [foldM]. intros H. run_inv.
  split_and!; by eapply bool_decide_eq_true_1.
Qed.

Lemma verify_manifest_signature_safe key bytes sig : safe (verify_manifest_signature key bytes sig).
Proof. repeat first [apply ensure_safe|apply ok_or_safe|apply bind_safe; [|intros ? _]]. Qed.

Lemma verify_manifest_signature_inv key bytes sig :
  verify_manifest_signature key bytes sig = Ok tt ->
  key <> [] /\ exists signature, base64_decode sig = Some signature /\ rsa_verify key bytes signature = true.
Proof.
  unfold verify_manifest_signature. intros H. run_inv. split; [|eauto].
  intros ->. by rewrite bool_decide_true in Hb.
Qed.

Lemma is_update_newer_safe a b : safe (is_update_newer a b).
Proof. unfold is_update_newer, normalize_semver. repeat (apply bind_safe; [apply ok_or_safe|intros ? _]). done. Qed.

Lemma verify_package_sha256_safe a b : safe (verify_package_sha256 a b).
Proof. repeat first [apply ensure_safe|apply bind_safe; [|intros ? _]]. Qed.

Lemma verify_package_inv package size digest :
  verify_package_size size (len package) = Ok tt ->
  verify_package_sha256 digest (sha256_hex_bytes package) = Ok tt ->
  (len package = size /\ package <> []) /\
  Update.eq_ignore_ascii_case digest (sha256_hex_bytes package) = true.
Proof.
  unfold verify_package_size, validate_package_size, verify_package_sha256. intros H1 H2. run_inv.
  split; [|done]. split; [lia|]. intros ->. rewrite len_nil in *. lia.
Qed.

(** ** The download *)

Section take.
Context (Del : path -> Prop) (Wr : path -> list Z -> Prop) (T : tree -> Prop) (HT : closed Del Wr T).
Context (config : SupervisorConfig) (base product arch current : text).
Context (Hpath : forall v, is_update_newer current v = Ok true ->
           Del (update_download_path product arch v) /\
           forall c, Wr (update_download_path product arch v) c).

(** The update that was taken is on disk and authorized. *)
Definition taken (r : option DownloadedUpdate) (t : tree) : Prop :=
  match r with
  | None => True
  | Some u => exists f signed, file_at t (du_package_path u) = Some f /\
      du_package_path u = update_download_path product arch (du_version u) /\
      authorizes config product arch current (du_version u) (content f) signed
  end.

Lemma wp_take_update signed m :
  manifest_from_slice (manifest_bytes signed) = Some (manifest signed) -> T (files m) ->
  wp (take_update config base product arch current signed)
    (fun r m' => T (files m') /\ taken r (files m')) (fun m' => T (files m')) False m.
Proof.
  intros Hdec Hm. unfold take_update.
  apply wp_bind, wp_lift_safe; [apply verify_manifest_signature_safe| |done].
  intros [] [Hkey Hsig]%verify_manifest_signature_inv.
  apply wp_bind, wp_lift_safe; [apply for_artifact_safe| |done]. intros ex Hex.
  destruct (for_artifact_inv _ _ _ _ _ Hex) as (Ep & Ea & Ec & Er).
  apply wp_bind, wp_lift_safe; [apply validate_manifest_context_safe| |done].
  intros [] [(H1 & H2 & H3) (H4 & H5 & H6 & H7)]%validate_manifest_context_inv.
  apply wp_bind, wp_lift_safe; [apply is_update_newer_safe| |done]. intros [] Hnew; [|by apply wp_ret].
  cbn [negb]. destruct (Hpath _ Hnew) as [Hd Hw]. apply wp_bind.
  eapply wp_mono; [apply (wp_with_retry T _ (fun _ m' => T (files m')))| |done|done]; [|unfold UPDATE_REQUEST_ATTEMPTS; lia|done|].
  { intros m0 Hm0. by apply (keeps_download_file Del Wr T). }
  intros [] m1 Hm1. apply wp_bind. unfold metadata_len. apply wp_bind, wp_read; [|by intros ? ->].
  intros f m2 Hf Hm2. apply wp_ret, wp_bind, wp_lift_safe; [apply verify_package_size_safe| |by rewrite Hm2].
  intros [] Hsize. apply wp_bind, wp_sha256_hex_file; [|by intros ? ->; rewrite Hm2].
  intros f' m3 Hf' Hm3. rewrite Hm2, Hf in Hf'. injection Hf' as <-.
  apply wp_bind, wp_lift_safe; [apply verify_package_sha256_safe| |by rewrite Hm3, Hm2].
  intros [] Hhash. apply wp_ret. split; [by rewrite Hm3, Hm2|]. exists f, signed. cbn.
  destruct (verify_package_inv _ _ _ Hsize Hhash) as [Hsz Hdig].
  split; [by rewrite Hm3, Hm2|]. split; [done|]. split; try done; try congruence. by exists ex.
Qed.

Lemma wp_fetch_update m :
  T (files m) ->
  wp (fetch_update config base product arch current)
    (fun r m' => T (files m') /\ taken r (files m')) (fun m' => T (files m')) False m.
Proof.
  intros Hm. unfold fetch_update. apply wp_bind.
  assert (keeps T (build_manifest_url config base product arch current)) as Hurl.
  { unfold build_manifest_url, rollout_seed. repeat keeps_step. }
  eapply wp_mono; [by apply Hurl| |done|done]. intros url m1 Hm1. apply wp_bind.
  eapply wp_mono; [apply (wp_with_retry T _ (fun r m' => T (files m') /\
    (forall signed, r = Signed signed -> manifest_from_slice (manifest_bytes signed) = Some (manifest signed))))
    | |done|done]; [|unfold UPDATE_REQUEST_ATTEMPTS; lia|done|].
  - intros m2 Hm2. pose proof (keeps_fetch_manifest T url m2 Hm2) as Hk.
    pose proof (fetch_manifest_decoded url m2) as Hdec. unfold wp in *.
    destruct (fetch_manifest url m2) as [m3 [r| | |]]; try done. split; [done|]. intros signed ->. by eapply Hdec.
  - intros [| |signed] m2 [Hm2 Hdec]; [by apply wp_ret|by apply wp_ret|]. apply wp_take_update; [by apply Hdec|done].
Qed.
End take.

(** ** The update of the worker *)

Lemma worker_component : is_component WORKER_PRODUCT.
Proof. split; [split; by_evaluation|by_evaluation]. Qed.
Lemma supervisor_component : is_component SUPERVISOR_PRODUCT.
Proof. split; [split; by_evaluation|by_evaluation]. Qed.

Section worker.
Context (config : SupervisorConfig) (base : text) (Hapart : apart config).
Context (Del : path -> Prop) (Wr : path -> list Z -> Prop) (T : tree -> Prop) (HT : closed Del Wr T).
Context (Hout : forall p, strip_base (worker_install_dir config) p = None -> Del p /\ forall c, Wr p c).

Lemma wp_attempt {X} (op : M X) (Q : option X -> Machine -> Prop) R F m :
  wp op (fun a m' => Q (Some a) m') (fun m' => Q None m') F m -> wp (ok op) Q R F m.
Proof. unfold wp, ok. by destruct (op m) as [m' []]. Qed.

Lemma current_worker_version_run m :
  wp (current_worker_version config) (fun _ m' => files m' = files m) (fun _ => False) False m.
Proof.
  unfold current_worker_version. case_match; [by apply wp_ret|]. apply wp_bind, wp_attempt.
  eapply wp_mono; [by apply (keeps_read_to_string (fun t => t = files m))| | |done].
  - intros a m' Hm'. by apply wp_ret.
  - intros m' Hm'. by apply wp_ret.
Qed.

Lemma version_in_place_run m m1 version :
  current_worker_version config m = (m1, Ok version) ->
  version_in_place config m =
  match List.find (exists_ (files m))
    (map (fun name => worker_install_dir config ++ [name]) [WORKER_EXE_NAME; LEGACY_WORKER_EXE_NAME]) with
  | None => str "0.0.0"
  | Some _ => default (str "0.0.0") version
  end.
Proof.
  intros H. unfold version_in_place. rewrite H. unfold resolve_worker_exe, mbind, method_bind, get, mret, method_ret.
  cbn [snd]. by destruct (List.find _ _), version.
Qed.

Lemma package_path_free current v :
  is_update_newer current v = Ok true ->
  Del (update_download_path WORKER_PRODUCT (worker_arch config) v) /\
  forall c, Wr (update_download_path WORKER_PRODUCT (worker_arch config) v) c.
Proof.
  intros Hv. rewrite (download_path_shape current) by (done || apply worker_component || apply Hapart).
  apply Hout, Hapart.
Qed.

Lemma keeps_ensure_healthy :
  (forall p c, service_area p -> Wr p c) -> keeps T (ensure_worker_service_healthy config).
Proof.
  intros Ha. unfold ensure_worker_service_healthy, resolve_worker_exe.
  assert (forall name, keeps T (start_service name)) as Hstart.
  { intros name m Hm. eapply wp_mono; [by eapply (wp_start_service _ _ _ name m HT)| |done|done].
    by intros [] m' [? _]. }
  repeat keeps_step; try apply keeps_platform; try apply Hstart.
  - by eapply keeps_service_state.
  - by eapply keeps_ensure_worker_service.
  - by eapply keeps_firewall.
  - by eapply keeps_stop_service.
Qed.

Lemma keeps_write_worker_version version : keeps T (write_worker_version config version).
Proof.
  unfold write_worker_version, create_parent. repeat keeps_step. eapply keeps_write; [done|].
  intros k. apply Hout, Hapart.
Qed.

Lemma wp_check_worker_update m :
  (forall u f signed m1, T (files m1) -> file_at (files m1) (du_package_path u) = Some f ->
     strip_base (worker_install_dir config) (du_package_path u) = None ->
     authorizes config WORKER_PRODUCT (worker_arch config) (version_in_place config m) (du_version u)
       (content f) signed ->
     wp (_ ← apply_update_package
               {| package_path := du_package_path u; install_dir := worker_install_dir config;
                  service_name := worker_service_name config;
                  target_version := Some (du_version u) |};
         _ ← write_worker_version config (du_version u);
         ensure_worker_service_healthy config)
       (fun _ m' => T (files m')) (fun m' => T (files m')) False m1) ->
  T (files m) ->
  wp (check_worker_update config base) (fun _ m' => T (files m')) (fun m' => T (files m')) False m.
Proof.
  intros Hafter Hm. unfold check_worker_update. apply wp_bind.
  pose proof (current_worker_version_run m) as Hv. unfold wp in Hv. unfold wp at 1.
  destruct (current_worker_version config m) as [m1 [version| | |]] eqn:Hrun; try done.
  rewrite (version_in_place_run m m1 version Hrun) in Hafter.
  apply wp_bind, wp_bind, wp_get, wp_ret. rewrite Hv. 
  match goal with |- context [fetch_update _ _ _ _ ?c] => set (current := c) in * end.
  apply wp_bind. unfold worker_arch_candidates. unfold wp at 1. cbn [select_update].
  pose proof (wp_fetch_update Del Wr T HT config base WORKER_PRODUCT (worker_arch config) current
    (package_path_free current) m1) as Hfetch.
  unfold wp at 1 in Hfetch. rewrite Hv in Hfetch. specialize (Hfetch Hm).
  destruct (fetch_update _ _ _ _ _ m1) as [m2 [[u|]|e| |]]; try done; [|by apply wp_ret; destruct Hfetch].
  destruct Hfetch as [Hm2 (f & signed & Hf & Hp & Hau)]. eapply Hafter; [done|done| |done].
  rewrite Hp, (download_path_shape current);
    [apply Hapart|apply Hau|apply worker_component|apply Hapart].
Qed.
End worker.

(** The contents the installation may have. *)
Definition accounted (config : SupervisorConfig) (m : Machine) (p : path) (c : list Z) : Prop :=
  forall r, p = worker_install_dir config ++ r ->
    old_content (worker_install_dir config) (files m) c \/
    new_content config (version_in_place config m) c.

Lemma accounted_take config m r r' k c :
  accounted config m (worker_install_dir config ++ r) c ->
  accounted config m (worker_install_dir config ++ r') (take k c).
Proof.
  intros Hc ? _. destruct (Hc r eq_refl) as [(q & f & j & Hf & ->)|H].
  - left. exists q, f, (Nat.min k j). by rewrite take_take.
  - right. destruct H as (v & pkg & sg & es & e & j & H1 & H2 & H3 & ->).
    exists v, pkg, sg, es, e, (Nat.min k j). by rewrite take_take.
Qed.

Lemma worker_update_accounted config base m :
  apart config ->
  wp (check_worker_update config base) (fun _ m' => sound (accounted config m) (files m'))
    (fun m' => sound (accounted config m) (files m')) False m.
Proof.
  intros Hapart. set (Wr := accounted config m). pose proof (sound_closed Wr) as HT.
  assert (forall p, strip_base (worker_install_dir config) p = None -> True /\ forall c, Wr p c) as Hout.
  { intros p Hp. split; [done|]. intros c r ->. exfalso.
    assert (strip_base (worker_install_dir config) (worker_install_dir config ++ r) = Some r) as E
      by by apply strip_base_app. congruence. }
  assert (forall p c, service_area p -> Wr p c) as Harea.
  { intros p c Hp r ->. by destruct (ap_services _ Hapart r). }
  apply (wp_check_worker_update config base Hapart (fun _ => True) Wr); [done|done| |].
  - intros u f signed m1 Hm1 Hf Hfree Hau. apply wp_bind. eapply wp_mono.
    + eapply (wp_apply_update_package (fun _ => True) Wr _ HT (worker_install_dir config));
        [done| |done|done|done|done| |done].
      * intros t g r r' k Ht Hg. by apply (accounted_take config m r), Ht.
      * intros entries e r k Hz He r' _. right. by exists (du_version u), (content f), signed, entries, e, k.
    + intros [] m2 Hm2. apply wp_bind.
      eapply wp_mono; [by apply (keeps_write_worker_version config Hapart (fun _ => True) Wr)| |done|done].
      intros [] m3 Hm3. by eapply keeps_ensure_healthy.
    + done.
    + done.
  - intros p f Hf r ->. left. exists r, f, (length (content f)). by rewrite firstn_all.
Qed.

Lemma worker_update_refused config base m :
  apart config ->
  (forall version package signed,
     ~ authorizes config WORKER_PRODUCT (worker_arch config) (version_in_place config m) version package signed) ->
  wp (check_worker_update config base)
    (fun _ m' => agree (fun p => strip_base (worker_install_dir config) p = None) (files m) (files m'))
    (fun m' => agree (fun p => strip_base (worker_install_dir config) p = None) (files m) (files m')) False m.
Proof.
  intros Hapart Hno. apply (wp_check_worker_update config base Hapart _ _ _ (agree_closed _ (files m))).
  - done.
  - intros u f signed m1 _ _ _ Hau. by destruct (Hno _ _ _ Hau).
  - by intros p _.
Qed.

(** C11. Whatever the update server, the network, the disk and the service manager answer, the
    update of the worker returns without a panic, and every file it leaves in the
    installation has a content that was there before or is a member of a package that a
    manifest authorizes: signed with the embedded key, for this product, architecture,
    channel and ring, newer than the version in place, and with the size and the SHA-256 of
    the package (an interrupted copy can be cut off).  When no package is authorized, no
    file of the installation changes. *)
Theorem only_authorized_files config base m m' r :
  apart config -> check_worker_update config base m = (m', r) ->
  safe r /\
  (forall p f, file_at (files m') (worker_install_dir config ++ p) = Some f ->
     old_content (worker_install_dir config) (files m) (content f) \/
     new_content config (version_in_place config m) (content f)) /\
  ((forall version package signed,
      ~ authorizes config WORKER_PRODUCT (worker_arch config) (version_in_place config m) version package signed) ->
   forall p, file_at (files m') (worker_install_dir config ++ p) =
             file_at (files m) (worker_install_dir config ++ p)).
Proof.
  intros Hapart Hrun. pose proof (worker_update_accounted config base m Hapart) as H1.
  pose proof (worker_update_refused config base m Hapart) as H2. unfold wp in H1, H2. rewrite Hrun in H1, H2.
  assert (safe r /\ sound (accounted config m) (files m')) as [Hs Ha] by by destruct r.
  split; [done|]. split; [intros p f Hf; exact (Ha _ f Hf p eq_refl)|].
  intros Hno p. specialize (H2 Hno).
  assert (agree (fun p => strip_base (worker_install_dir config) p = None) (files m) (files m')) as Hag
    by by destruct r.
  apply Hag. intros E. by rewrite (proj2 (strip_base_app _ _ p) eq_refl) in E.
Qed.

(** ** The update of the supervisor *)

Lemma supervisor_arch_no_slash : 47 ∉ supervisor_arch.
Proof.
  unfold supervisor_arch, linux_arch, is_one_of. cbn [existsb]. repeat case_bool_decide; by_evaluation.
Qed.

Lemma parse_helper_args a b c d :
  Apply.parse [str "--apply"; str "--package"; a; str "--install-dir"; b; str "--service-name"; c;
               str "--target-version"; d] =
  Ok {| package_path := from_text a; install_dir := from_text b; service_name := c;
        target_version := nonempty d |}.
Proof. reflexivity. Qed.

Lemma helper_args_parsed config u :
  Forall is_component (supervisor_install_dir config) -> Forall is_component (du_package_path u) ->
  is_apply_invocation (helper_args config u) = true /\
  Apply.parse (helper_args config u) =
  Ok {| package_path := du_package_path u; install_dir := supervisor_install_dir config;
        service_name := supervisor_service_name config; target_version := nonempty (du_version u) |}.
Proof.
  intros Hi Hp. split; [done|]. unfold helper_args. rewrite parse_helper_args.
  by rewrite !from_text_display.
Qed.

(** The helper: a copy of the supervisor under a name of its own. *)
Definition helper_path : path :=
  update_root_dir ++ [SUPERVISOR_PRODUCT; str "talos_supervisor.apply." ++ process_id].

Lemma wp_prepare_helper exe t m :
  agree (fun p => p = helper_path) t (files m) ->
  wp (prepare_supervisor_apply_helper exe)
    (fun _ m' => agree (fun p => p = helper_path) t (files m'))
    (fun m' => agree (fun p => p = helper_path) t (files m')) False m.
Proof.
  intros Hm. set (W p := p = helper_path). pose proof (agree_closed W t) as HT.
  assert (keeps (agree W t) (prepare_supervisor_apply_helper exe)) as Hk; [|by apply Hk].
  unfold prepare_supervisor_apply_helper. rewrite (join_component _ _ supervisor_component), <- app_assoc.
  repeat keeps_step; [done|by eapply keeps_copy|by eapply keeps_set_mode].
Qed.

Lemma wp_launch_helper config exe u T m :
  T (files m) ->
  wp (launch_supervisor_apply_helper config exe u)
    (fun _ m' => T (files m') /\ exists before output,
       last (commands m') = Some (before ++ helper_args config u, Some output))
    (fun m' => T (files m')) False m.
Proof.
  intros Hm. unfold launch_supervisor_apply_helper. apply wp_bind.
  assert (keeps T (command_available (str "systemd-run"))) as Hc.
  { unfold command_available, path_is_file. repeat keeps_step. }
  eapply wp_mono; [by apply Hc| |done|done]. intros b m1 Hm1. destruct b.
  - apply wp_bind, wp_run_command; [|by intros ? ->]. intros o m2 Hf _ Hlast.
    apply wp_lift_safe; [apply ensure_safe| |by rewrite Hf]. intros _ _. rewrite Hf. eauto.
  - apply wp_bind, wp_run_command; [|by intros ? ->]. intros o m2 Hf _ Hlast.
    apply wp_ret. rewrite Hf. split; [done|]. by exists [display exe], o.
Qed.

Lemma package_not_helper u :
  is_update_newer CARGO_PKG_VERSION (du_version u) = Ok true ->
  du_package_path u = update_download_path SUPERVISOR_PRODUCT supervisor_arch (du_version u) ->
  Forall is_component (du_package_path u) /\ du_package_path u <> helper_path.
Proof.
  intros Hnew ->. pose proof supervisor_arch_no_slash as Ha.
  rewrite (download_path_shape _ _ _ _ Hnew supervisor_component Ha). split.
  - apply Forall_app. split; [apply update_root_components|]. constructor; [apply supervisor_component|].
    constructor; [|done]. by apply (package_component CARGO_PKG_VERSION); [|apply supervisor_component|].
  - unfold helper_path. intros [= H]%(app_inv_head update_root_dir).
Qed.

Lemma wp_check_supervisor_update config base m :
  wp (check_supervisor_update config base)
    (fun b m' => b = true -> exists u f signed before output,
       last (commands m') = Some (before ++ helper_args config u, Some output) /\
       file_at (files m') (du_package_path u) = Some f /\ Forall is_component (du_package_path u) /\
       authorizes config SUPERVISOR_PRODUCT supervisor_arch CARGO_PKG_VERSION (du_version u) (content f) signed)
    (fun _ => True) False m.
Proof.
  unfold check_supervisor_update. apply wp_bind.
  eapply wp_mono; [apply (wp_fetch_update (fun _ => True) (fun _ _ => True) (fun _ => True))| |done|done];
    [done|done|done|].
  intros [u|] m1 [_ Htaken]; [|by apply wp_ret]. destruct Htaken as (f & signed & Hf & Hp & Hau).
  destruct (package_not_helper u (au_newer _ _ _ _ _ _ _ Hau) Hp) as [Hc Hne].
  apply wp_bind, wp_lift_safe; [apply ok_or_safe| |done]. intros exe _. apply wp_bind.
  eapply wp_mono; [apply (wp_prepare_helper exe (files m1)); by intros p _| |done|done].
  intros helper m2 Hm2. apply wp_bind.
  eapply wp_mono; [by apply (wp_launch_helper config helper u _ m2 Hm2)| |done|done].
  intros [] m3 [Hm3 (before & output & Hlast)]. apply wp_ret. intros _.
  exists u, f, signed, before, output. split_and!; [done| |done|done]. by rewrite Hm3.
Qed.

(** C13. The update of the supervisor returns without a panic whatever happens, and it reports
    that it was launched only after it ran the helper with arguments that the helper reads
    back as exactly this: install, into the directory of the supervisor and for its service,
    the package at a path where there is a package that a manifest authorizes. *)
Theorem helper_gets_authorized_package config base m m' r :
  Forall is_component (supervisor_install_dir config) ->
  check_supervisor_update config base m = (m', r) ->
  safe r /\
  (r = Ok true -> exists u f signed before output,
     last (commands m') = Some (before ++ helper_args config u, Some output) /\
     is_apply_invocation (helper_args config u) = true /\
     Apply.parse (helper_args config u) =
       Ok {| package_path := du_package_path u; install_dir := supervisor_install_dir config;
             service_name := supervisor_service_name config; target_version := nonempty (du_version u) |} /\
     file_at (files m') (du_package_path u) = Some f /\
     authorizes config SUPERVISOR_PRODUCT supervisor_arch CARGO_PKG_VERSION (du_version u) (content f) signed).
Proof.
  intros Hdir Hrun. pose proof (wp_check_supervisor_update config base m) as H. unfold wp in H.
  rewrite Hrun in H. destruct r as [b| | |]; try done. split; [done|]. intros [= ->].
  destruct (H eq_refl) as (u & f & signed & before & output & Hlast & Hf & Hp & Hau).
  exists u, f, signed, before, output. split; [done|].
  destruct (helper_args_parsed config u Hdir Hp) as [Hi Hparse]. done.
Qed.
End authorized.

(** ** A sample

    A worker of version 1.1.0, an update server with version 1.2.0, and a systemd that does
    as it is told. *)

Module SampleUpdate.
Definition version_char (c : Z) : bool :=
  is_ascii_alphanumeric c || (c =? 45) || (c =? 46) || (c =? 43).

Fixpoint text_ltb (a b : text) : bool :=
  match a, b with
  | _, [] => false
  | [], _ :: _ => true
  | c :: a, d :: b => (c <? d) || ((c =? d) && text_ltb a b)
  end.

Definition package_bytes : list Z := [1; 2; 3].
Definition digest (h : list Z) : list Z := replicate 32 (foldr Z.add 0 h mod 256).

Definition sample_manifest : UpdateManifest :=
  {| product := str "worker"; platform := str "linux"; arch := str "linux-x64";
     Update.channel := str "stable"; Update.ring := None; version := str "1.2.0";
     minimum_supported_version := None; severity := str "normal"; published_at_utc := str "2026-01-01";
     rollout_percentage := None;
     package := {| file_name := str "Talos.Worker.linux-x64.Update.zip"; size_bytes := 3;
                   sha256 := hex_lower (digest package_bytes) |};
     contents := []; requires_restart := true; install_mode := str "silent" |}.
Definition sample_supervisor_manifest : UpdateManifest :=
  {| product := str "supervisor"; platform := str "linux"; arch := str "linux-x64";
     Update.channel := str "stable"; Update.ring := None; version := str "1.2.0";
     minimum_supported_version := None; severity := str "normal"; published_at_utc := str "2026-01-01";
     rollout_percentage := None;
     package := {| file_name := str "Talos.Supervisor.linux-x64.Update.zip"; size_bytes := 3;
                   sha256 := hex_lower (digest package_bytes) |};
     contents := []; requires_restart := true; install_mode := str "silent" |}.

Instance crates : Crates := {|
  Version := text;
  Version_parse t := if forallb version_char t then Some t else None;
  Version_gt a b := text_ltb b a;
  base64_decode := Some;
  rsa_verify key message signature := bool_decide (signature = key ++ message);
  Hasher := list Z;
  Sha256_new := [];
  Sha256_update h bytes := h ++ bytes;
  Sha256_finalize := digest;
  manifest_from_slice bytes :=
    if bool_decide (bytes = str "worker") then Some sample_manifest
    else if bool_decide (bytes = str "supervisor") then Some sample_supervisor_manifest else None;
  Url_parse _ := None |}.

Instance crates_laws : CratesLaws crates.
Proof.
  split.
  - intros t v H. cbn in H. case_match eqn:E; [|done]. apply Forall_forall. intros c Hc.
    rewrite forallb_forall in E. specialize (E c (proj1 (list_elem_of_In _ _) Hc)). unfold version_char in E.
    rewrite !orb_true_iff, !Z.eqb_eq in E. tauto.
  - intros h. apply app_nil_r.
  - intros h a b. symmetry. apply app_assoc.
Qed.

Instance archives : Archives := {|
  ZipArchive_new bytes :=
    if bool_decide (bytes = package_bytes)
    then Some [Some {| mangled_name := [str "talos_worker"]; entry_is_dir := false;
                       entry_bytes := [7; 7]; entry_broken := false |}]
    else None;
  walk_order l := l |}.

Instance archives_laws : ArchivesLaws archives.
Proof.
  split; [|done]. intros bytes entries e. cbn. case_match; [|done]. intros [= <-] Hin.
  apply list_elem_of_singleton in Hin. injection Hin as ->. repeat constructor; by_evaluation.
Qed.

Instance process : Process := {|
  env_var name := if bool_decide (name = str "PATH") then Some (str "/usr/bin") else None;
  current_exe := Some [str "opt"; str "talos"; str "supervisor"; str "talos_supervisor"];
  process_id := str "7" |}.

Instance build : Build := {|
  CARGO_PKG_VERSION := str "1.0.0"; EMBEDDED_MANIFEST_PUBLIC_KEY_DER := [64]; target_arch := str "x86_64" |}.

Definition worker_dir : path := [str "opt"; str "talos"; str "worker"].
Definition supervisor_dir : path := [str "opt"; str "talos"; str "supervisor"].

Definition config : SupervisorConfig :=
  {| update_base_url := Some (str "https://updates/rmm/updates"); channel := str "stable"; ring := None;
     worker_arch := linux_arch; worker_install_dir := worker_dir; worker_environment_file := None;
     worker_version_path := default_worker_version_path; worker_service_name := WORKER_SERVICE_NAME;
     supervisor_service_name := SUPERVISOR_SERVICE_NAME; supervisor_install_dir := supervisor_dir;
     startup_jitter_secs := 0; update_interval := 60; monitor_interval := 60; once := true |}.

Definition a_file (bytes : list Z) : node := File {| content := bytes; mode := 493 |}.

Definition dirs : list path :=
  [[str "opt"]; [str "opt"; str "talos"]; worker_dir; supervisor_dir; [str "var"]; [str "var"; str "lib"];
   [str "var"; str "lib"; str "talos"]; [str "run"]; [str "run"; str "systemd"];
   [str "run"; str "systemd"; str "system"]; [str "usr"]; [str "usr"; str "bin"]].

Definition sample_files : tree :=
  <[worker_dir ++ [str "talos_worker"] := a_file [1]]>
  (<[supervisor_dir ++ [str "talos_supervisor"] := a_file [2]]>
  (<[default_worker_version_path := a_file (utf8 (str "1.1.0"))]>
  (<[[str "usr"; str "bin"; str "systemctl"] := a_file []]>
  (list_to_map (map (fun d => (d, Dir)) dirs))))).

Definition answer (name : string) (bytes : list Z) : option Response :=
  Some {| status := 200; content_length := None;
          header h := if bool_decide (h = MANIFEST_SIGNATURE_HEADER) then Some (str ("@" ++ name)) else None;
          chunks := [Some bytes] |}.
Definition says (t : string) : option Output :=
  Some {| success := true; stdout := utf8 (str t); elapsed := 5 |}.

Definition machine (name : string) (outputs : list (option Output)) : Machine :=
  {| files := sample_files; faults := []; answers := [answer name (str name); answer name package_bytes];
     requests := []; outputs := outputs; commands := []; clock := 0 |}.

Definition stopped : list (option Output) := [says ""; says "loaded"; says "inactive"].
Definition started : list (option Output) := [says ""; says "loaded"; says "active"].

Definition worker_machine : Machine :=
  machine "worker" ([says "loaded"] ++ stopped ++ started ++ [says "loaded"; says "active"; says ""; says ""] ++
    stopped ++ started).
Definition supervisor_machine : Machine := machine "supervisor" [says ""].
End SampleUpdate.

Section witnesses.
Import SampleUpdate.

Definition worker_run : Machine * res anyhow unit :=
  check_worker_update config (str "https://updates/rmm/updates") worker_machine.
Definition supervisor_run : Machine * res anyhow bool :=
  check_supervisor_update config (str "https://updates/rmm/updates") supervisor_machine.

Lemma sample_apart : apart config.
Proof.
  split; [done|done| |by_evaluation]. intros r [unit H]. done.
Qed.

(** The worker is updated: its file is the member of the package, and it was authorized. *)
Lemma only_authorized_files_witness :
  worker_run.2 = Ok tt /\
  file_at (files worker_run.1) (worker_dir ++ [str "talos_worker"]) = Some {| content := [7; 7]; mode := 493 |} /\
  (old_content worker_dir (files worker_machine) [7; 7] \/
   new_content config (version_in_place config worker_machine) [7; 7]).
Proof.
  assert (file_at (files worker_run.1) (worker_dir ++ [str "talos_worker"]) =
          Some {| content := [7; 7]; mode := 493 |}) as Hf by (vm_compute; reflexivity).
  split; [vm_compute; reflexivity|]. split; [exact Hf|].
  destruct (only_authorized_files config (str "https://updates/rmm/updates") worker_machine
    worker_run.1 worker_run.2 sample_apart (surjective_pairing worker_run)) as (_ & Hnew & _).
  exact (Hnew [str "talos_worker"] {| content := [7; 7]; mode := 493 |} Hf).
Defined.

(** The helper is launched, with the package that was downloaded. *)
Lemma helper_gets_authorized_package_witness :
  supervisor_run.2 = Ok true /\
  exists u f signed, file_at (files supervisor_run.1) (du_package_path u) = Some f /\
    authorizes config SUPERVISOR_PRODUCT supervisor_arch CARGO_PKG_VERSION (du_version u) (content f) signed.
Proof.
  assert (supervisor_run.2 = Ok true) as Hr by (vm_compute; reflexivity).
  split; [exact Hr|].
  destruct (helper_gets_authorized_package config (str "https://updates/rmm/updates") supervisor_machine
    supervisor_run.1 supervisor_run.2) as [_ H].
  - repeat constructor; by_evaluation.
  - exact (surjective_pairing supervisor_run).
  - destruct (H Hr) as (u & f & signed & _ & _ & _ & _ & _ & Hf & Hau).
    exists u, f, signed. split; [exact Hf|exact Hau].
Defined.
End witnesses.
