(* ===== verification/UpdateInstall.v ===== *)
(** The replacement of the installed files ([Apply.replace_directory_contents]): a file is the
    old one or the new one, and while it is replaced the old one is kept; and what a
    supervisor that was left for the next start comes to. *)

From stdpp Require Import gmap.
From S2P Require Import Prelude Bytes Text Machine Update Services Apply Supervisor UpdateSafety.

Import Fs Machine Keeps Update UpdateFacts Services ServiceFacts Apply ApplyFacts Supervisor.

Local Open Scope Z_scope.

(** The name under which a file is kept while it is replaced, and the paths the replacement
    of the file at [install ++ r] may touch. *)
Definition backup_of (install r : path) : path :=
  match path_name r with
  | Some name => if is_supervisor_self_file name then supervisor_backup_path install name
                 else with_extension (install ++ r) (str "previous")
  | None => install ++ r
  end.

Definition touched (install r : path) : list path :=
  [install ++ r; backup_of install r; pending_supervisor_path install (default [] (path_name r))].

(** The supervisor that runs the update is not replaced but left for the next start. *)
Definition left_pending `{Process} (install r : path) : bool :=
  match path_name r with
  | Some name => is_supervisor_self_file name && running_from_path (install ++ r)
  | None => false
  end.

Section steps.
Implicit Types (Q : unit -> Machine -> Prop) (R : Machine -> Prop) (X : Prop) (m : Machine).

Lemma wp_create_parent p Q R X m :
  (forall m', (forall q, file_at (files m') q = file_at (files m) q) -> Q tt m') ->
  (forall m', (forall q, file_at (files m') q = file_at (files m) q) -> R m') ->
  wp (create_parent p) Q R X m.
Proof.
  intros HQ HR. unfold create_parent. destruct (parent p) as [d|]; [|by apply HQ].
  apply wp_operation.
  - intros t Ht. apply HQ. intros q. by eapply make_dirs_files.
  - by apply HR.
  - intros k t Ht. apply HR. intros q. by eapply make_dirs_files.
Qed.

Lemma wp_ignore_remove b Q R X m :
  (forall m', (forall q, q <> b -> file_at (files m') q = file_at (files m) q) -> Q tt m') ->
  wp (ignore (remove_file b)) Q R X m.
Proof.
  intros HQ. unfold ignore. apply wp_bind, wp_attempt, wp_operation.
  - intros t Ht. apply wp_ret, HQ. intros q Hq. case_match; [|done]. simplify_eq. cbn.
    rewrite file_at_delete. by case_decide.
  - apply wp_ret, HQ. done.
  - intros k t [= <-]. by apply wp_ret, HQ.
Qed.

Lemma wp_rename a b Q R X m :
  (forall m', (forall f, file_at (files m) a = Some f -> file_at (files m') b = Some f) ->
     agree (fun p => is_Some (strip_base a p) \/ is_Some (strip_base b p)) (files m) (files m') -> Q tt m') ->
  (forall m', files m' = files m -> R m') -> wp (rename a b) Q R X m.
Proof.
  intros HQ HR. set (W p := is_Some (strip_base a p) \/ is_Some (strip_base b p)).
  pose proof (keeps_rename W (fun p _ => W p) (agree W (files m)) (agree_closed W (files m)) a b) as Hk.
  assert (keeps (agree W (files m)) (rename a b)) as Hag.
  { apply Hk; [|intros t f r _ _]; [intros r; left|right]; apply below_dec; by exists r. }
  specialize (Hag m ltac:(by intros p _)).
  assert (wp (rename a b) (fun _ m' => forall f, file_at (files m) a = Some f -> file_at (files m') b = Some f)
            (fun m' => files m' = files m) False m) as Hf.
  { apply wp_operation; [|done|by intros k t [= <-]]. intros t Ht f Hf. unfold renamed, file_at in Ht, Hf.
    destruct (files m !! a) as [[g|]|]; simplify_eq. apply set_file_inv in Ht as [_ ->]. cbn.
    rewrite file_at_insert. by case_decide. }
  unfold wp in *. destruct (rename a b m) as [m' [[]| | |]]; try done; auto.
Qed.

Lemma wp_copy a b g Q R X m :
  file_at (files m) a = Some g ->
  (forall m', file_at (files m') b = Some g -> (forall q, q <> b -> file_at (files m') q = file_at (files m) q) ->
     Q tt m') ->
  (forall m', (forall q, q <> b -> file_at (files m') q = file_at (files m) q) -> R m') ->
  wp (copy a b) Q R X m.
Proof.
  intros Hg HQ HR. unfold copy. apply wp_operation; rewrite ?Hg.
  - intros t [_ ->]%set_file_inv. apply HQ; cbn; intros; rewrite file_at_insert; by case_decide.
  - by apply HR.
  - intros [|k] t; cbn; [intros [= <-]; by apply HR|]. intros [_ ->]%set_file_inv.
    apply HR. intros q Hq. cbn. rewrite file_at_insert. by case_decide.
Qed.
End steps.

Section entry.
Context {A : Archives} {P : Process}.
Implicit Types (m : Machine).

(** The new content is at [p]; the file [f] is at [p] or at [b]. *)
Definition installed (g : file) (p : path) (t : tree) : Prop :=
  exists f, file_at t p = Some f /\ content f = content g.
Definition kept (f : file) (p b : path) (t : tree) : Prop :=
  file_at t p = Some f \/ file_at t b = Some f.

Lemma wp_permissions g p (R : Machine -> Prop) m :
  (forall m', files m' = files m -> R m') -> installed g p (files m) ->
  wp (apply_platform_file_permissions p)
    (fun _ m' => installed g p (files m') /\ forall q, q <> p -> file_at (files m') q = file_at (files m) q)
    R False m.
Proof.
  intros HR Hg. unfold apply_platform_file_permissions. case_match; [|by apply wp_ret].
  case_match; [|by apply wp_ret]. apply wp_bind, wp_read; [|done].
  intros f m1 Hf Hm1. unfold set_mode. apply wp_operation.
  - rewrite Hm1, Hf. intros t0 [= <-]. split; [|intros q Hq; cbn; rewrite file_at_insert; by case_decide].
    destruct Hg as (f' & Hf' & Hc). simplify_eq. eexists. cbn. rewrite file_at_insert.
    case_decide; [|done]. split; [done|]. by cbn.
  - apply HR. cbn. by rewrite Hm1.
  - intros k t0 [= <-]. apply HR. cbn. by rewrite Hm1.
Qed.

Lemma not_exists_file t p f : exists_ t p = false -> file_at t p = Some f -> False.
Proof.
  unfold exists_, is_file, file_at. intros Ex Hf. destruct (t !! p) as [[]|]; try done.
  by rewrite orb_true_r in Ex.
Qed.

(** One file: when the replacement succeeds the new content is in place, and wherever it
    fails the old file is still there, in place or under the name of its backup. *)
Lemma wp_replace_file source destination g m :
  let backup := with_extension destination (str "previous") in
  source <> destination -> source <> backup -> backup <> destination ->
  strip_base destination source = None -> strip_base backup source = None ->
  file_at (files m) source = Some g ->
  wp (replace_file source destination) (fun _ m' => installed g destination (files m'))
    (fun m' => forall f, file_at (files m) destination = Some f -> kept f destination backup (files m')) False m.
Proof.
  intros backup Hsd Hsb Hbd Hnd Hnb Hg. unfold replace_file. fold backup.
  apply wp_bind, wp_create_parent; [|intros m' Hm' f Hf; left; by rewrite Hm'].
  intros m1 H1. apply wp_bind, wp_bind, wp_get, wp_ret. apply wp_bind.
  set (Mid m' := file_at (files m') source = Some g /\
         (forall f, file_at (files m) destination = Some f -> file_at (files m') backup = Some f)).
  cut (wp (if exists_ (files m1) destination
           then _ ← ignore (remove_file backup); rename destination backup else mret tt)
         (fun _ => Mid) (fun m' => forall f, file_at (files m) destination = Some f ->
            kept f destination backup (files m')) False m1).
  { intros H. eapply wp_mono; [exact H| |done|done]. intros [] m2 [Hs2 Hb2].
    apply wp_bind, (wp_copy _ _ g); [done| |intros m' Hm' f Hf; right; rewrite Hm' by done; eauto].
    intros m3 Hd3 Ho3. apply wp_bind. eapply wp_mono; [apply (wp_permissions g destination (fun m' => forall f,
      file_at (files m) destination = Some f -> kept f destination backup (files m')))| |done|done].
    - intros m' Hm' f Hf. right. rewrite Hm', Ho3 by done. eauto.
    - by exists g.
    - intros [] m4 [(f4 & Hf4 & Hc4) _]. apply wp_ignore_remove. intros m5 H5. exists f4. split; [|done].
      by rewrite H5. }
  destruct (exists_ (files m1) destination) eqn:Ex.
  - apply wp_bind, wp_ignore_remove. intros m2 H2. apply wp_rename.
    + intros m3 Hb Ha. split.
      * rewrite Ha; [by rewrite H2, H1|]. intros [[r Hr]|[r Hr]]; congruence.
      * intros f Hf. apply Hb. by rewrite H2, H1.
    + intros m3 H3 f Hf. left. by rewrite H3, H2, H1.
  - apply wp_ret. split; [by rewrite H1|]. intros f Hf. exfalso. rewrite <- H1 in Hf.
    by eapply not_exists_file.
Qed.

(** The supervisor itself, from a detached helper: the same, and a copy that could not be
    started is undone. *)
Lemma wp_replace_with_backup source destination backup g m :
  source <> destination -> source <> backup -> backup <> destination ->
  strip_base destination source = None -> strip_base backup source = None ->
  file_at (files m) source = Some g ->
  wp (replace_file_with_backup source destination backup)
    (fun _ m' => installed g destination (files m'))
    (fun m' => forall f, file_at (files m) destination = Some f -> kept f destination backup (files m')) False m.
Proof.
  intros Hsd Hsb Hbd Hnd Hnb Hg. unfold replace_file_with_backup.
  apply wp_bind, wp_ignore_remove. intros m1 H1. apply wp_bind, wp_bind, wp_get, wp_ret.
  set (there := exists_ (files m1) destination). apply wp_bind.
  set (Mid m' := file_at (files m') source = Some g /\
         (forall f, file_at (files m) destination = Some f -> file_at (files m') backup = Some f)).
  cut (wp (if there then rename destination backup else mret tt) (fun _ => Mid)
         (fun m' => forall f, file_at (files m) destination = Some f -> kept f destination backup (files m'))
         False m1).
  { intros H. eapply wp_mono; [exact H| |done|done]. intros [] m2 [Hs2 Hb2].
    apply wp_bind, wp_attempt, (wp_copy _ _ g); [done| |].
    - intros m3 Hd3 Ho3. apply wp_ignore_remove. intros m4 H4. exists g. split; [|done]. by rewrite H4.
    - intros m3 Ho3. apply wp_bind, wp_bind, wp_get, wp_ret. apply wp_bind, wp_bind, wp_get, wp_ret.
      assert (forall f, file_at (files m) destination = Some f -> file_at (files m3) backup = Some f) as Hb3
        by (intros f Hf; rewrite Ho3 by done; auto).
      apply wp_bind. match goal with |- wp (if ?b then _ else _) _ _ _ _ => destruct b end.
      + unfold ignore. apply wp_bind, wp_attempt, wp_rename.
        * intros m4 Hr _. apply wp_ret, wp_lift_safe; [done|done|]. intros f Hf. left. auto.
        * intros m4 H4. apply wp_ret, wp_lift_safe; [done|done|]. intros f Hf. right. rewrite H4. auto.
      + apply wp_ret, wp_lift_safe; [done|done|]. intros f Hf. right. auto. }
  subst there. destruct (exists_ (files m1) destination) eqn:Ex.
  - apply wp_rename.
    + intros m3 Hb Ha. split.
      * rewrite Ha; [by rewrite H1|]. intros [[r Hr]|[r Hr]]; congruence.
      * intros f Hf. apply Hb. by rewrite H1.
    + intros m3 H3 f Hf. left. by rewrite H3, H1.
  - apply wp_ret. split; [by rewrite H1|]. intros f Hf. exfalso. rewrite <- H1 in Hf by done.
    by eapply not_exists_file.
Qed.

(** The paths below the ones the replacement may touch. *)
Definition in_reach (install x p : path) : Prop :=
  Exists (fun s => is_Some (strip_base s p)) (touched install x).

Lemma in_reach_app install x s r : s ∈ touched install x -> in_reach install x (s ++ r).
Proof.
  intros Hs. apply Exists_exists. exists s. split; [done|]. apply below_dec. by exists r.
Qed.

Lemma in_reach_touched install x s : s ∈ touched install x -> in_reach install x s.
Proof. intros Hs. rewrite <- (app_nil_r s). by apply in_reach_app. Qed.

Lemma touched_elems install x name :
  path_name x = Some name ->
  install ++ x ∈ touched install x /\ backup_of install x ∈ touched install x /\
  pending_supervisor_path install name ∈ touched install x.
Proof. intros H. unfold touched. rewrite H. repeat split; set_solver. Qed.

Lemma frame_replace_entry t staging install x :
  keeps (agree (in_reach install x) t) (replace_entry staging install (staging ++ x)).
Proof.
  pose proof (agree_closed (in_reach install x) t) as HT.
  assert (forall a b, a ∈ touched install x -> b ∈ touched install x ->
            keeps (agree (in_reach install x) t) (rename a b)) as Hren.
  { intros a b Ha Hb. eapply keeps_rename; [done| |]; intros; by apply in_reach_app. }
  assert (forall a b, b ∈ touched install x -> keeps (agree (in_reach install x) t) (copy a b)) as Hcopy.
  { intros a b Hb. eapply keeps_copy; [done|]. intros. by apply in_reach_touched. }
  assert (forall a, a ∈ touched install x ->
            keeps (agree (in_reach install x) t) (apply_platform_file_permissions a)) as Hperm.
  { intros a Ha. unfold apply_platform_file_permissions. repeat keeps_step. eapply keeps_set_mode; [done|].
    intros. by apply in_reach_touched. }
  unfold replace_entry. keeps_step; [keeps_step|].
  apply keeps_bind_lift; [apply ok_or_safe|]. intros r Hr%ok_or_ok_inv%strip_base_app%app_inv_head. subst r.
  apply keeps_bind_lift; [apply ok_or_safe|]. intros name Hname%ok_or_ok_inv.
  destruct (touched_elems install x name Hname) as (H1 & H2 & H3).
  unfold backup_of in H2. rewrite Hname in H2.
  unfold replace_self_file, replace_file, replace_file_with_backup, path_exists, create_parent.
  destruct (is_supervisor_self_file name); repeat keeps_step;
    first [apply Hren|apply Hcopy|apply Hperm|apply in_reach_touched]; done.
Qed.

(** The file an entry replaces: installed when the entry succeeds, and otherwise kept (or
    already installed).  The running supervisor stays. *)
Lemma wp_replace_entry staging install x g m :
  x <> [] -> ~ in_reach install x (staging ++ x) -> backup_of install x <> install ++ x ->
  file_at (files m) (staging ++ x) = Some g -> left_pending install x = false ->
  wp (replace_entry staging install (staging ++ x)) (fun _ m' => installed g (install ++ x) (files m'))
    (fun m' => forall f, file_at (files m) (install ++ x) = Some f ->
       kept f (install ++ x) (backup_of install x) (files m') \/ installed g (install ++ x) (files m')) False m.
Proof.
  intros Hx Hfar Hbd Hg Hrun. unfold replace_entry.
  apply wp_bind, wp_untouched; [|intros m' Hm' f Hf; left; left; by rewrite Hm'].
  intros m1 H1. apply wp_bind, wp_lift_safe; [apply ok_or_safe| |intros f Hf; left; left; by rewrite H1].
  intros r Hr%ok_or_ok_inv%strip_base_app%app_inv_head. subst r.
  apply wp_bind, wp_lift_safe; [apply ok_or_safe| |intros f Hf; left; left; by rewrite H1].
  intros name Hname%ok_or_ok_inv. destruct (touched_elems install x name Hname) as (Ht1 & Ht2 & _).
  assert (forall s, s ∈ touched install x -> staging ++ x <> s /\ strip_base s (staging ++ x) = None) as Hap.
  { intros s Hs. split; [intros E; apply Hfar; rewrite E; by apply in_reach_touched|].
    apply eq_None_not_Some. intros [r Hr]. apply strip_base_app in Hr. apply Hfar. rewrite Hr. by apply in_reach_app. }
  destruct (Hap _ Ht1) as [? ?], (Hap _ Ht2) as [? ?]. rewrite <- H1 in Hg |- *.
  unfold backup_of, left_pending in *. rewrite Hname in *. destruct (is_supervisor_self_file name).
  - cbn in Hrun. unfold replace_self_file. rewrite Hrun. apply wp_bind.
    eapply wp_mono; [by apply (wp_replace_with_backup _ _ _ g)| |by intros m' Hk f Hf; left; apply Hk|done].
    intros [] m2 Hm2. eapply wp_mono; [apply (wp_permissions g _ (fun m' => installed g (install ++ x) (files m')))
      | |by intros m' Hi f _; right|done]; [by intros m' ->|done|by intros [] m' [? _]].
  - eapply wp_mono; [by apply (wp_replace_file _ _ g)|done|by intros m' Hk f Hf; left; apply Hk|done].
Qed.

Lemma self_not_pending install x :
  left_pending install x = true -> pending_supervisor_path install (default [] (path_name x)) <> install ++ x.
Proof.
  unfold left_pending, pending_supervisor_path. destruct (path_name x) as [name|] eqn:Hx; [|done]. cbn [default].
  intros [Hs _]%andb_true_iff Hp%app_inv_head. rewrite <- Hp in Hx. unfold path_name, id in Hx. clear Hp.
  destruct (Apply.eq_ignore_ascii_case name LEGACY_SUPERVISOR_FILE_NAME);
    injection Hx as <-; by vm_compute in Hs.
Qed.

(** The running supervisor is not touched. *)
Lemma keeps_left_pending staging install x v :
  left_pending install x = true ->
  keeps (fun t => file_at t (install ++ x) = v) (replace_entry staging install (staging ++ x)).
Proof.
  intros Hrun. pose proof (self_not_pending install x Hrun) as Hne.
  set (T t := file_at t (install ++ x) = v).
  assert (closed (fun p => p <> install ++ x) (fun p _ => p <> install ++ x) T) as HT.
  { intros t t' Ht Hc. unfold T. destruct (Hc (install ++ x)) as [->|[[_ []]|(? & _ & [])]]; done. }
  unfold replace_entry. keeps_step; [keeps_step|].
  apply keeps_bind_lift; [apply ok_or_safe|]. intros r Hr%ok_or_ok_inv%strip_base_app%app_inv_head. subst r.
  apply keeps_bind_lift; [apply ok_or_safe|]. intros name Hname%ok_or_ok_inv.
  unfold left_pending in Hrun. rewrite Hname in Hrun, Hne. apply andb_true_iff in Hrun as [-> Hr].
  unfold replace_self_file. rewrite Hr. keeps_step; [by eapply keeps_copy|].
  unfold apply_platform_file_permissions. repeat keeps_step. by eapply keeps_set_mode.
Qed.

(** The other entries do not touch a file out of their reach. *)
Lemma keeps_out_of_reach staging install x p v :
  ~ in_reach install x p ->
  keeps (fun t => file_at t p = v) (replace_entry staging install (staging ++ x)).
Proof.
  intros Hp m Hm. eapply wp_mono; [apply (frame_replace_entry (files m)); by intros ? _| | |done].
  - intros a m' Ha. by rewrite Ha.
  - intros m' Ha. by rewrite Ha.
Qed.

Lemma keeps_others staging install l p v :
  (forall s, s ∈ l -> exists x, s = staging ++ x /\ ~ in_reach install x p) ->
  keeps (fun t => file_at t p = v) (for_each (replace_entry staging install) l).
Proof.
  intros Hl. apply keeping_for_each. intros s Hs. destruct (Hl s Hs) as (x & -> & Hx).
  by apply keeps_out_of_reach.
Qed.

Lemma for_each_app {T} (f : T -> M unit) l1 l2 m :
  for_each f (l1 ++ l2) m = (_ ← for_each f l1; for_each f l2) m.
Proof.
  revert m; induction l1 as [|a l1 IH]; intros m; [done|]. cbn [app for_each].
  unfold mbind, method_bind in *. by destruct (f a m) as [m' []].
Qed.
End entry.

Section contents.
Context {A : Archives} {AL : ArchivesLaws A} {P : Process}.
Implicit Types (m : Machine).

Definition staged (staging : path) (t : tree) (x : path) : Prop := is_Some (file_at t (staging ++ x)).

Lemma files_below_staged staging t s :
  s ∈ files_below staging t -> exists x, s = staging ++ x /\ staged staging t x.
Proof.
  intros Hs. destruct (files_below_inv _ _ _ Hs) as [x ->]. exists x. split; [done|].
  unfold files_below in Hs. apply list_elem_of_omap in Hs as ([q n] & Hin & Hq). destruct n; simplify_eq.
  apply elem_of_map_to_list in Hin. unfold below in Hin. apply map_lookup_filter_Some in Hin as [Hin _].
  unfold staged, file_at. rewrite Hin. by eexists.
Qed.

Lemma files_below_nodup p t : NoDup (files_below p t).
Proof.
  unfold files_below. generalize (NoDup_fst_map_to_list (below p t)).
  induction (map_to_list (below p t)) as [|[q n] l IH]; cbn; [constructor|].
  intros [Hq Hl]%NoDup_cons. destruct n; [|by apply IH]. apply NoDup_cons. split; [|by apply IH].
  intros ([q' n'] & Hin & Hq')%list_elem_of_omap. destruct n'; simplify_eq. apply Hq.
  apply list_elem_of_fmap. by exists (q, File f0).
Qed.

Section file.
Context (staging install q : path) (m : Machine).
Context (Hsources : forall x x', staged staging (files m) x -> staged staging (files m) x' ->
           ~ in_reach install x (staging ++ x')).
Context (Hothers : forall x, staged staging (files m) x -> x <> q -> ~ in_reach install x (install ++ q)).

(** The file after a run that succeeds, and after one that fails. *)
Definition in_place (m' : Machine) : Prop :=
  (forall f, file_at (files m) (install ++ q) = Some f ->
     file_at (files m') (install ++ q) = Some f \/
     exists g, file_at (files m) (staging ++ q) = Some g /\ installed g (install ++ q) (files m')) /\
  (forall g, file_at (files m) (staging ++ q) = Some g -> left_pending install q = false ->
     installed g (install ++ q) (files m')).
Definition not_lost (m' : Machine) : Prop :=
  forall f, file_at (files m) (install ++ q) = Some f ->
    kept f (install ++ q) (backup_of install q) (files m') \/
    exists g, file_at (files m) (staging ++ q) = Some g /\ installed g (install ++ q) (files m').

Lemma wp_other_entries l m0 v :
  (forall s, s ∈ l -> exists x, s = staging ++ x /\ staged staging (files m) x /\ x <> q) ->
  file_at (files m0) (install ++ q) = v ->
  wp (for_each (replace_entry staging install) l) (fun _ m' => file_at (files m') (install ++ q) = v)
    (fun m' => file_at (files m') (install ++ q) = v) False m0.
Proof.
  intros Hl Hv. apply (keeps_others staging install l (install ++ q) v); [|done].
  intros s Hs. destruct (Hl s Hs) as (x & -> & Hx & Hne). exists x. auto.
Qed.

Lemma wp_and {T} (op : M T) (Q Q' : T -> Machine -> Prop) R R' m0 :
  wp op Q R False m0 -> wp op Q' R' False m0 ->
  wp op (fun a m' => Q a m' /\ Q' a m') (fun m' => R m' /\ R' m') False m0.
Proof. unfold wp. by destruct (op m0) as [m' []]. Qed.

Definition other (s : path) : Prop := exists x, s = staging ++ x /\ staged staging (files m) x /\ x <> q.

Lemma wp_own_entry g m0 :
  q <> [] -> backup_of install q <> install ++ q -> file_at (files m) (staging ++ q) = Some g ->
  file_at (files m0) (staging ++ q) = Some g ->
  file_at (files m0) (install ++ q) = file_at (files m) (install ++ q) ->
  wp (replace_entry staging install (staging ++ q)) (fun _ m' => in_place m') not_lost False m0.
Proof.
  intros Hq Hb Hg Hg0 Hd0. destruct (left_pending install q) eqn:Hrun.
  - eapply wp_mono; [by apply (keeps_left_pending staging install q _ Hrun m0 Hd0)| | |done].
    + intros [] m' Hm'. split; [|congruence]. intros f Hf. left. congruence.
    + intros m' Hm' f Hf. left. left. congruence.
  - eapply wp_mono; [apply (wp_replace_entry staging install q g)| | |done]; [done| |done|done|done| |].
    + apply Hsources; by exists g.
    + intros [] m' Hm'. split; [intros f Hf; right; eauto|]. intros g' Hg' _. by simplify_eq.
    + intros m' Hm' f Hf. rewrite Hd0 in Hm'. destruct (Hm' f Hf); [by left|right; eauto].
Qed.

Lemma wp_all_entries l1 l2 :
  q <> [] -> backup_of install q <> install ++ q -> staged staging (files m) q ->
  (forall s, s ∈ l1 -> other s) -> (forall s, s ∈ l2 -> other s) ->
  wp (for_each (replace_entry staging install) (l1 ++ (staging ++ q) :: l2))
    (fun _ m' => in_place m') not_lost False m.
Proof.
  intros Hq Hb [g Hg] Hl1 Hl2. unfold wp. rewrite for_each_app.
  cut (wp (_ ← for_each (replace_entry staging install) l1;
           for_each (replace_entry staging install) ((staging ++ q) :: l2))
         (fun _ m' => in_place m') not_lost False m); [done|].
  apply wp_bind. eapply wp_mono; [apply wp_and; [exact (wp_other_entries l1 m _ Hl1 eq_refl)|]| | |done].
  { apply (keeps_others staging install l1 (staging ++ q) (Some g)); [|done]. intros s Hs.
    destruct (Hl1 s Hs) as (x & -> & Hx & _). exists x. split; [done|]. apply Hsources; [done|by exists g]. }
  - intros [] m1 [Hd1 Hs1]. cbn [for_each]. apply wp_bind.
    eapply wp_mono; [by apply (wp_own_entry g)| |done|done]. intros [] m2 [Ho2 Hi2].
    eapply wp_mono; [exact (wp_other_entries l2 m2 _ Hl2 eq_refl)| | |done].
    + intros [] m3 H3. split; [intros f Hf; destruct (Ho2 f Hf) as [E|(g' & Hg' & Hin)]|intros g' Hg' Hr].
      * left. congruence.
      * right. exists g'. split; [done|]. unfold installed. by rewrite H3.
      * unfold installed. rewrite H3. by apply Hi2.
    + intros m3 H3 f Hf. destruct (Ho2 f Hf) as [E|(g' & Hg' & Hin)]; [left; left; congruence|].
      right. exists g'. split; [done|]. unfold installed. by rewrite H3.
  - intros m1 [Hd1 _] f Hf. left. left. congruence.
Qed.

Lemma wp_replace_directory_contents :
  q <> [] -> backup_of install q <> install ++ q ->
  wp (replace_directory_contents staging install) (fun _ m' => in_place m') not_lost False m.
Proof.
  intros Hq Hb. apply wp_bind, wp_get. set (l := walk_order (files_below staging (files m))).
  assert (Permutation l (files_below staging (files m))) as Hperm by apply walk_permutation.
  assert (NoDup l) as Hnd by (rewrite Hperm; apply files_below_nodup).
  assert (forall s, s ∈ l -> s <> staging ++ q -> other s) as Hl.
  { intros s Hs Hne. rewrite Hperm in Hs. apply files_below_staged in Hs as (x & -> & Hx).
    exists x. split; [done|]. split; [done|]. by intros ->. }
  destruct (decide (staging ++ q ∈ l)) as [Hin|Hout].
  - assert (staged staging (files m) q) as Hst.
    { rewrite Hperm in Hin. apply files_below_staged in Hin as (x & E%app_inv_head & Hx). by subst x. }
    apply list_elem_of_split in Hin as (l1 & l2 & E). rewrite E in *.
    apply NoDup_app in Hnd as (_ & Hd & [Hn2 _]%NoDup_cons). apply wp_all_entries; [done|done|done| |].
    + intros s Hs. apply Hl; [set_solver|]. intros ->. apply (Hd _ Hs). set_solver.
    + intros s Hs. apply Hl; [set_solver|]. by intros ->.
  - assert (file_at (files m) (staging ++ q) = None) as Hnone.
    { apply eq_None_not_Some. intros [g Hg]. apply Hout. rewrite Hperm. by eapply files_below_elem. }
    eapply wp_mono; [apply (wp_other_entries l m (file_at (files m) (install ++ q))); [|done]| | |done].
    + intros s Hs. apply Hl; [done|]. by intros ->.
    + intros [] m' Hm'. split; [|congruence]. intros f Hf. left. congruence.
    + intros m' Hm' f Hf. left. left. congruence.
Qed.
End file.

(** C12. The staged files replace the installed ones one at a time, and any of the operations on
    files can fail.  A file that was installed is afterwards the same, or has the complete
    content of the staged file, or, when the replacement failed, is still there under the
    name of its backup; when the replacement succeeds, every staged file but a running
    supervisor is installed with its complete content.  (The file is not itself named like a
    backup, and the package has no two members of which one is in the way of the other.) *)
Theorem installed_or_kept staging install q m m' r :
  (forall x x', staged staging (files m) x -> staged staging (files m) x' ->
     ~ in_reach install x (staging ++ x')) ->
  (forall x, staged staging (files m) x -> x <> q -> ~ in_reach install x (install ++ q)) ->
  q <> [] -> backup_of install q <> install ++ q ->
  replace_directory_contents staging install m = (m', r) ->
  safe r /\
  (forall f, file_at (files m) (install ++ q) = Some f ->
     file_at (files m') (install ++ q) = Some f \/
     (exists g, file_at (files m) (staging ++ q) = Some g /\ installed g (install ++ q) (files m')) \/
     (r <> Ok tt /\ file_at (files m') (backup_of install q) = Some f)) /\
  (r = Ok tt -> forall g, file_at (files m) (staging ++ q) = Some g -> left_pending install q = false ->
     installed g (install ++ q) (files m')).
Proof.
  intros H1 H2 Hq Hb Hrun. pose proof (wp_replace_directory_contents staging install q m H1 H2 Hq Hb) as H.
  unfold wp in H. rewrite Hrun in H. destruct r as [[]|e| |]; try done.
  - destruct H as [Ho Hi]. split; [done|]. split; [|done]. intros f Hf. destruct (Ho f Hf); auto.
  - split; [done|]. split; [|done]. intros f Hf. destruct (H f Hf) as [[]|]; auto.
Qed.
End contents.

(** ** Samples *)

Section samples.
Import SampleUpdate.

Definition staging_dir : path := worker_dir ++ [str "_update_staging"].
Definition new_worker : path := [str "talos_worker"].

(** The disk is full when the new worker is copied. *)
Definition full_disk : Machine :=
  {| files := <[staging_dir ++ new_worker := a_file [7; 7]]> (<[staging_dir := Dir]> sample_files);
     faults := [None; None; None; None; Some 2%nat]; answers := []; requests := []; outputs := [];
     commands := []; clock := 0 |}.

Lemma full_disk_staged x : staged staging_dir (files full_disk) x -> x = new_worker.
Proof.
  intros [f Hf%files_below_elem].
  assert (files_below staging_dir (files full_disk) = [staging_dir ++ new_worker]) as E
    by (vm_compute; reflexivity).
  rewrite E in Hf. apply list_elem_of_singleton, app_inv_head in Hf. exact Hf.
Qed.

Definition full_disk_run : Machine * res anyhow unit :=
  replace_directory_contents staging_dir worker_dir full_disk.

(** The copy is cut off; the old worker is under the name of its backup. *)
Lemma installed_or_kept_witness :
  safe full_disk_run.2 /\ full_disk_run.2 <> Ok tt /\
  file_at (files full_disk_run.1) (worker_dir ++ new_worker) = Some {| content := [7]; mode := 493 |} /\
  file_at (files full_disk_run.1) (backup_of worker_dir new_worker) = Some {| content := [1]; mode := 493 |}.
Proof.
  assert (file_at (files full_disk_run.1) (worker_dir ++ new_worker) = Some {| content := [7]; mode := 493 |})
    as Hcut by (vm_compute; reflexivity).
  destruct (installed_or_kept staging_dir worker_dir new_worker full_disk full_disk_run.1 full_disk_run.2)
    as (Hsafe & Hkept & _).
  - intros x x' ->%full_disk_staged ->%full_disk_staged. by_evaluation.
  - intros x ->%full_disk_staged Hne. by destruct Hne.
  - by_evaluation.
  - by_evaluation.
  - exact (surjective_pairing full_disk_run).
  - split; [exact Hsafe|]. split; [vm_compute; discriminate|]. split; [exact Hcut|].
    assert (file_at (files full_disk) (worker_dir ++ new_worker) = Some {| content := [1]; mode := 493 |}) as Hold
      by (vm_compute; reflexivity).
    assert (file_at (files full_disk) (staging_dir ++ new_worker) = Some {| content := [7; 7]; mode := 493 |}) as Hnew
      by (vm_compute; reflexivity).
    destruct (Hkept _ Hold) as [H|[(g & Hg & f & Hf & Hc)|[_ H]]]; [congruence| |exact H].
    rewrite Hnew in Hg. rewrite Hcut in Hf. injection Hg as <-. injection Hf as <-. discriminate Hc.
Defined.

(** A supervisor [f] that runs from the directory it updates, and the copy of the new one [g]
    for the next start, which fails after [k] bytes. *)
Definition self_update (f g : file) (k : nat) : Machine :=
  let staging := supervisor_dir ++ [str "_update_staging"] in
  {| files := <[staging ++ [SUPERVISOR_FILE_NAME] := File g]>
                (<[supervisor_dir ++ [SUPERVISOR_FILE_NAME] := File f]> (<[staging := Dir]> sample_files));
     faults := [None; Some (S k)]; answers := []; requests := []; outputs := []; commands := []; clock := 0 |}.


(** The same disk while a package is applied: the service of the worker was stopped and is not
    started again. *)
Definition full_disk_package : Machine :=
  {| files := <[[str "var"; str "lib"; str "package.zip"] := a_file package_bytes]> sample_files;
     faults := replicate 9 None ++ [Some 0%nat]; answers := []; requests := [];
     outputs := [says "loaded"] ++ stopped; commands := []; clock := 0 |}.

Lemma failed_apply_leaves_service_stopped :
  let run := apply_update_package
    {| package_path := [str "var"; str "lib"; str "package.zip"]; install_dir := worker_dir;
       service_name := WORKER_SERVICE_NAME; target_version := None |} full_disk_package in
  run.2 = Err "copy"%string /\
  map (fun c => take 2 c.1) (commands run.1) =
    [[str "systemctl"; str "show"]; [str "systemctl"; str "stop"]; [str "systemctl"; str "show"];
     [str "systemctl"; str "is-active"]].
Proof. split; vm_compute; reflexivity. Qed.

(** The largest jitter that can be set divides by zero. *)
Lemma jitter_secs_panics nanos : jitter_secs nanos u64_max = Panic.
Proof. reflexivity. Qed.
End samples.
